(* ===== verification/_CoqProject ===== *)
-Q . S2P
Prelude.v
Utf8.v
Json.v
JsonTypes.v
UrlUtil.v
Http.v
WebSocket.v
MetaKV.v
Config.v
DBMaster.v
Store.v
Service.v
ByteOrder.v
SortSearch.v
BoltCursor.v
BoltTree.v
RaftBolt.v
BoltLife.v
CacheMaster.v
ConsistentHash.v
ShardMaster.v
Race.v
CacheNode.v
Client.v
ClientEnds.v
ClientSession.v
System.v
Bootstrap.v
Membership.v
CacheCluster.v
CachePool.v
Coordination.v
Log.v
Programs.v
Admin.v
