(* ===== verification/Prelude.v ===== *)
(** * oncekv: a verification development

    oncekv is a distributed key-value store in which a key is written once.
    Database nodes keep the pairs in a map replicated by raft; cache nodes
    form a groupcache cluster that reads from them; two masters keep the
    lists of both kinds of node in a metadata store (etcd) and drop the nodes
    that stop answering; a client reads through the caches and writes to the
    databases; an admin server shows the lists.  Go code is modelled by
    functions over explicit state, and wherever goroutines race by step
    relations; every definition follows the lines of the code that
    PROJECT.json maps it to.

    ** Conventions

    A Go string or byte slice is a [string] of bytes, an integer a [Z] with
    its width where it matters, a nil slice or map [None].  [result] is a
    value with an [error], [outcome] a computation that may panic; both are
    monads with stdpp's notations.  Package-level errors are [Sentinel]s,
    which are compared, errors made at a call [Fresh].  Log output, delays and
    the unlock of a mutex have no counterpart; a critical section is one step.

    ** Files

    - Prelude.v: the above, sorting, strings, lists, automation.
    - Utf8.v, Json.v, JsonTypes.v: what the program uses of unicode/utf8 and
      encoding/json.  The reader of JSON is a recursive descent with fuel, one
      more than twice the length of the text; [Json.pval_fuel] proves that
      more fuel never changes an answer.  Round trips hold up to [sanitize], which
      replaces invalid UTF-8 as the encoder does.
    - UrlUtil.v, Http.v, WebSocket.v, Log.v: utils/urlutil, and what net/url
      makes of the path of a URL with a key in it;
      utils/mock/http.go with gin's response writer, in which the first write
      fixes the status; the stats streams; log.
    - Config.v: config/config.go, errors.go: the record with its defaults and
      [config_init], the package's [init], with [path.Join] written out.
    - MetaKV.v: meta/meta.go, etcd.go and utils/mock/meta.go.  [MetaOps] is the
      interface, [MetaLaws] what its clients rely on; the mock and the etcd
      wrapper are instances.
    - DBMaster.v: db/master/master.go, key.go.  ShardMaster.v:
      db/master/shardmaster.go.  ConsistentHash.v: utils/consistenthash.
    - Store.v: db/node/store/store.go; the state machine [fsm_Apply],
      [fsm_Snapshot], [fsm_Restore], [fsmSnapshot_Persist] and the [Store]
      methods over the interface [RaftNode].
    - Service.v: db/node/service/service.go, response.go and
      utils/mock/store.go: handlers over the interface [StoreOps], [serve],
      joining and [Start].
    - SortSearch.v: Go's [sort.Search], for the ring and the cursors.
    - BoltCursor.v: the cursor, [Put] and [Get] of the vendored bolt, within a
      transaction, on the page tree of a bucket.  BoltTree.v: what they do to
      the map a bucket holds.
    - ByteOrder.v, RaftBolt.v: raftboltdb/util.go, bolt_store.go over these
      buckets; the file ([Database]) is a parameter with laws.  BoltLife.v: the
      specification of a store and any sequence of calls and restarts.
    - CacheMaster.v: cache/master/master.go; [step] interleaves joins,
      heartbeat goroutines, database syncs and foreign writes.
    - Race.v: the first-answer race shared by cache/node/node.go
      ([tryAllDBFind]) and client/kv.go ([tryAllDBFind]).
    - CacheNode.v: cache/node/node.go over the interface [GroupCache], and
      utils/mock/rpccaller.go.
    - Client.v: client/client.go, kv.go; the two races with shared variables of
      their own ([set_step], [cache_step]).  ClientEnds.v: their termination.
      ClientSession.v: the life of a handle, [session_step].
    - Admin.v: admin/admin.go.  Programs.v: the main functions of example/.
    - System.v: database nodes, cache nodes and clients over one log; what a
      client or cache node gets is an answer a node of the cluster has given.
    - Bootstrap.v: nodes of Service.v on one metadata store, one joining
      another.  Membership.v: the life of such a cluster, [db_step], and with
      the store calls of updates and heartbeats interleaved, [overlap_step].
    - CacheCluster.v: the cache master and its nodes, [cluster_step], in which
      a node joins and begins to listen in separate steps.
      CachePool.v: [newPool] and whom a node asks for a key.
      Coordination.v: both clusters on one metadata store, [system_step].

    ** How the parts interact

    A database node's [Start] registers it, reads the list of DBMaster and
    posts to [handleJoin] of its peers; [updatePeers] then rewrites the list,
    and the heartbeat of DBMaster drops those that do not answer
    (Membership.v).  The cache master reads that list ([syncDBs]) and posts it
    with the node addresses to [handleMeta] of the cache nodes, from which a
    client and the nodes learn whom to ask (CacheCluster.v, Coordination.v).  A lookup goes
    from [KV_Get] to a cache node's [handleGetKey], to [group_Get],
    [fetchData] and [handleGet] of a database node; a write from [KV_Put] to
    [handleSet], [Store_Add], raft, and [fsm_Apply] on every node
    (System.v).

    ** What is shown

    - The cluster (System.v): all reads of a key agree, whatever caches,
      restarts, leaders and snapshots were involved and whatever the key; an
      acknowledged write stays; what a cache holds is what the leader would
      answer for the key its URL names, which is another than the key if that
      has bytes that mean something in a URL.  The
      invariant [coherent] is kept by every [cluster_step].  Also what the
      client may conclude from [KV_Put]'s nil error, and that a direct read
      of a database finds nothing.
    - Databases (Membership.v): as long as no leader stops with updates to do
      and no two updates or heartbeats overlap, a new node always comes up,
      and once no update is pending the list has every node that serves,
      after a heartbeat exactly those; in any case an undisturbed update and
      a heartbeat repair the list.  A stopped node can not come back, an update lists the
      stopped again, two updates that overlap lose a node, a leader that stops
      forgets whom it had yet to publish, and a list that becomes empty makes
      the next node found a second cluster.  A leader leads until it stops;
      then any member that serves may be elected while a majority is up.
    - Caches (CacheCluster.v, CachePool.v): after any life of the cluster in
      which the database list can be read and no removal is pending of a node
      between its join and its listening, two heartbeats give master, cache
      nodes and clients one view, the nodes that listen, and every key one
      owner.  What a restart during a removal, a post before the node listens
      and a join before the first post do.
    - Both (Coordination.v): from an empty store on, and under the conditions
      of the two, every cache node and client ends up with the databases that
      serve.
    - State machine: the first add of a key wins; a replica behind agrees with
      one ahead; snapshot and restore catch up; a log of commands the store
      issues never panics; [Persist] on every failure of its sink; the
      encoding of commands.
    - Service: the answers of every handler on every branch, and that no
      sequence of requests changes an entry.
    - Masters: memory and record agree under every interleaving; a heartbeat
      ends and keeps exactly the nodes that answer; [removeNodes]; what an
      unreadable store and a lost update do.
    - Races (Race.v, CacheNode.v, Client.v): in every interleaving of answers,
      timeouts and critical sections a result was given by a server for this
      key; when results are on offer; what the variable [err] that the
      goroutines of a write share does.  Each race ends, and leaves a
      goroutine blocked exactly if a timeout gave up a result.
    - Client (ClientSession.v): calls taken apart at their reads of the handle
      are [KV_Get] and [KV_Put] when undisturbed; disturbed or not they ask
      only servers a poll has listed, or the empty address.
    - Storage: from an empty file on, over any calls and restarts,
      bolt_store.go refines a map from index to entry and a map of settings,
      all or nothing; its loop that deletes at a cursor without repositioning
      it meets every entry, which bolt's documentation does not promise; byte order of keys is numeric order; the ring of consistenthash
      answers clockwise and moves items only to new keys; [Query] of the shard
      master.

    Hypotheses about code outside the repository are classes of laws, each
    with a concrete instance that the witnesses use: [MetaLaws]/[EtcdLaws],
    [RaftLogLaws] (a node's log of applied entries), [RaftMembersLaws] (the
    peer set), [DatabaseLaws] (the file of BoltDB), [GroupCacheLaws],
    [PeerRingLaws] (groupcache's ring names one of its peers), and the networks
    of System.v, Bootstrap.v and CacheCluster.v, which deliver what the modelled
    handlers have answered.

    ** Fuel and bounds

    [DeleteRange] takes the number of entries plus one turns, a cursor's
    [next] at most the number of pages, [sort.Search] the length of the
    slice, the JSON reader twice the length of the text plus one; each is
    proved to be enough. The races, which are step relations, are shown to
    end by measures that every step decreases. Indices of raft are 64-bit
    integers, an [int] of the client is one too, CRC-32 works on 32 bits.

    ** Not modelled

    - Of BoltDB the file, and what a commit does to the pages (rebalancing,
      spilling): a commit leaves some tree of pages that holds the contents.
      Nested buckets and the flags of elements, which raftboltdb has none of.
    - raft, groupcache, etcd, go-msgpack, gob, the websocket and the
      HTTP libraries: parameters, with the laws named above where a theorem
      needs one.  [url.Parse] in the HTTP doubles is a parameter too.
    - The wall clock: a timeout is a step that may come at any time, and a
      ticker a sequence of turns.
    - Data races in the sense of the Go memory model: a read or write of a
      shared variable is atomic.  The iteration of the cache master's
      heartbeat over the map that joins write is taken as of one moment.
    - In ClientSession.v an ask-everyone race of a call, once begun, is one
      step: its requests come before those of later steps.
    - How raft elects: in Membership.v a leader leads until it stops and any
      member that serves may follow it.  The life of two clusters beside each
      other is not followed beyond the founding of the second.
    - What configor makes of the file, the environment and the default tags:
      a parameter of [config_init].
    - Set-up of sockets and of the raft transport: each call may fail, its
      effect is not described.
    - The command line of the example programs and the JavaScript front end. *)
From stdpp Require Export base tactics option list strings gmap sorting relations numbers.
From stdpp Require Export pretty.
From Stdlib Require Export ZArith Lia.
From Stdlib Require Import Ascii.

Declare Scope oncekv_scope.
Delimit Scope oncekv_scope with oncekv.

(** ** Go error values, results and panics

    A Go [error] is compared by identity: a package-level variable such as
    [config.ErrDataNotFound] is one value, while [errors.New]/[fmt.Errorf]
    at a call site allocate a value that is equal to no variable. *)

Inductive goerror : Type :=
  | Sentinel (var : string)
  | Fresh (msg : string).

#[global] Instance goerror_eq_dec : EqDecision goerror.
Proof. solve_decision. Defined.

(** [(T, error)] where the value is used only when the error is nil. *)
Inductive result (A : Type) : Type :=
  | Ok (a : A)
  | Err (e : goerror).
Arguments Ok {_} _.
Arguments Err {_} _.

#[global] Instance result_eq_dec {A} `{EqDecision A} : EqDecision (result A).
Proof. solve_decision. Defined.

#[global] Instance result_ret : MRet result := fun _ a => Ok a.
#[global] Instance result_bind : MBind result := fun _ _ f r =>
  match r with Ok a => f a | Err e => Err e end.
#[global] Instance result_fmap : FMap result := fun _ _ f r =>
  match r with Ok a => Ok (f a) | Err e => Err e end.

(** A plain Go [error] result: [None] is nil. *)
Abbreviation error := (option goerror).

Definition result_error {A} (r : result A) : error :=
  match r with Ok _ => None | Err e => Some e end.

(** A computation that may panic. *)
Inductive outcome (A : Type) : Type :=
  | Ret (a : A)
  | Panic (msg : string).
Arguments Ret {_} _.
Arguments Panic {_} _.

#[global] Instance outcome_ret : MRet outcome := fun _ a => Ret a.
#[global] Instance outcome_bind : MBind outcome := fun _ _ f r =>
  match r with Ret a => f a | Panic m => Panic m end.
#[global] Instance outcome_fmap : FMap outcome := fun _ _ f r =>
  match r with Ret a => Ret (f a) | Panic m => Panic m end.

(** Runs the binds whose first computation is known. *)
Ltac run_bind := cbn [mbind outcome_bind].

Definition is_Ret {A} (o : outcome A) : Prop :=
  match o with Ret _ => True | Panic _ => False end.

(** [err == v] for a package-level error variable [v]. *)
Definition err_is (e : goerror) (v : goerror) : bool := bool_decide (e = v).

Notation "e '==e' v" := (err_is e v) (at level 70) : oncekv_scope.
Open Scope oncekv_scope.

Lemma err_is_true e v : (e ==e v) = true <-> e = v.
Proof. apply bool_decide_eq_true. Qed.

Lemma err_is_false e v : (e ==e v) = false <-> e <> v.
Proof. apply bool_decide_eq_false. Qed.

Lemma err_is_refl e : (e ==e e) = true.
Proof. by apply err_is_true. Qed.

(** ** Slices and maps with their nil value

    [None] is the nil slice (map); [reflect.DeepEqual] tells it from the
    empty one and [encoding/json] prints it as [null]. *)

Abbreviation slice A := (option (list A)).
Definition elems {A} (s : slice A) : list A := default [] s.

Abbreviation gomap V := (option (gmap string V)).
Definition entries {V} (m : gomap V) : gmap string V := default ∅ m.

(** [m[k] = v] panics on a nil map. *)
Definition map_assign {V} (m : gomap V) (k : string) (v : V) : outcome (gomap V) :=
  match m with
  | Some g => Ret (Some (<[k := v]> g))
  | None => Panic "assignment to entry in nil map"
  end.

(** [m[k]] and the two-value form read a nil map as empty; a missing key
    reads as the zero value. *)
Definition map_get (m : gomap string) (k : string) : string :=
  default ""%stdpp (entries m !! k).

(** ** Sorting strings: [sort.StringSlice(l).Sort()] *)

Definition sort_strings (l : list string) : list string :=
  merge_sort String.le l.

Lemma sort_strings_perm l : sort_strings l ≡ₚ l.
Proof. apply merge_sort_Permutation. Qed.

Lemma sort_strings_sorted l : StronglySorted String.le (sort_strings l).
Proof. apply (StronglySorted_merge_sort _). Qed.

(** The facts about sorted lists, maps and prefixes that close side goals. *)
Create HintDb oncekv.
#[export] Hint Resolve sort_strings_perm sort_strings_sorted : oncekv.

Lemma sort_strings_unique l l' :
  StronglySorted String.le l' -> l' ≡ₚ l -> l' = sort_strings l.
Proof.
  intros Hs Hp. apply (StronglySorted_unique String.le); [done|apply sort_strings_sorted|].
  by rewrite sort_strings_perm.
Qed.

#[global] Instance sort_strings_proper : Proper ((≡ₚ) ==> (=)) sort_strings.
Proof.
  intros l1 l2 Hp. apply sort_strings_unique; [apply sort_strings_sorted|].
  by rewrite sort_strings_perm.
Qed.

Lemma sort_strings_idemp l : sort_strings (sort_strings l) = sort_strings l.
Proof. by rewrite (sort_strings_proper _ _ (sort_strings_perm l)). Qed.

Lemma sort_strings_id l : StronglySorted String.le l -> sort_strings l = l.
Proof. intros Hs. symmetry. by apply sort_strings_unique. Qed.

Lemma elem_of_sort_strings x l : x ∈ sort_strings l <-> x ∈ l.
Proof. by rewrite sort_strings_perm. Qed.

Lemma length_sort_strings l : length (sort_strings l) = length l.
Proof. by rewrite sort_strings_perm. Qed.

Lemma sort_strings_nil_iff l : sort_strings l = [] <-> l = [].
Proof. rewrite <-!length_zero_iff_nil, length_sort_strings. done. Qed.

(** ** String helpers: package strings *)

Definition HasPrefix (s pre : string) : bool := String.prefix pre s.

(** [strings.HasSuffix]: [len(s) >= len(suf) && s[len(s)-len(suf):] == suf]. *)
Definition HasSuffix (s suf : string) : bool :=
  (String.length suf <=? String.length s) &&
  bool_decide (String.substring (String.length s - String.length suf) (String.length suf) s = suf).

(** [strings.TrimSuffix]: [s[:len(s)-len(suf)]] when [suf] is a suffix. *)
Definition TrimSuffix (s suf : string) : string :=
  if HasSuffix s suf then String.substring 0 (String.length s - String.length suf) s else s.

Lemma sapp_cons a s t : String a s +:+ t = String a (s +:+ t).
Proof. done. Qed.

Lemma sapp_nil s : "" +:+ s = s.
Proof. done. Qed.

Lemma sapp_nil_r s : s +:+ "" = s.
Proof. induction s as [|a s IH]; [done|]. by rewrite sapp_cons, IH. Qed.

Lemma sapp_assoc (a b c : string) : a +:+ (b +:+ c) = (a +:+ b) +:+ c.
Proof. induction a as [|x a IH]; [done|]. by rewrite !sapp_cons, IH. Qed.

Lemma length_sapp s t : String.length (s +:+ t) = String.length s + String.length t.
Proof. induction s as [|a s IH]; [done|]. rewrite sapp_cons. cbn. by rewrite IH. Qed.

Lemma sapp_inj_r s t u : s +:+ u = t +:+ u -> s = t.
Proof.
  revert t. induction s as [|a s IH]; intros [|b t] H; [done| | |].
  - apply (f_equal String.length) in H. rewrite sapp_nil, sapp_cons in H. cbn in H.
    rewrite length_sapp in H. lia.
  - apply (f_equal String.length) in H. rewrite sapp_nil, sapp_cons in H. cbn in H.
    rewrite length_sapp in H. lia.
  - rewrite !sapp_cons in H. simplify_eq. f_equal. eauto.
Qed.

Lemma substring_full s : String.substring 0 (String.length s) s = s.
Proof. induction s as [|a s IH]; cbn; [done|by rewrite IH]. Qed.

Lemma substring_app_l s t : String.substring 0 (String.length s) (s +:+ t) = s.
Proof.
  induction s as [|a s IH]; [by destruct t|]. rewrite sapp_cons. cbn. by rewrite IH.
Qed.

Lemma substring_app_r s t : String.substring (String.length s) (String.length t) (s +:+ t) = t.
Proof. induction s as [|a s IH]; [apply substring_full|]. by rewrite sapp_cons. Qed.

Lemma substring_split n s :
  n <= String.length s ->
  String.substring 0 n s +:+ String.substring n (String.length s - n) s = s.
Proof.
  revert n. induction s as [|a s IH]; intros [|n] H; cbn in *; try lia; try done.
  - by rewrite substring_full.
  - rewrite sapp_cons, IH by lia. done.
Qed.

Lemma HasPrefix_true s pre : HasPrefix s pre = true <-> exists t, s = pre +:+ t.
Proof.
  unfold HasPrefix. revert s. induction pre as [|a pre IH]; intros s.
  - split; [by exists s|by destruct s].
  - destruct s as [|b s]; cbn; [split; [done|by intros (t & ?)]|].
    destruct (Ascii.ascii_dec a b) as [->|Hne]; [|split; [done|intros [t Ht]; rewrite sapp_cons in Ht; congruence]].
    rewrite IH. split; intros [t Ht]; exists t; [by rewrite Ht|].
    rewrite sapp_cons in Ht. by simplify_eq.
Qed.

Lemma HasPrefix_app pre t : HasPrefix (pre +:+ t) pre = true.
Proof. apply HasPrefix_true. by exists t. Qed.

#[export] Hint Resolve HasPrefix_app : oncekv.

Lemma HasSuffix_true s suf : HasSuffix s suf = true <-> exists t, s = t +:+ suf.
Proof.
  unfold HasSuffix. rewrite andb_true_iff, Nat.leb_le, bool_decide_eq_true. split.
  - intros [Hl Hs]. exists (String.substring 0 (String.length s - String.length suf) s).
    pose proof (substring_split (String.length s - String.length suf) s ltac:(lia)) as Hsp.
    replace (String.length s - (String.length s - String.length suf)) with (String.length suf) in Hsp by lia.
    by rewrite Hs in Hsp.
  - intros [t ->]. rewrite length_sapp. split; [lia|].
    replace (String.length t + String.length suf - String.length suf) with (String.length t) by lia.
    apply substring_app_r.
Qed.

Lemma TrimSuffix_app t suf : TrimSuffix (t +:+ suf) suf = t.
Proof.
  unfold TrimSuffix. assert (HasSuffix (t +:+ suf) suf = true) as -> by (apply HasSuffix_true; eauto).
  rewrite length_sapp.
  replace (String.length t + String.length suf - String.length suf) with (String.length t) by lia.
  apply substring_app_l.
Qed.

Lemma TrimSuffix_none s suf : HasSuffix s suf = false -> TrimSuffix s suf = s.
Proof. unfold TrimSuffix. by intros ->. Qed.

(** ** Lists *)

Lemma Forall_filter_sub {A} (P Q : A -> Prop) `{!forall x, Decision (Q x)} (l : list A) :
  Forall P l -> Forall P (filter Q l).
Proof.
  rewrite !Forall_forall. intros Hl x [_ Hx]%list_elem_of_filter. by apply Hl.
Qed.

Lemma filter_nothing {A} (P : A -> Prop) `{!forall x, Decision (P x)} (l : list A) :
  (forall x, x ∈ l -> ¬ P x) -> filter P l = [].
Proof.
  induction l as [|x l IH]; intros Hn; [done|].
  rewrite filter_cons, decide_False by (apply Hn; by left).
  apply IH. intros y Hy. apply Hn. by right.
Qed.

Lemma filter_everything {A} (P : A -> Prop) `{!forall x, Decision (P x)} (l : list A) :
  (forall x, x ∈ l -> P x) -> filter P l = l.
Proof.
  induction l as [|x l IH]; intros Hp; [done|].
  rewrite filter_cons, decide_True by (apply Hp; by left).
  f_equal. apply IH. intros y Hy. apply Hp. by right.
Qed.

Lemma filter_congr {A} (P Q : A -> Prop)
    `{!forall x, Decision (P x), !forall x, Decision (Q x)} (l : list A) :
  (forall x, x ∈ l -> P x <-> Q x) -> filter P l = filter Q l.
Proof.
  induction l as [|x l IH]; intros Hpq; [done|].
  rewrite !filter_cons, IH by (intros; apply Hpq; by right).
  specialize (Hpq x ltac:(by left)).
  by destruct (decide (P x)), (decide (Q x)); try tauto.
Qed.

Lemma list_filter_of_fmap {A B} (f : A -> B) (P : B -> Prop) `{!forall x, Decision (P x)} (l : list A) :
  filter P (f <$> l) = f <$> filter (fun x => P (f x)) l.
Proof.
  induction l as [|x l IH]; [done|]. rewrite fmap_cons, !filter_cons. destruct (decide (P (f x))); [|done].
  by rewrite IH, fmap_cons.
Qed.

Lemma StronglySorted_filter {A} (R : relation A) (P : A -> Prop)
    `{!forall x, Decision (P x)} (l : list A) :
  StronglySorted R l -> StronglySorted R (filter P l).
Proof.
  induction 1 as [|x l Hs IH Hx]; [constructor|]. rewrite filter_cons.
  destruct (decide (P x)); [|done]. constructor; [done|by apply Forall_filter_sub].
Qed.

(** Taking one element out of the middle of a list. *)
Lemma elem_of_middle {A} (x y : A) l1 l2 : x ∈ y :: l1 ++ l2 <-> x ∈ l1 ++ y :: l2.
Proof. rewrite !elem_of_cons, !elem_of_app, elem_of_cons. tauto. Qed.

(** ** Runs of a step relation

    A relation whose steps decrease a measure has no infinite run, and from
    every state a run to a state without a step. *)

Section measure.
Context {A : Type} (R : relation A) (size : A -> nat).
Hypothesis decreases : forall x y, R x y -> size y < size x.

Lemma measure_sn x : sn R x.
Proof.
  remember (size x) as n eqn:E. revert x E. induction n as [n IH] using lt_wf_ind.
  intros x ->. constructor. intros y Hy. eapply IH; [by apply decreases|done].
Qed.

Lemma measure_nsteps n x y : nsteps R n x y -> n + size y <= size x.
Proof. induction 1 as [|n x y z Hxy _ IH]; [done|]. apply decreases in Hxy. lia. Qed.

Lemma measure_ends (final : A -> Prop) `{!forall x, Decision (final x)} :
  (forall x, ¬ final x -> red R x) -> forall x, exists n y, nsteps R n x y /\ final y.
Proof.
  intros Hp x. induction (measure_sn x) as [x _ IH].
  destruct (decide (final x)) as [Hx|Hx]; [exists 0, x; by split; [constructor|]|].
  destruct (Hp x Hx) as [y Hy]. destruct (IH y Hy) as (n & z & Hz & Hf).
  exists (S n), z. by split; [econstructor|].
Qed.
End measure.
