(* ===== verification/Utf8.v ===== *)
(** * Go strings as UTF-8: package unicode/utf8

    Go strings and byte slices are byte sequences, here [string].  A string
    splits into runes: ASCII bytes, well-formed sequences of two to four
    bytes, and single invalid bytes.  [sanitize] replaces the invalid bytes
    by U+FFFD, which is what a trip through encoding/json does. *)
From S2P Require Import Prelude.
From Stdlib Require Import Ascii ZifyBool ZifyN.

(** ** Runes: utf8.DecodeRune *)

Definition byte_val (a : ascii) : N := N_of_ascii a.
Definition in_range (lo hi : N) (a : ascii) : bool :=
  (lo <=? byte_val a)%N && (byte_val a <=? hi)%N.

(** One step of decoding: an ASCII byte, a well-formed sequence of two to
    four bytes, or one invalid byte ([utf8.RuneError] of width 1). *)
Inductive rune : Type :=
  | Asc (a : ascii)
  | Multi (s : string)
  | Bad (a : ascii).

#[global] Instance rune_eq_dec : EqDecision rune.
Proof. solve_decision. Defined.

Definition cont (a : ascii) : bool := in_range 128 191 a.
Definition lead2 (a : ascii) : bool := in_range 194 223 a.
Definition lead3 (a b : ascii) : bool :=
  (in_range 224 224 a && in_range 160 191 b)
  || (in_range 237 237 a && in_range 128 159 b)
  || ((in_range 225 236 a || in_range 238 239 a) && cont b).
Definition lead4 (a b : ascii) : bool :=
  (in_range 240 240 a && in_range 144 191 b)
  || (in_range 244 244 a && in_range 128 143 b)
  || (in_range 241 243 a && cont b).

Definition is_ascii (a : ascii) : bool := (byte_val a <? 128)%N.

Fixpoint runes (s : string) : list rune :=
  match s with
  | EmptyString => []
  | String a s1 =>
    if is_ascii a then Asc a :: runes s1 else
    match s1 with
    | EmptyString => Bad a :: runes s1
    | String b s2 =>
      if lead2 a && cont b then Multi (String a (String b EmptyString)) :: runes s2 else
      match s2 with
      | EmptyString => Bad a :: runes s1
      | String c s3 =>
        if lead3 a b && cont c
        then Multi (String a (String b (String c EmptyString))) :: runes s3 else
        match s3 with
        | EmptyString => Bad a :: runes s1
        | String d s4 =>
          if lead4 a b && cont c && cont d
          then Multi (String a (String b (String c (String d EmptyString)))) :: runes s4
          else Bad a :: runes s1
        end
      end
    end
  end.

Definition rune_bytes (r : rune) : string :=
  match r with
  | Asc a | Bad a => String a EmptyString
  | Multi s => s
  end.

Fixpoint unrunes (l : list rune) : string :=
  match l with
  | [] => EmptyString
  | r :: l => rune_bytes r +:+ unrunes l
  end.

Definition rune_ok (r : rune) : bool :=
  match r with
  | Asc a => is_ascii a
  | Multi s => bool_decide (runes s = [Multi s])
  | Bad _ => false
  end.

(** [utf8.ValidString] *)
Definition valid_utf8 (s : string) : bool := forallb rune_ok (runes s).

(** The replacement character U+FFFD in UTF-8. *)
Definition fffd : string := String "239" (String "191" (String "189" EmptyString)).

Definition fix_rune (r : rune) : rune :=
  match r with Bad _ => Multi fffd | _ => r end.

(** What a JSON round trip makes of a Go string. *)
Definition sanitize (s : string) : string := unrunes (fix_rune <$> runes s).

Lemma unrunes_app l1 l2 : unrunes (l1 ++ l2) = unrunes l1 +:+ unrunes l2.
Proof.
  induction l1 as [|r l1 IH]; [done|]. cbn [unrunes app].
  change ((r :: l1) ++ l2) with (r :: (l1 ++ l2)). cbn [unrunes].
  by rewrite IH, sapp_assoc.
Qed.

(** Induction along the decoding steps. *)
Lemma string_len_ind (P : string -> Prop) :
  (forall s, (forall t, String.length t < String.length s -> P t) -> P s) -> forall s, P s.
Proof.
  intros H s. remember (String.length s) as n eqn:Hn.
  revert s Hn. induction (lt_wf n) as [n _ IH]. intros s ->.
  apply H. intros t Ht. by eapply IH.
Qed.

Ltac rune_cases :=
  repeat match goal with
  | |- context [if ?b then _ else _] => destruct b eqn:?
  | |- context [match ?s with EmptyString => _ | String _ _ => _ end] => destruct s
  end.

Lemma unrunes_runes s : unrunes (runes s) = s.
Proof.
  induction s as [s IH] using string_len_ind.
  destruct s as [|a s]; [done|]. cbn [runes].
  rune_cases; cbn [unrunes rune_bytes String.append];
    rewrite IH by (cbn [String.length]; lia); done.
Qed.

Lemma runes_cons_ok r s : rune_ok r = true -> runes (rune_bytes r +:+ s) = r :: runes s.
Proof.
  destruct r as [a|m|a]; cbn [rune_ok rune_bytes]; [| |done].
  - intros Ha. unfold String.append. cbn [runes]. by rewrite Ha.
  - intros Hm%bool_decide_eq_true. revert Hm.
    destruct m as [|a [|b [|c [|d m]]]]; unfold String.append; fold String.append;
      cbn [runes]; [done|..]; rune_cases; intros Hm; simplify_eq; try done.
    all: try (destruct s; done).
Qed.

Lemma runes_unrunes l : forallb rune_ok l = true -> runes (unrunes l) = l.
Proof.
  induction l as [|r l IH]; [done|]. cbn [forallb]. intros [Hr Hl]%andb_prop.
  cbn [unrunes]. by rewrite runes_cons_ok, IH.
Qed.

Lemma rune_ok_2 a b :
  is_ascii a = false -> lead2 a && cont b = true ->
  rune_ok (Multi (String a (String b EmptyString))) = true.
Proof. intros H1 H2. apply bool_decide_eq_true. cbn [runes]. by rewrite H1, H2. Qed.

Lemma rune_ok_3 a b c :
  is_ascii a = false -> lead2 a && cont b = false -> lead3 a b && cont c = true ->
  rune_ok (Multi (String a (String b (String c EmptyString)))) = true.
Proof. intros H1 H2 H3. apply bool_decide_eq_true. cbn [runes]. by rewrite H1, H2, H3. Qed.

Lemma rune_ok_4 a b c d :
  is_ascii a = false -> lead2 a && cont b = false -> lead3 a b && cont c = false ->
  lead4 a b && cont c && cont d = true ->
  rune_ok (Multi (String a (String b (String c (String d EmptyString))))) = true.
Proof. intros H1 H2 H3 H4. apply bool_decide_eq_true. cbn [runes]. by rewrite H1, H2, H3, H4. Qed.

Lemma rune_ok_fffd : rune_ok (Multi fffd) = true.
Proof. by vm_compute. Qed.

Create HintDb runes.
#[export] Hint Resolve rune_ok_2 rune_ok_3 rune_ok_4 rune_ok_fffd : runes.

Lemma runes_fix_ok s : forallb rune_ok (fix_rune <$> runes s) = true.
Proof.
  induction s as [s IH] using string_len_ind.
  destruct s as [|a s]; [done|]. cbn [runes].
  rune_cases; rewrite fmap_cons; cbn [forallb fix_rune];
    rewrite IH by (cbn [String.length]; lia); rewrite andb_true_r; auto with runes.
Qed.

Lemma runes_sanitize s : runes (sanitize s) = fix_rune <$> runes s.
Proof. apply runes_unrunes, runes_fix_ok. Qed.

Lemma sanitize_valid s : valid_utf8 (sanitize s) = true.
Proof. unfold valid_utf8. rewrite runes_sanitize. apply runes_fix_ok. Qed.

Lemma sanitize_id s : valid_utf8 s = true -> sanitize s = s.
Proof.
  intros Hv. unfold sanitize. rewrite <-(unrunes_runes s) at 2. f_equal.
  unfold valid_utf8 in Hv. induction (runes s) as [|r l IH]; [done|].
  cbn [forallb] in Hv. apply andb_prop in Hv as [Hr Hl].
  rewrite fmap_cons, IH by done. by destruct r.
Qed.

Lemma sanitize_idemp s : sanitize (sanitize s) = sanitize s.
Proof. apply sanitize_id, sanitize_valid. Qed.
