(* ===== verification/Json.v ===== *)
(** * encoding/json: the text format

    JSON values, [print_json] (Marshal, with the escapes of Go's encoder),
    and the recursive-descent reading of any text ([parse_all] for Unmarshal,
    [parse_first] for a Decoder).  [parse_all_print] is the round trip;
    [pval_fuel] shows that the parser's fuel never decides an answer. *)
From S2P Require Import Prelude Utf8.
From Stdlib Require Import Ascii.

(** ** JSON values *)

#[warnings="-register-all"]
Inductive json : Type :=
  | JNull
  | JBool (b : bool)
  | JNum (lit : string)
  | JStr (s : string)
  | JArr (l : list json)
  | JObj (l : list (string * json)).

Definition dquote : ascii := "034".
Definition backslash : ascii := "092".

(** *** Encoding: encodeState.string with escapeHTML *)

Definition hex_digit (n : N) : ascii :=
  match String.get (N.to_nat n) "0123456789abcdef" with Some a => a | None => "0"%char end.

Definition asc_list (s : string) : list rune := Asc <$> String.list_ascii_of_string s.

(** [htmlSafeSet]: printable ASCII but the quote, the backslash and [<>&]. *)
Definition html_safe (a : ascii) : bool :=
  (32 <=? byte_val a)%N &&
  negb (Ascii.eqb a dquote || Ascii.eqb a backslash ||
        Ascii.eqb a "<" || Ascii.eqb a ">" || Ascii.eqb a "&").

Definition enc_ascii (a : ascii) : list rune :=
  if html_safe a then [Asc a]
  else if Ascii.eqb a backslash || Ascii.eqb a dquote then [Asc backslash; Asc a]
  else if Ascii.eqb a "010" then [Asc backslash; Asc "n"]
  else if Ascii.eqb a "013" then [Asc backslash; Asc "r"]
  else if Ascii.eqb a "009" then [Asc backslash; Asc "t"]
  else Asc backslash :: asc_list "u00" ++
       [Asc (hex_digit (byte_val a / 16)); Asc (hex_digit (byte_val a mod 16))].

(** U+2028 and U+2029 in UTF-8. *)
Definition u2028 : string := String "226" (String "128" (String "168" EmptyString)).
Definition u2029 : string := String "226" (String "128" (String "169" EmptyString)).

Definition enc_rune (r : rune) : list rune :=
  match r with
  | Asc a => enc_ascii a
  | Multi m =>
    if String.eqb m u2028 then Asc backslash :: asc_list "u2028"
    else if String.eqb m u2029 then Asc backslash :: asc_list "u2029"
    else [Multi m]
  | Bad _ => Asc backslash :: asc_list "ufffd"
  end.

Definition quote_runes (s : string) : list rune :=
  Asc dquote :: (runes s ≫= enc_rune) ++ [Asc dquote].

Fixpoint intersperse {A} (sep : A) (l : list (list A)) : list A :=
  match l with
  | [] => []
  | [x] => x
  | x :: l => x ++ sep :: intersperse sep l
  end.

Fixpoint print_runes (j : json) : list rune :=
  match j with
  | JNull => asc_list "null"
  | JBool b => asc_list (if b then "true" else "false")
  | JNum lit => asc_list lit
  | JStr s => quote_runes s
  | JArr l => Asc "[" :: intersperse (Asc ",") (print_runes <$> l) ++ [Asc "]"]
  | JObj l =>
    Asc "{" ::
    intersperse (Asc ",") ((fun '(k, v) => quote_runes k ++ Asc ":" :: print_runes v) <$> l)
    ++ [Asc "}"]
  end.

(** [json.Marshal] of a value whose encoding is the tree [j]. *)
Definition print_json (j : json) : string := unrunes (print_runes j).

(** *** Decoding: string literals (unquoteBytes) *)

Definition hex_val (a : ascii) : option N :=
  let n := byte_val a in
  if in_range 48 57 a then Some (n - 48)%N
  else if in_range 97 102 a then Some (n - 87)%N
  else if in_range 65 70 a then Some (n - 55)%N
  else None.

Definition getu4 (a b c d : ascii) : option N :=
  a ← hex_val a; b ← hex_val b; c ← hex_val c; d ← hex_val d;
  Some (a * 4096 + b * 256 + c * 16 + d)%N.

(** [utf8.EncodeRune] of a code point that is no surrogate. *)
Definition utf8_encode (r : N) : string :=
  let b n := ascii_of_N n in
  if (r <? 128)%N then String (b r) EmptyString
  else if (r <? 2048)%N
  then String (b (192 + r / 64)%N) (String (b (128 + r mod 64)%N) EmptyString)
  else if (r <? 65536)%N
  then String (b (224 + r / 4096)%N)
         (String (b (128 + r / 64 mod 64)%N) (String (b (128 + r mod 64)%N) EmptyString))
  else String (b (240 + r / 262144)%N)
         (String (b (128 + r / 4096 mod 64)%N)
           (String (b (128 + r / 64 mod 64)%N) (String (b (128 + r mod 64)%N) EmptyString))).

Definition is_surrogate (r : N) : bool := (55296 <=? r)%N && (r <? 57344)%N.

(** [utf16.DecodeRune], [None] for [unicode.ReplacementChar]. *)
Definition utf16_pair (r1 r2 : N) : option N :=
  if (55296 <=? r1)%N && (r1 <? 56320)%N && (56320 <=? r2)%N && (r2 <? 57344)%N
  then Some ((r1 - 55296) * 1024 + (r2 - 56320) + 65536)%N else None.

Definition simple_escape (e : ascii) : option ascii :=
  if Ascii.eqb e dquote || Ascii.eqb e backslash || Ascii.eqb e "/" then Some e
  else if Ascii.eqb e "b" then Some "008"%char
  else if Ascii.eqb e "f" then Some "012"%char
  else if Ascii.eqb e "n" then Some "010"%char
  else if Ascii.eqb e "r" then Some "013"%char
  else if Ascii.eqb e "t" then Some "009"%char
  else None.

Definition emit (s : string) (r : option (string * list rune)) : option (string * list rune) :=
  '(t, l) ← r; Some (s +:+ t, l).

(** The rest of a string literal after its opening quote: its value and the
    input after the closing quote. *)
Fixpoint unquote (l : list rune) : option (string * list rune) :=
  match l with
  | [] => None
  | Multi m :: l' => emit m (unquote l')
  | Bad _ :: l' => emit fffd (unquote l')
  | Asc c :: l' =>
    if Ascii.eqb c dquote then Some (EmptyString, l')
    else if Ascii.eqb c backslash then
      match l' with
      | Asc e :: l2 =>
        match simple_escape e with
        | Some x => emit (String x EmptyString) (unquote l2)
        | None =>
          if Ascii.eqb e "u" then
            match l2 with
            | Asc h1 :: Asc h2 :: Asc h3 :: Asc h4 :: l3 =>
              match getu4 h1 h2 h3 h4 with
              | None => None
              | Some r =>
                if is_surrogate r then
                  match l3 with
                  | Asc s :: Asc u :: Asc g1 :: Asc g2 :: Asc g3 :: Asc g4 :: l4 =>
                    match (if Ascii.eqb s backslash && Ascii.eqb u "u"
                           then getu4 g1 g2 g3 g4 ≫= utf16_pair r else None) with
                    | Some rr => emit (utf8_encode rr) (unquote l4)
                    | None => emit fffd (unquote l3)
                    end
                  | _ => emit fffd (unquote l3)
                  end
                else emit (utf8_encode r) (unquote l3)
              end
            | _ => None
            end
          else None
        end
      | _ => None
      end
    else if (byte_val c <? 32)%N then None
    else emit (String c EmptyString) (unquote l')
  end.

Lemma unquote_emit_ascii a l :
  is_ascii a = true -> unquote (enc_ascii a ++ l) = emit (String a EmptyString) (unquote l).
Proof. destruct a as [[] [] [] [] [] [] [] []]; done. Qed.

Lemma unquote_emit_rune r l :
  rune_ok (fix_rune r) = true ->
  unquote (enc_rune r ++ l) = emit (rune_bytes (fix_rune r)) (unquote l).
Proof.
  destruct r as [a|m|a]; intros Hr; cbn [enc_rune fix_rune rune_bytes].
  - by apply unquote_emit_ascii.
  - destruct (String.eqb_spec m u2028) as [->|]; [done|].
    by destruct (String.eqb_spec m u2029) as [->|].
  - done.
Qed.

Lemma emit_emit a b r : emit a (emit b r) = emit (a +:+ b) r.
Proof. destruct r as [[t l]|]; [|done]. unfold emit. cbn. by rewrite sapp_assoc. Qed.

Lemma unquote_body rs l :
  forallb rune_ok (fix_rune <$> rs) = true ->
  unquote ((rs ≫= enc_rune) ++ Asc dquote :: l) = Some (unrunes (fix_rune <$> rs), l).
Proof.
  induction rs as [|r rs IH]; [done|].
  rewrite fmap_cons. cbn [forallb]. intros [Hr Hrs]%andb_prop.
  rewrite bind_cons, <-app_assoc, unquote_emit_rune, IH by done. done.
Qed.

(** The literal of [s] reads back as [sanitize s]. *)
Lemma unquote_quote s l :
  unquote ((runes s ≫= enc_rune) ++ Asc dquote :: l) = Some (sanitize s, l).
Proof. apply unquote_body, runes_fix_ok. Qed.

(** *** Decoding: values (the scanner's grammar) *)

Definition is_ws (r : rune) : bool :=
  match r with
  | Asc a => Ascii.eqb a " " || Ascii.eqb a "009" || Ascii.eqb a "010" || Ascii.eqb a "013"
  | _ => false
  end.

Fixpoint skip_ws (l : list rune) : list rune :=
  match l with
  | [] => []
  | r :: l' => if is_ws r then skip_ws l' else l
  end.

(** Drop the expected ASCII prefix. *)
Fixpoint expect (w : list rune) (l : list rune) : option (list rune) :=
  match w, l with
  | [], _ => Some l
  | r :: w', r' :: l' => if decide (r = r') then expect w' l' else None
  | _ :: _, [] => None
  end.

Definition is_digit (r : rune) : bool :=
  match r with Asc a => in_range 48 57 a | _ => false end.

(** Numbers: an optional minus sign, an integer part without leading zeros,
    an optional fraction, an optional exponent. *)
Fixpoint take_digits (l : list rune) : list rune * list rune :=
  match l with
  | r :: l' => if is_digit r then let '(ds, t) := take_digits l' in (r :: ds, t) else ([], l)
  | [] => ([], [])
  end.

Definition take_digits1 (l : list rune) : option (list rune * list rune) :=
  match take_digits l with ([], _) => None | p => Some p end.

Definition opt_char (f : ascii -> bool) (l : list rune) : list rune * list rune :=
  match l with
  | Asc a :: l' => if f a then ([Asc a], l') else ([], l)
  | _ => ([], l)
  end.

Definition take_int (l : list rune) : option (list rune * list rune) :=
  match l with
  | Asc a :: l' => if Ascii.eqb a "0" then Some ([Asc a], l') else take_digits1 l
  | _ => None
  end.

Definition take_frac (l : list rune) : option (list rune * list rune) :=
  match opt_char (Ascii.eqb ".") l with
  | ([], _) => Some ([], l)
  | (dot, l1) => '(ds, l2) ← take_digits1 l1; Some (dot ++ ds, l2)
  end.

Definition take_exp (l : list rune) : option (list rune * list rune) :=
  match opt_char (fun a => Ascii.eqb a "e" || Ascii.eqb a "E") l with
  | ([], _) => Some ([], l)
  | (e, l1) =>
    let '(sg, l2) := opt_char (fun a => Ascii.eqb a "+" || Ascii.eqb a "-") l1 in
    '(ds, l3) ← take_digits1 l2; Some (e ++ sg ++ ds, l3)
  end.

Definition pnum (l : list rune) : option (json * list rune) :=
  let '(m, l0) := opt_char (Ascii.eqb "-") l in
  '(i, l1) ← take_int l0;
  '(f, l2) ← take_frac l1;
  '(e, l3) ← take_exp l2;
  Some (JNum (unrunes (m ++ i ++ f ++ e)), l3).

(** The next character after white space, if it is ASCII. *)
Definition next_char (l : list rune) : option (ascii * list rune) :=
  match skip_ws l with Asc c :: t => Some (c, t) | _ => None end.

(** Values, the elements of an array after its bracket, the members of an
    object after its brace.  Every call is bounded by fuel. *)
Fixpoint pval (fuel : nat) (l : list rune) : option (json * list rune) :=
  match fuel with
  | O => None
  | S fuel =>
    '(c, l') ← next_char l;
    if Ascii.eqb c dquote then '(s, t) ← unquote l'; Some (JStr s, t)
    else if Ascii.eqb c "[" then
      '(c2, t) ← next_char l';
      if Ascii.eqb c2 "]" then Some (JArr [], t)
      else '(vs, t) ← pelems fuel l'; Some (JArr vs, t)
    else if Ascii.eqb c "{" then
      '(c2, t) ← next_char l';
      if Ascii.eqb c2 "}" then Some (JObj [], t)
      else '(kvs, t) ← pmembers fuel l'; Some (JObj kvs, t)
    else if Ascii.eqb c "t" then t ← expect (asc_list "rue") l'; Some (JBool true, t)
    else if Ascii.eqb c "f" then t ← expect (asc_list "alse") l'; Some (JBool false, t)
    else if Ascii.eqb c "n" then t ← expect (asc_list "ull") l'; Some (JNull, t)
    else pnum (Asc c :: l')
  end
with pelems (fuel : nat) (l : list rune) : option (list json * list rune) :=
  match fuel with
  | O => None
  | S fuel =>
    '(v, t) ← pval fuel l;
    '(c, t) ← next_char t;
    if Ascii.eqb c "," then '(vs, t) ← pelems fuel t; Some (v :: vs, t)
    else if Ascii.eqb c "]" then Some ([v], t)
    else None
  end
with pmembers (fuel : nat) (l : list rune) : option (list (string * json) * list rune) :=
  match fuel with
  | O => None
  | S fuel =>
    '(c, t) ← next_char l;
    if Ascii.eqb c dquote then
      '(k, t) ← unquote t;
      '(c, t) ← next_char t;
      if Ascii.eqb c ":" then
        '(v, t) ← pval fuel t;
        '(c, t) ← next_char t;
        if Ascii.eqb c "," then '(kvs, t) ← pmembers fuel t; Some ((k, v) :: kvs, t)
        else if Ascii.eqb c "}" then Some ([(k, v)], t)
        else None
      else None
    else None
  end.

Definition fuel_for (l : list rune) : nat := S (2 * length l).

(** [json.Unmarshal]'s reading: one value and nothing but white space after. *)
Definition parse_all (s : string) : option json :=
  let l := runes s in
  '(j, t) ← pval (fuel_for l) l;
  match skip_ws t with [] => Some j | _ => None end.

(** [json.NewDecoder(r).Decode]'s reading: the first value. *)
Definition parse_first (s : string) : option json :=
  let l := runes s in fst <$> pval (fuel_for l) l.

Example parse_ex1 :
  parse_all (unrunes (asc_list " {" ++ [Asc dquote; Asc "a"; Asc dquote] ++ asc_list " : [1, -2.5e3 , null,true]}  "))
  = Some (JObj [("a", JArr [JNum "1"; JNum "-2.5e3"; JNull; JBool true])]).
Proof. by vm_compute. Qed.
Example parse_ex2 : parse_all "[1,]" = None /\ parse_all "[] []" = None /\ parse_first "[] []" = Some (JArr []).
Proof. by vm_compute. Qed.
Example parse_ex3 : parse_all "01" = None /\ parse_all "" = None /\ parse_all "nul" = None.
Proof. by vm_compute. Qed.

(** *** The parser's fuel never decides an answer *)

Lemma skip_ws_le l : length (skip_ws l) <= length l.
Proof. induction l as [|r l IH]; cbn; [done|]. destruct (is_ws r); cbn; lia. Qed.

Lemma emit_Some s r p : emit s r = Some p -> exists t l, r = Some (t, l) /\ p = (s +:+ t, l).
Proof. destruct r as [[t l]|]; cbn; naive_solver. Qed.

Lemma unquote_lt l : forall s t, unquote l = Some (s, t) -> length t < length l.
Proof.
  assert (forall n l s t, length l <= n -> unquote l = Some (s, t) -> length t < length l) as H;
    [|eauto].
  clear l. induction n as [|n IH]; intros l s t Hn; [by destruct l; cbn in *; [|lia]|].
  destruct l as [|r l]; [done|]. cbn [length] in *.
  assert (forall w l' , length l' <= length l -> emit w (unquote l') = Some (s, t) ->
            length t < S (length l)) as Hemit.
  { intros w l' Hl (t0 & l0 & E & [= -> ->])%emit_Some. apply IH in E; lia. }
  cbn [unquote]. intros H.
  repeat first
    [ discriminate
    | progress simplify_eq
    | lia
    | solve [eapply Hemit; [|exact H]; cbn [length]; lia]
    | case_match ]; cbn [length] in *; try lia.
Qed.

Lemma expect_le w l t : expect w l = Some t -> length t <= length l.
Proof.
  revert l. induction w as [|r w IH]; intros [|r' l]; cbn; intros H; simplify_eq; cbn; try lia.
  destruct (decide (r = r')); [|done]. apply IH in H. lia.
Qed.

Lemma take_digits_le l : length (take_digits l).2 + length (take_digits l).1 = length l.
Proof.
  induction l as [|r l IH]; [done|]. cbn.
  destruct (is_digit r); [|cbn; lia]. destruct (take_digits l); cbn in *; lia.
Qed.

Lemma take_digits1_lt l ds t : take_digits1 l = Some (ds, t) -> length t < length l.
Proof.
  unfold take_digits1. pose proof (take_digits_le l).
  destruct (take_digits l) as [[|d ds'] t'] eqn:E; [done|].
  intros [= <- <-]. cbn in *. lia.
Qed.

Lemma opt_char_le f l : length (opt_char f l).2 <= length l.
Proof. destruct l as [|[] ?]; cbn; try lia. case_match; cbn; lia. Qed.

Lemma pnum_lt l j t : pnum l = Some (j, t) -> length t < length l.
Proof.
  unfold pnum. pose proof (opt_char_le (Ascii.eqb "-") l) as H0.
  destruct (opt_char (Ascii.eqb "-") l) as [m l0]. cbn in H0. intros H.
  destruct (take_int l0) as [[i l1]|] eqn:E1; [|done]. cbn in H.
  assert (length l1 < length l0) as H1.
  { unfold take_int in E1. destruct l0 as [|[a| |] l0']; try done.
    destruct (Ascii.eqb a "0"); [simplify_eq; cbn; lia|]. by apply take_digits1_lt in E1. }
  destruct (take_frac l1) as [[f l2]|] eqn:E2; [|done]. cbn in H.
  assert (length l2 <= length l1) as H2.
  { unfold take_frac in E2. pose proof (opt_char_le (Ascii.eqb ".") l1).
    destruct (opt_char (Ascii.eqb ".") l1) as [[|d dd] l']; simplify_eq; [lia|].
    cbn in *. destruct (take_digits1 l') as [[]|] eqn:E; cbn in E2; simplify_eq.
    apply take_digits1_lt in E. lia. }
  destruct (take_exp l2) as [[e l3]|] eqn:E3; [|done]. cbn in H. simplify_eq.
  unfold take_exp in E3.
  match type of E3 with context [opt_char ?f l2] => pose proof (opt_char_le f l2) end.
  destruct (opt_char _ l2) as [[|d dd] l'] eqn:Eo; simplify_eq; [cbn in *; lia|].
  match type of E3 with context [opt_char ?f l'] => pose proof (opt_char_le f l') end.
  destruct (opt_char _ l') as [sg l''].
  destruct (take_digits1 l'') as [[]|] eqn:E; cbn in *; simplify_eq.
  apply take_digits1_lt in E. lia.
Qed.

#[global] Arguments expect : simpl never.

Lemma next_char_lt l c t : next_char l = Some (c, t) -> length t < length l.
Proof.
  unfold next_char. pose proof (skip_ws_le l).
  destruct (skip_ws l) as [|[]]; try done. intros [= -> ->]. cbn in *. lia.
Qed.

(** Split an equation whose left side is a bind on its first step. *)
Ltac bind_inv H :=
  lazymatch type of H with
  | mbind _ ?m = Some _ =>
    let E := fresh "E" in
    let x := fresh "x" in
    destruct m as [x|] eqn:E; [|discriminate H]; try destruct x as [? ?]; cbn in H
  end.

(** Run a parser equation to its end, turning every step into a length fact. *)
Ltac run_parser tac :=
  repeat match goal with
  | H : mbind _ _ = Some _ |- _ => bind_inv H
  | H : (if ?b then _ else _) = Some _ |- _ => destruct b; try discriminate H
  | H : next_char _ = Some _ |- _ => apply next_char_lt in H
  | H : unquote _ = Some _ |- _ => apply unquote_lt in H
  | H : expect _ _ = Some _ |- _ => apply expect_le in H
  | H : pnum _ = Some _ |- _ => apply pnum_lt in H; cbn [length] in H
  | H : Some _ = Some _ |- _ => injection H; clear H; intros; subst
  | H : _ |- _ => tac H
  end.

Lemma parse_lt fuel :
  (forall l j t, pval fuel l = Some (j, t) -> length t < length l) /\
  (forall l vs t, pelems fuel l = Some (vs, t) -> length t < length l) /\
  (forall l kvs t, pmembers fuel l = Some (kvs, t) -> length t < length l).
Proof.
  induction fuel as [|fuel (IHv & IHe & IHm)]; [done|].
  split_and!; intros l x t H; cbn [pval pelems pmembers] in H;
    run_parser ltac:(fun H => first [apply IHv in H|apply IHe in H|apply IHm in H]);
    lia.
Qed.

Definition pval_lt fuel := proj1 (parse_lt fuel).
Definition pelems_lt fuel := proj1 (proj2 (parse_lt fuel)).
Definition pmembers_lt fuel := proj2 (proj2 (parse_lt fuel)).

Lemma bind_ext_Some {A B} (m : option A) (f g : A -> option B) :
  (forall x, m = Some x -> f x = g x) -> m ≫= f = m ≫= g.
Proof. destruct m; cbn; eauto. Qed.

(** With more fuel than twice the input, the answer is always the same. *)
Lemma parse_fuel f :
  (forall f' l, 2 * length l < f -> 2 * length l < f' -> pval f l = pval f' l) /\
  (forall f' l, 2 * length l + 1 < f -> 2 * length l + 1 < f' -> pelems f l = pelems f' l) /\
  (forall f' l, 2 * length l + 1 < f -> 2 * length l + 1 < f' -> pmembers f l = pmembers f' l).
Proof.
  induction f as [|f (IHv & IHe & IHm)]; [split_and!; lia|].
  split_and!; intros [|f'] l H H'; try lia; cbn [pval pelems pmembers];
  repeat (apply bind_ext_Some; intros [? ?] ?%next_char_lt || case_match);
  repeat match goal with
  | |- unquote _ ≫= _ = _ => apply bind_ext_Some; intros [? ?] ?%unquote_lt
  | |- next_char _ ≫= _ = _ => apply bind_ext_Some; intros [? ?] ?%next_char_lt
  | |- pval _ _ ≫= _ = _ =>
    rewrite (IHv f') by lia; apply bind_ext_Some; intros [? ?] ?%pval_lt
  | |- pelems _ _ ≫= _ = _ => rewrite (IHe f') by lia
  | |- pmembers _ _ ≫= _ = _ => rewrite (IHm f') by lia
  | |- context [if ?b then _ else _] => destruct b
  end; try reflexivity.
Qed.

Lemma pval_fuel f l : 2 * length l < f -> pval f l = pval (fuel_for l) l.
Proof. intros H. apply parse_fuel; unfold fuel_for; lia. Qed.

(** *** Decoding what was encoded *)

Section json_ind.
Variable P : json -> Prop.
Hypothesis Pnull : P JNull.
Hypothesis Pbool : forall b, P (JBool b).
Hypothesis Pnum : forall lit, P (JNum lit).
Hypothesis Pstr : forall s, P (JStr s).
Hypothesis Parr : forall l, Forall P l -> P (JArr l).
Hypothesis Pobj : forall l, Forall (fun kv => P kv.2) l -> P (JObj l).

(** Induction through the nested lists. *)
Fixpoint json_nested_ind (j : json) : P j :=
  match j with
  | JNull => Pnull
  | JBool b => Pbool b
  | JNum lit => Pnum lit
  | JStr s => Pstr s
  | JArr l =>
    Parr l ((fix go l : Forall P l :=
               match l with
               | [] => List.Forall_nil P
               | j :: l => @List.Forall_cons _ P j l (json_nested_ind j) (go l)
               end) l)
  | JObj l =>
    Pobj l ((fix go l : Forall (fun kv : string * json => P kv.2) l :=
               match l with
               | [] => List.Forall_nil (fun kv : string * json => P kv.2)
               | kv :: l => @List.Forall_cons _ (fun kv : string * json => P kv.2) kv l (json_nested_ind kv.2) (go l)
               end) l)
  end.
End json_ind.

(** The trees without numbers and booleans: what the program encodes. *)
Fixpoint textual (j : json) : bool :=
  match j with
  | JNull | JStr _ => true
  | JBool _ | JNum _ => false
  | JArr l => forallb textual l
  | JObj l => forallb (fun '(_, v) => textual v) l
  end.

Fixpoint sanitize_json (j : json) : json :=
  match j with
  | JStr s => JStr (sanitize s)
  | JArr l => JArr (sanitize_json <$> l)
  | JObj l => JObj ((fun '(k, v) => (sanitize k, sanitize_json v)) <$> l)
  | _ => j
  end.

Definition print_member (kv : string * json) : list rune :=
  quote_runes kv.1 ++ Asc ":" :: print_runes kv.2.

Lemma print_obj l :
  print_runes (JObj l)
  = Asc "{" :: intersperse (Asc ",") (print_member <$> l) ++ [Asc "}"].
Proof. cbn [print_runes]. do 2 f_equal. by apply f_equal, list_fmap_ext; intros ? []. Qed.

Lemma print_arr l :
  print_runes (JArr l)
  = Asc "[" :: intersperse (Asc ",") (print_runes <$> l) ++ [Asc "]"].
Proof. done. Qed.

Lemma intersperse_cons {A} (sep : A) x y l :
  intersperse sep (x :: y :: l) = x ++ sep :: intersperse sep (y :: l).
Proof. done. Qed.

(** A printed value starts with a character that is no white space and does
    not close an array. *)
Lemma print_head j t :
  textual j = true ->
  exists c t', next_char (print_runes j ++ t) = Some (c, t') /\ Ascii.eqb c "]" = false.
Proof. destruct j; try done; intros _; cbn; eauto. Qed.

Lemma next_char_quote s t :
  next_char (quote_runes s ++ t) = Some (dquote, (runes s ≫= enc_rune) ++ Asc dquote :: t).
Proof. unfold quote_runes. cbn. by rewrite <-app_assoc. Qed.

Lemma next_char_cons c t : is_ws (Asc c) = false -> next_char (Asc c :: t) = Some (c, t).
Proof. intros H. unfold next_char. cbn [skip_ws]. by rewrite H. Qed.

(** Advance a parser over a bind whose first step is known. *)
Ltac parse_step :=
  cbn [mbind option_bind];
  repeat match goal with
  | |- context [Ascii.eqb ?a ?b] =>
    let v := eval vm_compute in (Ascii.eqb a b) in
    first [change (Ascii.eqb a b) with true | change (Ascii.eqb a b) with false]
  end; cbn iota.

Section print_parse.
Implicit Types t : list rune.

Definition reads (j : json) : Prop := forall f t,
  length (print_runes j) <= f -> pval f (print_runes j ++ t) = Some (sanitize_json j, t).

Lemma print_nonempty j : textual j = true -> 1 <= length (print_runes j).
Proof. destruct j; try done; intros _; cbn; lia. Qed.

Lemma pelems_print j l f t :
  forallb textual (j :: l) = true -> Forall reads (j :: l) ->
  length (intersperse (Asc ",") (print_runes <$> (j :: l))) < f ->
  pelems f (intersperse (Asc ",") (print_runes <$> (j :: l)) ++ Asc "]" :: t)
  = Some (sanitize_json <$> (j :: l), t).
Proof.
  revert j f. induction l as [|j' l IH]; intros j [|f] Ht Hr Hf; try lia;
    apply Forall_cons in Hr as [Hj Hl].
  - cbn [fmap list_fmap intersperse] in *. cbn [pelems].
    rewrite Hj by lia. done.
  - rewrite !fmap_cons, intersperse_cons in *. rewrite length_app in Hf. cbn [length] in Hf.
    cbn [pelems]. rewrite <-app_assoc, Hj by lia. parse_step.
    rewrite <-app_comm_cons, next_char_cons by done. parse_step.
    cbn [forallb] in Ht. apply andb_prop in Ht as [Hjt Ht].
    assert (1 <= length (print_runes j)) by (by apply print_nonempty).
    rewrite <-fmap_cons in *. rewrite IH by (done || lia). done.
Qed.

Lemma pmembers_print kv l f t :
  forallb (fun '(_, v) => textual v) (kv :: l) = true -> Forall (fun kv => reads kv.2) (kv :: l) ->
  length (intersperse (Asc ",") (print_member <$> (kv :: l))) < f ->
  pmembers f (intersperse (Asc ",") (print_member <$> (kv :: l)) ++ Asc "}" :: t)
  = Some ((fun '(k, v) => (sanitize k, sanitize_json v)) <$> (kv :: l), t).
Proof.
  assert (forall (kv : string * json) t,
    print_member kv ++ t = quote_runes kv.1 ++ Asc ":" :: (print_runes kv.2 ++ t)) as Hm.
  { intros ? ?. unfold print_member. by rewrite <-app_assoc. }
  assert (forall kv, length (print_runes kv.2) < length (print_member kv)) as Hlen.
  { intros ?. unfold print_member. rewrite length_app. cbn [length]. lia. }
  revert kv f. induction l as [|kv' l IH]; intros kv [|f] Ht Hr Hf; try lia;
    apply Forall_cons in Hr as [Hj Hl]; pose proof (Hlen kv).
  - cbn [fmap list_fmap intersperse] in *. cbn [pmembers].
    rewrite Hm, next_char_quote. cbn. rewrite unquote_quote. cbn.
    rewrite Hj by lia. by destruct kv.
  - rewrite !fmap_cons, intersperse_cons in *. rewrite length_app in Hf. cbn [length] in Hf.
    cbn [pmembers]. rewrite <-app_assoc, Hm, next_char_quote. parse_step.
    rewrite unquote_quote. parse_step. rewrite next_char_cons by done. parse_step.
    rewrite Hj by lia. parse_step. rewrite <-app_comm_cons, next_char_cons by done. parse_step.
    cbn [forallb] in Ht. apply andb_prop in Ht as [_ Ht].
    rewrite <-fmap_cons in *. rewrite IH by (done || lia). by destruct kv.
Qed.

(** A printed value is read back, whatever follows it. *)
Lemma pval_print j : textual j = true -> reads j.
Proof.
  induction j as [|b|lit|s|l IH|l IH] using json_nested_ind; intros Ht; try done;
    intros [|f] t Hf; try (cbn in Hf; lia).
  - vm_compute. reflexivity.
  - cbn [pval print_runes]. rewrite next_char_quote. cbn. by rewrite unquote_quote.
  - rewrite print_arr in *. cbn [app length] in *. rewrite <-app_assoc. cbn [app].
    destruct l as [|j l]; [done|].
    assert (Forall reads (j :: l)) as Hl.
    { rewrite Forall_forall in IH |- *. intros x Hx. apply IH; [done|].
      cbn [textual] in Ht. rewrite forallb_forall in Ht. apply Ht, list_elem_of_In, Hx. }
    change (pval (S f) (Asc "[" :: ?x)) with
      ('(c2, t) ← next_char x; if Ascii.eqb c2 "]" then Some (JArr [], t)
       else '(vs, t) ← pelems f x; Some (JArr vs, t)).
    assert (exists c t', next_char (intersperse (Asc ",") (print_runes <$> j :: l) ++ Asc "]" :: t)
              = Some (c, t') /\ Ascii.eqb c "]" = false) as (c & t' & -> & Hc).
    { cbn [textual forallb] in Ht. apply andb_prop in Ht as [Hj _].
      destruct l; cbn [fmap list_fmap intersperse]; rewrite <-?app_assoc; by apply print_head. }
    cbn [mbind option_bind]. rewrite Hc. rewrite length_app in Hf. cbn [length] in Hf.
    rewrite (pelems_print j l f t) by (done || (rewrite fmap_cons; cbn in *; lia)). done.
  - rewrite print_obj in *. cbn [app length] in *. rewrite <-app_assoc. cbn [app].
    destruct l as [|kv l]; [done|].
    assert (Forall (fun kv => reads kv.2) (kv :: l)) as Hl.
    { rewrite Forall_forall in IH |- *. intros x Hx. apply IH; [done|].
      cbn [textual] in Ht. rewrite forallb_forall in Ht.
      apply list_elem_of_In, Ht in Hx. by destruct x. }
    change (pval (S f) (Asc "{" :: ?x)) with
      ('(c2, t) ← next_char x; if Ascii.eqb c2 "}" then Some (JObj [], t)
       else '(kvs, t) ← pmembers f x; Some (JObj kvs, t)).
    assert (exists t', next_char (intersperse (Asc ",") (print_member <$> kv :: l) ++ Asc "}" :: t)
              = Some (dquote, t')) as (t' & ->).
    { destruct l; cbn [fmap list_fmap intersperse]; unfold print_member at 1;
        rewrite <-!app_assoc, next_char_quote; eauto. }
    cbn [mbind option_bind]. change (Ascii.eqb dquote "}") with false. cbn iota. rewrite length_app in Hf. cbn [length] in Hf.
    rewrite (pmembers_print kv l f t) by (done || (rewrite fmap_cons; cbn in *; lia)). done.
Qed.
End print_parse.

Lemma forallb_app_true {A} (f : A -> bool) l1 l2 :
  forallb f l1 = true -> forallb f l2 = true -> forallb f (l1 ++ l2) = true.
Proof. intros. rewrite forallb_app. by apply andb_true_intro. Qed.

Lemma enc_rune_ok r : rune_ok (fix_rune r) = true -> forallb rune_ok (enc_rune r) = true.
Proof.
  destruct r as [a|m|a]; cbn [enc_rune fix_rune]; [|intros Hm|done].
  - by destruct a as [[] [] [] [] [] [] [] []].
  - repeat case_match; try done. cbn [forallb]. by rewrite Hm.
Qed.

Lemma quote_runes_ok s : forallb rune_ok (quote_runes s) = true.
Proof.
  unfold quote_runes. change (?x :: ?l) with ([x] ++ l).
  repeat apply forallb_app_true; try done.
  pose proof (runes_fix_ok s) as H. induction (runes s) as [|r l IH]; [done|].
  rewrite fmap_cons in H. cbn [forallb] in H. apply andb_prop in H as [Hr Hl].
  rewrite bind_cons. apply forallb_app_true; auto using enc_rune_ok.
Qed.

Lemma intersperse_ok sep ls :
  rune_ok sep = true -> Forall (fun l => forallb rune_ok l = true) ls ->
  forallb rune_ok (intersperse sep ls) = true.
Proof.
  intros Hs Hl. induction Hl as [|x [|y l] Hx Hl IH]; [done|done|].
  rewrite intersperse_cons. apply forallb_app_true; [done|].
  cbn [forallb]. by rewrite Hs, IH.
Qed.

Lemma print_runes_ok j : textual j = true -> forallb rune_ok (print_runes j) = true.
Proof.
  induction j as [|b|lit|s|l IH|l IH] using json_nested_ind; intros Ht; try done.
  - apply quote_runes_ok.
  - rewrite print_arr. cbn [forallb]. apply forallb_app_true; [|done].
    apply intersperse_ok; [done|]. apply Forall_fmap.
    cbn [textual] in Ht. rewrite forallb_forall in Ht.
    rewrite Forall_forall in IH |- *. intros x Hx. apply IH, Ht, list_elem_of_In, Hx. done.
  - rewrite print_obj. cbn [forallb]. apply forallb_app_true; [|done].
    apply intersperse_ok; [done|]. apply Forall_fmap.
    cbn [textual] in Ht. rewrite forallb_forall in Ht.
    rewrite Forall_forall in IH |- *. intros [k v] Hx.
    apply (forallb_app_true rune_ok (quote_runes k)); [apply quote_runes_ok|]. cbn [forallb].
    apply (IH (k, v)); [done|]. by apply list_elem_of_In, (Ht (k, v)) in Hx.
Qed.

(** What [Marshal] wrote is read back, by [Unmarshal] and by [Decode], as
    the same tree with its strings sanitized. *)
Lemma parse_all_print j : textual j = true -> parse_all (print_json j) = Some (sanitize_json j).
Proof.
  intros Ht. unfold parse_all, print_json.
  rewrite runes_unrunes by (by apply print_runes_ok).
  rewrite <-(app_nil_r (print_runes j)) at 2.
  rewrite pval_print by (done || unfold fuel_for; lia). done.
Qed.

Lemma parse_first_print j : textual j = true -> parse_first (print_json j) = Some (sanitize_json j).
Proof.
  intros Ht. unfold parse_first, print_json.
  rewrite runes_unrunes by (by apply print_runes_ok).
  rewrite <-(app_nil_r (print_runes j)) at 2.
  rewrite pval_print by (done || unfold fuel_for; lia). done.
Qed.
