(* ===== verification/JsonTypes.v ===== *)
(** * encoding/json: the program's Go types

    Decoding a JSON tree into structs of strings, string slices and string
    maps, as [reflect]-driven Unmarshal does it (field matching, null, type
    errors), and encoding them.  Round trips of slices and maps, and the
    validity of every string that comes out of a decoder. *)
From S2P Require Import Prelude Utf8 Json.
From Stdlib Require Import Ascii ZifyBool ZifyN.

(** *** Decoding into the program's Go types *)

(** [bytes.EqualFold] of a field name and an object key, as encoding/json
    compares them: ASCII case folding and the two non-ASCII runes that fold
    to [k] and [s]. *)
Definition upper (a : ascii) : ascii :=
  if in_range 97 122 a then ascii_of_N (byte_val a - 32) else a.

Definition fold_rune (r : rune) : rune :=
  match r with
  | Asc a => Asc (upper a)
  | Multi m =>
    if String.eqb m (String "226" (String "132" (String "170" EmptyString))) then Asc "K"
    else if String.eqb m (String "197" (String "191" EmptyString)) then Asc "S"
    else Multi m
  | Bad a => Bad a
  end.

Definition equal_fold (name key : string) : bool :=
  bool_decide (fold_rune <$> runes name = fold_rune <$> runes key).

(** The field an object key selects: the exact name first, else the first
    that matches by case folding. *)
Definition find_field (names : list string) (key : string) : option nat :=
  match list_find (fun n => n = key) names with
  | Some (i, _) => Some i
  | None => fst <$> list_find (fun n => equal_fold n key = true) names
  end.

(** A string field: [null] leaves it, anything but a string is an error. *)
Definition dec_string (cur : string) (j : json) : result string :=
  match j with
  | JStr s => Ok s
  | JNull => Ok cur
  | _ => Err (Fresh "json: cannot unmarshal into Go value of type string")
  end.

(** A struct whose fields are all strings, given by name and current value. *)
Fixpoint dec_members (names : list string) (vals : list string) (l : list (string * json))
    : result (list string) :=
  match l with
  | [] => Ok vals
  | (k, v) :: l =>
    match find_field names k with
    | None => dec_members names vals l
    | Some i =>
      s ← dec_string (default EmptyString (vals !! i)) v;
      dec_members names (<[i := s]> vals) l
    end
  end.

Definition dec_struct (names : list string) (vals : list string) (j : json)
    : result (list string) :=
  match j with
  | JObj l => dec_members names vals l
  | JNull => Ok vals
  | _ => Err (Fresh "json: cannot unmarshal into Go value of type struct")
  end.

(** [[]string]: [null] is the nil slice, a [null] element the empty string. *)
Definition dec_strings (j : json) : result (slice string) :=
  match j with
  | JNull => Ok None
  | JArr l => l' ← foldr (fun v acc => s ← dec_string EmptyString v; t ← acc; Ok (s :: t)) (Ok []) l;
              Ok (Some l')
  | _ => Err (Fresh "json: cannot unmarshal into Go value of type []string")
  end.

(** [map[string]string]: [null] is the nil map; entries go into [m]. *)
Fixpoint dec_entries (m : gmap string string) (l : list (string * json))
    : result (gmap string string) :=
  match l with
  | [] => Ok m
  | (k, v) :: l => s ← dec_string EmptyString v; dec_entries (<[k := s]> m) l
  end.

Definition dec_map (m : gomap string) (j : json) : result (gomap string) :=
  match j with
  | JNull => Ok None
  | JObj l => Some <$> dec_entries (entries m) l
  | _ => Err (Fresh "json: cannot unmarshal into Go value of type map[string]string")
  end.

Definition syntax_error : goerror := Fresh "json: invalid JSON text".

(** [json.Unmarshal] and [Decoder.Decode] into a type given by its decoder. *)
Definition json_unmarshal {A} (dec : json -> result A) (s : string) : result A :=
  match parse_all s with Some j => dec j | None => Err syntax_error end.
Definition json_decode {A} (dec : json -> result A) (s : string) : result A :=
  match parse_first s with Some j => dec j | None => Err syntax_error end.

(** *** Encoding the program's Go types *)

Definition enc_strings (l : slice string) : json :=
  match l with None => JNull | Some l => JArr (JStr <$> l) end.

Definition key_le (a b : string * string) : Prop := String.le a.1 b.1.
#[global] Instance key_le_dec : RelDecision key_le.
Proof. intros a b. unfold key_le. apply _. Defined.
#[global] Instance key_le_total : Total key_le.
Proof. intros a b. apply (total String.le). Qed.

(** Maps are encoded with their keys sorted. *)
Definition sorted_entries (m : gmap string string) : list (string * string) :=
  merge_sort key_le (map_to_list m).

Definition enc_map (m : gomap string) : json :=
  match m with
  | None => JNull
  | Some m => JObj ((fun '(k, v) => (k, JStr v)) <$> sorted_entries m)
  end.

(** A struct field tagged [omitempty]. *)
Definition omitempty (name value : string) : list (string * json) :=
  if String.eqb value EmptyString then [] else [(name, JStr value)].

(** *** Round trips of the Go types *)

Lemma json_unmarshal_print {A} (dec : json -> result A) j :
  textual j = true -> json_unmarshal dec (print_json j) = dec (sanitize_json j).
Proof. intros Ht. unfold json_unmarshal. by rewrite parse_all_print. Qed.

Lemma json_decode_print {A} (dec : json -> result A) j :
  textual j = true -> json_decode dec (print_json j) = dec (sanitize_json j).
Proof. intros Ht. unfold json_decode. by rewrite parse_first_print. Qed.

Lemma textual_strings l : textual (enc_strings l) = true.
Proof. destruct l as [l|]; [|done]. cbn. by induction l. Qed.

Lemma textual_map m : textual (enc_map m) = true.
Proof. destruct m as [m|]; [|done]. cbn. by induction (sorted_entries m) as [|[]]. Qed.

Definition sanitize_slice (l : slice string) : slice string :=
  match l with None => None | Some l => Some (sanitize <$> l) end.

Lemma dec_enc_strings l :
  dec_strings (sanitize_json (enc_strings l)) = Ok (sanitize_slice l).
Proof.
  destruct l as [l|]; [|done]. cbn [enc_strings sanitize_json dec_strings].
  assert (forall l', foldr (fun v acc => s ← dec_string EmptyString v; t ← acc; Ok (s :: t))
                       (Ok []) (sanitize_json <$> (JStr <$> l')) = Ok (sanitize <$> l')) as ->.
  { induction l' as [|s l' IH]; [done|]. rewrite !fmap_cons. cbn [foldr sanitize_json].
    by rewrite IH. }
  done.
Qed.

(** Every string of a list (of a map's keys and values) is valid UTF-8. *)
Definition valid_list (l : list string) : Prop := Forall (fun s => valid_utf8 s = true) l.
Definition valid_map (m : gmap string string) : Prop :=
  map_Forall (fun k v => valid_utf8 k = true /\ valid_utf8 v = true) m.

Lemma sanitize_list_id l : valid_list l -> sanitize <$> l = l.
Proof.
  induction 1 as [|s l Hs Hl IH]; [done|]. by rewrite fmap_cons, IH, sanitize_id.
Qed.

Lemma marshal_strings_roundtrip l :
  json_unmarshal dec_strings (print_json (enc_strings l)) = Ok (sanitize_slice l).
Proof. rewrite json_unmarshal_print by apply textual_strings. apply dec_enc_strings. Qed.

Lemma dec_entries_sanitized l m :
  Forall (fun kv => valid_utf8 kv.1 = true /\ valid_utf8 kv.2 = true) l ->
  dec_entries m ((fun '(k, v) => (sanitize k, sanitize_json v))
                   <$> ((fun '(k, v) => (k, JStr v)) <$> l))
  = Ok (foldl (fun m kv => <[kv.1 := kv.2]> m) m l).
Proof.
  intros Hl. revert m. induction Hl as [|[k v] l [Hk Hv] Hl IH]; intros m; [done|].
  rewrite !fmap_cons. cbn [dec_entries sanitize_json dec_string mbind result_bind].
  cbn [fst snd] in *. by rewrite IH, !sanitize_id.
Qed.

Lemma foldl_insert_lookup (l : list (string * string)) (m : gmap string string) k :
  NoDup l.*1 ->
  foldl (fun m kv => <[kv.1 := kv.2]> m) m l !! k
  = match list_to_map (M := gmap string string) l !! k with Some v => Some v | None => m !! k end.
Proof.
  revert m. induction l as [|[k' v] l IH]; intros m Hnd; [done|].
  cbn [foldl list_to_map foldr fmap list_fmap fst snd] in *. apply NoDup_cons in Hnd as [Hk Hnd].
  change (list_to_map ((k', v) :: l)) with (<[k' := v]> (list_to_map (M := gmap string string) l)).
  rewrite IH by done. destruct (decide (k = k')) as [->|].
  - rewrite !lookup_insert_eq. by rewrite not_elem_of_list_to_map_1.
  - by rewrite !lookup_insert_ne.
Qed.

Lemma dec_enc_map m :
  valid_map m -> dec_map (Some ∅) (sanitize_json (enc_map (Some m))) = Ok (Some m).
Proof.
  intros Hm. cbn [enc_map sanitize_json dec_map entries default].
  assert (sorted_entries m ≡ₚ map_to_list m) as Hp by apply merge_sort_Permutation.
  rewrite dec_entries_sanitized.
  - unfold fmap, result_fmap. do 2 f_equal. apply map_eq. intros k.
    rewrite foldl_insert_lookup by (rewrite Hp; apply NoDup_fst_map_to_list).
    cbn [entries default from_option]. change (id ∅ !! k) with ((∅ : gmap string string) !! k).
    rewrite lookup_empty, (list_to_map_proper (sorted_entries m) (map_to_list m));
      [|rewrite Hp; apply NoDup_fst_map_to_list|done].
    rewrite list_to_map_to_list. by destruct (m !! k).
  - rewrite Hp. apply Forall_forall. intros [k v] Hkv%elem_of_map_to_list. by apply Hm in Hkv.
Qed.

Lemma decode_map_roundtrip m :
  valid_map m -> json_decode (dec_map (Some ∅)) (print_json (enc_map (Some m))) = Ok (Some m).
Proof. intros Hm. rewrite json_decode_print by apply textual_map. by apply dec_enc_map. Qed.

Lemma unmarshal_map_roundtrip m :
  valid_map m -> json_unmarshal (dec_map (Some ∅)) (print_json (enc_map (Some m))) = Ok (Some m).
Proof. intros Hm. rewrite json_unmarshal_print by apply textual_map. by apply dec_enc_map. Qed.

(** *** Decoded strings are valid UTF-8 *)

Fixpoint valid_json (j : json) : bool :=
  match j with
  | JStr s => valid_utf8 s
  | JArr l => forallb valid_json l
  | JObj l => forallb (fun '(k, v) => valid_utf8 k && valid_json v) l
  | _ => true
  end.

(** Runes as [runes] produces them. *)
Definition runes_wf (l : list rune) : Prop := Forall (fun r => rune_ok (fix_rune r) = true) l.

Lemma runes_runes_wf s : runes_wf (runes s).
Proof.
  unfold runes_wf. pose proof (runes_fix_ok s) as H.
  rewrite forallb_forall in H. apply Forall_forall. intros r Hr.
  apply H, list_elem_of_In, list_elem_of_fmap. eauto.
Qed.

Lemma valid_utf8_app r s : rune_ok r = true -> valid_utf8 (rune_bytes r +:+ s) = valid_utf8 s.
Proof. intros Hr. unfold valid_utf8. rewrite runes_cons_ok by done. cbn [forallb]. by rewrite Hr. Qed.

Lemma valid_utf8_char a s : is_ascii a = true -> valid_utf8 (String a s) = valid_utf8 s.
Proof. apply (valid_utf8_app (Asc a)). Qed.

(** The base-64 digits of a code point. *)
Lemma digits64 r :
  exists w x y z, (r = w * 262144 + x * 4096 + y * 64 + z /\ x < 64 /\ y < 64 /\ z < 64 /\
    r / 262144 = w /\ r / 4096 = w * 64 + x /\ r / 4096 mod 64 = x /\
    r / 64 = w * 4096 + x * 64 + y /\ r / 64 mod 64 = y /\ r mod 64 = z)%N.
Proof.
  exists (r / 262144)%N, (r / 4096 mod 64)%N, (r / 64 mod 64)%N, (r mod 64)%N.
  zify; Z.to_euclidean_division_equations; lia.
Qed.

Ltac byte_lia :=
  unfold is_ascii, lead2, lead3, lead4, cont, in_range, byte_val;
  rewrite ?N_ascii_embedding by lia; lia.

Lemma valid_utf8_encode r s :
  (r < 1114112)%N -> is_surrogate r = false ->
  valid_utf8 (utf8_encode r +:+ s) = valid_utf8 s.
Proof.
  intros Hr Hs. unfold is_surrogate in Hs. unfold utf8_encode.
  destruct (digits64 r) as (w & x & y & z & E & ? & ? & ? & Ew & Exw & Ex & Ey & Eyy & Ez).
  rewrite ?Ew, ?Ex, ?Eyy, ?Ez, ?Exw, ?Ey.
  destruct (r <? 128)%N eqn:E1; [apply valid_utf8_char; byte_lia|].
  destruct (r <? 2048)%N eqn:E2; [apply (valid_utf8_app (Multi _)), rune_ok_2; byte_lia|].
  destruct (r <? 65536)%N eqn:E3; [apply (valid_utf8_app (Multi _)), rune_ok_3; byte_lia|].
  apply (valid_utf8_app (Multi _)), rune_ok_4; byte_lia.
Qed.

Lemma hex_val_bound a n : hex_val a = Some n -> (n < 16)%N.
Proof.
  assert (match hex_val a with Some n => (n <? 16)%N | None => true end = true) as H
    by (by destruct a as [[] [] [] [] [] [] [] []]).
  intros E. rewrite E in H. by apply N.ltb_lt.
Qed.

Lemma getu4_bound a b c d r : getu4 a b c d = Some r -> (r < 65536)%N.
Proof.
  unfold getu4. intros H.
  destruct (hex_val a) eqn:Ha, (hex_val b) eqn:Hb, (hex_val c) eqn:Hc, (hex_val d) eqn:Hd;
    try discriminate H; cbn in H; simplify_eq.
  apply hex_val_bound in Ha, Hb, Hc, Hd. lia.
Qed.

Lemma utf16_pair_bound r1 r2 rr :
  utf16_pair r1 r2 = Some rr -> (65536 <= rr < 1114112)%N.
Proof. unfold utf16_pair. case_match; [|done]. intros [= <-]. lia. Qed.

Lemma simple_escape_ascii e x : simple_escape e = Some x -> is_ascii x = true.
Proof. destruct e as [[] [] [] [] [] [] [] []]; cbn; intros; simplify_eq; done. Qed.

(** Appending [w] keeps validity. *)
Definition valid_piece (w : string) : Prop := forall s, valid_utf8 (w +:+ s) = valid_utf8 s.

Lemma valid_piece_fffd : valid_piece fffd.
Proof. intros s. by apply (valid_utf8_app (Multi fffd)). Qed.

Lemma valid_piece_char a : is_ascii a = true -> valid_piece (String a EmptyString).
Proof. intros Ha s. by apply (valid_utf8_app (Asc a)). Qed.

Create HintDb valid.
#[export] Hint Resolve valid_piece_fffd valid_piece_char simple_escape_ascii : valid.

Lemma unquote_valid l s t :
  runes_wf l -> unquote l = Some (s, t) -> valid_utf8 s = true /\ runes_wf t.
Proof.
  assert (forall n l s t, length l <= n -> runes_wf l -> unquote l = Some (s, t) ->
            valid_utf8 s = true /\ runes_wf t) as H; [|eauto].
  clear. induction n as [|n IH]; intros l s t Hn Hwf; [by destruct l; cbn in *; [|lia]|].
  destruct l as [|r l]; [done|]. cbn [length] in *.
  assert (forall w l', valid_piece w -> length l' <= length l -> runes_wf l' ->
            emit w (unquote l') = Some (s, t) -> valid_utf8 s = true /\ runes_wf t) as Hemit.
  { intros w l' Hw Hl Hl' (s0 & l0 & E & [= -> ->])%emit_Some.
    apply IH in E as [? ?]; [|lia|done]. split; [|done]. by rewrite Hw. }
  apply Forall_cons in Hwf as [Hr Hwf].
  cbn [unquote]. destruct r as [c|m|b].
  2: { apply Hemit; [|lia|done]. intros w. by apply (valid_utf8_app (Multi m)). }
  2: { apply Hemit; [auto with valid|lia|done]. }
  destruct (Ascii.eqb c dquote); [by intros; simplify_eq|].
  destruct (Ascii.eqb c backslash).
  2: { destruct (byte_val c <? 32)%N; [done|]. apply Hemit; [auto with valid|lia|done]. }
  destruct l as [|[e| |] l2]; try done. apply Forall_cons in Hwf as [_ Hwf]. cbn [length] in *.
  destruct (simple_escape e) as [x|] eqn:Ee.
  { apply Hemit; [eauto with valid|lia|done]. }
  destruct (Ascii.eqb e "u"); [|done].
  destruct l2 as [|[h1| |] [|[h2| |] [|[h3| |] [|[h4| |] l3]]]]; try done.
  rewrite !Forall_cons in Hwf. destruct Hwf as (_ & _ & _ & _ & Hwf). cbn [length] in *.
  destruct (getu4 h1 h2 h3 h4) as [u|] eqn:Eu; [|done]. apply getu4_bound in Eu.
  assert (emit fffd (unquote l3) = Some (s, t) -> valid_utf8 s = true /\ runes_wf t) as Hrepl.
  { apply Hemit; [auto with valid|lia|done]. }
  destruct (is_surrogate u) eqn:Es.
  - destruct l3 as [|[s1| |] [|[u1| |] [|[g1| |] [|[g2| |] [|[g3| |] [|[g4| |] l4]]]]]];
      try exact Hrepl.
    destruct (if _ && _ then _ else _) as [rr|] eqn:Err; [|exact Hrepl].
    rewrite !Forall_cons in Hwf. cbn [length] in *.
    apply Hemit; [|lia|tauto]. intros w.
    destruct (_ && _); [|done]. destruct (getu4 g1 g2 g3 g4); [|done].
    apply utf16_pair_bound in Err. apply valid_utf8_encode; [lia|]. unfold is_surrogate. lia.
  - apply Hemit; [|lia|done]. intros w. apply valid_utf8_encode; [lia|done].
Qed.

Lemma runes_wf_suffix l t : t `suffix_of` l -> runes_wf l -> runes_wf t.
Proof. intros [k ->]. unfold runes_wf. rewrite Forall_app. tauto. Qed.

Lemma skip_ws_suffix l : skip_ws l `suffix_of` l.
Proof.
  induction l as [|r l IH]; [done|]. cbn [skip_ws].
  destruct (is_ws r); [by apply suffix_cons_r|done].
Qed.

Lemma take_digits_suffix l : (take_digits l).2 `suffix_of` l.
Proof.
  induction l as [|r l IH]; [done|]. cbn [take_digits]. destruct (is_digit r); [|done].
  destruct (take_digits l). by apply suffix_cons_r.
Qed.

Lemma take_digits1_suffix l p : take_digits1 l = Some p -> p.2 `suffix_of` l.
Proof.
  unfold take_digits1. pose proof (take_digits_suffix l) as H.
  destruct (take_digits l) as [[|? ?] ?]; naive_solver.
Qed.

Lemma opt_char_suffix f l : (opt_char f l).2 `suffix_of` l.
Proof. destruct l as [|[a| |] l]; try done. cbn. case_match; [by apply suffix_cons_r|done]. Qed.

Lemma expect_suffix w l t : expect w l = Some t -> t `suffix_of` l.
Proof.
  revert l. induction w as [|r w IH]; intros [|r' l] H; cbv [expect] in H; fold expect in H;
    simplify_eq; try done.
  destruct (decide (r = r')); [|done]. by apply suffix_cons_r, IH.
Qed.

Lemma pnum_suffix l j t : pnum l = Some (j, t) -> t `suffix_of` l /\ exists lit, j = JNum lit.
Proof.
  unfold pnum. pose proof (opt_char_suffix (Ascii.eqb "-") l) as H0.
  destruct (opt_char (Ascii.eqb "-") l) as [m l0]. intros H.
  bind_inv H. rename l1 into i, l2 into l1. bind_inv H. rename l2 into f', l3 into l2.
  bind_inv H. simplify_eq. split; [|eauto].
  transitivity l0; [|done]. transitivity l1.
  2: { unfold take_int in E. destruct l0 as [|[a| |] l0]; try done.
       destruct (Ascii.eqb a "0"); [simplify_eq; by apply suffix_cons_r|].
       by apply take_digits1_suffix in E. }
  transitivity l2.
  2: { unfold take_frac in E0. pose proof (opt_char_suffix (Ascii.eqb ".") l1) as Hs.
       destruct (opt_char (Ascii.eqb ".") l1) as [[|d dd] l']; [by simplify_eq|].
       clear E. bind_inv E0. apply take_digits1_suffix in E. simplify_eq. by transitivity l'. }
  unfold take_exp in E1.
  match type of E1 with context [opt_char ?f l2] => pose proof (opt_char_suffix f l2) as Hs end.
  destruct (opt_char _ l2) as [[|d dd] l']; [by simplify_eq|].
  match type of E1 with context [opt_char ?f l'] => pose proof (opt_char_suffix f l') as Hs' end.
  destruct (opt_char _ l') as [sg l'']. clear E. bind_inv E1. apply take_digits1_suffix in E. simplify_eq.
  transitivity l''; [done|]. by transitivity l'.
Qed.

Lemma next_char_wf l c t : runes_wf l -> next_char l = Some (c, t) -> runes_wf t.
Proof.
  intros H. unfold next_char. pose proof (runes_wf_suffix _ _ (skip_ws_suffix l) H) as Hw.
  destruct (skip_ws l) as [|[] ?]; try done. intros [= -> ->]. by apply Forall_cons in Hw as [_ ?].
Qed.

Lemma next_char_ascii l c t : runes_wf l -> next_char l = Some (c, t) -> is_ascii c = true.
Proof.
  intros H. unfold next_char. pose proof (runes_wf_suffix _ _ (skip_ws_suffix l) H) as Hw.
  destruct (skip_ws l) as [|[] ?]; try done. intros [= -> ->]. by apply Forall_cons in Hw as [? ?].
Qed.

Lemma parse_valid fuel :
  (forall l j t, runes_wf l -> pval fuel l = Some (j, t) -> valid_json j = true /\ runes_wf t) /\
  (forall l vs t, runes_wf l -> pelems fuel l = Some (vs, t) ->
     forallb valid_json vs = true /\ runes_wf t) /\
  (forall l kvs t, runes_wf l -> pmembers fuel l = Some (kvs, t) ->
     forallb (fun '(k, v) => valid_utf8 k && valid_json v) kvs = true /\ runes_wf t).
Proof.
  induction fuel as [|fuel (IHv & IHe & IHm)]; [done|].
  split_and!; intros l x t Hl H; cbn [pval pelems pmembers] in H;
  repeat match goal with
  | H : mbind _ _ = Some _ |- _ => bind_inv H
  | H : (if ?b then _ else _) = Some _ |- _ => destruct b; try discriminate H
  | H : next_char _ = Some _ |- _ =>
    pose proof (next_char_ascii _ _ _ ltac:(eassumption) H); apply next_char_wf in H; [|done]
  | H : unquote _ = Some _ |- _ => apply unquote_valid in H as [? H]; [|done]
  | H : expect _ _ = Some _ |- _ =>
    apply expect_suffix in H; pose proof (runes_wf_suffix _ _ H ltac:(eassumption)); clear H
  | H : pnum _ = Some _ |- _ =>
    apply pnum_suffix in H as [H [? ->]]; apply runes_wf_suffix in H; [|by apply Forall_cons]
  | H : pval _ _ = Some _ |- _ => apply IHv in H as [? H]; [|done]
  | H : pelems _ _ = Some _ |- _ => apply IHe in H as [? H]; [|done]
  | H : pmembers _ _ = Some _ |- _ => apply IHm in H as [? H]; [|done]
  | H : Some _ = Some _ |- _ => injection H; clear H; intros; subst
  end; cbn [valid_json forallb]; rewrite ?andb_true_r;
  repeat match goal with H : ?b = true |- context [?b] => rewrite H end; done.
Qed.

Lemma parse_all_valid s j : parse_all s = Some j -> valid_json j = true.
Proof.
  unfold parse_all. intros H. bind_inv H. case_match; [|done]. simplify_eq.
  eapply parse_valid; [|done]. apply runes_runes_wf.
Qed.

Lemma parse_first_valid s j : parse_first s = Some j -> valid_json j = true.
Proof.
  unfold parse_first. destruct (pval _ _) as [[j' t]|] eqn:E; [|done]. intros [= <-].
  eapply parse_valid; [|done]. apply runes_runes_wf.
Qed.

Lemma dec_string_valid cur j s :
  valid_utf8 cur = true -> valid_json j = true -> dec_string cur j = Ok s -> valid_utf8 s = true.
Proof. destruct j; cbn; intros; simplify_eq; done. Qed.

Lemma dec_struct_valid names vals j vals' :
  valid_list vals -> valid_json j = true -> dec_struct names vals j = Ok vals' -> valid_list vals'.
Proof.
  destruct j as [| | | | |l]; try done; [cbn; by intros Hv _ [= <-]|].
  cbn [valid_json dec_struct]. revert vals.
  induction l as [|[k v] l IH]; intros vals Hv Hl H; [by simplify_eq/=|].
  cbn [forallb dec_members] in *. apply andb_prop in Hl as [[Hk Hj]%andb_prop Hl].
  destruct (find_field names k) as [i|]; [|eauto].
  destruct (dec_string _ v) as [s|] eqn:Es; [|done]. eapply (IH (<[i:=s]> vals)); [|done|done].
  apply Forall_insert; [done|].
  eapply dec_string_valid; [|done|done]. destruct (vals !! i) eqn:Ei; [|done].
  by eapply Forall_lookup_1 in Hv.
Qed.

Lemma dec_entries_valid l m m' :
  forallb (fun '(k, v) => valid_utf8 k && valid_json v) l = true ->
  valid_map m -> dec_entries m l = Ok m' -> valid_map m'.
Proof.
  revert m. induction l as [|[k v] l IH]; intros m Hl Hm H; [by simplify_eq/=|].
  cbn [forallb dec_entries] in *. apply andb_prop in Hl as [[Hk Hj]%andb_prop Hl].
  destruct (dec_string _ v) as [s|] eqn:Es; [|done]. eapply (IH (<[k:=s]> m)); [done| |done].
  apply map_Forall_insert_2; [|done]. split; [done|].
  by apply (dec_string_valid EmptyString v s).
Qed.

Lemma json_decode_map_valid s m :
  json_decode (dec_map (Some ∅)) s = Ok (Some m) -> valid_map m.
Proof.
  unfold json_decode. destruct (parse_first s) as [j|] eqn:E; [|done].
  apply parse_first_valid in E. destruct j; try done. cbn. intros H.
  destruct (dec_entries ∅ l) eqn:El; [|done]. simplify_eq/=.
  eapply dec_entries_valid; [exact E| |done]. apply map_Forall_empty.
Qed.

Lemma dec_strings_valid j l :
  valid_json j = true -> dec_strings j = Ok (Some l) -> valid_list l.
Proof.
  destruct j as [| | | |js|]; try done. cbn [valid_json dec_strings]. intros Hj H.
  match type of H with context [foldr ?f ?a js] => destruct (foldr f a js) as [l'|] eqn:E end;
    [|done].
  assert (l' = l) as -> by (cbn in H; by simplify_eq). clear H.
  revert l E. induction js as [|j js IH]; intros l E; cbn [foldr forallb] in *.
  { simplify_eq. constructor. }
  apply andb_prop in Hj as [Hj Hjs].
  destruct (dec_string _ j) as [s|] eqn:Es; [|done].
  cbn [mbind result_bind] in E.
  match type of E with context [foldr ?f ?a js] => destruct (foldr f a js) as [t|] eqn:Et end;
    [|done].
  cbn in E. simplify_eq. constructor; [|by eapply IH].
  by apply (dec_string_valid EmptyString j s).
Qed.

Lemma json_unmarshal_strings_valid s l :
  json_unmarshal dec_strings s = Ok (Some l) -> valid_list l.
Proof.
  unfold json_unmarshal. destruct (parse_all s) as [j|] eqn:E; [|done].
  apply parse_all_valid in E. by apply dec_strings_valid.
Qed.
