(* ===== verification/UrlUtil.v ===== *)
(** * utils/urlutil: addresses as URLs

    [MakeURL] (utils/urlutil/urlutil.go) with the shape of its result and the
    cases in which applying it twice is applying it once, which the cache
    master relies on: it stores [MakeURL] addresses and calls [MakeURL] on
    them again before posting.  And what net/url makes of the path of a URL,
    since the programs put keys in it as they are, and [url.QueryEscape],
    with which groupcache puts them there. *)
From S2P Require Import Prelude.
From Stdlib Require Import Ascii.

(** MakeURL make a url for some abbreviation addr like ":12345" *)
Definition MakeURL (addr : string) : string :=
  let addr :=
    if HasPrefix addr ":" then "http://127.0.0.1" +:+ addr
    else if negb (HasPrefix addr "http://") && negb (HasPrefix addr "https://")
    then "http://" +:+ addr
    else addr in
  TrimSuffix addr "/".

Definition has_scheme (s : string) : bool := HasPrefix s "http://" || HasPrefix s "https://".

(** The addresses [MakeURL] makes a complete URL of: not a bare scheme. *)
Definition proper_addr (addr : string) : bool :=
  negb (bool_decide (addr = "" \/ addr = "http://" \/ addr = "https://")).

Lemma prefix_trim pre s :
  HasPrefix s pre = true -> s <> pre -> HasPrefix (TrimSuffix s "/") pre = true.
Proof.
  intros [t ->]%HasPrefix_true Hne.
  destruct (HasSuffix (pre +:+ t) "/") eqn:E; [|by rewrite TrimSuffix_none, HasPrefix_app].
  apply HasSuffix_true in E as [u Hu]. rewrite Hu, TrimSuffix_app.
  destruct (HasSuffix t "/") eqn:Et.
  - apply HasSuffix_true in Et as [w ->]. rewrite sapp_assoc in Hu.
    apply sapp_inj_r in Hu as <-. apply HasPrefix_app.
  - exfalso. destruct t as [|a t]; [by rewrite sapp_nil_r in Hne|].
    assert (exists w b, String a t = w +:+ String b "") as (w & b & Hw).
    { clear. revert a. induction t as [|c t IH]; intros a; [by exists "", a|].
      destruct (IH c) as (w & b & Hw). exists (String a w), b. by rewrite Hw. }
    rewrite Hw, sapp_assoc in Hu.
    assert (b = "/"%char) as ->.
    { clear -Hu. revert u Hu. generalize (pre +:+ w) as v. intros v.
      induction v as [|x v IH]; intros [|y u] Hu; rewrite ?sapp_cons, ?sapp_nil in Hu; simplify_eq; eauto.
      - by destruct u.
      - by destruct v. }
    assert (HasSuffix (String a t) "/" = true); [|congruence]. apply HasSuffix_true. eauto.
Qed.

Lemma MakeURL_has_scheme addr : proper_addr addr = true -> has_scheme (MakeURL addr) = true.
Proof.
  unfold proper_addr. intros H%negb_true_iff%bool_decide_eq_false. unfold MakeURL, has_scheme.
  destruct (HasPrefix addr ":") eqn:E1.
  { rewrite prefix_trim; [done|done|]. apply HasPrefix_true in E1 as [t ->]. done. }
  destruct (HasPrefix addr "http://") eqn:E2; [rewrite prefix_trim by naive_solver; done|].
  destruct (HasPrefix addr "https://") eqn:E3.
  { rewrite (prefix_trim "https://") by naive_solver. apply orb_true_r. }
  cbn [negb andb]. rewrite prefix_trim; [done|apply HasPrefix_app|].
  intros Ha. apply H. left. by apply (inj (String.append "http://") addr "").
Qed.

Lemma MakeURL_fixed url : has_scheme url = true -> HasSuffix url "/" = false -> MakeURL url = url.
Proof.
  unfold MakeURL, has_scheme. intros Hs Hn.
  assert (HasPrefix url ":" = false) as ->.
  { apply orb_prop in Hs as [[t ->]%HasPrefix_true|[t ->]%HasPrefix_true]; done. }
  rewrite <-negb_orb, Hs. cbn [negb]. by apply TrimSuffix_none.
Qed.

(** ** net/url: the path of a URL *)

(** A byte that stands for itself in every part of a URL. *)
Definition unreserved (a : ascii) : bool :=
  let n := N_of_ascii a in
  ((48 <=? n) && (n <=? 57) || (65 <=? n) && (n <=? 90) || (97 <=? n) && (n <=? 122))%N
  || Ascii.eqb a "-" || Ascii.eqb a "_" || Ascii.eqb a "." || Ascii.eqb a "~".

(** A key that a URL carries as it is. *)
Definition plain_key (key : string) : bool :=
  negb (String.eqb key "") && forallb unreserved (String.list_ascii_of_string key).

(** The path ends where a fragment or a query begins. *)
Fixpoint cut_path (s : string) : string :=
  match s with
  | EmptyString => EmptyString
  | String a s => if Ascii.eqb a "#" || Ascii.eqb a "?" then EmptyString else String a (cut_path s)
  end.

Definition unhex (a : ascii) : option N :=
  let n := N_of_ascii a in
  if (48 <=? n)%N && (n <=? 57)%N then Some (n - 48)%N
  else if (97 <=? n)%N && (n <=? 102)%N then Some (n - 87)%N
  else if (65 <=? n)%N && (n <=? 70)%N then Some (n - 55)%N
  else None.

(** The escapes decoded; [None] is [EscapeError]. *)
Fixpoint unescape (s : string) : option string :=
  match s with
  | EmptyString => Some EmptyString
  | String a s' =>
    if Ascii.eqb a "%" then
      match s' with
      | String h (String l rest) =>
        h ← unhex h; l ← unhex l; String (ascii_of_N (16 * h + l)) <$> unescape rest
      | _ => None
      end
    else String a <$> unescape s'
  end.

(** The path a server is asked for by a URL of a host followed by [s]. *)
Definition url_path (s : string) : option string := unescape (cut_path s).

Definition upperhex (n : N) : ascii := ascii_of_N (if (n <? 10)%N then n + 48 else n + 55).

Fixpoint QueryEscape (s : string) : string :=
  match s with
  | EmptyString => EmptyString
  | String a s =>
    if unreserved a then String a (QueryEscape s)
    else if Ascii.eqb a " " then String "+" (QueryEscape s)
    else let n := N_of_ascii a in
         String "%" (String (upperhex (n / 16)) (String (upperhex (n mod 16)) (QueryEscape s)))
  end.

Lemma unreserved_path a :
  unreserved a = true ->
  Ascii.eqb a "#" = false /\ Ascii.eqb a "?" = false /\ Ascii.eqb a "%" = false /\ Ascii.eqb a "/" = false.
Proof.
  intros H. split_and!; apply Ascii.eqb_neq; intros ->; discriminate H.
Qed.

Lemma url_path_cons a s :
  Ascii.eqb a "#" = false -> Ascii.eqb a "?" = false -> Ascii.eqb a "%" = false ->
  url_path (String a s) = String a <$> url_path s.
Proof. unfold url_path. cbn [cut_path]. intros -> ->. cbn [orb unescape]. by intros ->. Qed.

(** A text before the path without a mark or an escape stays. *)
Lemma url_path_app pre s :
  forallb (fun a => negb (Ascii.eqb a "#" || Ascii.eqb a "?" || Ascii.eqb a "%")) (String.list_ascii_of_string pre) = true ->
  url_path (pre +:+ s) = String.append pre <$> url_path s.
Proof.
  induction pre as [|a pre IH]; cbn [String.list_ascii_of_string forallb].
  { intros _. rewrite sapp_nil. by destruct (url_path s). }
  intros [Ha H]%andb_prop. apply negb_true_iff, orb_false_elim in Ha as [[H1 H2]%orb_false_elim H3].
  rewrite sapp_cons, url_path_cons, IH by done. by destruct (url_path s).
Qed.

Lemma url_path_plain key : forallb unreserved (String.list_ascii_of_string key) = true -> url_path key = Some key.
Proof.
  induction key as [|a key IH]; [done|]. cbn [String.list_ascii_of_string forallb].
  intros [(H1 & H2 & H3 & _)%unreserved_path H]%andb_prop. by rewrite url_path_cons, IH.
Qed.

Lemma QueryEscape_plain key : forallb unreserved (String.list_ascii_of_string key) = true -> QueryEscape key = key.
Proof.
  induction key as [|a key IH]; [done|]. cbn. intros [Ha H]%andb_prop. by rewrite Ha, IH.
Qed.

Lemma plain_no_slash key :
  forallb unreserved (String.list_ascii_of_string key) = true -> "/"%char ∉ String.list_ascii_of_string key.
Proof.
  induction key as [|a key IH]; cbn; [by intros _ ?%elem_of_nil|].
  intros [Ha H]%andb_prop [<-|Hin]%elem_of_cons; [discriminate Ha|by apply IH].
Qed.

(** A key with a question mark, and one with an escape, become another; and a
    blank groupcache writes as a plus sign, which a path keeps. *)
Example keys_in_paths :
  url_path "a?b" = Some "a" /\ url_path "a%2541" = Some "a%41" /\ url_path "100%" = None /\
  url_path (QueryEscape "a/%b") = Some "a/%b" /\ url_path (QueryEscape "a b") = Some "a+b".
Proof. vm_compute. done. Qed.

(** The table of urlutil_test.go. *)
Example TestMakeURL :
  MakeURL ":5501" = "http://127.0.0.1:5501" /\ MakeURL "127.0.0.1:5502" = "http://127.0.0.1:5502".
Proof. done. Qed.

(** Every proper address becomes a URL with a scheme, and making a URL of
    that URL gives it back unless it still ends in a slash; so the addresses
    the cache master stores name the same server when it posts to them. *)
Theorem MakeURL_stable addr :
  proper_addr addr = true ->
  has_scheme (MakeURL addr) = true /\
  (HasSuffix (MakeURL addr) "/" = false -> MakeURL (MakeURL addr) = MakeURL addr).
Proof.
  intros Hp. pose proof (MakeURL_has_scheme addr Hp) as Hs. split; [done|]. by apply MakeURL_fixed.
Qed.

Lemma MakeURL_stable_witness : MakeURL (MakeURL ":5501/") = MakeURL ":5501/".
Proof. apply (MakeURL_stable ":5501/"); reflexivity. Defined.

(** With two slashes at the end it is not stable. *)
Example MakeURL_two_slashes : MakeURL (MakeURL "a//") <> MakeURL "a//".
Proof. done. Qed.
