(* ===== verification/Http.v ===== *)
(** * HTTP as the program sees it

    Responses and clients ([mock.HTTPGetter], [mock.HTTPPoster] and the test
    doubles that implement them, utils/mock/http.go), and the response side
    of a gin request (the vendored response_writer.go and context.go), where
    the first write commits the status line: after a failed [BindJSON] has
    sent 400, a later [ctx.JSON(200, ...)] only adds a body. *)
From S2P Require Import Prelude Utf8 Json JsonTypes.

Definition StatusOK_http : Z := 200.
Definition StatusBadRequest : Z := 400.
Definition StatusNotFound : Z := 404.
Definition StatusInternalServerError : Z := 500.

(** The parts of [*http.Response] the program reads. *)
Record Response : Type := { StatusCode : Z; Body : string }.

#[global] Instance Response_eq_dec : EqDecision Response.
Proof. solve_decision. Defined.

(** A client runs in a world [W] it may change and returns a response or an
    error: [Get(url)] and [Post(url, contentType, body)]. *)
Definition HTTPGetter (W : Type) : Type := W -> string -> W * result Response.
Definition HTTPPoster (W : Type) : Type := W -> string -> string -> string -> W * result Response.

(** [MakeHTTPGetter(url, response, err, delay)]: a fixed answer.  The delay
    has no part in the value returned. *)
Definition MakeHTTPGetter {W} (response : string) (err : error) : HTTPGetter W :=
  fun w _ => (w, match err with
                 | Some e => Err e
                 | None => Ok {| StatusCode := StatusOK_http; Body := response |}
                 end).

Definition MakeHTTPPoster {W} (response : string) (err : error) : HTTPPoster W :=
  fun w _ _ _ => (w, match err with
                     | Some e => Err e
                     | None => Ok {| StatusCode := StatusOK_http; Body := response |}
                     end).

(** [HTTPGetterCluster]: the getter of the host of the URL, which gets the
    host.  [HostOfURL] is [url.Parse(rawurl).Host]. *)
Definition HTTPGetterCluster {W} (HostOfURL : string -> outcome string)
    (getterMap : gmap string (HTTPGetter W)) (w : W) (rawurl : string) : outcome (W * result Response) :=
  host ← HostOfURL rawurl;
  match getterMap !! host with
  | None => Panic "client: no getter can handle"
  | Some getter => Ret (getter w host)
  end.

Definition HTTPPosterCluster {W} (HostOfURL : string -> outcome string)
    (posterMap : gmap string (HTTPPoster W)) (w : W) (rawurl contentType body : string)
    : outcome (W * result Response) :=
  host ← HostOfURL rawurl;
  match posterMap !! host with
  | None => Panic "client: no poster can handle"
  | Some poster => Ret (poster w host contentType body)
  end.

(** ** gin's response writer *)

(** [status] is the status set so far, [sent] the one on the wire once the
    header is written. *)
Record responseWriter : Type := { w_status : Z; w_sent : option Z; w_body : string }.

(** [reset]: status 200, nothing written. *)
Definition new_writer : responseWriter := {| w_status := 200; w_sent := None; w_body := "" |}.

Definition WriteHeader (code : Z) (w : responseWriter) : responseWriter :=
  if (0 <? code)%Z && negb (w_status w =? code)%Z
  then {| w_status := code; w_sent := w_sent w; w_body := w_body w |} else w.

Definition WriteHeaderNow (w : responseWriter) : responseWriter :=
  match w_sent w with
  | None => {| w_status := w_status w; w_sent := Some (w_status w); w_body := w_body w |}
  | Some _ => w
  end.

Definition writer_Write (data : string) (w : responseWriter) : responseWriter :=
  let w := WriteHeaderNow w in
  {| w_status := w_status w; w_sent := w_sent w; w_body := w_body w +:+ data |}.

(** [ctx.JSON(code, obj)] where [obj] marshals to the text [data]. *)
Definition ctx_JSON (code : Z) (data : string) (w : responseWriter) : responseWriter :=
  writer_Write data (WriteHeader code w).

(** [ctx.AbortWithError(code, err)]: what reaches the client of it. *)
Definition AbortWithError (code : Z) (w : responseWriter) : responseWriter :=
  WriteHeaderNow (WriteHeader code w).

(** The response a client receives: [net/http] sends 200 if nothing was. *)
Definition sent_response (w : responseWriter) : Response :=
  {| StatusCode := default 200%Z (w_sent (WriteHeaderNow w)); Body := w_body w |}.

(** [ctx.BindJSON(obj)]: the first JSON value of the body decoded, and 400
    sent when that fails. *)
Definition BindJSON {A} (dec : json -> result A) (body : string) (w : responseWriter)
    : result A * responseWriter :=
  match json_decode dec body with
  | Ok a => (Ok a, w)
  | Err e => (Err e, AbortWithError StatusBadRequest w)
  end.

Lemma WriteHeader_fresh code :
  (0 < code)%Z ->
  WriteHeader code new_writer = {| w_status := code; w_sent := None; w_body := "" |}.
Proof.
  intros Hc. unfold WriteHeader, new_writer. cbn [w_status].
  destruct (Z.ltb_spec 0 code); [|lia]. by destruct (Z.eqb_spec 200 code) as [<-|].
Qed.

Lemma ctx_JSON_fresh code data :
  (0 < code)%Z ->
  sent_response (ctx_JSON code data new_writer) = {| StatusCode := code; Body := data |}.
Proof. intros Hc. unfold ctx_JSON. by rewrite WriteHeader_fresh. Qed.

(** Once a status is on the wire no later [ctx.JSON] changes it. *)
Lemma WriteHeader_keeps_sent code w : w_sent (WriteHeader code w) = w_sent w.
Proof. unfold WriteHeader. by destruct (_ && _). Qed.

Lemma ctx_JSON_sent code data w s :
  w_sent w = Some s -> StatusCode (sent_response (ctx_JSON code data w)) = s.
Proof.
  intros Hs. unfold ctx_JSON, writer_Write, sent_response, WriteHeaderNow.
  rewrite WriteHeader_keeps_sent, Hs. cbn [w_sent StatusCode].
  by rewrite WriteHeader_keeps_sent, Hs.
Qed.

Lemma AbortWithError_sent code :
  (0 < code)%Z -> w_sent (AbortWithError code new_writer) = Some code.
Proof. intros Hc. unfold AbortWithError. by rewrite WriteHeader_fresh. Qed.
