(* ===== verification/WebSocket.v ===== *)
(** * Websockets: the stats streams

    The handlers of [/ws/stats] of a database node (service.go) and of a
    cache node (node.go) are one loop: once a second the stats are marshalled
    and written to the connection, until a write fails.  The upgrade of the
    request is the websocket library's: when it fails it has replied to the
    client itself. *)
From S2P Require Import Prelude Utf8 Json JsonTypes Http.

(** The result of [wsUpgrader.Upgrade(ctx.Writer, ctx.Request, nil)] and what
    it left in the response writer. *)
Inductive upgrade : Type :=
  | Upgraded
  | Refused (w : responseWriter) (e : goerror).

(** The library's promise: a refusal has been answered. *)
Definition answers_refusal (u : upgrade) : Prop :=
  match u with Upgraded => True | Refused w _ => exists status, w_sent w = Some status end.

(** A connection: the messages written and whether the handler still runs. *)
Record stream : Type := { sent : list string; streaming : bool }.

Definition connected : stream := {| sent := []; streaming := true |}.

(** The handler up to its loop; [marshal_error e] is [gin.H] holding the
    error, as JSON. *)
Definition upgrade_stats (marshal_error : goerror -> string) (u : upgrade) : Response + stream :=
  match u with
  | Refused w e => inl (sent_response (ctx_JSON StatusInternalServerError (marshal_error e) w))
  | Upgraded => inr connected
  end.

(** One turn of the loop: the marshalled stats and whether the write
    succeeds. *)
Definition stats_tick (stats : result string) (write_ok : bool) (c : stream) : stream :=
  if negb (streaming c) then c
  else match stats with
       | Err _ => c
       | Ok b =>
         if write_ok then {| sent := sent c ++ [b]; streaming := true |}
         else {| sent := sent c; streaming := false |}
       end.

Definition stats_run (ticks : list (result string * bool)) (c : stream) : stream :=
  foldl (fun c t => stats_tick t.1 t.2 c) c ticks.

(** The texts of the ticks that could be marshalled. *)
Definition marshalled (ticks : list (result string * bool)) : list string :=
  omap (fun t => match t.1 with Ok b => Some b | Err _ => None end) ticks.

Lemma stats_run_closed ticks c : streaming c = false -> stats_run ticks c = c.
Proof.
  intros Hc. induction ticks as [|t ticks IH]; [done|]. cbn [stats_run foldl].
  unfold stats_tick at 2. by rewrite Hc.
Qed.

Lemma stats_run_open ticks c :
  streaming c = true -> Forall (fun t => t.2 = true) ticks ->
  stats_run ticks c = {| sent := sent c ++ marshalled ticks; streaming := true |}.
Proof.
  intros Hc Hw. revert c Hc. induction Hw as [|[r ok] ticks Hok _ IH]; intros [l o] Hc; cbn in Hc; subst.
  - cbn. by rewrite app_nil_r.
  - cbn in Hok. subst. cbn [stats_run foldl fst snd]. change (foldl _ ?a ticks) with (stats_run ticks a).
    destruct r as [b|e]; rewrite IH by done; cbn; [by rewrite <-(assoc_L (++))|done].
Qed.

(** A stream sends the stats of every tick, in order, skipping those that do
    not marshal, until the first write that fails; the handler then returns
    and nothing is sent any more, whatever comes. *)
Theorem stats_stream_spec ticks b rest :
  Forall (fun t => t.2 = true) ticks ->
  stats_run ticks connected = {| sent := marshalled ticks; streaming := true |} /\
  stats_run (ticks ++ (Ok b, false) :: rest) connected = {| sent := marshalled ticks; streaming := false |}.
Proof.
  intros Hw. pose proof (stats_run_open ticks connected eq_refl Hw) as H. split; [exact H|].
  unfold stats_run in *. rewrite foldl_app, H. cbn [foldl fst snd]. by apply stats_run_closed.
Qed.

(** The 500 of the handlers never reaches a client: a refused upgrade has
    already been answered by the library, whose status stays; only the body
    of the handler is added. *)
Theorem refused_upgrade_keeps_status marshal_error w e status :
  w_sent w = Some status ->
  exists resp, upgrade_stats marshal_error (Refused w e) = inl resp /\ StatusCode resp = status.
Proof. intros Hs. eexists. split; [done|]. by apply ctx_JSON_sent. Qed.
