(* ===== verification/MetaKV.v ===== *)
(** * meta: the metadata store

    The interface [meta.Meta] (meta/meta.go) as a class of operations, what
    its clients rely on as a class of laws, and its two implementations:
    the in-memory mock of the test environment (utils/mock/meta.go) and the
    etcd client wrapper (meta/etcd.go) over the calls of the etcd library,
    which are a parameter. *)
From S2P Require Import Prelude.

(** config/errors.go *)
Definition config_ErrDataNotFound : goerror := Sentinel "config.ErrDataNotFound".

(** [meta.KV]: [Get] and [Put] over a store state. *)
Class MetaOps (S : Type) : Type := {
  meta_Get : S -> string -> result string;
  meta_Put : S -> string -> string -> S * error;
}.

(** What the clients of a reachable store rely on. *)
Class MetaLaws (S : Type) `{!MetaOps S} : Prop := {
  meta_get_put_same : forall s k v s',
    meta_Put s k v = (s', None) -> meta_Get s' k = Ok v;
  meta_get_put_other : forall s k v s' k',
    meta_Put s k v = (s', None) -> k <> k' -> meta_Get s' k' = meta_Get s k';
}.

(** ** utils/mock/meta.go *)

Module Mock.
(** [Meta.data]; it is never nil. *)
Record Meta : Type := { data : gmap string string }.

Definition DefaultMeta : Meta := {| data := ∅ |}.

Definition Get (m : Meta) (key : string) : result string :=
  match data m !! key with
  | None => Err config_ErrDataNotFound
  | Some val => Ok val
  end.

Definition Put (m : Meta) (key value : string) : Meta * error :=
  ({| data := <[key := value]> (data m) |}, None).
End Mock.

#[export] Instance mock_ops : MetaOps Mock.Meta := {
  meta_Get := Mock.Get;
  meta_Put := Mock.Put;
}.

#[export] Instance mock_laws : MetaLaws Mock.Meta.
Proof.
  split.
  - intros s k v s' [= <-]. cbn. unfold Mock.Get. cbn. by rewrite lookup_insert_eq.
  - intros s k v s' k' [= <-] Hk. cbn. unfold Mock.Get. cbn. by rewrite lookup_insert_ne.
Qed.

Lemma mock_put_ok s k v : (meta_Put (S := Mock.Meta) s k v).2 = None.
Proof. done. Qed.

(** ** meta/etcd.go *)

(** The etcd client calls [etcd] makes: [cli.Get] returns the key-value
    pairs stored under a key (one or none, newest revision), [cli.Put] the
    new state and an error. *)
Class EtcdClient (S : Type) : Type := {
  cli_Get : S -> string -> result (list string);
  cli_Put : S -> string -> string -> S * error;
}.

(** The documented behaviour of a reachable etcd: a put is visible to the
    gets after it, and puts to other keys are independent. *)
Class EtcdLaws (S : Type) `{!EtcdClient S} : Prop := {
  cli_get_put_same : forall s k v s', cli_Put s k v = (s', None) -> cli_Get s' k = Ok [v];
  cli_get_put_other : forall s k v s' k',
    cli_Put s k v = (s', None) -> k <> k' -> cli_Get s' k' = cli_Get s k';
}.

Section etcd.
Context {S : Type} `{!EtcdClient S}.

Definition etcd_Get (s : S) (key : string) : result string :=
  match cli_Get s key with
  | Err e => Err e
  | Ok [] => Err config_ErrDataNotFound
  | Ok (kv :: _) => Ok kv
  end.

Definition etcd_Put (s : S) (key value : string) : S * error := cli_Put s key value.

#[export] Instance etcd_ops : MetaOps S := {
  meta_Get := etcd_Get;
  meta_Put := etcd_Put;
}.

(** The wrapper keeps the interface's promise when the client library
    keeps its own. *)
#[export] Instance etcd_laws `{!EtcdLaws S} : MetaLaws S.
Proof.
  split; cbn; unfold etcd_Get, etcd_Put.
  - intros s k v s' H. by rewrite (cli_get_put_same _ _ _ _ H).
  - intros s k v s' k' H Hk. by rewrite (cli_get_put_other _ _ _ _ _ H Hk).
Qed.
End etcd.

(** A concrete client: a map. *)
Module EtcdMap.
Definition get (m : gmap string string) (k : string) : result (list string) :=
  Ok (option_list (m !! k)).
Definition put (m : gmap string string) (k v : string) : gmap string string * error :=
  (<[k := v]> m, None).
#[export] Instance client : EtcdClient (gmap string string) := { cli_Get := get; cli_Put := put }.
#[export] Instance laws : EtcdLaws (gmap string string).
Proof.
  split; cbn; unfold get, put.
  - intros s k v s' [= <-]. by rewrite lookup_insert_eq.
  - intros s k v s' k' [= <-] Hk. by rewrite lookup_insert_ne.
Qed.
End EtcdMap.

(** ** WatchModify

    One turn of [etcd.WatchModify]'s loop on a response of the watch
    channel: the callbacks it runs and whether it watches anew.  The loop
    logs [resp.Events[0]] before it looks at the response, so a response
    without events, which is what the library sends when a watch fails, is an
    index out of range. *)

(** The response fields the loop reads.  An event carries the revisions
    [IsModify] compares. *)
Record WatchEvent : Type := { ev_put : bool; ev_create : Z; ev_mod : Z }.
Record WatchResponse : Type := {
  wr_Events : list WatchEvent;
  wr_Canceled : bool;
  wr_CompactRevision : Z;
  wr_closeErr : error;
}.

Definition IsModify (e : WatchEvent) : bool := ev_put e && negb (ev_create e =? ev_mod e)%Z.

Definition wr_Err (r : WatchResponse) : error :=
  match wr_closeErr r with
  | Some e => Some e
  | None =>
    if negb (wr_CompactRevision r =? 0)%Z then Some (Sentinel "v3rpc.ErrCompacted")
    else if wr_Canceled r then Some (Sentinel "v3rpc.ErrFutureRev") else None
  end.

Record watch_turn : Type := { do_calls : nat; rewatch : bool }.

Definition etcd_watch_step (resp : WatchResponse) : outcome watch_turn :=
  match wr_Events resp with
  | [] => Panic "index out of range"
  | _ :: _ =>
    if wr_Canceled resp then Ret {| do_calls := 0; rewatch := true |}
    else match wr_Err resp with
         | Some _ => Ret {| do_calls := 0; rewatch := true |}
         | None => Ret {| do_calls := length (filter (fun e => IsModify e = true) (wr_Events resp));
                          rewatch := false |}
         end
  end.

(** The mock's loop runs the callback at every tick. *)
Definition mock_watch_step : outcome watch_turn := Ret {| do_calls := 1; rewatch := false |}.

(** The watch loop runs the callback once per modification event of a
    response that is neither canceled nor erroneous and watches anew
    otherwise; but it panics on every response without events, which it looks
    at before it knows what the response is. *)
Theorem etcd_watch_spec resp :
  (wr_Events resp = [] -> ¬ is_Ret (etcd_watch_step resp)) /\
  (wr_Events resp <> [] ->
   etcd_watch_step resp =
   Ret (if wr_Canceled resp || bool_decide (is_Some (wr_Err resp))
        then {| do_calls := 0; rewatch := true |}
        else {| do_calls := length (filter (fun e => IsModify e = true) (wr_Events resp));
                rewatch := false |})).
Proof.
  unfold etcd_watch_step. split; [intros ->; by intros H|].
  destruct (wr_Events resp) as [|e l]; [done|]. intros _.
  destruct (wr_Canceled resp); [done|]. by destruct (wr_Err resp).
Qed.

(** The response the library sends when a watch is canceled carries no
    event. *)
Example canceled_watch_panics :
  ¬ is_Ret (etcd_watch_step {| wr_Events := []; wr_Canceled := true; wr_CompactRevision := 0;
                               wr_closeErr := None |}).
Proof. by intros H. Qed.

(** ** meta.go

    The default store: the mock in the test environment, else the etcd
    client, whose creation is [newEtcd]; a failure panics. *)
Inductive Meta_kind (S : Type) : Type := MockMeta (m : Mock.Meta) | EtcdMeta (s : S).
Arguments MockMeta {_} _.
Arguments EtcdMeta {_} _.

Definition meta_New {S} (newEtcd : result S) : result (Meta_kind S) :=
  match newEtcd with Err e => Err e | Ok etcd => Ok (EtcdMeta etcd) end.

Definition meta_init {S} (IsTest : bool) (newEtcd : result S) : outcome (Meta_kind S) :=
  if IsTest then Ret (MockMeta Mock.DefaultMeta)
  else match meta_New newEtcd with
       | Err _ => Panic "meta.New"
       | Ok meta => Ret meta
       end.
