(* ===== verification/Config.v ===== *)
(** * config: the configuration record (config/config.go)

    The fields the program reads, their default values from the struct tags,
    and the environment predicates.  Package variables such as
    [raftNodesKey] are projections of one such record. *)
From S2P Require Import Prelude.
From Stdlib Require Import Ascii.

Definition Env : Type := string.
Definition IsProduction (e : Env) : bool := bool_decide (e = "production").
Definition IsDevelop (e : Env) : bool := bool_decide (e = "develop").
Definition IsTest (e : Env) : bool := bool_decide (e = "test").

(** Durations are nanoseconds, as [time.Duration] counts them. *)
Record Config : Type := {
  cfg_Env : Env;
  HTTPRequestTimeout : Z;
  IdealResponseDuration : Z;
  EtcdEndpoints : list string;
  RaftKey : string;
  RaftNodesKey : string;
  CacheNodesKey : string;
  ShardCount : Z;
  CacheMasterAddr : string;
  CacheBytes : Z;
  AdminAddr : string;
}.

Definition default_Config : Config := {|
  cfg_Env := "develop";
  HTTPRequestTimeout := 100000000;
  IdealResponseDuration := 50000000;
  EtcdEndpoints := ["127.0.0.1:2379"];
  RaftKey := "oncekv.nodes.http.adrr";
  RaftNodesKey := "oncekv.db.nodes";
  CacheNodesKey := "oncekv.cache.nodes";
  ShardCount := 10;
  CacheMasterAddr := "127.0.0.1:5550";
  CacheBytes := 10485760;
  AdminAddr := "127.0.0.1:5546";
|}.

(** The metadata keys of the two masters do not collide: no per-node key is
    the key of a node list, and the two lists have different keys. *)
Record keys_disjoint (cfg : Config) : Prop := {
  raft_key_nodes : forall addr, RaftKey cfg +:+ "." +:+ addr <> RaftNodesKey cfg;
  raft_key_cache : forall addr, RaftKey cfg +:+ "." +:+ addr <> CacheNodesKey cfg;
  nodes_key_cache : RaftNodesKey cfg <> CacheNodesKey cfg;
}.

Lemma default_keys_disjoint : keys_disjoint default_Config.
Proof. by split. Qed.

(** ** path.Join

    Go's [path.Clean] reads a path element by element; the stack holds the
    elements of the cleaned path, the last one first. *)
Fixpoint split_slash (s : string) : list string :=
  match s with
  | EmptyString => [""]
  | String a s =>
    if Ascii.eqb a "/" then "" :: split_slash s
    else match split_slash s with
         | w :: ws => String a w :: ws
         | [] => [String a ""]
         end
  end.

Definition clean_element (rooted : bool) (stack : list string) (w : string) : list string :=
  if decide (w = "" \/ w = ".") then stack
  else if decide (w = "..") then
    match stack with
    | top :: rest => if decide (top = "..") then ".." :: stack else rest
    | [] => if rooted then [] else [".."]
    end
  else w :: stack.

Definition path_Clean (p : string) : string :=
  if decide (p = "") then "."
  else
    let rooted := HasPrefix p "/" in
    let cleaned := String.concat "/" (rev (foldl (clean_element rooted) [] (split_slash p))) in
    if rooted then "/" +:+ cleaned else if decide (cleaned = "") then "." else cleaned.

(** Empty elements are ignored; nothing but such elements gives the empty
    path. *)
Definition path_Join (elem : list string) : string :=
  match filter (fun e => e <> "") elem with
  | [] => ""
  | elem => path_Clean (String.concat "/" elem)
  end.

(** ** init

    The environment variable [GOPATH] and what configor makes of the file,
    the environment and the default tags.  The result is [root] and
    [Config]; a panic ends every program that imports the package. *)
Definition config_init (GOPATH : string) (configor_Load : string -> result Config) : outcome (string * Config) :=
  if decide (GOPATH = "") then Panic "oncekv: envroinment param $GOPATH not set"
  else
    let root := path_Join [GOPATH; "src"; "github.com"; "Focinfi"; "oncekv"] in
    match configor_Load (path_Join [root; "config"; "config.json"]) with
    | Err _ => Panic "configor"
    | Ok cfg => Ret (root, cfg)
    end.

Definition Root (vars : string * Config) : string := vars.1.

Example path_Join_examples :
  path_Join ["/go/"; "src"] = "/go/src" /\ path_Join ["a/../b"; ""; "./c"] = "b/c" /\
  path_Join ["/.."; "x"] = "/x" /\ path_Join ["../a"; ".."] = ".." /\ path_Join [""; ""] = "".
Proof. vm_compute. done. Qed.

(** *** A clean absolute path is a list of plain elements *)

Definition plain_element (w : string) : Prop :=
  split_slash w = [w] /\ w <> "" /\ w <> "." /\ w <> "..".

Definition absolute (ws : list string) : string := "/" +:+ String.concat "/" ws.

Lemma split_slash_not_nil s : split_slash s <> [].
Proof. destruct s as [|a s]; [done|]. cbn. destruct (Ascii.eqb a "/"); [done|]. by destruct (split_slash s). Qed.

Lemma split_slash_app w s : split_slash w = [w] -> split_slash (w +:+ "/" +:+ s) = w :: split_slash s.
Proof.
  induction w as [|a w IH]; [done|]. rewrite sapp_cons. cbn [split_slash].
  destruct (Ascii.eqb a "/"); [by intros [=]|].
  destruct (split_slash w) as [|w' ws] eqn:E; [by destruct (split_slash_not_nil w)|].
  intros [= -> ->]. by rewrite (IH eq_refl).
Qed.

Lemma split_slash_concat ws :
  Forall plain_element ws -> ws <> [] -> split_slash (String.concat "/" ws) = ws.
Proof.
  induction 1 as [|w ws [Hw _] _ IH]; [done|]. intros _. destruct ws as [|w' ws]; [exact Hw|].
  change (String.concat "/" (w :: w' :: ws)) with (w +:+ "/" +:+ String.concat "/" (w' :: ws)).
  by rewrite split_slash_app, IH.
Qed.

Lemma clean_plain rooted ws stack :
  Forall plain_element ws -> foldl (clean_element rooted) stack ws = rev ws ++ stack.
Proof.
  intros H. revert stack. induction H as [|w ws (_ & H1 & H2 & H3) _ IH]; intros stack; [done|].
  cbn [foldl rev]. rewrite IH. unfold clean_element. rewrite decide_False by tauto.
  rewrite decide_False by done. by rewrite <-(assoc_L (++)).
Qed.

Lemma Clean_absolute ws : Forall plain_element ws -> path_Clean (absolute ws) = absolute ws.
Proof.
  intros H. unfold path_Clean, absolute. rewrite decide_False by done. rewrite HasPrefix_app.
  change (split_slash ("/" +:+ String.concat "/" ws)) with ("" :: split_slash (String.concat "/" ws)).
  cbn [foldl]. change (clean_element true [] "") with (@nil string).
  destruct ws as [|w ws]; [done|]. rewrite split_slash_concat, clean_plain, app_nil_r, rev_involutive by done. done.
Qed.

Lemma concat_app ws ws' :
  ws <> [] -> ws' <> [] -> String.concat "/" (ws ++ ws') = String.concat "/" ws +:+ "/" +:+ String.concat "/" ws'.
Proof.
  intros H H'. induction ws as [|w ws IH]; [done|]. destruct ws as [|w' ws].
  - destruct ws' as [|w' ws']; [done|reflexivity].
  - change (String.concat "/" ((w :: w' :: ws) ++ ws')) with (w +:+ "/" +:+ String.concat "/" ((w' :: ws) ++ ws')).
    change (String.concat "/" (w :: w' :: ws)) with (w +:+ "/" +:+ String.concat "/" (w' :: ws)).
    rewrite IH by done. by rewrite !sapp_assoc.
Qed.

Lemma Join_absolute ws ws' :
  Forall plain_element ws -> Forall plain_element ws' -> ws <> [] ->
  path_Join (absolute ws :: ws') = absolute (ws ++ ws').
Proof.
  intros H H' Hne. unfold path_Join.
  assert (filter (fun e => e <> "") (absolute ws :: ws') = absolute ws :: ws') as ->.
  { rewrite filter_cons, decide_True by done. f_equal. induction H' as [|w ws' (_ & Hw & _) _ IH]; [done|].
    by rewrite filter_cons, decide_True, IH. }
  destruct ws' as [|w ws']; [rewrite app_nil_r; by apply Clean_absolute|].
  change (String.concat "/" (absolute ws :: w :: ws')) with (absolute ws +:+ "/" +:+ String.concat "/" (w :: ws')).
  rewrite <-(Clean_absolute (ws ++ w :: ws')) by (by apply Forall_app). f_equal.
  unfold absolute. rewrite concat_app by done. by rewrite !sapp_assoc.
Qed.

(** The package panics without a [GOPATH] or when the configuration does not
    load; otherwise the root is the directory of the repository below a
    [GOPATH] of one absolute clean path, and the file is the one in its
    directory [config]. *)
Theorem config_init_spec gopath load :
  Forall plain_element gopath -> gopath <> [] ->
  let root := gopath ++ ["src"; "github.com"; "Focinfi"; "oncekv"] in
  config_init (absolute gopath) load =
  match load (absolute (root ++ ["config"; "config.json"])) with
  | Err _ => Panic "configor"
  | Ok cfg => Ret (absolute root, cfg)
  end.
Proof.
  intros H Hne root. unfold config_init. rewrite decide_False by done.
  assert (Forall plain_element ["src"; "github.com"; "Focinfi"; "oncekv"]) as Hs by by repeat constructor.
  rewrite Join_absolute by done. fold root.
  rewrite Join_absolute; [done|by apply Forall_app|by repeat constructor|]. subst root. by destruct gopath.
Qed.

Lemma config_init_witness :
  config_init "/home/go" (fun _ => Ok default_Config) = Ret ("/home/go/src/github.com/Focinfi/oncekv", default_Config).
Proof. exact (config_init_spec ["home"; "go"] (fun _ => Ok default_Config) ltac:(by repeat constructor) ltac:(done)). Defined.

(** A [GOPATH] of several directories is taken for one. *)
Example gopath_list_is_one_path :
  config_init "/a:/b" (fun _ => Ok default_Config) = Ret ("/a:/b/src/github.com/Focinfi/oncekv", default_Config).
Proof. reflexivity. Qed.
