(* ===== verification/DBMaster.v ===== *)
(** * db/master: the database master (master.go, key.go)

    The list of database nodes in the metadata store: reading and replacing
    it, the map from raft to HTTP addresses, and the heartbeat that removes
    the nodes that do not answer. *)
From S2P Require Import Prelude Utf8 Json JsonTypes UrlUtil Http MetaKV Config.

Section master.
Context {M : Type} `{!MetaOps M}.
Context (cfg : Config).
Implicit Types s : M.

(** ** key.go *)

Definition httpAddrKeyOfRaftAddr (raftAddr : string) : string :=
  RaftKey cfg +:+ "." +:+ raftAddr.

(** ** The node list *)

Definition Master_fetchPeers s : result (slice string) :=
  match meta_Get s (RaftNodesKey cfg) with
  | Err e => if e ==e config_ErrDataNotFound then Ok (Some []) else Err e
  | Ok val => json_unmarshal dec_strings val
  end.

Definition Master_Peers s : result (slice string) := Master_fetchPeers s.

(** The argument slice is sorted in place before it is stored. *)
Definition Master_UpdatePeers s (peers : slice string) : M * error :=
  let peers := sort_strings <$> peers in
  let b := print_json (enc_strings peers) in
  meta_Put s (RaftNodesKey cfg) b.

Definition Master_RegisterPeer s (raftAddr httpAddr : string) : M * error :=
  meta_Put s (httpAddrKeyOfRaftAddr raftAddr) httpAddr.

Definition Master_PeerHTTPAddr s (raftAddr : string) : result string :=
  meta_Get s (httpAddrKeyOfRaftAddr raftAddr).

(** ** removeNodes *)

(** The loop over the current nodes: the nodes kept and whether one was
    dropped. *)
Fixpoint removeNodes_loop (toRemove : gset string) (cur : list string) : list string * bool :=
  match cur with
  | [] => ([], false)
  | peer :: cur =>
    let '(newPeers, changed) := removeNodes_loop toRemove cur in
    if decide (peer ∈ toRemove) then (newPeers, true) else (peer :: newPeers, changed)
  end.

(** Up to the write: the list [removeNodes] is going to store, if any. *)
Definition removeNodes_plan s (nodes : list string) : option (list string) :=
  match nodes with
  | [] => None
  | _ =>
    let toRemove : gset string := list_to_set nodes in
    match Master_fetchPeers s with
    | Err _ => None
    | Ok curNodes =>
      let '(newPeers, changed) := removeNodes_loop toRemove (elems curNodes) in
      if changed then Some newPeers else None
    end
  end.

(** The read and the write are separate calls to the metadata store. *)
Definition Master_removeNodes s (nodes : list string) : M :=
  match removeNodes_plan s nodes with
  | Some newPeers => (Master_UpdatePeers s (Some newPeers)).1
  | None => s
  end.

(** ** heartbeat *)

Section heartbeat.
Context {W : Type} (httpGetter : HTTPGetter W).

(** One probe goroutine: does the node have to be removed? *)
Definition heartbeat_probe (w : W) (url : string) : W * bool :=
  match httpGetter w (MakeURL url +:+ "/ping") with
  | (w, Err _) => (w, true)
  | (w, Ok resp) => (w, negb (StatusCode resp =? StatusOK_http)%Z)
  end.

(** The probes run concurrently; each appends its node under the mutex.
    [order] is the order in which they complete. *)
Fixpoint heartbeat_probes (w : W) (order : list string) : W * list string :=
  match order with
  | [] => (w, [])
  | url :: order =>
    let '(w, shouldRemove) := heartbeat_probe w url in
    let '(w, toRemove) := heartbeat_probes w order in
    (w, if shouldRemove then url :: toRemove else toRemove)
  end.

(** One heartbeat for a completion order of its probes: the nodes handed
    to the [removeNodes] goroutine, none when the list is unreadable. *)
Definition Master_heartbeat (w : W) s (order : list string) : W * list string :=
  match Master_fetchPeers s with
  | Err _ => (w, [])
  | Ok _ => heartbeat_probes w order
  end.

(** A period of [Start] whose removal goroutine finishes within it. *)
Definition Master_tick (w : W) s (order : list string) : W * M :=
  let '(w, toRemove) := Master_heartbeat w s order in
  (w, match toRemove with [] => s | _ => Master_removeNodes s toRemove end).
End heartbeat.
End master.

(** ** Facts *)

Section facts.
Context {M : Type} `{!MetaOps M, !MetaLaws M}.
Context (cfg : Config).
Implicit Types s : M.

(** The store accepts every write. *)
Definition writable : Prop := forall s k v, (meta_Put s k v).2 = None.

Lemma put_eq s k v : writable -> meta_Put s k v = ((meta_Put s k v).1, None).
Proof. intros H. rewrite <-(H s k v). by destruct (meta_Put s k v). Qed.

Lemma fetchPeers_valid s l : Master_fetchPeers cfg s = Ok (Some l) -> valid_list l.
Proof.
  unfold Master_fetchPeers. destruct (meta_Get s _) as [val|e].
  - apply json_unmarshal_strings_valid.
  - case_match; [|done]. intros [= <-]. constructor.
Qed.

Lemma fetchPeers_UpdatePeers s l s' :
  Master_UpdatePeers cfg s (Some l) = (s', None) ->
  Master_fetchPeers cfg s' = Ok (Some (sanitize <$> sort_strings l)).
Proof.
  unfold Master_UpdatePeers, Master_fetchPeers. intros H.
  erewrite meta_get_put_same by exact H. apply (marshal_strings_roundtrip (Some _)).
Qed.

Lemma valid_list_perm l l' : l ≡ₚ l' -> valid_list l -> valid_list l'.
Proof. intros Hp H. by apply (Permutation_Forall Hp). Qed.

Lemma fetchPeers_UpdatePeers_valid s l s' :
  valid_list l -> Master_UpdatePeers cfg s (Some l) = (s', None) ->
  Master_fetchPeers cfg s' = Ok (Some (sort_strings l)).
Proof.
  intros Hv H. apply fetchPeers_UpdatePeers in H. rewrite H, sanitize_list_id; [done|].
  eapply valid_list_perm; [|exact Hv]. by rewrite sort_strings_perm.
Qed.

Lemma removeNodes_loop_eq (R : gset string) cur :
  removeNodes_loop R cur =
  (filter (fun x => x ∉ R) cur, bool_decide (Exists (fun x => x ∈ R) cur)).
Proof.
  induction cur as [|x cur IH]; [done|]. cbn [removeNodes_loop]. rewrite IH, filter_cons.
  destruct (decide (x ∈ R)) as [Hx|Hx].
  - rewrite decide_False by naive_solver. f_equal. symmetry.
    apply bool_decide_eq_true. by left.
  - rewrite decide_True by done. f_equal. apply bool_decide_ext.
    rewrite Exists_cons. split; [by right|by intros [?|?]].
Qed.

Lemma filter_none {A} (P : A -> Prop) `{!forall x, Decision (P x)} l :
  ¬ Exists (fun x => ¬ P x) l -> filter P l = l.
Proof.
  induction l as [|x l IH]; [done|]. rewrite Exists_cons. intros Hn.
  rewrite filter_cons, decide_True; [f_equal; apply IH; naive_solver|].
  destruct (decide (P x)); naive_solver.
Qed.

Lemma removeNodes_plan_eq s nodes cur :
  Master_fetchPeers cfg s = Ok cur ->
  removeNodes_plan cfg s nodes =
  if decide (Exists (fun x => x ∈ nodes) (elems cur))
  then Some (filter (fun x => x ∉ nodes) (elems cur)) else None.
Proof.
  intros Hf. unfold removeNodes_plan.
  assert (forall P Q : string -> Prop, (forall x, P x <-> Q x) ->
            Exists P (elems cur) <-> Exists Q (elems cur)) as Hext.
  { intros P Q HPQ. by rewrite !Exists_exists; setoid_rewrite HPQ. }
  destruct nodes as [|n nodes].
  { destruct (decide _) as [He|]; [|done].
    apply Exists_exists in He as (x & _ & Hx). by apply elem_of_nil in Hx. }
  rewrite Hf, removeNodes_loop_eq.
  case_bool_decide as He; rewrite (Hext _ (fun x => x ∈ n :: nodes)) in He
    by (intros; apply elem_of_list_to_set).
  - rewrite decide_True by done. f_equal.
    apply list_filter_iff. intros x. by rewrite elem_of_list_to_set.
  - by rewrite decide_False.
Qed.

(** removeNodes in one equation: the list without the nodes, sorted and
    stored if that changed it. *)
Lemma removeNodes_eq s nodes cur :
  Master_fetchPeers cfg s = Ok cur ->
  Master_removeNodes cfg s nodes =
  if decide (Exists (fun x => x ∈ nodes) (elems cur))
  then (Master_UpdatePeers cfg s (Some (filter (fun x => x ∉ nodes) (elems cur)))).1 else s.
Proof.
  intros Hf. unfold Master_removeNodes. rewrite (removeNodes_plan_eq s nodes cur Hf).
  by destruct (decide _).
Qed.
End facts.

(** ** Properties *)

Section properties.
Context {M : Type} `{!MetaOps M, !MetaLaws M}.
Context (cfg : Config).
Implicit Types s : M.

(** The list read after an update is the sorted list that was written,
    and it does not depend on the order in which it was given. *)
Theorem UpdatePeers_then_Peers s l l' s' s'' :
  valid_list l -> l ≡ₚ l' ->
  Master_UpdatePeers cfg s (Some l) = (s', None) ->
  Master_UpdatePeers cfg s (Some l') = (s'', None) ->
  Master_Peers cfg s' = Ok (Some (sort_strings l)) /\
  Master_Peers cfg s'' = Master_Peers cfg s'.
Proof.
  intros Hv Hp H H'. unfold Master_Peers.
  apply fetchPeers_UpdatePeers_valid in H; [|done].
  apply fetchPeers_UpdatePeers_valid in H'; [|by eapply valid_list_perm].
  by rewrite H, H', Hp.
Qed.

Lemma httpAddrKey_inj a b :
  httpAddrKeyOfRaftAddr cfg a = httpAddrKeyOfRaftAddr cfg b -> a = b.
Proof. unfold httpAddrKeyOfRaftAddr. by intros ?%(inj _)%(inj _). Qed.

(** Registering a raft address makes its HTTP address readable, leaves
    the addresses registered for other raft addresses alone, and does not
    touch the node list. *)
Theorem RegisterPeer_spec s r h s' :
  keys_disjoint cfg ->
  Master_RegisterPeer cfg s r h = (s', None) ->
  Master_PeerHTTPAddr cfg s' r = Ok h /\
  (forall r', r' <> r -> Master_PeerHTTPAddr cfg s' r' = Master_PeerHTTPAddr cfg s r') /\
  Master_Peers cfg s' = Master_Peers cfg s.
Proof.
  unfold Master_RegisterPeer, Master_PeerHTTPAddr. intros Hk H. split_and!.
  - by eapply meta_get_put_same.
  - intros r' Hr. eapply meta_get_put_other; [done|]. by intros ->%httpAddrKey_inj.
  - unfold Master_Peers, Master_fetchPeers.
    erewrite meta_get_put_other; [done|exact H|]. apply (raft_key_nodes _ Hk).
Qed.

Lemma fetchPeers_removeNodes s nodes cur :
  writable (M := M) -> Master_fetchPeers cfg s = Ok (Some cur) ->
  Master_fetchPeers cfg (Master_removeNodes cfg s nodes) =
  Ok (Some (if decide (Exists (fun x => x ∈ nodes) cur)
            then sort_strings (filter (fun x => x ∉ nodes) cur) else cur)).
Proof.
  intros Hw Hf. rewrite (removeNodes_eq cfg s nodes _ Hf). cbn [elems default].
  pose proof (fetchPeers_valid cfg s cur Hf) as Hv.
  destruct (decide _); [|done].
  eapply (fetchPeers_UpdatePeers_valid cfg s).
  - by apply Forall_filter_sub.
  - unfold Master_UpdatePeers. by apply put_eq.
Qed.

(** [removeNodes] on a writable store: the node list keeps exactly the
    nodes that were not named, in sorted order when it is rewritten; when
    no named node is listed the store is not written at all. *)
Theorem removeNodes_spec s nodes cur :
  writable (M := M) -> Master_fetchPeers cfg s = Ok (Some cur) ->
  (exists cur',
    Master_Peers cfg (Master_removeNodes cfg s nodes) = Ok (Some cur') /\
    (forall x, x ∈ cur' <-> x ∈ cur /\ x ∉ nodes) /\
    ((exists x, x ∈ nodes /\ x ∈ cur) -> StronglySorted String.le cur')) /\
  ((forall x, x ∈ nodes -> x ∉ cur) -> Master_removeNodes cfg s nodes = s).
Proof.
  intros Hw Hf. split.
  - eexists. split; [by apply fetchPeers_removeNodes|]. split.
    + intros x. destruct (decide _) as [_|Hn].
      * rewrite elem_of_sort_strings, list_elem_of_filter. tauto.
      * split; [|by intros [? _]]. intros Hx. split; [done|]. intros Hx'.
        apply Hn, Exists_exists. by exists x.
    + intros (x & Hx & Hc). rewrite decide_True; [auto with oncekv|].
      apply Exists_exists. by exists x.
  - intros Hn. rewrite (removeNodes_eq cfg s nodes _ Hf), decide_False; [done|].
    intros (x & Hc & Hx)%Exists_exists. by apply (Hn x).
Qed.

(** The removal depends on the set of nodes only. *)
Lemma removeNodes_set s nodes nodes' :
  (forall x, x ∈ nodes <-> x ∈ nodes') ->
  Master_removeNodes cfg s nodes = Master_removeNodes cfg s nodes'.
Proof.
  intros Hn. destruct (Master_fetchPeers cfg s) as [cur|e] eqn:E.
  - rewrite !(removeNodes_eq cfg s _ _ E).
    assert (filter (fun x => x ∉ nodes) (elems cur) = filter (fun x => x ∉ nodes') (elems cur)) as ->.
    { apply list_filter_iff. intros x. by rewrite Hn. }
    assert (Exists (fun x => x ∈ nodes) (elems cur) <-> Exists (fun x => x ∈ nodes') (elems cur)) as He.
    { rewrite !Exists_exists. by setoid_rewrite Hn. }
    by destruct (decide (Exists (fun x => x ∈ nodes) _)), (decide (Exists (fun x => x ∈ nodes') _));
      try tauto.
  - unfold Master_removeNodes, removeNodes_plan. rewrite E. by destruct nodes, nodes'.
Qed.

#[global] Instance removeNodes_proper s :
  Proper ((≡ₚ) ==> (=)) (Master_removeNodes cfg s).
Proof. intros l l' Hp. apply removeNodes_set. intros x. by rewrite Hp. Qed.
End properties.

Section heartbeat_facts.
Context {M : Type} `{!MetaOps M, !MetaLaws M}.
Context (cfg : Config).
Implicit Types s : M.
Context {W : Type} (httpGetter : HTTPGetter W).

(** During the heartbeat every probe of a URL has the same answer. *)
Variable answers : string -> result Response.
Hypothesis getter_answers : forall w url, (httpGetter w url).2 = answers url.

Definition alive (node : string) : bool :=
  match answers (MakeURL node +:+ "/ping") with
  | Ok resp => (StatusCode resp =? StatusOK_http)%Z
  | Err _ => false
  end.

Lemma heartbeat_probe_eq w node : (heartbeat_probe httpGetter w node).2 = negb (alive node).
Proof.
  unfold heartbeat_probe, alive. rewrite <-(getter_answers w).
  by destruct (httpGetter w _) as [? [?|?]].
Qed.

Lemma heartbeat_probes_eq w order :
  (heartbeat_probes httpGetter w order).2 = filter (fun x => alive x = false) order.
Proof.
  revert w. induction order as [|x order IH]; intros w; [done|]. cbn [heartbeat_probes].
  pose proof (heartbeat_probe_eq w x) as Hp. destruct (heartbeat_probe _ w x) as [w' b].
  cbn [snd] in Hp. subst b. specialize (IH w'). destruct (heartbeat_probes _ w' order) as [w'' l].
  cbn [fst snd] in *. subst l. rewrite filter_cons. by destruct (alive x).
Qed.

(** The removal of one period. *)
Lemma Master_tick_eq w s order cur :
  Master_fetchPeers cfg s = Ok (Some cur) -> order ≡ₚ cur ->
  (Master_tick cfg httpGetter w s order).2
  = Master_removeNodes cfg s (filter (fun x => alive x = false) cur).
Proof.
  intros Hf Hp. unfold Master_tick, Master_heartbeat. rewrite Hf.
  pose proof (heartbeat_probes_eq w order) as Hq.
  destruct (heartbeat_probes _ w order) as [w' l]. cbn [fst snd] in *. subst l.
  assert (Master_removeNodes cfg s (filter (fun x => alive x = false) cur)
          = Master_removeNodes cfg s (filter (fun x => alive x = false) order)) as ->
    by (apply removeNodes_proper; by rewrite Hp).
  by destruct (filter _ order).
Qed.

Lemma tick_peers w s order cur :
  writable (M := M) -> Master_fetchPeers cfg s = Ok (Some cur) -> order ≡ₚ cur ->
  Master_fetchPeers cfg (Master_tick cfg httpGetter w s order).2 =
  Ok (Some (if decide (Exists (fun x => alive x = false) cur)
            then sort_strings (filter (fun x => alive x = true) cur) else cur)).
Proof.
  intros Hw Hf Hp. rewrite (Master_tick_eq w s order cur) by done.
  rewrite (fetchPeers_removeNodes cfg s _ cur) by done. do 2 f_equal.
  assert (Exists (fun x => x ∈ filter (fun x => alive x = false) cur) cur
          <-> Exists (fun x => alive x = false) cur) as He.
  { rewrite !Exists_exists. setoid_rewrite list_elem_of_filter.
    split; [intros (x & Hx & Hd & _)|intros (x & Hx & Hd)]; by exists x. }
  assert (filter (fun x => x ∉ filter (fun x => alive x = false) cur) cur
          = filter (fun x => alive x = true) cur) as ->.
  { apply filter_congr. intros x Hx. rewrite list_elem_of_filter.
    destruct (alive x); split; [done|by intros _ [? _]|intros Hn; by destruct Hn|done]. }
  by destruct (decide (Exists _ _)), (decide (Exists _ _)); try tauto.
Qed.
End heartbeat_facts.

Section heartbeat_properties.
Context {M : Type} `{!MetaOps M, !MetaLaws M}.
Context (cfg : Config).
Implicit Types s : M.
Context {W : Type} (httpGetter : HTTPGetter W).

(** C22: one heartbeat period on a writable store, whatever the order in
    which its probes complete: a node stays in the list exactly when its
    [/ping] answered 200, and a further period with the same answers
    changes nothing. *)
Theorem heartbeat_removes_exactly_dead answers w s order cur :
  (forall w url, (httpGetter w url).2 = answers url) ->
  writable (M := M) ->
  Master_fetchPeers cfg s = Ok (Some cur) -> order ≡ₚ cur ->
  let s' := (Master_tick cfg httpGetter w s order).2 in
  exists cur',
    Master_Peers cfg s' = Ok (Some cur') /\
    (forall x, x ∈ cur' <-> x ∈ cur /\ alive answers x = true) /\
    (forall w' order', order' ≡ₚ cur' -> (Master_tick cfg httpGetter w' s' order').2 = s').
Proof.
  intros Ha Hw Hf Hp s'. eexists. split; [by apply (tick_peers cfg httpGetter answers)|].
  set (cur' := if decide _ then _ else _).
  assert (forall x, x ∈ cur' <-> x ∈ cur /\ alive answers x = true) as Hcur'.
  { intros x. subst cur'. destruct (decide _) as [_|Hn].
    - rewrite elem_of_sort_strings, list_elem_of_filter. tauto.
    - split; [|by intros [? _]]. intros Hx. split; [done|].
      destruct (alive answers x) eqn:E; [done|]. destruct Hn. apply Exists_exists. eauto. }
  split; [exact Hcur'|]. intros w' order' Hp'.
  rewrite (Master_tick_eq cfg httpGetter answers Ha w' s' order' cur');
    [|by apply (tick_peers cfg httpGetter answers)|done].
  rewrite filter_nothing; [done|]. intros x [_ Hx]%Hcur'. congruence.
Qed.

(** C38: the read and the write of a removal are two calls to the store, so
    a node list stored between them is overwritten: a node that joined in
    that window is dropped although it was never named for removal. *)
Theorem removeNodes_loses_concurrent_join s s1 nodes cur newPeers node :
  writable (M := M) ->
  Master_fetchPeers cfg s = Ok (Some cur) ->
  removeNodes_plan cfg s nodes = Some newPeers ->
  node ∉ cur -> node ∉ nodes ->
  Master_UpdatePeers cfg s (Some (cur ++ [node])) = (s1, None) ->
  valid_utf8 node = true ->
  (exists l, Master_Peers cfg s1 = Ok (Some l) /\ node ∈ l) /\
  (exists l, Master_Peers cfg (Master_UpdatePeers cfg s1 (Some newPeers)).1 = Ok (Some l) /\
             node ∉ l).
Proof.
  intros Hw Hf Hplan Hcur Hn Hup Hv. pose proof (fetchPeers_valid cfg s cur Hf) as Hvc.
  rewrite (removeNodes_plan_eq cfg s nodes _ Hf) in Hplan. cbn [elems default] in Hplan.
  destruct (decide _); [|done]. injection Hplan as <-. cbn [id] in *. split.
  - exists (sort_strings (cur ++ [node])). split.
    + eapply fetchPeers_UpdatePeers_valid; [|exact Hup].
      apply Forall_app. split; [done|]. by apply Forall_singleton.
    + rewrite elem_of_sort_strings. set_solver.
  - eexists. split.
    + eapply (fetchPeers_UpdatePeers_valid cfg s1 (filter (fun x => x ∉ nodes) cur)).
      * by apply Forall_filter_sub.
      * unfold Master_UpdatePeers. by apply put_eq.
    + rewrite elem_of_sort_strings, list_elem_of_filter. tauto.
Qed.
End heartbeat_properties.

(** ** Witnesses, on the in-memory store *)

Lemma mock_writable : writable (M := Mock.Meta).
Proof. done. Qed.

(** A store that holds the node list [l]. *)
Definition mock_with (l : list string) : Mock.Meta :=
  (Master_UpdatePeers default_Config Mock.DefaultMeta (Some l)).1.

Lemma mock_with_peers l :
  valid_list l -> Master_fetchPeers default_Config (mock_with l) = Ok (Some (sort_strings l)).
Proof. intros Hv. by apply (fetchPeers_UpdatePeers_valid default_Config Mock.DefaultMeta l). Qed.

Lemma UpdatePeers_then_Peers_witness :
  Master_Peers default_Config (mock_with ["b"; "a"]) = Ok (Some ["a"; "b"]) /\
  Master_Peers default_Config (mock_with ["a"; "b"]) = Master_Peers default_Config (mock_with ["b"; "a"]).
Proof.
  apply (UpdatePeers_then_Peers default_Config Mock.DefaultMeta ["b"; "a"] ["a"; "b"]).
  - by repeat constructor.
  - apply Permutation_swap.
  - reflexivity.
  - reflexivity.
Defined.

Lemma RegisterPeer_witness :
  let s' := (Master_RegisterPeer default_Config (mock_with ["a"]) "r1" "h1").1 in
  Master_PeerHTTPAddr default_Config s' "r1" = Ok "h1" /\
  (forall r', r' <> "r1" -> Master_PeerHTTPAddr default_Config s' r'
                            = Master_PeerHTTPAddr default_Config (mock_with ["a"]) r') /\
  Master_Peers default_Config s' = Master_Peers default_Config (mock_with ["a"]).
Proof.
  apply (RegisterPeer_spec default_Config (mock_with ["a"]) "r1" "h1").
  - exact default_keys_disjoint.
  - reflexivity.
Defined.

Lemma removeNodes_witness :
  (exists cur',
     Master_Peers default_Config
       (Master_removeNodes default_Config (mock_with ["a"; "b"; "c"]) ["b"; "x"]) = Ok (Some cur') /\
     (forall x, x ∈ cur' <-> x ∈ ["a"; "b"; "c"] /\ x ∉ ["b"; "x"]) /\
     ((exists x, x ∈ ["b"; "x"] /\ x ∈ ["a"; "b"; "c"]) -> StronglySorted String.le cur')) /\
  ((forall x, x ∈ ["b"; "x"] -> x ∉ ["a"; "b"; "c"]) ->
     Master_removeNodes default_Config (mock_with ["a"; "b"; "c"]) ["b"; "x"]
     = mock_with ["a"; "b"; "c"]).
Proof.
  apply (removeNodes_spec default_Config (mock_with ["a"; "b"; "c"]) ["b"; "x"] ["a"; "b"; "c"]).
  - exact mock_writable.
  - apply mock_with_peers. by repeat constructor.
Defined.

(** A getter for which only node ["a"] is up. *)
Definition ping_a : string -> result Response := fun url =>
  if String.eqb url "http://a/ping" then Ok {| StatusCode := 200; Body := "pong" |}
  else Ok {| StatusCode := 500; Body := "" |}.

Lemma heartbeat_witness :
  exists cur',
    Master_Peers default_Config
      (Master_tick default_Config (fun (w : unit) url => (w, ping_a url)) tt
         (mock_with ["a"; "b"]) ["b"; "a"]).2 = Ok (Some cur') /\
    (forall x, x ∈ cur' <-> x ∈ ["a"; "b"] /\ alive ping_a x = true) /\
    (forall w' order', order' ≡ₚ cur' ->
       (Master_tick default_Config (fun (w : unit) url => (w, ping_a url)) w'
         (Master_tick default_Config (fun (w : unit) url => (w, ping_a url)) tt
            (mock_with ["a"; "b"]) ["b"; "a"]).2 order').2
       = (Master_tick default_Config (fun (w : unit) url => (w, ping_a url)) tt
            (mock_with ["a"; "b"]) ["b"; "a"]).2).
Proof.
  apply (heartbeat_removes_exactly_dead default_Config (fun (w : unit) url => (w, ping_a url))
           ping_a tt (mock_with ["a"; "b"]) ["b"; "a"] ["a"; "b"]).
  - reflexivity.
  - exact mock_writable.
  - apply mock_with_peers. by repeat constructor.
  - apply Permutation_swap.
Defined.

Lemma removeNodes_race_witness :
  (exists l, Master_Peers default_Config (mock_with ["a"; "b"; "c"]) = Ok (Some l) /\ "c" ∈ l) /\
  (exists l, Master_Peers default_Config
               (Master_UpdatePeers default_Config (mock_with ["a"; "b"; "c"]) (Some ["a"])).1
             = Ok (Some l) /\ "c" ∉ l).
Proof.
  apply (removeNodes_loses_concurrent_join default_Config (mock_with ["a"; "b"])
           (mock_with ["a"; "b"; "c"]) ["b"] ["a"; "b"] ["a"] "c").
  - exact mock_writable.
  - apply mock_with_peers. by repeat constructor.
  - vm_compute. reflexivity.
  - set_solver.
  - set_solver.
  - vm_compute. reflexivity.
  - reflexivity.
Defined.
