(* ===== verification/Store.v ===== *)
(** * db/node/store: the replicated key-value store (store.go)

    The commands and their JSON encoding, the finite state machine that raft
    drives (Apply, Snapshot, Restore, Persist), and the [Store] methods over
    a raft node, which is a parameter. *)
From S2P Require Import Prelude Utf8 Json JsonTypes.

(** ** Commands *)

Record command : Type := { Op : string; Key : string; Value : string }.

#[global] Instance command_eq_dec : EqDecision command.
Proof. solve_decision. Defined.

(** [json.Marshal(c)]: every field is tagged [omitempty]. *)
Definition marshal_command (c : command) : string :=
  print_json (JObj (omitempty "op" (Op c) ++ omitempty "key" (Key c) ++ omitempty "value" (Value c))).

Definition dec_command (j : json) : result command :=
  vals ← dec_struct ["op"; "key"; "value"] [""; ""; ""] j;
  Ok {| Op := default "" (vals !! 0); Key := default "" (vals !! 1);
        Value := default "" (vals !! 2) |}.

(** [json.Unmarshal(l.Data, &c)] *)
Definition unmarshal_command (data : string) : result command := json_unmarshal dec_command data.

(** ** The state machine

    Its state is the map [m] of the store; an [interface{}] response is nil
    or an error. *)

Definition fsm_applySet (m : gomap string) (key value : string) : outcome (gomap string * error) :=
  m' ← map_assign m key value;
  Ret (m', None).

Definition fsm_applyAdd (m : gomap string) (key value : string) : outcome (gomap string * error) :=
  match entries m !! key with
  | Some _ => Ret (m, Some (Fresh "key duplicated"))
  | None => m' ← map_assign m key value; Ret (m', None)
  end.

(** Deleting from a nil map does nothing. *)
Definition fsm_applyDelete (m : gomap string) (key : string) : outcome (gomap string * error) :=
  Ret (delete key <$> m, None).

Definition fsm_Apply (m : gomap string) (data : string) : outcome (gomap string * error) :=
  match unmarshal_command data with
  | Err _ => Panic "failed to unmarshal command"
  | Ok c =>
    if String.eqb (Op c) "add" then fsm_applyAdd m (Key c) (Value c)
    else if String.eqb (Op c) "set" then fsm_applySet m (Key c) (Value c)
    else if String.eqb (Op c) "delete" then fsm_applyDelete m (Key c)
    else Panic "unrecognized command op"
  end.

(** The clone of the map: never nil. *)
Definition fsm_Snapshot (m : gomap string) : gomap string := Some (entries m).

(** [json.NewDecoder(rc).Decode(&o)] into an empty map, which replaces the
    state when it succeeds. *)
Definition fsm_Restore (m : gomap string) (rc : string) : gomap string * error :=
  match json_decode (dec_map (Some ∅)) rc with
  | Err e => (m, Some e)
  | Ok o => (o, None)
  end.

(** A snapshot sink: what [Persist] calls of raft.SnapshotSink. *)
Class SnapshotSink (K : Type) : Type := {
  sink_Write : K -> string -> K * error;
  sink_Close : K -> K * error;
  sink_Cancel : K -> K;
}.

Definition fsmSnapshot_Persist {K} `{!SnapshotSink K} (store : gomap string) (sink : K) : K * error :=
  let '(sink, err) :=
    let b := print_json (enc_map store) in
    match sink_Write sink b with
    | (sink, Some e) => (sink, Some e)
    | (sink, None) =>
      match sink_Close sink with
      | (sink, Some e) => (sink, Some e)
      | (sink, None) => (sink, None)
      end
    end in
  match err with
  | Some e => (sink_Cancel sink, Some e)
  | None => (sink, None)
  end.

(** ** The store over a raft node *)

Inductive RaftState : Type := Follower | Candidate | Leader | Shutdown.

#[global] Instance RaftState_eq_dec : EqDecision RaftState.
Proof. solve_decision. Defined.

(** The raft calls the store makes.  [raft_commit] is what [Apply] does with
    the log: [None] once the entry is committed, the error of the future
    otherwise. *)
Class RaftNode (R : Type) : Type := {
  raft_State : R -> RaftState;
  raft_Leader : R -> string;
  raft_commit : R -> string -> R * error;
  raft_AddPeer : R -> string -> R * error;
  raft_Peers : R -> result (slice string);
  raft_Stats : R -> gmap string string;
}.

(** What a cluster of nodes relies on: the entries a node's raft has handed to
    its state machine.  A committed entry comes after those before it, and
    nothing else the store calls hands one over. *)
Class RaftLog (R : Type) `{!RaftNode R} : Type := {
  raft_applied : R -> list string;
}.
Class RaftLogLaws (R : Type) `{!RaftNode R, !RaftLog R} : Prop := {
  applied_commit : forall r data r',
    raft_commit r data = (r', None) -> raft_applied r' = raft_applied r ++ [data];
  applied_refuse : forall r data r' e,
    raft_commit r data = (r', Some e) -> raft_applied r' = raft_applied r;
  applied_AddPeer : forall r addr, raft_applied (raft_AddPeer r addr).1 = raft_applied r;
}.

Record Store (R : Type) : Type := {
  RaftDir : string;
  RaftBind : string;
  m : gomap string;
  raft : option R;
}.
Arguments RaftDir {_} _.
Arguments RaftBind {_} _.
Arguments m {_} _.
Arguments raft {_} _.

Definition Store_New {R} : Store R :=
  {| RaftDir := ""; RaftBind := ""; m := Some ∅; raft := None |}.

Definition with_m {R} (s : Store R) (m' : gomap string) : Store R :=
  {| RaftDir := RaftDir s; RaftBind := RaftBind s; m := m'; raft := raft s |}.
Definition with_raft {R} (s : Store R) (r : R) : Store R :=
  {| RaftDir := RaftDir s; RaftBind := RaftBind s; m := m s; raft := Some r |}.

Section store.
Context {R : Type} `{!RaftNode R}.
Implicit Types s : Store R.

(** A method on the nil raft pointer. *)
Definition get_raft s : outcome R :=
  match raft s with Some r => Ret r | None => Panic "nil pointer dereference" end.

Definition Store_Get s (key : string) : result string := Ok (map_get (m s) key).

(** [ApplyFuture]: [Error()] is the error of the commit; the response of
    the state machine is in [Response()]. *)
Record ApplyFuture : Type := { future_Error : error; future_Response : option error }.

(** [raft.Apply] on this node: a committed entry is applied to the state
    machine before the future completes. *)
Definition raft_Apply s (r : R) (data : string) : outcome (Store R * ApplyFuture) :=
  match raft_commit r data with
  | (r', Some e) => Ret (with_raft s r', {| future_Error := Some e; future_Response := None |})
  | (r', None) =>
    '(m', resp) ← fsm_Apply (m s) data;
    Ret (with_m (with_raft s r') m', {| future_Error := None; future_Response := Some resp |})
  end.

(** The common body of Set, Add and Delete. *)
Definition Store_propose s (c : command) : outcome (Store R * error) :=
  r ← get_raft s;
  if decide (raft_State r <> Leader) then Ret (s, Some (Fresh "not leader"))
  else
    let b := marshal_command c in
    '(s', f) ← raft_Apply s r b;
    Ret (s', future_Error f).

Definition Store_Set s (key value : string) : outcome (Store R * error) :=
  Store_propose s {| Op := "set"; Key := key; Value := value |}.

Definition Store_Add s (key value : string) : outcome (Store R * error) :=
  Store_propose s {| Op := "add"; Key := key; Value := value |}.

Definition Store_Delete s (key : string) : outcome (Store R * error) :=
  Store_propose s {| Op := "delete"; Key := key; Value := "" |}.

Definition Store_Join s (addr : string) : outcome (Store R * error) :=
  r ← get_raft s;
  let '(r', err) := raft_AddPeer r addr in
  Ret (with_raft s r', err).

Definition Store_Peers s : outcome (result (slice string)) :=
  r ← get_raft s; Ret (raft_Peers r).

Definition Store_Leader s : outcome string := r ← get_raft s; Ret (raft_Leader r).

Definition Store_Stats s : outcome (gmap string string) := r ← get_raft s; Ret (raft_Stats r).
End store.

(** ** Opening: the calls to the raft library in order, each of which may fail *)

Class RaftEnv (R : Type) : Type := {
  ResolveTCPAddr : string -> error;
  NewTCPTransport : string -> error;
  peers_json : string -> result (list string);
  NewFileSnapshotStore : string -> error;
  (** Given the directory of the file [raft.db]. *)
  NewBoltStore : string -> error;
  (** Given the address of the transport, the directory of the log and peer
      stores, and [EnableSingleNode]. *)
  NewRaft : string -> string -> bool -> result R;
}.

Definition Store_Open {R} `{!RaftEnv R} (s : Store R) (enableSingle : bool) : Store R * error :=
  match ResolveTCPAddr (R := R) (RaftBind s) with
  | Some e => (s, Some e)
  | None =>
  match NewTCPTransport (R := R) (RaftBind s) with
  | Some e => (s, Some e)
  | None =>
  match peers_json (R := R) (RaftDir s) with
  | Err e => (s, Some e)
  | Ok peers =>
    let EnableSingleNode := enableSingle && (length peers <=? 1) in
  match NewFileSnapshotStore (R := R) (RaftDir s) with
  | Some _ => (s, Some (Fresh "file snapshot store"))
  | None =>
  match NewBoltStore (R := R) (RaftDir s) with
  | Some _ => (s, Some (Fresh "new bolt store"))
  | None =>
  match NewRaft (RaftBind s) (RaftDir s) EnableSingleNode with
  | Err _ => (s, Some (Fresh "new raft"))
  | Ok ra => (with_raft s ra, None)
  end end end end end end.

(** ** Facts about commands *)

Definition sanitize_command (c : command) : command :=
  {| Op := sanitize (Op c); Key := sanitize (Key c); Value := sanitize (Value c) |}.

Definition valid_command (c : command) : Prop :=
  valid_utf8 (Op c) = true /\ valid_utf8 (Key c) = true /\ valid_utf8 (Value c) = true.

Lemma sanitize_command_id c : valid_command c -> sanitize_command c = c.
Proof. destruct c. intros (? & ? & ?). unfold sanitize_command. cbn [Op Key Value] in *.
  by rewrite !sanitize_id. Qed.

Lemma textual_omitempty n v l :
  textual (JObj (omitempty n v ++ l)) = textual (JObj l).
Proof. unfold omitempty. by destruct (String.eqb v ""). Qed.

Lemma textual_command c : textual (JObj (omitempty "op" (Op c) ++ omitempty "key" (Key c)
                                         ++ omitempty "value" (Value c))) = true.
Proof. rewrite !textual_omitempty. unfold omitempty. by destruct (String.eqb _ _). Qed.

Lemma unmarshal_marshal c : unmarshal_command (marshal_command c) = Ok (sanitize_command c).
Proof.
  unfold unmarshal_command, marshal_command.
  rewrite json_unmarshal_print by apply textual_command.
  destruct c as [o k v]. unfold omitempty, sanitize_command. cbn [Op Key Value].
  assert (forall x, String.eqb x "" = true -> x = "") as He by (intros x; apply String.eqb_eq).
  destruct (String.eqb o "") eqn:Eo, (String.eqb k "") eqn:Ek, (String.eqb v "") eqn:Ev;
    repeat match goal with H : String.eqb _ "" = true |- _ => apply He in H; subst end; done.
Qed.

Lemma unmarshal_valid data c : unmarshal_command data = Ok c -> valid_command c.
Proof.
  unfold unmarshal_command, json_unmarshal.
  destruct (parse_all data) as [j|] eqn:E; [|done]. apply parse_all_valid in E.
  unfold dec_command. destruct (dec_struct _ _ j) as [vals|] eqn:Ed; [|done].
  apply dec_struct_valid in Ed; [|by repeat constructor|done].
  intros [= <-]. assert (forall i, valid_utf8 (default "" (vals !! i)) = true) as H.
  { intros i. destruct (vals !! i) as [x|] eqn:Ei; [|done]. exact (Forall_lookup_1 _ _ _ _ Ed Ei). }
  split_and!; cbn; apply H.
Qed.

Lemma fsm_Apply_marshal m c :
  fsm_Apply m (marshal_command c) =
  let c := sanitize_command c in
  if String.eqb (Op c) "add" then fsm_applyAdd m (Key c) (Value c)
  else if String.eqb (Op c) "set" then fsm_applySet m (Key c) (Value c)
  else if String.eqb (Op c) "delete" then fsm_applyDelete m (Key c)
  else Panic "unrecognized command op".
Proof. unfold fsm_Apply. by rewrite unmarshal_marshal. Qed.

(** ** The invariant of the state machine *)

(** The map is not nil and holds valid strings. *)
Definition fsm_wf (m : gomap string) : Prop := exists g, m = Some g /\ valid_map g.

Lemma fsm_wf_empty : fsm_wf (Some ∅).
Proof. exists ∅. split; [done|apply map_Forall_empty]. Qed.

Lemma valid_map_insert g k v :
  valid_map g -> valid_utf8 k = true -> valid_utf8 v = true -> valid_map (<[k := v]> g).
Proof. intros. by apply map_Forall_insert_2. Qed.

Lemma valid_map_delete g k : valid_map g -> valid_map (delete k g).
Proof. intros. by apply map_Forall_delete. Qed.

(** A data item that is a command the store issues. *)
Definition known_op (data : string) : Prop :=
  exists c, unmarshal_command data = Ok c /\ (Op c = "add" \/ Op c = "set" \/ Op c = "delete").

Lemma fsm_Apply_wf m data :
  fsm_wf m -> known_op data ->
  exists m' resp, fsm_Apply m data = Ret (m', resp) /\ fsm_wf m'.
Proof.
  intros (g & -> & Hg) (c & Hc & Hop). pose proof (unmarshal_valid _ _ Hc) as (_ & Hk & Hv).
  unfold fsm_Apply. rewrite Hc. destruct Hop as [-> | [-> | ->]]; cbn.
  - unfold fsm_applyAdd. cbn. case_match; [|].
    + eexists _, _. split; [done|]. by exists g.
    + eexists _, _. split; [done|]. eexists. split; [done|]. by apply valid_map_insert.
  - eexists _, _. split; [done|]. eexists. split; [done|]. by apply valid_map_insert.
  - eexists _, _. split; [done|]. eexists. split; [done|]. by apply valid_map_delete.
Qed.

(** Applying a committed log. *)
Fixpoint fsm_replay (m : gomap string) (log : list string) : outcome (gomap string) :=
  match log with
  | [] => Ret m
  | data :: log => '(m', _) ← fsm_Apply m data; fsm_replay m' log
  end.

Lemma fsm_replay_wf m log :
  fsm_wf m -> Forall known_op log -> exists m', fsm_replay m log = Ret m' /\ fsm_wf m'.
Proof.
  intros Hm Hl. revert m Hm. induction Hl as [|d log Hd Hl IH]; intros m Hm; [by eexists|].
  destruct (fsm_Apply_wf m d Hm Hd) as (m' & resp & E & Hm').
  cbn [fsm_replay]. rewrite E. cbn. eauto.
Qed.

Lemma fsm_replay_app m l1 l2 : fsm_replay m (l1 ++ l2) = m' ← fsm_replay m l1; fsm_replay m' l2.
Proof.
  revert m. induction l1 as [|d l1 IH]; intros m; [done|].
  cbn [fsm_replay app]. change ((d :: l1) ++ l2) with (d :: (l1 ++ l2)). cbn [fsm_replay].
  destruct (fsm_Apply m d) as [[m' ?]|]; [cbn; apply IH|done].
Qed.

Definition add_command (kv : string * string) : command :=
  {| Op := "add"; Key := kv.1; Value := kv.2 |}.

Definition valid_kv (kv : string * string) : Prop :=
  valid_utf8 kv.1 = true /\ valid_utf8 kv.2 = true.

Lemma fsm_Apply_add g k v :
  fsm_Apply (Some g) (marshal_command (add_command (k, v)))
  = fsm_applyAdd (Some g) (sanitize k) (sanitize v).
Proof. by rewrite fsm_Apply_marshal. Qed.

(** The entry of an [Add] changes no value. *)
Lemma fsm_Apply_add_keeps (mp mp' : gomap string) key value resp k v :
  fsm_Apply mp (marshal_command (add_command (key, value))) = Ret (mp', resp) ->
  entries mp !! k = Some v -> entries mp' !! k = Some v.
Proof.
  destruct mp as [g|]; [|intros _; cbn; by rewrite lookup_empty].
  rewrite fsm_Apply_add. unfold fsm_applyAdd. intros H Hk. cbn [entries default] in *.
  change (id g) with g in *. destruct (g !! sanitize key) as [w|] eqn:E; simplify_eq/=; [done|].
  change (id ?x) with x. rewrite lookup_insert_ne; [done|]. intros <-. congruence.
Qed.

Lemma known_add kv : known_op (marshal_command (add_command kv)).
Proof. exists (sanitize_command (add_command kv)). split; [apply unmarshal_marshal|by left]. Qed.

(** Replaying adds: the entries that were there stay, then the first add of
    each key counts. *)
Lemma fsm_replay_adds g kvs :
  Forall valid_kv kvs ->
  fsm_replay (Some g) (marshal_command ∘ add_command <$> kvs) = Ret (Some (g ∪ list_to_map kvs)).
Proof.
  intros Hv. revert g. induction Hv as [|[k v] kvs [Hk Hv'] Hv IH]; intros g.
  { cbn. by rewrite map_union_empty. }
  rewrite fmap_cons. cbn [fsm_replay compose]. rewrite fsm_Apply_add. cbn [fst snd] in *.
  rewrite !sanitize_id by done. unfold fsm_applyAdd. cbn [entries default].
  change (id g !! k) with (g !! k). cbn [list_to_map foldr].
  change (list_to_map ((k, v) :: kvs)) with (<[k := v]> (list_to_map (M := gmap string string) kvs)).
  destruct (g !! k) as [v'|] eqn:E; cbn [mbind outcome_bind map_assign]; rewrite IH; do 2 f_equal;
    apply map_eq; intros i; rewrite !lookup_union; destruct (decide (i = k)) as [->|Hi];
    rewrite ?lookup_insert_eq, ?lookup_insert_ne by done; rewrite ?E; try done.
  - by destruct (list_to_map kvs !! k).
  - by destruct (list_to_map (M := gmap string string) kvs !! k).
Qed.

(** ** Properties *)

(** C29: a command read back from its JSON encoding is the command with every
    invalid UTF-8 byte replaced by U+FFFD; a command that came out of the
    decoder is read back unchanged. *)
Theorem command_roundtrip :
  (forall c, unmarshal_command (marshal_command c) = Ok (sanitize_command c)) /\
  (forall data c, unmarshal_command data = Ok c -> unmarshal_command (marshal_command c) = Ok c).
Proof.
  split; [exact unmarshal_marshal|]. intros data c Hc%unmarshal_valid.
  by rewrite unmarshal_marshal, sanitize_command_id.
Qed.

(** C10: first writer wins.  Replaying a log of adds on the state [g] keeps
    every entry of [g] and gives every other key the value of its first add
    in the log; later adds of a key are ignored. *)
Theorem replay_adds_first_wins g kvs :
  Forall valid_kv kvs ->
  exists g', fsm_replay (Some g) (marshal_command ∘ add_command <$> kvs) = Ret (Some g') /\
    (forall k v, g !! k = Some v -> g' !! k = Some v) /\
    (forall k, g !! k = None -> g' !! k = snd <$> head (filter (fun kv => kv.1 = k) kvs)).
Proof.
  intros Hv. exists (g ∪ list_to_map kvs). split; [by apply fsm_replay_adds|]. split.
  - intros k v Hk. by apply lookup_union_Some_l.
  - intros k Hk. rewrite lookup_union_r by done. clear Hv Hk.
    induction kvs as [|[k' v] kvs IH]; [done|].
    change (list_to_map ((k', v) :: kvs)) with (<[k' := v]> (list_to_map (M := gmap string string) kvs)).
    rewrite filter_cons. cbn [fst]. destruct (decide (k' = k)) as [->|Hne].
    + by rewrite lookup_insert_eq.
    + rewrite lookup_insert_ne by done. exact IH.
Qed.

(** C11: replicas agree on a log of adds of pairs of valid strings, the only
    command the service issues (Service.v).  Two replicas that started from
    the same state and have applied, one [l1] and the other [l1 ++ l2], hold
    the same value for every key that both have, and the one that is ahead
    has every key of the one behind. *)
Theorem replicas_agree g l1 l2 g1 g2 :
  Forall valid_kv (l1 ++ l2) ->
  fsm_replay (Some g) (marshal_command ∘ add_command <$> l1) = Ret (Some g1) ->
  fsm_replay (Some g) (marshal_command ∘ add_command <$> (l1 ++ l2)) = Ret (Some g2) ->
  g1 ⊆ g2.
Proof.
  intros [H1 H2]%Forall_app. rewrite !fsm_replay_adds by by rewrite ?Forall_app. intros [= <-] [= <-].
  rewrite list_to_map_app, (assoc_L (∪)). apply map_union_subseteq_l.
Qed.

(** C26: a log of commands the store issues never makes the state machine
    panic (no undecodable entry, no unknown operation, no write to a nil
    map), and the map stays non-nil with valid strings. *)
Theorem replay_safe m log :
  fsm_wf m -> Forall known_op log ->
  is_Ret (fsm_replay m log) /\ (forall m', fsm_replay m log = Ret m' -> fsm_wf m').
Proof.
  intros Hm Hl. destruct (fsm_replay_wf m log Hm Hl) as (m' & -> & Hm').
  split; [done|]. by intros ? [= <-].
Qed.

Lemma restore_persisted m0 m :
  fsm_wf m -> fsm_Restore m0 (print_json (enc_map (fsm_Snapshot m))) = (m, None).
Proof.
  intros (g & -> & Hg). unfold fsm_Restore, fsm_Snapshot. cbn [entries default].
  change (id g) with g. by rewrite decode_map_roundtrip.
Qed.

(** C12: a replica restored from the snapshot of a log prefix and fed the rest
    of the log is in the state of a replica that applied the whole log,
    whatever it held before the restore. *)
Theorem snapshot_restore_catches_up m0 l1 l2 :
  Forall known_op l1 -> Forall known_op l2 ->
  exists m1 m2,
    fsm_replay (Some ∅) l1 = Ret m1 /\
    fsm_Restore m0 (print_json (enc_map (fsm_Snapshot m1))) = (m1, None) /\
    fsm_replay m1 l2 = Ret m2 /\
    fsm_replay (Some ∅) (l1 ++ l2) = Ret m2.
Proof.
  intros H1 H2. destruct (fsm_replay_wf _ _ fsm_wf_empty H1) as (m1 & E1 & Hm1).
  destruct (fsm_replay_wf _ _ Hm1 H2) as (m2 & E2 & _).
  exists m1, m2. split_and!; [done|by apply restore_persisted|done|].
  by rewrite fsm_replay_app, E1.
Qed.

(** C28: [Persist] cancels the sink exactly when it reports an error; when it
    succeeds, the sink was written once, with a text from which [Restore]
    rebuilds the snapshotted map, and then closed. *)
Theorem Persist_spec {K} `{!SnapshotSink K} m sink sink' err :
  fsm_wf m ->
  fsmSnapshot_Persist (fsm_Snapshot m) sink = (sink', err) ->
  match err with
  | Some e => exists k, sink' = sink_Cancel k /\
      ((exists data, sink_Write sink data = (k, Some e)) \/
       (exists data k0, sink_Write sink data = (k0, None) /\ sink_Close k0 = (k, Some e)))
  | None => exists data k0, sink_Write sink data = (k0, None) /\ sink_Close k0 = (sink', None) /\
      forall m0, fsm_Restore m0 data = (m, None)
  end.
Proof.
  intros Hm. unfold fsmSnapshot_Persist.
  destruct (sink_Write sink _) as [k [e|]] eqn:Ew.
  { intros [= <- <-]. exists k. eauto. }
  destruct (sink_Close k) as [k' [e|]] eqn:Ec; intros [= <- <-].
  - exists k'. split; [done|]. right. eauto.
  - eexists _, k. split_and!; [done|done|]. intros m0. by apply restore_persisted.
Qed.

Section store_properties.
Context {R : Type} `{!RaftNode R}.
Implicit Types s : Store R.

(** Every write is refused, without any effect, by a node that is not
    the leader. *)
Theorem write_needs_leader s r k v :
  raft s = Some r -> raft_State r <> Leader ->
  Store_Add s k v = Ret (s, Some (Fresh "not leader")) /\
  Store_Set s k v = Ret (s, Some (Fresh "not leader")) /\
  Store_Delete s k = Ret (s, Some (Fresh "not leader")).
Proof.
  intros Hr Hl. unfold Store_Add, Store_Set, Store_Delete, Store_propose, get_raft.
  rewrite Hr. cbn. rewrite !decide_True by done. by split_and!.
Qed.

Lemma Store_Add_eq s r k v g :
  raft s = Some r -> raft_State r = Leader -> m s = Some g ->
  valid_utf8 k = true -> valid_utf8 v = true ->
  Store_Add s k v =
  match raft_commit r (marshal_command (add_command (k, v))) with
  | (r', Some e) => Ret (with_raft s r', Some e)
  | (r', None) =>
    Ret (with_m (with_raft s r')
           (Some match g !! k with Some _ => g | None => <[k := v]> g end), None)
  end.
Proof.
  intros Hr Hl Hm Hk Hv. unfold Store_Add, Store_propose, get_raft. rewrite Hr.
  run_bind. rewrite decide_False by naive_solver. unfold raft_Apply.
  change {| Op := "add"; Key := k; Value := v |} with (add_command (k, v)).
  destruct (raft_commit r _) as [r' [e|]]; [done|]. rewrite Hm, fsm_Apply_add, !sanitize_id by done.
  unfold fsm_applyAdd. cbn [entries default]. change (id g !! k) with (g !! k).
  by destruct (g !! k).
Qed.

(** What [Add] can come to: refused by this node, refused by raft, or
    committed and applied. *)
Lemma Store_Add_cases s k v s' err :
  Store_Add s k v = Ret (s', err) ->
  exists r, raft s = Some r /\
    ((s' = s /\ is_Some err) \/
     (exists r' e, raft_commit r (marshal_command (add_command (k, v))) = (r', Some e) /\
        s' = with_raft s r' /\ err = Some e) \/
     (exists r' m' resp, raft_commit r (marshal_command (add_command (k, v))) = (r', None) /\
        fsm_Apply (m s) (marshal_command (add_command (k, v))) = Ret (m', resp) /\
        s' = with_m (with_raft s r') m' /\ err = None)).
Proof.
  unfold Store_Add, Store_propose, get_raft, raft_Apply.
  change {| Op := "add"; Key := k; Value := v |} with (add_command (k, v)).
  destruct (raft s) as [r|]; [|done]. run_bind. intros H. exists r. split; [done|].
  destruct (decide _); [injection H as <- <-; left; by eauto|right].
  destruct (raft_commit r _) as [r' [e|]]; cbn [mbind outcome_bind] in H.
  - left. injection H as <- <-. by exists r', e.
  - right. destruct (fsm_Apply _ _) as [[m' resp]|]; [|done]. injection H as <- <-.
    by exists r', m', resp.
Qed.

(** [Add] on a leader whose raft commits the entry returns no error in
    every case: on a new key, which is then stored, and on a key that is
    there already, whose value is kept.  The state machine's [key
    duplicated] answer does not reach the caller. *)
Theorem Add_reports_duplicate_as_success s r r' k v g :
  raft s = Some r -> raft_State r = Leader -> m s = Some g ->
  valid_utf8 k = true -> valid_utf8 v = true ->
  raft_commit r (marshal_command (add_command (k, v))) = (r', None) ->
  exists s', Store_Add s k v = Ret (s', None) /\
    match g !! k with
    | Some old => m s' = Some g /\ Store_Get s' k = Ok old
    | None => m s' = Some (<[k := v]> g) /\ Store_Get s' k = Ok v
    end /\
    (forall k', k' <> k -> Store_Get s' k' = Store_Get s k').
Proof.
  intros Hr Hl Hm Hk Hv Hc. rewrite (Store_Add_eq s r k v g), Hc by done.
  eexists. split; [done|]. unfold Store_Get, map_get. cbn [with_m with_raft m]. rewrite Hm.
  cbn [entries default]. destruct (g !! k) as [old|] eqn:E.
  - split; [|done]. split; [done|]. change (id g !! k) with (g !! k). by rewrite E.
  - split.
    + split; [done|]. change (id (<[k := v]> g) !! k) with ((<[k := v]> g) !! k).
      by rewrite lookup_insert_eq.
    + intros k' Hk'. change (id (<[k := v]> g) !! k') with ((<[k := v]> g) !! k').
      by rewrite lookup_insert_ne.
Qed.

(** The empty value.  Adding a key with the empty value is accepted and
    reads like a missing key, but the key is taken: whatever is added for
    it later is dropped, again without an error. *)
Theorem empty_value_blocks_key s r r1 r2 k v g :
  raft s = Some r -> raft_State r = Leader -> m s = Some g -> g !! k = None ->
  valid_utf8 k = true -> valid_utf8 v = true ->
  raft_commit r (marshal_command (add_command (k, ""))) = (r1, None) ->
  raft_State r1 = Leader ->
  raft_commit r1 (marshal_command (add_command (k, v))) = (r2, None) ->
  exists s1 s2,
    Store_Get s k = Ok "" /\
    Store_Add s k "" = Ret (s1, None) /\ Store_Get s1 k = Ok "" /\
    Store_Add s1 k v = Ret (s2, None) /\ Store_Get s2 k = Ok "".
Proof.
  intros Hr Hl Hm Hg Hk Hv Hc1 Hl1 Hc2.
  exists (with_m (with_raft s r1) (Some (<[k := ""]> g))).
  exists (with_m (with_raft s r2) (Some (<[k := ""]> g))).
  unfold Store_Get, map_get. split_and!.
  - rewrite Hm. cbn. by rewrite Hg.
  - rewrite (Store_Add_eq s r k "" g), Hc1, Hg by done. done.
  - cbn. by rewrite lookup_insert_eq.
  - rewrite (Store_Add_eq _ r1 k v (<[k := ""]> g)), Hc2 by done.
    by rewrite lookup_insert_eq.
  - cbn. by rewrite lookup_insert_eq.
Qed.
End store_properties.

(** Opening a store enables raft's single-node mode exactly when it was
    asked for and at most one peer is on record, and a failed open leaves the
    store without a raft node. *)
Theorem Open_spec {R} `{!RaftEnv R} (s s' : Store R) enableSingle err :
  raft s = None -> Store_Open s enableSingle = (s', err) ->
  match err with
  | Some _ => s' = s
  | None => exists peers ra, peers_json (R := R) (RaftDir s) = Ok peers /\
      NewRaft (RaftBind s) (RaftDir s) (enableSingle && (length peers <=? 1)) = Ok ra /\
      raft s' = Some ra /\ m s' = m s
  end.
Proof.
  intros Hr. unfold Store_Open.
  repeat case_match; intros; simplify_eq; try done. eauto 10.
Qed.

(** ** A concrete raft node, sink and environment for the witnesses: a node
    that commits every entry to its own log as long as it has a peer. *)

Module LogNode.
Record node : Type := { st : RaftState; log : list string; peers : list string }.

#[global] Instance raft_node : RaftNode node := {
  raft_State := st;
  raft_Leader := fun _ => "127.0.0.1:1";
  raft_commit := fun n d =>
    match peers n with
    | [] => (n, Some (Fresh "leadership lost"))
    | _ => ({| st := st n; log := log n ++ [d]; peers := peers n |}, None)
    end;
  raft_AddPeer := fun n a => ({| st := st n; log := log n; peers := peers n ++ [a] |}, None);
  raft_Peers := fun n => Ok (Some (peers n));
  raft_Stats := fun _ => ∅;
}.

#[global] Instance raft_log : RaftLog node := { raft_applied := log }.

#[global] Instance raft_log_laws : RaftLogLaws node.
Proof.
  split; cbn.
  - intros [st l [|p ps]] d r'; cbn; by intros [= <-].
  - intros [st l [|p ps]] d r' e; cbn; by intros [= <-].
  - done.
Qed.

#[global] Instance raft_env : RaftEnv node := {
  ResolveTCPAddr := fun _ => None;
  NewTCPTransport := fun _ => None;
  peers_json := fun _ => Ok [];
  NewFileSnapshotStore := fun _ => None;
  NewBoltStore := fun _ => None;
  NewRaft := fun _ _ single => Ok {| st := if single then Leader else Follower; log := []; peers := [] |};
}.

#[global] Instance sink : SnapshotSink (string * bool) := {
  sink_Write := fun k d => ((k.1 +:+ d, k.2), None);
  sink_Close := fun k => ((k.1, true), None);
  sink_Cancel := fun k => ("", true);
}.

Definition store (s : RaftState) (g : gmap string string) : Store node :=
  {| RaftDir := "d"; RaftBind := "127.0.0.1:1"; m := Some g;
     raft := Some {| st := s; log := []; peers := ["127.0.0.1:1"] |} |}.
End LogNode.

Lemma replay_adds_first_wins_witness :
  exists g', fsm_replay (Some {["b" := "0"]})
    (marshal_command ∘ add_command <$> [("a", "1"); ("b", "2"); ("a", "3")]) = Ret (Some g') /\
  g' !! "a" = Some "1" /\ g' !! "b" = Some "0".
Proof.
  destruct (replay_adds_first_wins {["b" := "0"]} [("a", "1"); ("b", "2"); ("a", "3")])
    as (g' & E & H1 & H2); [by repeat constructor|].
  exists g'. split; [exact E|]. split; [rewrite H2; vm_compute; reflexivity|].
  apply H1. vm_compute; reflexivity.
Defined.

Lemma replicas_agree_witness :
  ({["a" := "1"]} : gmap string string) ⊆ {["a" := "1"; "b" := "2"]}.
Proof.
  apply (replicas_agree ∅ [("a", "1")] [("b", "2"); ("a", "3")]);
    [by repeat constructor|vm_compute; reflexivity|vm_compute; reflexivity].
Defined.

Lemma replay_safe_witness :
  is_Ret (fsm_replay (Some ∅) [marshal_command (add_command ("a", "1"))]).
Proof.
  apply replay_safe; [exact fsm_wf_empty|]. repeat constructor.
  exists (add_command ("a", "1")). split; [vm_compute; reflexivity|by left].
Defined.

Lemma snapshot_restore_catches_up_witness :
  exists m1 m2,
    fsm_replay (Some ∅) [marshal_command (add_command ("a", "1"))] = Ret m1 /\
    fsm_Restore None (print_json (enc_map (fsm_Snapshot m1))) = (m1, None) /\
    fsm_replay m1 [marshal_command (add_command ("b", "2"))] = Ret m2 /\
    fsm_replay (Some ∅) ([marshal_command (add_command ("a", "1"))]
                         ++ [marshal_command (add_command ("b", "2"))]) = Ret m2.
Proof.
  apply snapshot_restore_catches_up; repeat constructor;
    [exists (add_command ("a", "1"))|exists (add_command ("b", "2"))];
    (split; [vm_compute; reflexivity|by left]).
Defined.

Lemma Persist_witness :
  exists sink' data k0, fsmSnapshot_Persist (fsm_Snapshot (Some {["a" := "1"]})) ("", false) = (sink', None) /\
    sink_Write ("", false) data = (k0, None) /\ sink_Close k0 = (sink', None) /\
    fsm_Restore None data = (Some {["a" := "1"]}, None).
Proof.
  assert (fsmSnapshot_Persist (fsm_Snapshot (Some {["a" := "1"]})) ("", false)
          = ((print_json (JObj [("a", JStr "1")]), true), None)) as E by (vm_compute; reflexivity).
  destruct (Persist_spec (K := string * bool) (Some {["a" := "1"]}) _ _ None
              ltac:(eexists; split; [reflexivity|by apply map_Forall_singleton]) E)
    as (data & k0 & H1 & H2 & H3).
  exists (print_json (JObj [("a", JStr "1")]), true), data, k0.
  exact (conj E (conj H1 (conj H2 (H3 None)))).
Defined.

Lemma write_needs_leader_witness :
  Store_Add (LogNode.store Follower ∅) "a" "1"
  = Ret (LogNode.store Follower ∅, Some (Fresh "not leader")).
Proof.
  apply (write_needs_leader (LogNode.store Follower ∅)
           {| LogNode.st := Follower; LogNode.log := []; LogNode.peers := ["127.0.0.1:1"] |} "a" "1");
    [reflexivity|discriminate].
Defined.

Lemma Add_duplicate_witness :
  exists s', Store_Add (LogNode.store Leader {["a" := "1"]}) "a" "2" = Ret (s', None) /\
    Store_Get s' "a" = Ok "1".
Proof.
  destruct (Add_reports_duplicate_as_success (LogNode.store Leader {["a" := "1"]}) (R := LogNode.node)
              {| LogNode.st := Leader; LogNode.log := []; LogNode.peers := ["127.0.0.1:1"] |}
              {| LogNode.st := Leader; LogNode.log := [marshal_command (add_command ("a", "2"))];
                 LogNode.peers := ["127.0.0.1:1"] |} "a" "2" {["a" := "1"]}) as (s' & H1 & H2 & _);
    [reflexivity..|].
  exists s'. split; [exact H1|]. exact (proj2 H2).
Defined.

Lemma empty_value_witness :
  exists s1 s2,
    Store_Get (LogNode.store Leader ∅) "a" = Ok "" /\
    Store_Add (LogNode.store Leader ∅) "a" "" = Ret (s1, None) /\ Store_Get s1 "a" = Ok "" /\
    Store_Add s1 "a" "v" = Ret (s2, None) /\ Store_Get s2 "a" = Ok "".
Proof.
  apply (empty_value_blocks_key (LogNode.store Leader ∅)
           {| LogNode.st := Leader; LogNode.log := []; LogNode.peers := ["127.0.0.1:1"] |}
           {| LogNode.st := Leader; LogNode.log := [marshal_command (add_command ("a", ""))];
              LogNode.peers := ["127.0.0.1:1"] |}
           {| LogNode.st := Leader; LogNode.log := [marshal_command (add_command ("a", ""));
                                                    marshal_command (add_command ("a", "v"))];
              LogNode.peers := ["127.0.0.1:1"] |} "a" "v" ∅); reflexivity.
Defined.

Lemma Open_witness :
  exists s' ra, Store_Open {| RaftDir := "d"; RaftBind := "b"; m := Some ∅; raft := None (A := LogNode.node) |} true
             = (s', None) /\ raft s' = Some ra.
Proof.
  set (s := {| RaftDir := "d"; RaftBind := "b"; m := Some ∅; raft := None (A := LogNode.node) |}).
  assert (Store_Open s true
          = (with_raft s {| LogNode.st := Leader; LogNode.log := []; LogNode.peers := [] |}, None)) as E
    by reflexivity.
  destruct (Open_spec s _ true None eq_refl E) as (peers & ra & _ & _ & H & _).
  exact (ex_intro _ _ (ex_intro _ ra (conj E H))).
Defined.
