(* ===== verification/Service.v ===== *)
(** * db/node/service: the HTTP service of a database node (service.go,
    response.go)

    The handlers over any store that implements the [Store] interface, which
    the raft store of store.go and the mock store of utils/mock/store.go do,
    joining a cluster, and [Start]. *)
From S2P Require Import Prelude Utf8 Json JsonTypes UrlUtil Http WebSocket MetaKV Config DBMaster Store.
From Stdlib Require Import Ascii.

(** ** response.go *)

Record Status : Type := { Code : Z; Message : string }.

Definition OK : Z := 1000.
Definition ParamsError : Z := 1001.
Definition KeyNotFound : Z := 1002.
Definition KeyDuplicate : Z := 1003.
Definition InternalError : Z := 1004.
Definition NotLeaderError : Z := 1005.

Definition StatusParamsError : Status := {| Code := ParamsError; Message := "params error" |}.
Definition StatusNotLeaderError : Status :=
  {| Code := NotLeaderError; Message := "i am not the leader" |}.
Definition StatusKeyNotFound : Status := {| Code := KeyNotFound; Message := "key not found" |}.
Definition StatusKeyDuplicate : Status := {| Code := KeyDuplicate; Message := "key duplicate" |}.
Definition StatusInternalError : Status := {| Code := InternalError; Message := "internal error" |}.
Definition StatusOK : Status := {| Code := OK; Message := "" |}.

(** [Status] has no field tags. *)
Definition marshal_Status (s : Status) : string :=
  print_json (JObj [("Code", JNum (pretty (Code s))); ("Message", JStr (Message s))]).

(** ** The parameters and responses of service.go *)

Definition marshal_joinParams (addr : string) : string := print_json (JObj [("addr", JStr addr)]).

Definition dec_joinParams (j : json) : result string :=
  vals ← dec_struct ["addr"] [""] j; Ok (default "" (vals !! 0)).

Definition marshal_kvResp (key value : string) : string :=
  print_json (JObj [("key", JStr key); ("value", JStr value)]).

Definition dec_kv (j : json) : result (string * string) :=
  vals ← dec_struct ["key"; "value"] [""; ""] j;
  Ok (default "" (vals !! 0), default "" (vals !! 1)).

(** ** The [Store] interface and its two implementations *)

Class StoreOps (S : Type) : Type := {
  store_Open : S -> bool -> S * error;
  store_Get : S -> string -> result string;
  store_Add : S -> string -> string -> outcome (S * error);
  store_Join : S -> string -> outcome (S * error);
  store_Peers : S -> outcome (result (slice string));
  store_Leader : S -> outcome string;
  store_Stats : S -> outcome (gmap string string);
}.

#[export] Instance raft_store_ops {R} `{!RaftNode R, !RaftEnv R} : StoreOps (Store R) := {
  store_Open := Store_Open;
  store_Get := Store_Get;
  store_Add := Store_Add;
  store_Join := Store_Join;
  store_Peers := Store_Peers;
  store_Leader := Store_Leader;
  store_Stats := Store_Stats;
}.

(** utils/mock/store.go *)
Module MockStore.
Record Store : Type := { data : gmap string string; leader : string; peers : slice string }.

Definition NewStore : Store := {| data := ∅; leader := ""; peers := None |}.

Definition Open (s : Store) (_ : bool) : Store * error := (s, None).

Definition Get (s : Store) (key : string) : result string := Ok (default "" (data s !! key)).

Definition Add (s : Store) (key value : string) : Store * error :=
  match data s !! key with
  | Some _ => (s, Some (Fresh "duplicate"))
  | None =>
    ({| data := <[key := value]> (data s); leader := leader s; peers := peers s |}, None)
  end.

Definition Join (s : Store) (addr : string) : Store * error :=
  let peers :=
    if decide (length (elems (peers s)) = 0)
    then Some (sort_strings [leader s; addr])
    else Some (elems (peers s) ++ [addr]) in
  ({| data := data s; leader := leader s; peers := peers |}, None).

Definition Peers (s : Store) : result (slice string) := Ok (peers s).
Definition Leader (s : Store) : string := leader s.
Definition Stats (_ : Store) : gmap string string := ∅.
Definition SetLeader (s : Store) (l : string) : Store :=
  {| data := data s; leader := l; peers := peers s |}.
End MockStore.

#[export] Instance mock_store_ops : StoreOps MockStore.Store := {
  store_Open := MockStore.Open;
  store_Get := MockStore.Get;
  store_Add s k v := Ret (MockStore.Add s k v);
  store_Join s a := Ret (MockStore.Join s a);
  store_Peers s := Ret (MockStore.Peers s);
  store_Leader s := Ret (MockStore.Leader s);
  store_Stats s := Ret (MockStore.Stats s);
}.

(** ** The service *)

(** raftboltdb.ErrKeyDuplicated *)
Definition raftboltdb_ErrKeyDuplicated : goerror := Sentinel "raftboltdb.ErrKeyDuplicated".

Record Service (S : Type) : Type := { raftAddr : string; httpAddr : string; store : S }.
Arguments raftAddr {_} _.
Arguments httpAddr {_} _.
Arguments store {_} _.

Definition with_store {S} (s : Service S) (st : S) : Service S :=
  {| raftAddr := raftAddr s; httpAddr := httpAddr s; store := st |}.

Section service.
Context {S : Type} `{!StoreOps S}.
Implicit Types s : Service S.

(** *** Handlers: the response sent for a request *)

Definition respond (code : Z) (data : string) : Response :=
  sent_response (ctx_JSON code data new_writer).

Definition handleGet s (key : string) : outcome Response :=
  leader ← store_Leader (store s);
  if decide (raftAddr s <> leader)
  then Ret (respond StatusBadRequest (marshal_Status StatusNotLeaderError))
  else if decide (key = "")
  then Ret (respond StatusBadRequest (marshal_Status StatusParamsError))
  else match store_Get (store s) key with
       | Err _ => Ret (respond StatusInternalServerError (marshal_Status StatusInternalError))
       | Ok val =>
         if decide (val = "")
         then Ret (respond StatusNotFound (marshal_Status StatusKeyNotFound))
         else Ret (respond StatusOK_http (marshal_kvResp key val))
       end.

Definition handleSet s (body : string) : outcome (Service S * Response) :=
  leader ← store_Leader (store s);
  if decide (raftAddr s <> leader)
  then Ret (s, respond StatusBadRequest (marshal_Status StatusNotLeaderError))
  else match BindJSON dec_kv body new_writer with
       | (Err _, w) =>
         Ret (s, sent_response (ctx_JSON StatusOK_http (marshal_Status StatusParamsError) w))
       | (Ok (key, value), w) =>
         '(st, err) ← store_Add (store s) key value;
         let s := with_store s st in
         match err with
         | Some e =>
           if e ==e raftboltdb_ErrKeyDuplicated
           then Ret (s, sent_response (ctx_JSON StatusOK_http (marshal_Status StatusKeyDuplicate) w))
           else Ret (s, sent_response (ctx_JSON StatusOK_http (marshal_Status StatusInternalError) w))
         | None => Ret (s, sent_response (ctx_JSON StatusOK_http (marshal_Status StatusOK) w))
         end
       end.

(** The flag tells whether the handler started the [updatePeers]
    goroutine, which runs by itself after the response. *)
Definition handleJoin s (body : string) : outcome (Service S * Response * bool) :=
  leader ← store_Leader (store s);
  if decide (raftAddr s <> leader)
  then Ret (s, respond StatusBadRequest (marshal_Status StatusNotLeaderError), false)
  else match BindJSON dec_joinParams body new_writer with
       | (Err _, w) =>
         Ret (s, sent_response (ctx_JSON StatusBadRequest (marshal_Status StatusParamsError) w), false)
       | (Ok addr, w) =>
         '(st, err) ← store_Join (store s) addr;
         let s := with_store s st in
         match err with
         | Some _ =>
           Ret (s, sent_response (ctx_JSON StatusInternalServerError
                                    (marshal_Status StatusInternalError) w), false)
         | None => Ret (s, sent_response (ctx_JSON StatusOK_http (marshal_Status StatusOK) w), true)
         end
       end.

(** The routes of [New] but [/ws/stats]. *)
Inductive request : Type :=
  | GetKey (key : string)
  | PostKey (body : string)
  | PostJoin (body : string)
  | GetPing
  | GetStats.

(** gin's choice of the handler of a GET path; [None] is its 404.  A
    parameter is one non-empty path segment. *)
Definition route_GET (path : string) : option request :=
  if decide (path = "/ping") then Some GetPing
  else if decide (path = "/stats") then Some GetStats
  else if HasPrefix path "/i/key/" then
    let key := String.substring 7 (String.length path - 7) path in
    if decide (key = "" \/ "/"%char ∈ String.list_ascii_of_string key) then None
    else Some (GetKey key)
  else None.

Definition serve s (r : request) : outcome (Service S * Response * bool) :=
  match r with
  | GetKey key => resp ← handleGet s key; Ret (s, resp, false)
  | PostKey body => '(s, resp) ← handleSet s body; Ret (s, resp, false)
  | PostJoin body => handleJoin s body
  | GetPing => Ret (s, {| StatusCode := StatusOK_http; Body := "pong" |}, false)
  | GetStats =>
    stats ← store_Stats (store s);
    Ret (s, respond StatusOK_http (print_json (enc_map (Some stats))), false)
  end.

(** [/ws/stats]: the upgrade, and a turn of its loop, which sends the text of
    [/stats] as it is at that moment. *)
Definition handleWSStats : (goerror -> string) -> upgrade -> Response + stream := upgrade_stats.

Definition ws_stats_tick s (write_ok : bool) (c : stream) : outcome stream :=
  if streaming c then
    stats ← store_Stats (store s);
    Ret (stats_tick (Ok (print_json (enc_map (Some stats)))) write_ok c)
  else Ret c.

(** *** Joining and starting

    The metadata store is part of the world the poster runs in: the node
    that is asked to join may change it. *)
Context {M : Type} `{!MetaOps M}.
Context (cfg : Config) (httpPoster : HTTPPoster M).

Definition join_failed : goerror := Fresh "db/node/service: failed to join".

Fixpoint tryToJoin_loop s (w : M) (peers : list string) : M * error :=
  match peers with
  | [] => (w, Some join_failed)
  | peer :: peers =>
    if decide (peer = httpAddr s) then tryToJoin_loop s w peers
    else
      let b := marshal_joinParams (raftAddr s) in
      let url := MakeURL peer +:+ "/join" in
      match httpPoster w url "application/json" b with
      | (w, Err _) => tryToJoin_loop s w peers
      | (w, Ok res) =>
        if (StatusCode res =? StatusOK_http)%Z then (w, None) else tryToJoin_loop s w peers
      end
  end.

Definition tryToJoin s (w : M) (peers : list string) : M * error :=
  match peers with [] => (w, None) | _ => tryToJoin_loop s w peers end.

(** The HTTP address of every raft peer, or the first error. *)
Fixpoint updatePeers_addrs (w : M) (raftPeers : list string) : result (list string) :=
  match raftPeers with
  | [] => Ok []
  | raftAddr :: raftPeers =>
    match Master_PeerHTTPAddr cfg w raftAddr with
    | Err e => Err e
    | Ok peer => peers ← updatePeers_addrs w raftPeers; Ok (peer :: peers)
    end
  end.

Definition updatePeers s (w : M) : outcome (M * error) :=
  r ← store_Peers (store s);
  Ret match r with
      | Err e => (w, Some e)
      | Ok raftPeers =>
        if decide (length (elems raftPeers) = 0)
        then Master_UpdatePeers cfg w (Some [httpAddr s])
        else match updatePeers_addrs w (elems raftPeers) with
             | Err e => (w, Some e)
             | Ok peers => Master_UpdatePeers cfg w (Some peers)
             end
      end.

Definition register s (w : M) : M * error := Master_RegisterPeer cfg w (raftAddr s) (httpAddr s).

(** [Start] up to [s.Run]: [Some e] is the error [log.DB.Fatal] exits
    with, [None] a node that serves. *)
Definition Start s (w : M) : Service S * M * error :=
  match register s w with
  | (w, Some e) => (s, w, Some e)
  | (w, None) =>
  match Master_Peers cfg w with
  | Err e => (s, w, Some e)
  | Ok peers =>
    if decide (length (elems peers) = 0) then
      match store_Open (store s) true with
      | (st, Some e) => (with_store s st, w, Some e)
      | (st, None) =>
        let '(w, err) := Master_UpdatePeers cfg w (Some [httpAddr s]) in
        (with_store s st, w, err)
      end
    else
      match store_Open (store s) false with
      | (st, Some e) => (with_store s st, w, Some e)
      | (st, None) =>
        let '(w, err) := tryToJoin s w (elems peers) in
        (with_store s st, w, err)
      end
  end end.
End service.

(** [New(httpAddr, raftAddr, storeDir)] *)
Definition New {R} (httpAddr raftAddr storeDir : string) : Service (Store R) :=
  {| raftAddr := raftAddr; httpAddr := httpAddr;
     store := {| RaftDir := storeDir; RaftBind := raftAddr;
                 m := m (Store_New (R := R)); raft := raft Store_New |} |}.

(** ** Facts about the messages *)

Lemma kvResp_unmarshal k v :
  json_unmarshal dec_kv (marshal_kvResp k v) = Ok (sanitize k, sanitize v).
Proof. unfold marshal_kvResp. by rewrite json_unmarshal_print. Qed.

Lemma kv_decode k v :
  json_decode dec_kv (marshal_kvResp k v) = Ok (sanitize k, sanitize v).
Proof. unfold marshal_kvResp. by rewrite json_decode_print. Qed.

Lemma joinParams_decode a : json_decode dec_joinParams (marshal_joinParams a) = Ok (sanitize a).
Proof. unfold marshal_joinParams. by rewrite json_decode_print. Qed.

Lemma dec_kv_valid body k v :
  json_decode dec_kv body = Ok (k, v) -> valid_utf8 k = true /\ valid_utf8 v = true.
Proof.
  unfold json_decode. destruct (parse_first body) as [j|] eqn:E; [|done].
  apply parse_first_valid in E. unfold dec_kv.
  destruct (dec_struct _ _ j) as [vals|] eqn:Ed; [|done].
  apply dec_struct_valid in Ed; [|by repeat constructor|done].
  assert (forall i, valid_utf8 (default "" (vals !! i)) = true) as H.
  { intros i. destruct (vals !! i) as [x|] eqn:Ei; [|done]. exact (Forall_lookup_1 _ _ _ _ Ed Ei). }
  intros [= <- <-]. split; apply H.
Qed.

Lemma respond_eq code data :
  (0 < code)%Z -> respond code data = {| StatusCode := code; Body := data |}.
Proof. apply ctx_JSON_fresh. Qed.

(** ** Properties of the handlers over the raft store *)

Section raft_service.
Context {R : Type} `{!RaftNode R, !RaftEnv R}.
Implicit Types s : Service (Store R).

(** The node is the leader as both checks see it, and its map is [g]. *)
Record serving s (r : R) (g : gmap string string) : Prop := {
  serving_raft : raft (store s) = Some r;
  serving_addr : raft_Leader r = raftAddr s;
  serving_map : m (store s) = Some g;
}.

Lemma leader_eq s r g : serving s r g -> store_Leader (store s) = Ret (raftAddr s).
Proof.
  intros [Hr Ha _]. cbn. unfold Store_Leader, get_raft. rewrite Hr.
  run_bind. by rewrite Ha.
Qed.

Lemma Store_Get_eq (st : Store R) g k : m st = Some g -> Store_Get st k = Ok (default "" (g !! k)).
Proof. unfold Store_Get, map_get. by intros ->. Qed.

(** C27: a read on the leader answers 200 exactly when the key has a
    non-empty value, with a body that decodes to the key and that value;
    a missing or empty value is 404 and the empty key is 400. *)
Theorem handleGet_spec s r g k :
  serving s r g -> fsm_wf (Some g) -> valid_utf8 k = true ->
  exists resp, handleGet s k = Ret resp /\
    ((StatusCode resp = 200%Z /\ k <> "" /\
      exists v, v <> "" /\ g !! k = Some v /\ json_unmarshal dec_kv (Body resp) = Ok (k, v)) \/
     (StatusCode resp = 404%Z /\ k <> "" /\ default "" (g !! k) = "") \/
     (StatusCode resp = 400%Z /\ k = "")).
Proof.
  intros Hs (g' & [= <-] & Hg) Hk. unfold handleGet. rewrite (leader_eq s r g Hs).
  run_bind. rewrite decide_False by naive_solver.
  destruct (decide (k = "")) as [->|Hne].
  { eexists. split; [done|]. rewrite respond_eq by done. by right; right. }
  change (store_Get (store s) k) with (Store_Get (store s) k).
  rewrite (Store_Get_eq _ g) by apply Hs. destruct (g !! k) as [v|] eqn:E; cbn [default].
  - change (id v) with v. destruct (decide (v = "")) as [->|Hv];
      eexists; (split; [done|]); rewrite respond_eq by done; [by right; left|].
    left. split; [done|]. split; [done|]. exists v. split_and!; [done|done|].
    cbn [Body]. rewrite kvResp_unmarshal, !sanitize_id; [done| |done]. by apply (Hg k v).
  - eexists. split; [done|]. rewrite respond_eq by done. by right; left.
Qed.

Lemma handleSet_add s r g body k v :
  serving s r g -> json_decode dec_kv body = Ok (k, v) ->
  handleSet s body =
  '(st, err) ← Store_Add (store s) k v;
  Ret (with_store s st, respond StatusOK_http (marshal_Status
    match err with
    | Some e => if e ==e raftboltdb_ErrKeyDuplicated then StatusKeyDuplicate else StatusInternalError
    | None => StatusOK
    end)).
Proof.
  intros Hs Hb. unfold handleSet. rewrite (leader_eq s r g Hs). run_bind.
  rewrite decide_False by naive_solver. unfold BindJSON. rewrite Hb.
  change (store_Add (store s) k v) with (Store_Add (store s) k v).
  destruct (Store_Add (store s) k v) as [[st [e|]]|]; [|done|done]. cbn. by destruct (e ==e _).
Qed.

(** A write whose raft entry commits answers 200 with code 1000,
    whether the key is new or was there already: the answer [key duplicate]
    of the handler is not given for a duplicate key. *)
Theorem handleSet_hides_duplicates s r r' g body k v :
  serving s r g -> raft_State r = Leader ->
  json_decode dec_kv body = Ok (k, v) ->
  raft_commit r (marshal_command (add_command (k, v))) = (r', None) ->
  exists s', handleSet s body
    = Ret (s', {| StatusCode := 200; Body := marshal_Status StatusOK |}) /\
    m (store s') = Some match g !! k with Some _ => g | None => <[k := v]> g end.
Proof.
  intros Hs Hl Hb Hc. rewrite (handleSet_add s r g body k v Hs Hb).
  destruct (dec_kv_valid _ _ _ Hb) as [Hk Hv].
  rewrite (Store_Add_eq (store s) r k v g), Hc by (done || apply Hs).
  eexists. split; [run_bind; by rewrite respond_eq|]. done.
Qed.

(** A body that is no JSON object of the two strings is answered with
    400 although the handler asks for 200, since [BindJSON] has sent the
    header; the store is left alone. *)
Theorem handleSet_bad_body s r g body e :
  serving s r g -> json_decode dec_kv body = Err e ->
  exists data, handleSet s body = Ret (s, {| StatusCode := 400; Body := data |}).
Proof.
  intros Hs Hb. unfold handleSet. rewrite (leader_eq s r g Hs). run_bind.
  rewrite decide_False by naive_solver. unfold BindJSON. rewrite Hb.
  eexists. f_equal.
Qed.

(** A write that raft refuses is answered with 200; only the body tells
    it from a success. *)
Theorem handleSet_failure_is_200 s r r' g body k v e :
  serving s r g -> raft_State r = Leader ->
  json_decode dec_kv body = Ok (k, v) ->
  raft_commit r (marshal_command (add_command (k, v))) = (r', Some e) ->
  e <> raftboltdb_ErrKeyDuplicated ->
  exists s', handleSet s body
    = Ret (s', {| StatusCode := 200; Body := marshal_Status StatusInternalError |}) /\
    m (store s') = Some g.
Proof.
  intros Hs Hl Hb Hc He. rewrite (handleSet_add s r g body k v Hs Hb).
  destruct (dec_kv_valid _ _ _ Hb) as [Hk Hv].
  rewrite (Store_Add_eq (store s) r k v g), Hc by (done || apply Hs).
  exists (with_store s (with_raft (store s) r')). split; [|apply Hs]. run_bind.
  apply err_is_false in He. rewrite He. by rewrite respond_eq.
Qed.

(** *** Sequences of requests *)

Fixpoint serve_all s (reqs : list request) : outcome (Service (Store R)) :=
  match reqs with
  | [] => Ret s
  | r :: reqs => '(s', _, _) ← serve s r; serve_all s' reqs
  end.

(** What a request does to the node: nothing, a call of [AddPeer], or the
    [Add] of the pair in the body. *)
Lemma serve_cases s req s' resp b :
  serve s req = Ret (s', resp, b) ->
  (s' = s /\ forall body, req = PostKey body -> StatusCode resp = 400%Z) \/
  (exists body r addr, req = PostJoin body /\ raft (store s) = Some r /\
     s' = with_store s (with_raft (store s) (raft_AddPeer r addr).1)) \/
  (exists body k v st err, req = PostKey body /\ json_decode dec_kv body = Ok (k, v) /\
     Store_Add (store s) k v = Ret (st, err) /\ s' = with_store s st /\
     resp = respond StatusOK_http (marshal_Status
       match err with
       | Some e => if e ==e raftboltdb_ErrKeyDuplicated then StatusKeyDuplicate else StatusInternalError
       | None => StatusOK
       end)).
Proof.
  destruct req; cbn [serve].
  - destruct (handleGet s key) as [resp'|]; [|done]. intros [= <- _ _]. by left.
  - unfold handleSet. destruct (store_Leader (store s)) as [l|]; [|done]. run_bind.
    destruct (decide _); [intros [= <- <- _]; left; by rewrite respond_eq|]. unfold BindJSON.
    destruct (json_decode dec_kv body) as [[key value]|e] eqn:Ej; [|intros [= <- <- _]; by left].
    change (store_Add (store s) key value) with (Store_Add (store s) key value).
    destruct (Store_Add (store s) key value) as [[st err]|] eqn:E; [|done]. run_bind.
    intros H. right; right. exists body, key, value, st, err.
    destruct err as [e|]; [destruct (e ==e _)|]; injection H as <- <- _; done.
  - unfold handleJoin. destruct (store_Leader (store s)) as [l|]; [|done]. run_bind.
    destruct (decide _); [intros [= <- _ _]; by left|]. unfold BindJSON.
    destruct (json_decode dec_joinParams body) as [addr|e]; [|intros [= <- _ _]; by left].
    change (store_Join (store s) addr) with (Store_Join (store s) addr). unfold Store_Join, get_raft.
    destruct (raft (store s)) as [r|] eqn:Er; [|done]. run_bind.
    intros H. right; left. exists body, r, addr. split; [done|]. split; [done|].
    destruct (raft_AddPeer r addr) as [r' [e|]]; by injection H as <- _ _.
  - intros [= <- _ _]. by left.
  - destruct (store_Stats (store s)); [|done]. intros [= <- _ _]. by left.
Qed.

Lemma serve_keeps s req s' resp b k v :
  serve s req = Ret (s', resp, b) ->
  entries (m (store s)) !! k = Some v -> entries (m (store s')) !! k = Some v.
Proof.
  intros [[-> _]|[(? & r & addr & _ & _ & ->)|(body & key & value & st & err & _ & _ & E & -> & _)]]%serve_cases;
    [done..|].
  destruct (Store_Add_cases _ _ _ _ _ E)
    as (r & _ & [[-> _]|[(r' & e & _ & -> & _)|(r' & m' & ? & _ & Ha & -> & _)]]); [done..|].
  by eapply fsm_Apply_add_keeps.
Qed.

Lemma serve_all_keeps s reqs s' k v :
  serve_all s reqs = Ret s' ->
  entries (m (store s)) !! k = Some v -> entries (m (store s')) !! k = Some v.
Proof.
  revert s. induction reqs as [|req reqs IH]; intros s; cbn [serve_all]; [by intros [= <-]|].
  destruct (serve s req) as [[[s1 resp] b]|] eqn:E; [|done]. run_bind.
  intros H Hk. eapply IH; [exact H|]. by eapply serve_keeps.
Qed.

(** What a 200 of the read handler holds. *)
Lemma handleGet_200 s key resp :
  handleGet s key = Ret resp -> StatusCode resp = 200%Z ->
  exists v, v <> "" /\ entries (m (store s)) !! key = Some v /\ Body resp = marshal_kvResp key v.
Proof.
  unfold handleGet. destruct (store_Leader (store s)) as [l|]; [|done]. run_bind.
  destruct (decide _); [by intros [= <-]; rewrite respond_eq|].
  destruct (decide (key = "")); [by intros [= <-]; rewrite respond_eq|].
  change (store_Get (store s) key) with (Store_Get (store s) key). unfold Store_Get, map_get.
  destruct (entries (m (store s)) !! key) as [v|]; cbn [default]; [|by intros [= <-]; rewrite respond_eq].
  change (id v) with v. destruct (decide (v = "")); intros [= <-]; rewrite respond_eq by done; [done|].
  intros _. by exists v.
Qed.

(** C9: write once.  Whatever requests a node serves, and whatever raft
    answers them with, a key that has a value keeps it: no sequence of
    requests changes or removes an entry. *)
Theorem serve_write_once s reqs s' k v :
  serve_all s reqs = Ret s' ->
  Store_Get (store s) k = Ok v -> v <> "" ->
  Store_Get (store s') k = Ok v.
Proof.
  unfold Store_Get, map_get. intros H [= Hk] Hv. f_equal.
  destruct (entries (m (store s)) !! k) as [v'|] eqn:E; [|done]. cbn in Hk.
  by rewrite (serve_all_keeps _ _ _ _ _ H E).
Qed.
End raft_service.

(** ** Properties of joining and starting *)

Section joining.
Context {S : Type} `{!StoreOps S}.
Implicit Types s : Service S.

Definition join_url (peer : string) : string := MakeURL peer +:+ "/join".

(** A world that records the requests posted to it. *)
Definition recording (answers : string -> result Response) : HTTPPoster (list (string * string)) :=
  fun w url _ body => (w ++ [(url, body)], answers url).

Definition accepted (answers : string -> result Response) (peer : string) : bool :=
  match answers (join_url peer) with
  | Ok res => (StatusCode res =? StatusOK_http)%Z
  | Err _ => false
  end.

(** The list up to and including the first element that satisfies [f]. *)
Fixpoint take_through {A} (f : A -> bool) (l : list A) : list A :=
  match l with
  | [] => []
  | x :: l => x :: if f x then [] else take_through f l
  end.

Lemma tryToJoin_loop_eq answers s peers w :
  let others := filter (fun p => p <> httpAddr s) peers in
  tryToJoin_loop (recording answers) s w peers =
  (w ++ ((fun p => (join_url p, marshal_joinParams (raftAddr s)))
           <$> take_through (accepted answers) others),
   if existsb (accepted answers) others then None else Some join_failed).
Proof.
  cbv zeta. revert w. induction peers as [|p peers IH]; intros w; cbn [tryToJoin_loop].
  { by rewrite app_nil_r. }
  rewrite filter_cons. destruct (decide (p = httpAddr s)) as [->|Hp].
  { rewrite decide_False by naive_solver. apply IH. }
  rewrite decide_True by done. cbn [take_through existsb]. rewrite fmap_cons.
  unfold recording at 1, accepted at 1 3. fold (join_url p).
  destruct (answers (join_url p)) as [res|e]; cbn [orb].
  - destruct (StatusCode res =? StatusOK_http)%Z; cbn [orb]; [done|].
    rewrite IH. f_equal. by rewrite <-(assoc_L (++)).
  - rewrite IH. f_equal. by rewrite <-(assoc_L (++)).
Qed.

(** A node asks the peers other than itself to let it join, in their
    order, with its raft address, and stops at the first that answers 200;
    it fails exactly when the list is not empty and no other peer does. *)
Theorem tryToJoin_spec answers s peers w w' err :
  let others := filter (fun p => p <> httpAddr s) peers in
  tryToJoin (recording answers) s w peers = (w', err) ->
  w' = w ++ ((fun p => (join_url p, marshal_joinParams (raftAddr s)))
               <$> take_through (accepted answers) others) /\
  (err = None <-> peers = [] \/ Exists (fun p => accepted answers p = true) others).
Proof.
  cbv zeta. unfold tryToJoin. destruct peers as [|p peers].
  { intros [= <- <-]. rewrite filter_nil. cbn. rewrite app_nil_r. naive_solver. }
  rewrite tryToJoin_loop_eq. intros [= <- <-]. split; [done|].
  set (others := filter _ _). clearbody others.
  destruct (existsb (accepted answers) others) eqn:E; split; try done.
  - intros _. right. apply existsb_exists in E as (x & Hx & Hax).
    apply Exists_exists. exists x. split; [by apply list_elem_of_In|done].
  - intros [?|(x & Hx & Hax)%Exists_exists]; [done|].
    assert (existsb (accepted answers) others = true); [|congruence].
    apply existsb_exists. exists x. split; [by apply list_elem_of_In|done].
Qed.

Context {M : Type} `{!MetaOps M, !MetaLaws M}.
Context (cfg : Config).

Lemma updatePeers_addrs_eq (w : M) (h : string -> string) rp :
  (forall r, r ∈ rp -> Master_PeerHTTPAddr cfg w r = Ok (h r)) ->
  updatePeers_addrs cfg w rp = Ok (h <$> rp).
Proof.
  induction rp as [|r rp IH]; intros H; [done|]. cbn [updatePeers_addrs].
  rewrite H by left. rewrite IH by (intros; apply H; by right). done.
Qed.

(** After the leader has accepted a join and its [updatePeers] goroutine
    has run, the master lists the HTTP addresses of all raft peers, sorted,
    and so the one of the new node. *)
Theorem join_publishes_peers s s' st' (w w' : M) body addr rp (h : string -> string) :
  store_Leader (store s) = Ret (raftAddr s) ->
  json_decode dec_joinParams body = Ok addr ->
  store_Join (store s) addr = Ret (st', None) ->
  store_Peers st' = Ret (Ok (Some rp)) -> addr ∈ rp ->
  (forall r, r ∈ rp -> Master_PeerHTTPAddr cfg w r = Ok (h r) /\ valid_utf8 (h r) = true) ->
  handleJoin s body
    = Ret (s', {| StatusCode := 200; Body := marshal_Status StatusOK |}, true) ->
  updatePeers cfg s' w = Ret (w', None) ->
  exists peers, Master_Peers cfg w' = Ok (Some peers) /\
    peers ≡ₚ (h <$> rp) /\ StronglySorted String.le peers /\ h addr ∈ peers.
Proof.
  intros Hl Hb Hj Hp Hin Hreg Hh Hu.
  assert (store s' = st') as Hst.
  { clear Hreg. revert Hh. unfold handleJoin, BindJSON. rewrite Hl. run_bind.
    rewrite decide_False by naive_solver. rewrite Hb, Hj. cbn. by intros [= <-]. }
  revert Hu. unfold updatePeers. rewrite Hst, Hp. cbn [mbind outcome_bind elems default].
  change (id rp) with rp. rewrite decide_False by (destruct rp; [by apply elem_of_nil in Hin|done]).
  rewrite (updatePeers_addrs_eq w h) by (intros; by apply Hreg). intros [= Hu].
  exists (sort_strings (h <$> rp)). split_and!.
  - apply (fetchPeers_UpdatePeers_valid cfg w); [|exact Hu].
    apply Forall_fmap, Forall_forall. intros r Hr. by apply Hreg.
  - auto with oncekv.
  - auto with oncekv.
  - rewrite sort_strings_perm. by apply list_elem_of_fmap_2.
Qed.

(** When a raft peer has no registered HTTP address, [updatePeers]
    reports the error and writes nothing. *)
Theorem updatePeers_unregistered s (w : M) rp r e :
  store_Peers (store s) = Ret (Ok (Some rp)) -> r ∈ rp ->
  Master_PeerHTTPAddr cfg w r = Err e ->
  exists e', updatePeers cfg s w = Ret (w, Some e').
Proof.
  intros Hp Hr He. unfold updatePeers. rewrite Hp. cbn [mbind outcome_bind elems default].
  change (id rp) with rp. rewrite decide_False by (destruct rp; [by apply elem_of_nil in Hr|done]).
  assert (exists e', updatePeers_addrs cfg w rp = Err e') as [e' ->]; [|by exists e'].
  clear Hp. induction rp as [|r' rp IH]; [by apply elem_of_nil in Hr|]. cbn [updatePeers_addrs].
  apply elem_of_cons in Hr as [<-|Hr]; [rewrite He; eauto|].
  destruct (Master_PeerHTTPAddr cfg w r'); [|eauto].
  destruct (IH Hr) as [e' ->]. by exists e'.
Qed.

Lemma Master_Peers_put_other (w w' : M) k v :
  k <> RaftNodesKey cfg -> meta_Put w k v = (w', None) -> Master_Peers cfg w' = Master_Peers cfg w.
Proof.
  intros Hk Hp. unfold Master_Peers, Master_fetchPeers. by erewrite meta_get_put_other.
Qed.

(** A first node starts, opens its store in single mode and is the only
    node on record; started once more on the same metadata it exits with
    the join error, since the only peer it could join is itself. *)
Theorem Start_twice_alone poster s (w : M) :
  keys_disjoint cfg -> writable (M := M) ->
  valid_utf8 (httpAddr s) = true ->
  (forall single st, (store_Open st single).2 = None) ->
  Master_Peers cfg w = Ok (Some []) ->
  exists s1 w1 s2 w2,
    Start cfg poster s w = (s1, w1, None) /\ Master_Peers cfg w1 = Ok (Some [httpAddr s]) /\
    store s1 = (store_Open (store s) true).1 /\
    Start cfg poster s w1 = (s2, w2, Some join_failed).
Proof.
  intros Hk Hw Hv Ho Hp.
  assert (forall w', exists w1, register cfg s w' = (w1, None) /\
            Master_Peers cfg w1 = Master_Peers cfg w') as Hreg.
  { intros w'. unfold register, Master_RegisterPeer. eexists. split; [by apply put_eq|].
    eapply Master_Peers_put_other; [apply Hk|by apply put_eq]. }
  assert (forall single st, store_Open st single = ((store_Open st single).1, None)) as Hoe.
  { intros single st. specialize (Ho single st).
    destruct (store_Open st single) as [st' err]. cbn in *. by subst. }
  destruct (Hreg w) as (wr & Er & Hpr).
  set (wu := (Master_UpdatePeers cfg wr (Some [httpAddr s])).1).
  assert (Master_UpdatePeers cfg wr (Some [httpAddr s]) = (wu, None)) as Eu by by apply put_eq.
  assert (Master_Peers cfg wu = Ok (Some [httpAddr s])) as Hpu.
  { unfold Master_Peers. erewrite fetchPeers_UpdatePeers_valid; [|by repeat constructor|exact Eu].
    done. }
  destruct (Hreg wu) as (wr2 & Er2 & Hpr2).
  exists (with_store s (store_Open (store s) true).1), wu.
  exists (with_store s (store_Open (store s) false).1), wr2. split_and!; [|exact Hpu|done|].
  - unfold Start. rewrite Er, Hpr, Hp. cbn [elems default].
    rewrite decide_True by done. by rewrite Hoe, Eu.
  - unfold Start. rewrite Er2, Hpr2, Hpu. cbn [elems default].
    rewrite decide_False by done. rewrite Hoe.
    assert (tryToJoin poster s wr2 [httpAddr s] = (wr2, Some join_failed)) as E.
    { cbn [tryToJoin tryToJoin_loop]. by rewrite decide_True. }
    change (id [httpAddr s]) with [httpAddr s]. by rewrite E.
Qed.
End joining.

(** ** Witnesses *)

Definition node_of (peers : list string) (g : gmap string string) : Service (Store LogNode.node) :=
  {| raftAddr := "127.0.0.1:1"; httpAddr := "127.0.0.1:2";
     store := {| RaftDir := "d"; RaftBind := "127.0.0.1:1"; m := Some g;
                 raft := Some {| LogNode.st := Leader; LogNode.log := []; LogNode.peers := peers |} |} |}.

Lemma node_serving peers g :
  serving (node_of peers g) {| LogNode.st := Leader; LogNode.log := []; LogNode.peers := peers |} g.
Proof. by split. Qed.

Lemma handleGet_witness :
  exists resp, handleGet (node_of [] {["a" := "1"]}) "a" = Ret resp /\ StatusCode resp = 200%Z.
Proof.
  destruct (handleGet_spec (node_of [] {["a" := "1"]}) _ _ "a" (node_serving _ _))
    as (resp & E & [(H & _)|[(_ & _ & H)|(_ & H)]]).
  - exists {["a" := "1"]}. split; [reflexivity|]. by apply map_Forall_singleton.
  - reflexivity.
  - by exists resp.
  - discriminate H.
  - discriminate H.
Defined.

Lemma handleSet_duplicates_witness :
  exists s', handleSet (node_of ["p"] {["a" := "1"]}) (marshal_kvResp "a" "2")
    = Ret (s', {| StatusCode := 200; Body := marshal_Status StatusOK |}) /\
    m (store s') = Some {["a" := "1"]}.
Proof.
  destruct (handleSet_hides_duplicates (node_of ["p"] {["a" := "1"]}) _
           {| LogNode.st := Leader; LogNode.log := [marshal_command (add_command ("a", "2"))];
              LogNode.peers := ["p"] |} {["a" := "1"]} (marshal_kvResp "a" "2") "a" "2" (node_serving _ _))
    as (s' & H1 & H2); [vm_compute; reflexivity..|].
  exists s'. split; [exact H1|]. rewrite H2. vm_compute. reflexivity.
Defined.

Lemma handleSet_bad_body_witness :
  exists data, handleSet (node_of ["p"] ∅) "not json"
    = Ret (node_of ["p"] ∅, {| StatusCode := 400; Body := data |}).
Proof.
  apply (handleSet_bad_body (node_of ["p"] ∅) _ ∅ "not json" syntax_error (node_serving _ _)). vm_compute. reflexivity.
Defined.

Lemma handleSet_failure_witness :
  exists s', handleSet (node_of [] ∅) (marshal_kvResp "a" "2")
    = Ret (s', {| StatusCode := 200; Body := marshal_Status StatusInternalError |}) /\
    m (store s') = Some ∅.
Proof.
  apply (handleSet_failure_is_200 (node_of [] ∅) _
           {| LogNode.st := Leader; LogNode.log := []; LogNode.peers := [] |} ∅ (marshal_kvResp "a" "2") "a" "2"
           (Fresh "leadership lost") (node_serving _ _));
    [reflexivity|vm_compute; reflexivity|vm_compute; reflexivity|discriminate].
Defined.

Lemma serve_write_once_witness :
  exists s', serve_all (node_of ["p"] {["a" := "1"]})
    [PostKey (marshal_kvResp "a" "2"); PostKey "junk"; PostJoin "junk"; GetKey "a"] = Ret s' /\
    Store_Get (store s') "a" = Ok "1".
Proof.
  assert (exists s', serve_all (node_of ["p"] {["a" := "1"]})
    [PostKey (marshal_kvResp "a" "2"); PostKey "junk"; PostJoin "junk"; GetKey "a"] = Ret s') as [s' E]
    by (eexists; vm_compute; reflexivity).
  exists s'. split; [exact E|].
  apply (serve_write_once _ _ _ "a" "1" E); [vm_compute; reflexivity|discriminate].
Defined.

Definition join_answers (url : string) : result Response :=
  if String.eqb url "http://b/join" then Ok {| StatusCode := 200; Body := "" |}
  else Err (Fresh "refused").

Lemma tryToJoin_witness :
  tryToJoin (recording join_answers) (node_of [] ∅) [] ["127.0.0.1:2"; "a"; "b"; "c"]
  = ([("http://a/join", marshal_joinParams "127.0.0.1:1");
      ("http://b/join", marshal_joinParams "127.0.0.1:1")], None).
Proof.
  destruct (tryToJoin (recording join_answers) (node_of [] ∅) [] ["127.0.0.1:2"; "a"; "b"; "c"])
    as [w' err] eqn:E.
  destruct (tryToJoin_spec join_answers _ _ _ _ _ E) as [Hw Hn]. f_equal.
  - rewrite Hw. vm_compute. reflexivity.
  - apply Hn. right. vm_compute. right. left. reflexivity.
Defined.

(** A cluster as in service_test.go: the mock store, two registered nodes. *)
Definition two_nodes : Mock.Meta :=
  (Master_RegisterPeer default_Config
     (Master_RegisterPeer default_Config Mock.DefaultMeta "r1" "h1").1 "r2" "h0").1.

Definition mock_leader : Service MockStore.Store :=
  {| raftAddr := "r1"; httpAddr := "h1"; store := MockStore.SetLeader MockStore.NewStore "r1" |}.

Lemma join_publishes_peers_witness :
  exists w' peers, updatePeers default_Config
      (with_store mock_leader (MockStore.Join (store mock_leader) "r2").1) two_nodes = Ret (w', None) /\
    Master_Peers default_Config w' = Ok (Some peers) /\ peers ≡ₚ ["h1"; "h0"] /\ "h0" ∈ peers.
Proof.
  assert (exists w', updatePeers default_Config
      (with_store mock_leader (MockStore.Join (store mock_leader) "r2").1) two_nodes = Ret (w', None))
    as [w' E] by (eexists; vm_compute; reflexivity).
  destruct (join_publishes_peers default_Config mock_leader
              (with_store mock_leader (MockStore.Join (store mock_leader) "r2").1)
              (MockStore.Join (store mock_leader) "r2").1 two_nodes w'
              (marshal_joinParams "r2") "r2" ["r1"; "r2"]
              (fun r => if String.eqb r "r1" then "h1" else "h0"))
    as (peers & H1 & H2 & _ & H4);
    [reflexivity|vm_compute; reflexivity|reflexivity|vm_compute; reflexivity|right; left
    | |vm_compute; reflexivity|exact E|].
  - intros r [->|[->|[]%elem_of_nil]%elem_of_cons]%elem_of_cons; split; vm_compute; reflexivity.
  - exists w', peers. exact (conj E (conj H1 (conj H2 H4))).
Defined.

Lemma updatePeers_unregistered_witness :
  exists e, updatePeers default_Config
    (with_store mock_leader (MockStore.Join (store mock_leader) "r3").1) two_nodes
    = Ret (two_nodes, Some e).
Proof.
  apply (updatePeers_unregistered default_Config _ two_nodes ["r1"; "r3"] "r3" config_ErrDataNotFound);
    [vm_compute; reflexivity|right; left|vm_compute; reflexivity].
Defined.

Lemma Start_twice_witness :
  exists s1 w1 s2 w2,
    Start default_Config (MakeHTTPPoster "" None) mock_leader Mock.DefaultMeta = (s1, w1, None) /\
    Master_Peers default_Config w1 = Ok (Some [httpAddr mock_leader]) /\
    store s1 = (store_Open (store mock_leader) true).1 /\
    Start default_Config (MakeHTTPPoster "" None) mock_leader w1 = (s2, w2, Some join_failed).
Proof.
  apply (Start_twice_alone default_Config (MakeHTTPPoster "" None) mock_leader Mock.DefaultMeta);
    [exact default_keys_disjoint|exact mock_writable|reflexivity|reflexivity|reflexivity].
Defined.
