(* ===== verification/ByteOrder.v ===== *)
(** * raftboltdb/util.go: 64-bit integers as byte strings

    [uint64ToBytes] and [bytesToUint64] (encoding/binary's big-endian order)
    on Go's unsigned 64-bit integers, kept as [Z] modulo 2^64: they are
    inverse to each other, and the byte order of the keys is the numeric
    order of the indices, which the cursor scans of bolt_store.go rely on. *)
From S2P Require Import Prelude.
From Stdlib Require Import Ascii.

Definition byte_of (z : Z) : ascii := ascii_of_N (Z.to_N (Z.land z 255)).
Definition byte_val_Z (a : ascii) : Z := Z.of_N (N_of_ascii a).

(** The [n] low bytes of [u], the most significant first. *)
Fixpoint be_bytes (n : nat) (u : Z) : string :=
  match n with
  | O => EmptyString
  | S n => String (byte_of (Z.shiftr u (8 * Z.of_nat n)%Z)) (be_bytes n u)
  end.

Fixpoint be_value (n : nat) (b : string) : outcome Z :=
  match n, b with
  | O, _ => Ret 0%Z
  | S _, EmptyString => Panic "index out of range"
  | S n, String a b => v ← be_value n b; Ret (Z.lor (Z.shiftl (byte_val_Z a) (8 * Z.of_nat n)%Z) v)
  end.

Definition uint64ToBytes (u : Z) : string := be_bytes 8 u.
Definition bytesToUint64 (b : string) : outcome Z := be_value 8 b.

Definition is_uint64 (u : Z) : Prop := (0 <= u < 2 ^ 64)%Z.

Lemma byte_of_val z : byte_val_Z (byte_of z) = (z mod 256)%Z.
Proof.
  unfold byte_val_Z, byte_of. replace 255%Z with (Z.ones 8) by done.
  rewrite Z.land_ones by lia. change (2 ^ 8)%Z with 256%Z.
  pose proof (Z.mod_pos_bound z 256 ltac:(lia)).
  rewrite N_ascii_embedding by lia. lia.
Qed.

Lemma length_be_bytes n u : String.length (be_bytes n u) = n.
Proof. induction n as [|n IH]; cbn [be_bytes String.length]; [done|by rewrite IH]. Qed.

(** The split of [u mod 2^(8(n+1))] into its top byte and the rest. *)
Lemma mod_split n u :
  (u mod 2 ^ (8 * Z.of_nat (S n)) =
   (Z.shiftr u (8 * Z.of_nat n)%Z mod 256) * 2 ^ (8 * Z.of_nat n)%Z + u mod 2 ^ (8 * Z.of_nat n)%Z)%Z.
Proof.
  replace (8 * Z.of_nat (S n))%Z with (8 * Z.of_nat n + 8)%Z by lia.
  rewrite Z.pow_add_r, Z.shiftr_div_pow2 by lia. change (2 ^ 8)%Z with 256%Z.
  rewrite Z.rem_mul_r by lia. lia.
Qed.

Lemma lor_disjoint a b k :
  (0 <= k -> 0 <= b < 2 ^ k -> Z.lor (Z.shiftl a k) b = a * 2 ^ k + b)%Z.
Proof.
  intros Hk Hb. rewrite <-Z.shiftl_mul_pow2 by done. rewrite <-Z.add_lor_land.
  assert (Z.land (Z.shiftl a k) b = 0%Z) as ->; [|lia].
  apply Z.bits_inj'. intros i Hi. rewrite Z.land_spec, Z.bits_0.
  destruct (Z.ltb_spec i k).
  - by rewrite Z.shiftl_spec_low.
  - destruct (Z.eq_dec b 0) as [->|Hb0]; [by rewrite Z.bits_0, andb_false_r|].
    rewrite (Z.bits_above_log2 b i), andb_false_r; [done|lia|].
    assert (Z.log2 b < k)%Z by (apply Z.log2_lt_pow2; lia). lia.
Qed.

Lemma be_value_bytes n u : be_value n (be_bytes n u) = Ret (u mod 2 ^ (8 * Z.of_nat n)%Z)%Z.
Proof.
  induction n as [|n IH]; [cbn; by rewrite Z.mod_1_r|].
  cbn [be_bytes be_value]. rewrite IH. run_bind. f_equal.
  rewrite byte_of_val, lor_disjoint, mod_split; [done|lia|].
  apply Z.mod_pos_bound. lia.
Qed.

Lemma be_compare n u v :
  String.compare (be_bytes n u) (be_bytes n v)
  = Z.compare (u mod 2 ^ (8 * Z.of_nat n)%Z) (v mod 2 ^ (8 * Z.of_nat n)%Z).
Proof.
  induction n as [|n IH]; [cbn; by rewrite !Z.mod_1_r|].
  cbn [be_bytes String.compare]. rewrite IH, !mod_split.
  assert (forall z, N_of_ascii (byte_of z) = Z.to_N (z mod 256)) as Hb.
  { intros z. rewrite <-byte_of_val. unfold byte_val_Z. lia. }
  unfold Ascii.compare. rewrite !Hb.
  set (a := (Z.shiftr u (8 * Z.of_nat n)%Z mod 256)%Z). set (b := (Z.shiftr v (8 * Z.of_nat n)%Z mod 256)%Z).
  assert (0 <= a)%Z by (apply Z.mod_pos_bound; lia). assert (0 <= b)%Z by (apply Z.mod_pos_bound; lia).
  set (p := (2 ^ (8 * Z.of_nat n)%Z)%Z). assert (0 < p)%Z by (apply Z.pow_pos_nonneg; lia).
  assert (0 <= u mod p < p)%Z by (apply Z.mod_pos_bound; lia).
  assert (0 <= v mod p < p)%Z by (apply Z.mod_pos_bound; lia).
  rewrite Z2N.inj_compare by done. destruct (Z.compare_spec a b) as [->|Hlt|Hgt].
  - destruct (Z.compare_spec (u mod p) (v mod p)); symmetry;
      [apply Z.compare_eq_iff|apply Z.compare_lt_iff|apply Z.compare_gt_iff]; lia.
  - symmetry. apply Z.compare_lt_iff. nia.
  - symmetry. apply Z.compare_gt_iff. nia.
Qed.

Lemma uint64_mod u : is_uint64 u -> (u mod 2 ^ (8 * Z.of_nat 8))%Z = u.
Proof. unfold is_uint64. intros. apply Z.mod_small. done. Qed.

Lemma bytesToUint64_key u : is_uint64 u -> bytesToUint64 (uint64ToBytes u) = Ret u.
Proof. intros Hu. unfold bytesToUint64, uint64ToBytes. by rewrite be_value_bytes, uint64_mod. Qed.

Lemma key_compare u v :
  is_uint64 u -> is_uint64 v -> String.compare (uint64ToBytes u) (uint64ToBytes v) = Z.compare u v.
Proof. intros Hu Hv. unfold uint64ToBytes. by rewrite be_compare, !uint64_mod. Qed.

Lemma key_le u v :
  is_uint64 u -> is_uint64 v -> String.le (uint64ToBytes u) (uint64ToBytes v) <-> (u <= v)%Z.
Proof.
  intros Hu Hv. unfold String.le, String.leb. rewrite key_compare by done.
  destruct (Z.compare_spec u v); naive_solver lia.
Qed.

Lemma key_inj u v : is_uint64 u -> is_uint64 v -> uint64ToBytes u = uint64ToBytes v -> u = v.
Proof.
  intros Hu Hv E. apply (f_equal bytesToUint64) in E. rewrite !bytesToUint64_key in E by done.
  by simplify_eq.
Qed.

Lemma be_value_app n u x : be_value n (be_bytes n u +:+ x) = be_value n (be_bytes n u).
Proof. induction n as [|n IH]; [done|]. cbn [be_bytes]. rewrite sapp_cons. cbn [be_value]. by rewrite IH. Qed.

Lemma bytesToUint64_app u x : is_uint64 u -> bytesToUint64 (uint64ToBytes u +:+ x) = Ret u.
Proof.
  intros Hu. rewrite <-(bytesToUint64_key u Hu). unfold bytesToUint64, uint64ToBytes. apply be_value_app.
Qed.

Lemma length_uint64ToBytes u : String.length (uint64ToBytes u) = 8.
Proof. apply length_be_bytes. Qed.

Lemma be_value_short n b : String.length b < n -> ¬ is_Ret (be_value n b).
Proof.
  revert b. induction n as [|n IH]; intros b Hl; [lia|]. destruct b as [|a b]; [by intros H|].
  cbn in *. specialize (IH b ltac:(lia)). by destruct (be_value n b).
Qed.

Lemma bytesToUint64_short b : String.length b < 8 -> ¬ is_Ret (bytesToUint64 b).
Proof. apply be_value_short. Qed.

(** C37: on 64-bit integers the conversion to bytes is inverted by the one
    from bytes, gives 8 bytes, and turns the numeric order into the byte
    order; a slice of fewer than 8 bytes makes [bytesToUint64] panic. *)
Theorem uint64_bytes :
  (forall u, is_uint64 u ->
     bytesToUint64 (uint64ToBytes u) = Ret u /\ String.length (uint64ToBytes u) = 8) /\
  (forall u v, is_uint64 u -> is_uint64 v ->
     String.compare (uint64ToBytes u) (uint64ToBytes v) = Z.compare u v) /\
  (forall b, String.length b < 8 -> ¬ is_Ret (bytesToUint64 b)).
Proof.
  split_and!.
  - intros u Hu. split; [by apply bytesToUint64_key|apply length_be_bytes].
  - apply key_compare.
  - apply bytesToUint64_short.
Qed.

Example bytes_258 : uint64ToBytes 258 = String "000" (String "000" (String "000" (String "000"
  (String "000" (String "000" (String "001" (String "002" EmptyString))))))).
Proof. reflexivity. Qed.

#[global] Opaque uint64ToBytes bytesToUint64.
