(* ===== verification/SortSearch.v ===== *)
(** * Go's [sort.Search]

    The bisection of the standard library, and the variant bolt's cursors use:
    the closure they give it remembers whether a probe met the key itself. *)
From S2P Require Import Prelude.

(** [sort.Search(n, f)]: the bisection loop, [fuel] bounding its turns. *)
Fixpoint search_loop (fuel : nat) (f : nat -> bool) (i j : nat) : nat :=
  match fuel with
  | O => i
  | S fuel =>
    if i <? j then
      let h := (i + j) / 2 in
      if negb (f h) then search_loop fuel f (h + 1) j else search_loop fuel f i h
    else i
  end.

Definition Search (n : nat) (f : nat -> bool) : nat := search_loop n f 0 n.

(** [k] is the first index below [n] where [f] holds, [n] if there is none. *)
Definition first_true (n : nat) (f : nat -> bool) (k : nat) : Prop :=
  k <= n /\ (forall i, i < k -> f i = false) /\ (k < n -> f k = true).

Lemma middle i j : i < j -> i <= (i + j) / 2 < j.
Proof.
  intros Hlt. split; [apply Nat.div_le_lower_bound; lia|apply Nat.Div0.div_lt_upper_bound; lia].
Qed.

Lemma search_loop_spec fuel f n i j :
  (forall a b, a <= b < n -> f a = true -> f b = true) ->
  j - i <= fuel -> i <= j <= n ->
  (forall a, a < i -> f a = false) -> (j < n -> f j = true) ->
  first_true n f (search_loop fuel f i j).
Proof.
  intros Hmono. revert i j. induction fuel as [|fuel IH]; intros i j Hf Hij Hlo Hhi; cbn [search_loop].
  { assert (i = j) as -> by lia. split_and!; [lia|done|done]. }
  destruct (Nat.ltb_spec i j) as [Hlt|Hge].
  2: { assert (i = j) as -> by lia. split_and!; [lia|done|done]. }
  pose proof (middle i j Hlt) as Hh. set (h := (i + j) / 2) in *.
  destruct (f h) eqn:Eh; cbn [negb].
  - apply IH; [lia|lia|done|by intros].
  - apply IH; [lia|lia| |done]. intros a Ha. destruct (f a) eqn:Ea; [|done].
    rewrite (Hmono a h) in Eh; [done|lia|done].
Qed.

Lemma Search_spec n f :
  (forall a b, a <= b < n -> f a = true -> f b = true) -> first_true n f (Search n f).
Proof. intros H. apply search_loop_spec; [done|lia|lia|lia|lia]. Qed.

(** [sort.Search] ends within its fuel, as many turns as there are
    indices, on the first index where a monotone predicate holds. *)
Theorem Search_first n f :
  (forall a b, a <= b < n -> f a = true -> f b = true) ->
  Search n f <= n /\ (forall i, i < Search n f -> f i = false) /\
  (Search n f < n -> f (Search n f) = true).
Proof. apply Search_spec. Qed.

(** ** A closure that sets [exact] *)

(** [ret != -1] of a [bytes.Compare]. *)
Definition not_before (ret : comparison) : bool := match ret with Lt => false | _ => true end.
Definition is_Eq (ret : comparison) : bool := match ret with Eq => true | _ => false end.

Fixpoint search_exact_loop (fuel : nat) (ret : nat -> comparison) (exact : bool) (i j : nat) : nat * bool :=
  match fuel with
  | O => (i, exact)
  | S fuel =>
    if i <? j then
      let h := (i + j) / 2 in
      let exact := exact || is_Eq (ret h) in
      if negb (not_before (ret h)) then search_exact_loop fuel ret exact (h + 1) j
      else search_exact_loop fuel ret exact i h
    else (i, exact)
  end.

Definition Search_exact (n : nat) (ret : nat -> comparison) : nat * bool := search_exact_loop n ret false 0 n.

Lemma search_exact_loop_index fuel ret exact i j :
  (search_exact_loop fuel ret exact i j).1 = search_loop fuel (fun i => not_before (ret i)) i j.
Proof.
  revert exact i j. induction fuel as [|fuel IH]; intros exact i j; [done|].
  cbn [search_exact_loop search_loop]. destruct (i <? j); [|done]. cbv zeta. by destruct (negb _).
Qed.

(** If at most one index is equal, [exact] says whether the search ends on
    it. *)
Lemma search_exact_loop_exact fuel ret exact n i j :
  (forall a b, a < b < n -> ret a <> Lt -> ret b = Gt) -> j - i <= fuel -> i <= j <= n ->
  (forall a, a < i -> ret a = Lt) -> (j < n -> ret j <> Lt) ->
  (exact = true <-> j < n /\ ret j = Eq) ->
  let r := search_exact_loop fuel ret exact i j in r.2 = true <-> r.1 < n /\ ret r.1 = Eq.
Proof.
  intros Hmono. revert exact i j. induction fuel as [|fuel IH]; intros exact i j Hf Hij Hlo Hhi He.
  { assert (i = j) as -> by lia. exact He. }
  cbn [search_exact_loop]. destruct (Nat.ltb_spec i j) as [Hlt|Hge].
  2: { assert (i = j) as -> by lia. exact He. }
  pose proof (middle i j Hlt) as Hh. set (h := (i + j) / 2) in *. cbv zeta.
  destruct (ret h) eqn:Eh; cbn [negb not_before is_Eq]; rewrite ?orb_true_r, ?orb_false_r.
  - apply IH; [lia|lia|done|congruence|]. split; [|done]. intros _. split; [lia|done].
  - apply IH; [lia|lia| |done|done]. intros a Ha. destruct (decide (a = h)) as [->|]; [done|].
    destruct (ret a) eqn:Ea; [|done|]; rewrite (Hmono a h) in Eh by (lia || congruence); done.
  - apply IH; [lia|lia|done|congruence|]. rewrite He. split.
    + intros [Hn Ej]. rewrite (Hmono h j) in Ej by (lia || congruence). done.
    + intros [_ ?]. congruence.
Qed.

Lemma Search_exact_spec n ret :
  (forall a b, a < b < n -> ret a <> Lt -> ret b = Gt) ->
  first_true n (fun i => not_before (ret i)) (Search_exact n ret).1 /\
  ((Search_exact n ret).2 = true <-> (Search_exact n ret).1 < n /\ ret (Search_exact n ret).1 = Eq).
Proof.
  intros Hmono. split.
  - unfold Search_exact. rewrite search_exact_loop_index. apply Search_spec.
    intros a b Hab Ha. destruct (decide (a = b)) as [<-|]; [done|].
    rewrite (Hmono a b); [done|lia|]. by intros E; rewrite E in Ha.
  - apply search_exact_loop_exact; [done|lia|lia|lia|lia|]. split; [done|lia].
Qed.

Lemma Search_first_witness :
  Search 5 (fun i => 3 <=? i) <= 5 /\ (forall i, i < Search 5 (fun i => 3 <=? i) -> (3 <=? i) = false) /\
  (Search 5 (fun i => 3 <=? i) < 5 -> (3 <=? Search 5 (fun i => 3 <=? i)) = true).
Proof.
  apply (Search_first 5 (fun i => 3 <=? i)). intros a b Hab Ha%Nat.leb_le. apply Nat.leb_le. lia.
Defined.
