(* ===== verification/BoltCursor.v ===== *)
(** * Buckets and cursors of bolt (vendor/github.com/boltdb/bolt)

    What raftboltdb uses of a bucket within one transaction: cursor.go with
    its stack of page references, [Put] and [Get] of bucket.go, [put] and
    [del] of node.go.  The pages of a bucket are a tree; a leaf that the
    transaction changes is copied into a node first ([Bucket.node]), and
    cursors that are on the page already stay there.  Bolt's documentation
    warns that a cursor has to be repositioned after a change; for the loop
    of [DeleteRange], which does not, the code itself is what shows that it
    meets every key.  What a commit writes is a parameter of RaftBolt.v. *)
From S2P Require Import Prelude SortSearch.

(** ** Pages, nodes and references *)

Abbreviation item := (string * string)%type.

(** A page with its id; the elements of a branch lead to the pages of their
    ids, each with its first key.  There are no nested buckets in a bucket of
    raftboltdb, so that the flags of an element are 0. *)
Inductive page : Type :=
  | LeafPage (id : nat) (elems : list item)
  | BranchPage (id : nat) (elems : list (string * page)).

(** A bucket in a transaction: the root page and the inodes of the leaves that
    are in [nodes].  The inodes of a branch in [nodes] are those of its page
    as long as the transaction runs, since [put] and [del] are called on
    leaves only: a branch is read off its page.  An inline bucket is a root
    leaf of the id 0. *)
Record bucket : Type := { root : page; nodes : gmap nat (list item) }.

Definition leaf_inodes (b : bucket) (id : nat) : list item := default [] (nodes b !! id).

Inductive place : Type := OnPage (p : page) | OnNode (id : nat).
Record elemRef : Type := { ref : place; index : nat }.

(** The cursor's stack, its top first. *)
Definition stack : Type := list elemRef.

Definition index_out_of_range {A} : outcome A := Panic "index out of range".

Definition pageNode (b : bucket) (p : page) : place :=
  match p with
  | LeafPage id _ => if decide (is_Some (nodes b !! id)) then OnNode id else OnPage p
  | BranchPage _ _ => OnPage p
  end.

Definition isLeaf (r : elemRef) : bool :=
  match ref r with OnPage (BranchPage _ _) => false | _ => true end.

Definition count (b : bucket) (r : elemRef) : nat :=
  match ref r with
  | OnNode id => length (leaf_inodes b id)
  | OnPage (LeafPage _ es) => length es
  | OnPage (BranchPage _ es) => length es
  end.

Definition keyValue (b : bucket) (st : stack) : option item :=
  match st with
  | [] => None
  | r :: _ =>
    match ref r with
    | OnNode id => leaf_inodes b id !! index r
    | OnPage (LeafPage _ es) => es !! index r
    | OnPage (BranchPage _ _) => None
    end
  end.

Definition top_count (b : bucket) (st : stack) : nat := match st with [] => 0 | r :: _ => count b r end.

(** The page an element of a branch leads to. *)
Definition child (r : elemRef) : outcome page :=
  match ref r with
  | OnPage (BranchPage _ es) =>
    match es !! index r with Some (_, c) => Ret c | None => index_out_of_range end
  | _ => Panic "expected branch node"
  end.

(** ** Moving *)

(** [first] from the page [p] on. *)
Fixpoint first_page (b : bucket) (p : page) (st : stack) : outcome stack :=
  let st := {| ref := pageNode b p; index := 0 |} :: st in
  match p with
  | LeafPage _ _ => Ret st
  | BranchPage _ [] => index_out_of_range
  | BranchPage _ ((_, c) :: _) => first_page b c st
  end.

Definition first (b : bucket) (st : stack) : outcome stack :=
  match st with
  | [] => index_out_of_range
  | r :: _ => if isLeaf r then Ret st else c ← child r; first_page b c st
  end.

Fixpoint last_page (b : bucket) (p : page) (st : stack) : outcome stack :=
  match p with
  | LeafPage id es =>
    Ret ({| ref := pageNode b p; index := pred (count b {| ref := pageNode b p; index := 0 |}) |} :: st)
  | BranchPage _ es =>
    let st := {| ref := OnPage p; index := pred (length es) |} :: st in
    (fix go es := match es with
                  | [] => index_out_of_range
                  | [(_, c)] => last_page b c st
                  | _ :: es => go es
                  end) es
  end.

(** The loop of [next] that moves up the stack: the reference to move over one
    element, [None] at the end of the root. *)
Fixpoint advance (b : bucket) (st : stack) : option stack :=
  match st with
  | [] => None
  | r :: up =>
    if S (index r) <? count b r then Some ({| ref := ref r; index := S (index r) |} :: up) else advance b up
  end.

(** [fuel] bounds the empty pages that are passed over. *)
Fixpoint next (fuel : nat) (b : bucket) (st : stack) : outcome (stack * option item) :=
  match fuel with
  | O => Panic "out of fuel"
  | S fuel =>
    match advance b st with
    | None => Ret (st, None)
    | Some st =>
      st ← first b st;
      if top_count b st =? 0 then next fuel b st else Ret (st, keyValue b st)
    end
  end.

Fixpoint pages (p : page) : nat :=
  match p with
  | LeafPage _ _ => 1
  | BranchPage _ es => S (sum_list_with (fun kc => pages kc.2) es)
  end.

Definition curs_Next (b : bucket) (st : stack) : outcome (stack * option item) := next (pages (root b)) b st.

Definition curs_First (b : bucket) : outcome (stack * option item) :=
  st ← first_page b (root b) [];
  if top_count b st =? 0 then
    '(st, _) ← curs_Next b st; Ret (st, keyValue b st)
  else Ret (st, keyValue b st).

Definition curs_Last (b : bucket) : outcome (stack * option item) :=
  st ← last_page b (root b) []; Ret (st, keyValue b st).

(** ** Searching *)

Definition leaf_search (key : string) (inodes : list item) : nat :=
  Search (length inodes) (fun i => not_before (String.compare (nth i inodes.*1 "") key)).

Definition branch_search (key : string) (keys : list string) : nat :=
  let '(index, exact) := Search_exact (length keys) (fun i => String.compare (nth i keys "") key) in
  if negb exact && (0 <? index) then pred index else index.

Fixpoint search (b : bucket) (key : string) (p : page) (st : stack) : outcome stack :=
  match p with
  | LeafPage id es =>
    let inodes := default es (nodes b !! id) in
    Ret ({| ref := pageNode b p; index := leaf_search key inodes |} :: st)
  | BranchPage _ es =>
    let index := branch_search key es.*1 in
    match map (fun kc => search b key kc.2) es !! index with
    | Some go => go ({| ref := OnPage p; index := index |} :: st)
    | None => index_out_of_range
    end
  end.

Definition seek (b : bucket) (key : string) : outcome (stack * option item) :=
  st ← search b key (root b) []; Ret (st, keyValue b st).

Definition curs_Seek (b : bucket) (key : string) : outcome (stack * option item) :=
  '(st, kv) ← seek b key;
  match st with
  | [] => index_out_of_range
  | r :: _ => if count b r <=? index r then curs_Next b st else Ret (st, kv)
  end.

(** ** Changing *)

(** The page the references [up] below the top lead to from the root. *)
Fixpoint childAt (b : bucket) (up : stack) : outcome page :=
  match up with
  | [] => Ret (root b)
  | r :: up =>
    p ← childAt b up;
    match p with
    | BranchPage _ es => match es !! index r with Some (_, c) => Ret c | None => index_out_of_range end
    | LeafPage _ _ => Panic "assertion failed: expected branch node"
    end
  end.

Definition set_node (b : bucket) (id : nat) (inodes : list item) : bucket :=
  {| root := root b; nodes := <[id := inodes]> (nodes b) |}.

(** [c.node()]: the bucket with the node of the leaf the cursor is on, and its
    id. *)
Definition curs_node (b : bucket) (st : stack) : outcome (bucket * nat) :=
  match st with
  | [] => Panic "assertion failed: accessing a node with a zero-length cursor stack"
  | r :: up =>
    match ref r with
    | OnNode id => Ret (b, id)
    | OnPage _ =>
      p ← childAt b up;
      match p with
      | LeafPage id es => Ret (set_node b id (default es (nodes b !! id)), id)
      | BranchPage _ _ => Panic "assertion failed: expected leaf node"
      end
    end
  end.

Definition node_put (key value : string) (inodes : list item) : list item :=
  let index := leaf_search key inodes in
  match inodes !! index with
  | Some (k, _) =>
    if decide (k = key) then <[index := (key, value)]> inodes
    else take index inodes ++ (key, value) :: drop index inodes
  | None => take index inodes ++ (key, value) :: drop index inodes
  end.

Definition node_del (key : string) (inodes : list item) : list item :=
  let index := leaf_search key inodes in
  match inodes !! index with
  | Some (k, _) => if decide (k = key) then take index inodes ++ drop (S index) inodes else inodes
  | None => inodes
  end.

Definition ErrKeyRequired : goerror := Sentinel "bolt.ErrKeyRequired".
Definition ErrKeyTooLarge : goerror := Sentinel "bolt.ErrKeyTooLarge".
Definition ErrValueTooLarge : goerror := Sentinel "bolt.ErrValueTooLarge".
Definition MaxKeySize : Z := 32768.
Definition MaxValueSize : Z := 2 ^ 31 - 2.

(** What [Put] refuses in a writable transaction. *)
Definition Put_check (key value : string) : error :=
  if decide (key = "") then Some ErrKeyRequired
  else if (MaxKeySize <? Z.of_nat (String.length key))%Z then Some ErrKeyTooLarge
  else if (MaxValueSize <? Z.of_nat (String.length value))%Z then Some ErrValueTooLarge
  else None.

Definition bk_Put (b : bucket) (key value : string) : outcome (result bucket) :=
  match Put_check key value with
  | Some e => Ret (Err e)
  | None =>
    '(st, _) ← seek b key;
    '(b, id) ← curs_node b st;
    Ret (Ok (set_node b id (node_put key value (leaf_inodes b id))))
  end.

Definition bk_Get (b : bucket) (key : string) : outcome (option string) :=
  '(_, kv) ← seek b key;
  Ret match kv with Some (k, v) => if decide (key = k) then Some v else None | None => None end.

(** [Delete] of the cursor in a writable transaction: without a current
    element the key is nil, which no inode has. *)
Definition curs_Delete (b : bucket) (st : stack) : outcome (result bucket) :=
  '(b1, id) ← curs_node b st;
  Ret (Ok match keyValue b st with
          | Some (key, _) => set_node b1 id (node_del key (leaf_inodes b1 id))
          | None => b1
          end).

(** [CreateBucket]: an empty inline bucket. *)
Definition new_bucket : bucket := {| root := LeafPage 0 []; nodes := ∅ |}.

(** ** Examples *)

(** A bucket of two leaves under a branch. *)
Definition two_leaves : bucket :=
  {| root := BranchPage 1 [("a", LeafPage 2 [("a", "1"); ("c", "2")]); ("e", LeafPage 3 [("e", "3"); ("g", "4")])];
     nodes := ∅ |}.

(** The keys the loop [for k, _ := c.Seek(min); k != nil; k, _ = c.Next()]
    meets, each of them deleted when [del] holds, and the bucket after it. *)
Fixpoint walk_keys (fuel : nat) (del : bool) (b : bucket) (cur : outcome (stack * option item))
    : outcome (bucket * list string) :=
  match fuel with
  | O => Panic "out of fuel"
  | S fuel =>
    '(st, kv) ← cur;
    match kv with
    | None => Ret (b, [])
    | Some (k, _) =>
      r ← (if del then curs_Delete b st else Ret (Ok b));
      match r with
      | Err _ => Ret (b, [k])
      | Ok b =>
        '(b, ks) ← walk_keys fuel del b (curs_Next b st);
        Ret (b, k :: ks)
      end
    end
  end.

Example walk_two_leaves :
  snd <$> walk_keys 9 false two_leaves (curs_Seek two_leaves "b") = Ret ["c"; "e"; "g"] /\
  (fun '(b, ks) => (ks, nodes b)) <$> walk_keys 9 true two_leaves (curs_Seek two_leaves "b")
    = Ret (["c"; "e"; "g"], {[2 := [("a", "1")]; 3 := []]}).
Proof. split; vm_compute; reflexivity. Qed.

(** A cursor that is on a node skips a key after a deletion, as the
    documentation warns: here the leaf was changed before the loop. *)
Example walk_changed_leaf :
  (b ← bk_Put two_leaves "b" "5";
   match b with
   | Ok b => snd <$> walk_keys 9 true b (curs_Seek b "a")
   | Err _ => Panic ""
   end) = Ret ["a"; "c"; "e"; "g"].
Proof. vm_compute. reflexivity. Qed.
