(* ===== verification/BoltTree.v ===== *)
(** * The page tree of a bucket

    What BoltCursor.v's operations do, in terms of the map a bucket holds.
    The items of a bucket are those of its leaves from left to right, of a
    leaf in [nodes] as they are there; they are in order, and the separators
    of the branches lie between them.  [Get] and [Put] work on this order in
    any transaction; [First], [Last] and [Seek] of a cursor in a new one find
    the first, the last and the next item; and a cursor that deletes what it
    is on and moves on meets all items that follow, because it stays on the
    pages and no page to the right of it has been changed. *)
From S2P Require Import Prelude SortSearch BoltCursor.

(** ** Keys in order *)

Definition slt (a b : string) : Prop := ¬ String.le b a.

Lemma slt_le a b : slt a b -> String.le a b.
Proof. intros H. by destruct (total String.le a b). Qed.

Lemma slt_irrefl a : ¬ slt a a.
Proof. intros H. by apply H. Qed.

Lemma slt_le_trans a b c : slt a b -> String.le b c -> slt a c.
Proof. intros H1 H2 H3. apply H1. by transitivity c. Qed.

Lemma le_slt_trans a b c : String.le a b -> slt b c -> slt a c.
Proof. intros H1 H2 H3. apply H2. by transitivity a. Qed.

#[global] Instance slt_trans : Transitive slt.
Proof. intros a b c H1 H2. eapply slt_le_trans; [done|by apply slt_le]. Qed.

Lemma slt_neq a b : slt a b -> a <> b.
Proof. intros H ->. by apply (slt_irrefl b). Qed.

Lemma slt_not_slt a b : slt a b -> ¬ slt b a.
Proof. intros H1 H2. apply H2. by apply slt_le. Qed.

Lemma not_slt a b : ¬ slt a b <-> String.le b a.
Proof. unfold slt. split; [|tauto]. destruct (decide (String.le b a)); tauto. Qed.

Lemma le_cases a b : String.le a b -> a = b \/ slt a b.
Proof.
  intros H. destruct (decide (String.le b a)) as [H'|H']; [left|by right]. by apply (anti_symm String.le).
Qed.

Lemma compare_le k a : not_before (String.compare a k) = true <-> String.le k a.
Proof.
  unfold String.le, String.leb. rewrite (String.compare_antisym a k).
  by destruct (String.compare k a); cbn; split.
Qed.

Lemma compare_Lt k a : String.compare a k = Lt <-> slt a k.
Proof.
  unfold slt. rewrite <-compare_le. destruct (String.compare a k); cbn; split; (done || by intros []).
Qed.

Lemma compare_Eq k a : String.compare a k = Eq <-> a = k.
Proof.
  split; [apply String.compare_eq_iff|]. intros ->. pose proof (String.compare_antisym k k) as H.
  by destruct (String.compare k k).
Qed.

(** A list sorted by its keys, and the searches in it. *)
Abbreviation sorted := (StronglySorted slt).

Lemma sorted_NoDup ks : sorted ks -> NoDup ks.
Proof.
  induction 1 as [|k ks Hs IH Hk]; constructor; [|done]. intros Hin.
  rewrite Forall_forall in Hk. by apply (slt_irrefl k), Hk.
Qed.

Lemma sorted_lookup ks i j a c : sorted ks -> i < j -> ks !! i = Some a -> ks !! j = Some c -> slt a c.
Proof.
  intros Hs. revert i j. induction Hs as [|k ks Hs IH Hk]; intros i j Hij Hi Hj; [done|].
  destruct j as [|j]; [lia|]. destruct i as [|i]; cbn in Hi, Hj.
  - injection Hi as <-. rewrite Forall_forall in Hk. apply Hk. by eapply list_elem_of_lookup_2.
  - apply (IH i j); [lia|done..].
Qed.

(** From an index on whose key is not before [key], none is. *)
Lemma sorted_from ks i l key x y :
  sorted ks -> ks !! i = Some y -> String.le key y -> i <= l -> ks !! l = Some x ->
  String.le key x /\ (i < l \/ key <> y -> slt key x).
Proof.
  intros Hs Hy Hk Hil Hx. destruct (decide (i = l)) as [<-|Hne].
  - assert (x = y) as -> by congruence. split; [done|]. intros [?|Hn]; [lia|]. by destruct (le_cases _ _ Hk).
  - pose proof (sorted_lookup _ i l y x Hs ltac:(lia) Hy Hx). split; [|intros _]; [|by eapply le_slt_trans].
    transitivity y; [done|by apply slt_le].
Qed.

(** Where a search ends. *)
Lemma leaf_search_spec key (inodes : list item) :
  sorted inodes.*1 ->
  exists l1 l2, inodes = l1 ++ l2 /\ length l1 = leaf_search key inodes /\
    (forall x, x ∈ l1.*1 -> slt x key) /\ (forall x, x ∈ l2.*1 -> String.le key x).
Proof.
  intros Hs. set (f := fun i => not_before (String.compare (nth i inodes.*1 "") key)).
  assert (forall i x, inodes.*1 !! i = Some x -> f i = true <-> String.le key x) as Hf.
  { intros i x Hi. unfold f. by rewrite (nth_lookup_Some _ _ _ _ Hi), compare_le. }
  destruct (Search_spec (length inodes) f) as (Hle & Hlo & Hhi).
  { intros a c Hac Ha.
    destruct (lookup_lt_is_Some_2 inodes.*1 a) as [x Hx]; [rewrite length_fmap; lia|].
    destruct (lookup_lt_is_Some_2 inodes.*1 c) as [y Hy]; [rewrite length_fmap; lia|].
    apply (Hf c y Hy). apply (Hf a x Hx) in Ha. apply (sorted_from _ a c key y x Hs Hx Ha); [lia|done]. }
  change (Search (length inodes) f) with (leaf_search key inodes) in *. set (i := leaf_search key inodes) in *.
  exists (take i inodes), (drop i inodes). rewrite take_drop, length_take. split; [done|]. split; [lia|]. split.
  - intros x Hx. rewrite fmap_take in Hx. apply elem_of_take in Hx as (j & Hj & Hlt).
    pose proof (Hlo j Hlt) as H. intros Hk. apply (Hf j x Hj) in Hk. congruence.
  - intros x Hx. rewrite fmap_drop in Hx. apply list_elem_of_lookup in Hx as [j Hj]. rewrite lookup_drop in Hj.
    assert (i < length inodes) as Hi.
    { apply lookup_lt_Some in Hj. rewrite length_fmap in Hj. lia. }
    destruct (lookup_lt_is_Some_2 inodes.*1 i) as [y Hy]; [by rewrite length_fmap|].
    apply (sorted_from _ i (i + j) key x y Hs Hy); [|lia|done]. apply (Hf i y Hy), Hhi, Hi.
Qed.

Lemma compares_sorted key ks a c :
  sorted ks -> a < c < length ks -> String.compare (nth a ks "") key <> Lt -> String.compare (nth c ks "") key = Gt.
Proof.
  intros Hs Hac Ha.
  destruct (lookup_lt_is_Some_2 ks a) as [x Hx]; [lia|]. destruct (lookup_lt_is_Some_2 ks c) as [y Hy]; [lia|].
  rewrite (nth_lookup_Some _ _ _ _ Hx), compare_Lt in Ha. apply not_slt in Ha.
  rewrite (nth_lookup_Some _ _ _ _ Hy).
  destruct (sorted_from ks a c key y x Hs Hx Ha ltac:(lia) Hy) as [_ Hlt]. specialize (Hlt ltac:(left; lia)).
  destruct (String.compare y key) eqn:E; [|..|done].
  - apply compare_Eq in E as ->. by apply slt_irrefl in Hlt.
  - apply compare_Lt in E. by apply slt_not_slt in Hlt.
Qed.

(** The child whose keys may hold [key]. *)
Lemma branch_search_index key ks :
  sorted ks -> ks <> [] ->
  let j := branch_search key ks in
  j < length ks /\ (forall x, ks !! j = Some x -> j = 0 \/ String.le x key) /\
  (forall l x, j < l -> ks !! l = Some x -> slt key x).
Proof.
  intros Hs Hne. set (ret := fun i => String.compare (nth i ks "") key).
  assert (forall i x, ks !! i = Some x -> ret i = String.compare x key) as Hret.
  { intros i x Hi. unfold ret. by rewrite (nth_lookup_Some _ _ _ _ Hi). }
  destruct (Search_exact_spec (length ks) ret) as ((Hle & Hlo & Hhi) & Hex).
  { intros a c. by apply compares_sorted. }
  unfold branch_search. fold ret. destruct (Search_exact (length ks) ret) as [i exact]. cbn [fst snd] in *.
  assert (forall y, ks !! i = Some y -> String.le key y) as Hge.
  { intros y Hy. rewrite <-compare_le, <-(Hret i y Hy). apply Hhi. by eapply lookup_lt_Some. }
  assert (forall l x, i <= l -> ks !! l = Some x -> i < l \/ exact = false -> slt key x) as Hgt.
  { intros l x Hil Hl Hor. assert (i < length ks) as Hi by (apply lookup_lt_Some in Hl; lia).
    destruct (lookup_lt_is_Some_2 ks i Hi) as [y Hy].
    apply (sorted_from ks i l key x y Hs Hy (Hge y Hy) Hil Hl). destruct Hor as [|Hf]; [by left|right].
    intros ->. assert (exact = true); [|congruence]. apply Hex. split; [done|]. rewrite (Hret i y Hy). by apply compare_Eq. }
  destruct exact; cbn [negb andb].
  - destruct (proj1 Hex eq_refl) as [Hi Ei]. split; [done|]. split; [|intros l x Hl Hx; apply (Hgt l); [lia|done|by left]].
    intros x Hx. right. rewrite (Hret i x Hx), compare_Eq in Ei. by rewrite Ei.
  - destruct (Nat.ltb_spec 0 i) as [Hi|Hi].
    + split; [lia|]. split; [|intros l x Hl Hx; apply (Hgt l); [lia|done|by right]].
      intros x Hx. right. pose proof (Hlo (pred i) ltac:(lia)) as Hn. cbn in Hn. rewrite (Hret _ x Hx) in Hn.
      apply slt_le, compare_Lt. by destruct (String.compare x key).
    + assert (i = 0) as -> by lia. split; [destruct ks; [done|cbn; lia]|].
      split; [intros; by left|]. intros l x Hl Hx. apply (Hgt l); [lia|done|by right].
Qed.

(** ** What a bucket holds *)

Lemma page_tree_ind (P : page -> Prop) :
  (forall id es, P (LeafPage id es)) ->
  (forall id es, Forall (fun kc => P kc.2) es -> P (BranchPage id es)) -> forall p, P p.
Proof.
  intros Hl Hb. fix IH 1. intros [id es|id es]; [apply Hl|apply Hb].
  induction es as [|[k c] es IHes]; constructor; [apply IH|exact IHes].
Qed.

(** The items of a page in order, with the separators of its branches between
    the children they separate. *)
Inductive mark : Type := Sep (k : string) | Item (kv : item).

Fixpoint marks (b : bucket) (p : page) : list mark :=
  match p with
  | LeafPage id es => Item <$> default es (nodes b !! id)
  | BranchPage _ es => tail (concat (map (fun kc => Sep kc.1 :: marks b kc.2) es))
  end.

Definition flat (b : bucket) (es : list (string * page)) : list mark :=
  concat (map (fun kc => Sep kc.1 :: marks b kc.2) es).

Definition item_of (m : mark) : option item := match m with Item kv => Some kv | Sep _ => None end.
Definition items_of (ms : list mark) : list item := omap item_of ms.
Definition items (b : bucket) : list item := items_of (marks b (root b)).

(** The map a bucket is to its users. *)
Definition bk_view (b : bucket) : gmap string string := list_to_map (items b).

(** Items are in order, and separators between those before and those not. *)
Definition mark_lt (m1 m2 : mark) : Prop :=
  match m1, m2 with
  | Item x, Item y => slt x.1 y.1
  | Item x, Sep k => slt x.1 k
  | Sep k, Item x => String.le k x.1
  | Sep k, Sep k' => String.le k k'
  end.

Fixpoint page_ok (p : page) : Prop :=
  match p with
  | LeafPage _ _ => True
  | BranchPage _ es =>
    es <> [] /\ sorted es.*1 /\ (fix go es := match es with [] => True | (_, c) :: es => page_ok c /\ go es end) es
  end.

(** Every leaf has an item. *)
Fixpoint full (p : page) : Prop :=
  match p with
  | LeafPage _ es => es <> []
  | BranchPage _ es => (fix go es := match es with [] => True | (_, c) :: es => full c /\ go es end) es
  end.

Fixpoint leaf_ids (p : page) : list nat :=
  match p with
  | LeafPage id _ => [id]
  | BranchPage _ es => concat (map (fun kc => leaf_ids kc.2) es)
  end.

Definition ids_of (es : list (string * page)) : list nat := concat (map (fun kc => leaf_ids kc.2) es).

(** A bucket within a transaction, and one as it is when a transaction
    begins. *)
Record tx_bucket (b : bucket) : Prop := {
  tb_pages : page_ok (root b);
  tb_ids : NoDup (leaf_ids (root b));
  tb_sorted : StronglySorted mark_lt (marks b (root b));
}.

Record fresh_bucket (b : bucket) : Prop := {
  fb_bucket : tx_bucket b;
  fb_nodes : nodes b = ∅;
  fb_full : match root b with LeafPage _ _ => True | BranchPage _ _ => full (root b) end;
}.

Lemma page_ok_branch id es :
  page_ok (BranchPage id es) <-> es <> [] /\ sorted es.*1 /\ Forall (fun kc => page_ok kc.2) es.
Proof.
  cbn [page_ok]. enough ((fix go es := match es with [] => True | (_, c) :: es => page_ok c /\ go es end) es
    <-> Forall (fun kc : string * page => page_ok kc.2) es) as ->; [done|].
  induction es as [|[k c] es IH]; [by split|]. by rewrite Forall_cons, IH.
Qed.

Lemma full_branch id es : full (BranchPage id es) <-> Forall (fun kc => full kc.2) es.
Proof. cbn [full]. induction es as [|[k c] es IH]; [by split|]. by rewrite Forall_cons, IH. Qed.

Lemma flat_app b es1 es2 : flat b (es1 ++ es2) = flat b es1 ++ flat b es2.
Proof. unfold flat. by rewrite map_app, concat_app. Qed.

Lemma items_of_app l1 l2 : items_of (l1 ++ l2) = items_of l1 ++ items_of l2.
Proof. apply omap_app. Qed.

Lemma items_of_Item (l : list item) : items_of (Item <$> l) = l.
Proof. induction l as [|x l IH]; [done|]. cbn. f_equal. exact IH. Qed.

Lemma elem_of_items_of kv ms : kv ∈ items_of ms <-> Item kv ∈ ms.
Proof.
  unfold items_of. rewrite list_elem_of_omap. split; [|intros H; by exists (Item kv)].
  by intros ([k|kv'] & Hin & [= ->]).
Qed.

(** The marks before and after one child of a branch. *)
Definition lead (b : bucket) (es1 : list (string * page)) (k : string) : list mark :=
  match es1 with [] => [] | _ => tail (flat b es1) ++ [Sep k] end.

Lemma marks_branch b id es1 k c es2 :
  marks b (BranchPage id (es1 ++ (k, c) :: es2)) = lead b es1 k ++ marks b c ++ flat b es2.
Proof.
  change (marks b (BranchPage id (es1 ++ (k, c) :: es2))) with (tail (flat b (es1 ++ (k, c) :: es2))).
  rewrite flat_app. destruct es1 as [|[k1 c1] es1]; [done|]. cbn. by rewrite <-!(assoc_L (++)).
Qed.

(** ** Where a stack is *)

(** The references [up] lead from [p] down to [q]. *)
Inductive path : page -> stack -> page -> Prop :=
  | path_here p : path p [] p
  | path_down p up id es i k c :
    path p up (BranchPage id es) -> es !! i = Some (k, c) ->
    path p ({| ref := OnPage (BranchPage id es); index := i |} :: up) c.

Definition left_of (b : bucket) (r : elemRef) : list mark :=
  match ref r with
  | OnPage (BranchPage _ es) =>
    match es !! index r with Some (k, _) => lead b (take (index r) es) k | None => [] end
  | _ => []
  end.
Definition right_of (b : bucket) (r : elemRef) : list mark :=
  match ref r with OnPage (BranchPage _ es) => flat b (drop (S (index r)) es) | _ => [] end.

Definition pre_up (b : bucket) (up : stack) : list mark := concat (reverse (left_of b <$> up)).
Definition post_up (b : bucket) (up : stack) : list mark := concat (right_of b <$> up).

(** The leaves beside the path, and those to the right of it. *)
Definition left_ids (r : elemRef) : list nat :=
  match ref r with OnPage (BranchPage _ es) => ids_of (take (index r) es) | _ => [] end.
Definition right_ids (r : elemRef) : list nat :=
  match ref r with OnPage (BranchPage _ es) => ids_of (drop (S (index r)) es) | _ => [] end.
Definition ids_before (up : stack) : list nat := concat (reverse (left_ids <$> up)).
Definition ids_after (up : stack) : list nat := concat (right_ids <$> up).

Lemma pre_up_cons b r up : pre_up b (r :: up) = pre_up b up ++ left_of b r.
Proof. unfold pre_up. by rewrite fmap_cons, reverse_cons, concat_app, concat_cons, app_nil_r. Qed.
Lemma ids_before_cons r up : ids_before (r :: up) = ids_before up ++ left_ids r.
Proof. unfold ids_before. by rewrite fmap_cons, reverse_cons, concat_app, concat_cons, app_nil_r. Qed.

Lemma path_marks b p up q : path p up q -> marks b p = pre_up b up ++ marks b q ++ post_up b up.
Proof.
  induction 1 as [p|p up id es i k c _ IH Hi]; [by rewrite app_nil_r|].
  rewrite IH, pre_up_cons. unfold post_up, left_of, right_of. cbn [fmap list_fmap concat ref index]. rewrite Hi.
  rewrite <-(take_drop_middle es i _ Hi) at 1. rewrite marks_branch. by rewrite <-!(assoc_L (++)).
Qed.

Lemma ids_of_app es1 es2 : ids_of (es1 ++ es2) = ids_of es1 ++ ids_of es2.
Proof. unfold ids_of. by rewrite map_app, concat_app. Qed.

Lemma path_ids p up q : path p up q -> leaf_ids p = ids_before up ++ leaf_ids q ++ ids_after up.
Proof.
  induction 1 as [p|p up id es i k c _ IH Hi]; [by rewrite app_nil_r|].
  rewrite IH, ids_before_cons. unfold ids_after, left_ids, right_ids. cbn [fmap list_fmap concat ref index].
  change (leaf_ids (BranchPage id es)) with (ids_of es).
  rewrite <-(take_drop_middle es i _ Hi) at 1. rewrite ids_of_app. cbn [ids_of map concat snd].
  change (concat (map (fun kc : string * page => leaf_ids kc.2) (drop (S i) es))) with (ids_of (drop (S i) es)).
  by rewrite <-!(assoc_L (++)).
Qed.

Lemma path_app p up q up' q' : path p up q -> path q up' q' -> path p (up' ++ up) q'.
Proof.
  intros Hp H. induction H as [q|q up' id es i k c _ IH Hi]; [done|]. cbn. eapply path_down; [by apply IH|done].
Qed.

Lemma path_ok p up q : path p up q -> page_ok p -> page_ok q.
Proof.
  induction 1 as [|p up id es i k c _ IH Hi]; [done|]. intros Hp. specialize (IH Hp).
  apply page_ok_branch in IH as (_ & _ & H). apply (Forall_lookup_1 _ _ _ _ H Hi).
Qed.

Lemma path_full p up q : path p up q -> full p -> full q.
Proof.
  induction 1 as [|p up id es i k c _ IH Hi]; [done|]. intros Hp. specialize (IH Hp).
  rewrite full_branch in IH. apply (Forall_lookup_1 _ _ _ _ IH Hi).
Qed.

Lemma childAt_path b up q : path (root b) up q -> childAt b up = Ret q.
Proof.
  intros H. remember (root b) as p eqn:Ep. induction H as [p|p up id es i k c _ IH Hi]; cbn [childAt]; [by rewrite Ep|].
  rewrite IH by done. cbn. by rewrite Hi.
Qed.

(** *** Nodes the marks of a page do not depend on *)

Definition agrees (b b' : bucket) (ids : list nat) : Prop := forall id, id ∈ ids -> nodes b !! id = nodes b' !! id.

Lemma agrees_app b b' ids1 ids2 : agrees b b' (ids1 ++ ids2) <-> agrees b b' ids1 /\ agrees b b' ids2.
Proof.
  unfold agrees. split.
  - intros H. split; intros id Hid; apply H, elem_of_app; [by left|by right].
  - intros [H1 H2] id [Hid|Hid]%elem_of_app; [by apply H1|by apply H2].
Qed.

Lemma marks_agree b b' p : agrees b b' (leaf_ids p) -> marks b p = marks b' p.
Proof.
  induction p as [id es|id es IH] using page_tree_ind; intros H; cbn [marks].
  - by rewrite (H id) by by left.
  - f_equal. f_equal. cbn [leaf_ids] in H. induction IH as [|[k c] es Hc _ IH]; [done|]. cbn [map concat] in *.
    apply agrees_app in H as [H1 H2]. by rewrite Hc, IH.
Qed.

Lemma flat_agree b b' es : agrees b b' (ids_of es) -> flat b es = flat b' es.
Proof.
  induction es as [|[k c] es IH]; [done|]. intros [H1 H2]%agrees_app. unfold flat. cbn [map concat snd].
  rewrite (marks_agree b b' c H1). f_equal. by apply IH.
Qed.

Lemma post_agree b b' up : agrees b b' (ids_after up) -> post_up b up = post_up b' up.
Proof.
  induction up as [|r up IH]; [done|]. intros [H1 H2]%agrees_app. unfold post_up. cbn [fmap list_fmap concat].
  f_equal; [|by apply IH]. unfold right_of. unfold right_ids in H1. destruct (ref r) as [[]|]; try done.
  by apply flat_agree.
Qed.

Lemma pre_agree b b' up : agrees b b' (ids_before up) -> pre_up b up = pre_up b' up.
Proof.
  induction up as [|r up IH]; [done|]. rewrite ids_before_cons, !pre_up_cons. intros [H1 H2]%agrees_app.
  f_equal; [by apply IH|]. unfold left_of. unfold left_ids in H2. destruct (ref r) as [[|id es]|]; try done.
  destruct (es !! index r) as [[k c]|]; [|done]. unfold lead. destruct (take (index r) es); [done|].
  f_equal. f_equal. by apply flat_agree.
Qed.

Lemma set_node_agrees b id l ids : id ∉ ids -> agrees (set_node b id l) b ids.
Proof. intros Hn i Hi. cbn. rewrite lookup_insert_ne; [done|]. by intros ->. Qed.

(** A leaf whose node is set, seen from the root. *)
Lemma marks_set_node b up id es l :
  NoDup (leaf_ids (root b)) -> path (root b) up (LeafPage id es) ->
  marks (set_node b id l) (root b) = pre_up b up ++ (Item <$> l) ++ post_up b up.
Proof.
  intros Hnd Hp. rewrite (path_marks _ _ _ _ Hp). rewrite (path_ids _ _ _ Hp) in Hnd. cbn [leaf_ids] in Hnd.
  apply NoDup_app in Hnd as (_ & H1 & [H2 _]%NoDup_cons).
  rewrite (pre_agree _ b) by (apply set_node_agrees; intros Hin; by apply (H1 id Hin); left).
  rewrite (post_agree _ b) by by apply set_node_agrees.
  cbn [marks set_node nodes]. by rewrite lookup_insert_eq.
Qed.

(** *** Searches *)

(** A key among marks. *)
Abbreviation at_key key := (Item (key, "")).

Lemma mark_lt_sep m k key : mark_lt m (Sep k) -> String.le k key -> mark_lt m (at_key key).
Proof. destruct m; cbn; [intros; by transitivity k|by apply slt_le_trans]. Qed.

Lemma sep_mark_lt m k key : mark_lt (Sep k) m -> slt key k -> mark_lt (at_key key) m.
Proof. destruct m; cbn; intros H1 H2; by eapply slt_le_trans. Qed.

Lemma sorted_marks_app l1 l2 :
  StronglySorted mark_lt (l1 ++ l2) <->
  (forall m1 m2, m1 ∈ l1 -> m2 ∈ l2 -> mark_lt m1 m2) /\ StronglySorted mark_lt l1 /\ StronglySorted mark_lt l2.
Proof. apply StronglySorted_app. Qed.

(** The child a branch search picks, among the marks. *)
Lemma branch_marks b id es key :
  page_ok (BranchPage id es) -> StronglySorted mark_lt (marks b (BranchPage id es)) ->
  exists k c, es !! branch_search key es.*1 = Some (k, c) /\
    let r := {| ref := OnPage (BranchPage id es); index := branch_search key es.*1 |} in
    marks b (BranchPage id es) = left_of b r ++ marks b c ++ right_of b r /\
    (forall m, m ∈ left_of b r -> mark_lt m (at_key key)) /\ (forall m, m ∈ right_of b r -> mark_lt (at_key key) m).
Proof.
  intros (Hne & Hks & _)%page_ok_branch Hs.
  destruct (branch_search_index key es.*1 Hks) as (Hj & H1 & H2); [by destruct es|].
  set (j := branch_search key es.*1) in *. rewrite length_fmap in Hj.
  destruct (lookup_lt_is_Some_2 es j Hj) as [[k c] Hc]. exists k, c. split; [done|].
  unfold left_of, right_of. cbn [ref index]. rewrite Hc.
  assert (marks b (BranchPage id es) = lead b (take j es) k ++ marks b c ++ flat b (drop (S j) es)) as E.
  { rewrite <-(take_drop_middle es j _ Hc) at 1. apply marks_branch. }
  split; [exact E|]. rewrite E in Hs. split.
  - unfold lead in *. destruct (take j es) as [|kc es1] eqn:Et; [by intros m ?%elem_of_nil|].
    assert (String.le k key) as Hk.
    { destruct (H1 k) as [Hj0|]; [by rewrite list_lookup_fmap, Hc|by rewrite Hj0 in Et|done]. }
    intros m [Hm| ->%list_elem_of_singleton]%elem_of_app; [|exact Hk].
    apply (mark_lt_sep m k key); [|done]. apply sorted_marks_app in Hs as (_ & (H & _ & _)%sorted_marks_app & _).
    apply H; [done|by left].
  - rewrite (assoc_L (++)) in Hs. apply sorted_marks_app in Hs as (_ & _ & Hs).
    destruct (drop (S j) es) as [|[k' c'] es2] eqn:Ed; [by intros m ?%elem_of_nil|].
    assert (slt key k') as Hk.
    { apply (H2 (S j)); [lia|]. rewrite list_lookup_fmap, <-(Nat.add_0_r (S j)), <-lookup_drop, Ed. done. }
    intros m Hm. change (m ∈ Sep k' :: (marks b c' ++ flat b es2)) in Hm.
    change (StronglySorted mark_lt (Sep k' :: (marks b c' ++ flat b es2))) in Hs.
    apply StronglySorted_cons in Hs as [Hall _]. rewrite Forall_forall in Hall.
    apply elem_of_cons in Hm as [->|Hm]; [exact Hk|]. apply (sep_mark_lt m k' key); [by apply Hall|done].
Qed.

(** Where a search lands. *)
Record lands (b : bucket) (key : string) (p : page) (up : stack) (id : nat) (es l1 l2 : list item) : Prop := {
  la_path : path p up (LeafPage id es);
  la_inodes : default es (nodes b !! id) = l1 ++ l2;
  la_before : forall m, m ∈ pre_up b up ++ (Item <$> l1) -> mark_lt m (at_key key);
  la_here : forall x, x ∈ l2.*1 -> String.le key x;
  la_after : forall m, m ∈ post_up b up -> mark_lt (at_key key) m;
}.

Lemma keys_of_Items (l : list item) : StronglySorted mark_lt (Item <$> l) -> sorted l.*1.
Proof.
  induction l as [|x l IH]; [constructor|]. rewrite !fmap_cons. intros [Hall Hs]%StronglySorted_cons.
  constructor; [by apply IH|]. apply Forall_forall. intros k (y & -> & Hy)%list_elem_of_fmap.
  rewrite Forall_forall in Hall. apply (Hall (Item y)). by apply list_elem_of_fmap_2.
Qed.

Lemma search_spec b key p st :
  page_ok p -> StronglySorted mark_lt (marks b p) ->
  exists up id es l1 l2, lands b key p up id es l1 l2 /\
    search b key p st = Ret ({| ref := pageNode b (LeafPage id es); index := length l1 |} :: up ++ st).
Proof.
  revert st. induction p as [id es|id es IH] using page_tree_ind; intros st Hok Hs.
  - destruct (leaf_search_spec key (default es (nodes b !! id))) as (l1 & l2 & E & El & H1 & H2).
    { by apply keys_of_Items. }
    exists [], id, es, l1, l2. split; [split; [constructor|done| |done|by intros m ?%elem_of_nil]|cbn [search]; by rewrite El].
    intros m (x & -> & Hx)%list_elem_of_fmap. cbn. apply H1. by apply list_elem_of_fmap_2.
  - destruct (branch_marks b id es key Hok Hs) as (k & c & Hc & E & H1 & H2). cbv zeta in E, H1, H2.
    set (r := {| ref := OnPage (BranchPage id es); index := branch_search key es.*1 |}) in *.
    rewrite E in Hs. apply sorted_marks_app in Hs as (_ & _ & (_ & Hs & _)%sorted_marks_app).
    apply page_ok_branch in Hok as (_ & _ & Hok).
    destruct (Forall_lookup_1 _ _ _ _ IH Hc (r :: st) (Forall_lookup_1 _ _ _ _ Hok Hc) Hs)
      as (up & id' & es' & l1 & l2 & [G1 G2 G3 G4 G5] & Es). cbn [snd] in *.
    exists (up ++ [r]), id', es', l1, l2. split; [split; [|done| |done|]|].
    + eapply path_app; [|exact G1]. eapply path_down; [constructor|exact Hc].
    + intros m. unfold pre_up in *. rewrite fmap_app, reverse_app, concat_app. cbn [fmap list_fmap reverse rev_append concat].
      rewrite app_nil_r, <-(assoc_L (++)). intros [Hm|Hm]%elem_of_app; [by apply H1|by apply G3].
    + intros m. unfold post_up in *. rewrite fmap_app, concat_app. cbn [fmap list_fmap concat]. rewrite app_nil_r.
      intros [Hm|Hm]%elem_of_app; [by apply G5|by apply H2].
    + cbn [search]. change (map _ es) with ((fun kc : string * page => search b key kc.2) <$> es).
      rewrite list_lookup_fmap, Hc. cbn [fmap option_fmap option_map snd].
      rewrite <-(assoc_L (++)). exact Es.
Qed.

(** *** The map of a bucket *)

Lemma sorted_items ms : StronglySorted mark_lt ms -> sorted (items_of ms).*1.
Proof.
  induction ms as [|m ms IH]; [constructor|]. intros [Hall Hs]%StronglySorted_cons. specialize (IH Hs).
  destruct m as [k|x]; [exact IH|]. change (sorted (x.1 :: (items_of ms).*1)). constructor; [done|].
  apply Forall_forall. intros k (y & -> & Hy%elem_of_items_of)%list_elem_of_fmap.
  rewrite Forall_forall in Hall. exact (Hall _ Hy).
Qed.

Lemma tx_items_sorted b : tx_bucket b -> sorted (items b).*1.
Proof. intros Hb. apply sorted_items, Hb. Qed.

Lemma view_elem b k v : tx_bucket b -> bk_view b !! k = Some v <-> (k, v) ∈ items b.
Proof. intros Hb. symmetry. apply elem_of_list_to_map. by apply sorted_NoDup, tx_items_sorted. Qed.

(** The items before a key, and those that are not. *)
Record cut (l : list item) (key : string) (a c : list item) : Prop := {
  cut_app : l = a ++ c;
  cut_before : forall x, x ∈ a.*1 -> slt x key;
  cut_from : forall x, x ∈ c.*1 -> String.le key x;
}.

Lemma cut_lookup l key a c :
  sorted l.*1 -> cut l key a c ->
  (list_to_map l : gmap string string) !! key =
  match head c with Some (k, v) => if decide (key = k) then Some v else None | None => None end.
Proof.
  intros Hs [-> Ha Hc]. pose proof (sorted_NoDup _ Hs) as Hnd.
  assert (forall v, (list_to_map (a ++ c) : gmap string string) !! key = Some v -> (key, v) ∈ c) as Hin.
  { intros v Hv. apply elem_of_list_to_map_2 in Hv as [Hv|Hv]%elem_of_app; [|done]. exfalso.
    apply (slt_irrefl key), Ha. change key with ((key, v).1). by apply list_elem_of_fmap_2. }
  destruct c as [|[k v] c]; cbn [head].
  - apply eq_None_not_Some. intros [v Hv]. by apply Hin, elem_of_nil in Hv.
  - destruct (decide (key = k)) as [->|Hne].
    + apply elem_of_list_to_map; [done|]. apply elem_of_app. right. by left.
    + apply eq_None_not_Some. intros [v' Hv]. apply Hin in Hv as [[= -> ->]|Hv]%elem_of_cons; [done|].
      rewrite fmap_app in Hs. apply StronglySorted_app_1_r in Hs. cbn in Hs. apply StronglySorted_cons in Hs as [Hall _].
      rewrite Forall_forall in Hall. specialize (Hall key). apply (slt_not_slt k key).
      * apply Hall. change key with ((key, v').1). by apply list_elem_of_fmap_2.
      * destruct (le_cases key k) as [|]; [apply Hc; by left|done|done].
Qed.

(** Without an item in the middle, and with one. *)
Lemma list_to_map_middle (a c : list item) k v :
  NoDup (a ++ (k, v) :: c).*1 ->
  (list_to_map (a ++ (k, v) :: c) : gmap string string) = <[k := v]> (list_to_map (a ++ c)) /\
  (list_to_map (a ++ c) : gmap string string) !! k = None.
Proof.
  intros Hnd. rewrite fmap_app, fmap_cons in Hnd. split.
  - rewrite (list_to_map_proper (a ++ (k, v) :: c) ((k, v) :: (a ++ c))); [done| |by rewrite Permutation_middle].
    by rewrite fmap_app, fmap_cons.
  - apply not_elem_of_list_to_map_1. rewrite fmap_app. rewrite <-Permutation_middle in Hnd. by apply NoDup_cons in Hnd as [? _].
Qed.

Lemma delete_middle (a c : list item) k v :
  NoDup (a ++ (k, v) :: c).*1 ->
  (list_to_map (a ++ c) : gmap string string) = delete k (list_to_map (a ++ (k, v) :: c)).
Proof. intros Hnd. destruct (list_to_map_middle a c k v Hnd) as [-> Hn]. by rewrite delete_insert_id. Qed.

(** *** Get and Put *)

Lemma lands_items b key up id es l1 l2 :
  lands b key (root b) up id es l1 l2 ->
  cut (items b) key (items_of (pre_up b up) ++ l1) (l2 ++ items_of (post_up b up)).
Proof.
  intros [H1 H2 H3 H4 H5]. split.
  - unfold items. rewrite (path_marks _ _ _ _ H1). cbn [marks]. rewrite H2.
    by rewrite !items_of_app, items_of_Item, <-!(assoc_L (++)).
  - rewrite fmap_app. intros x [(y & -> & Hy)%list_elem_of_fmap|(y & -> & Hy)%list_elem_of_fmap]%elem_of_app.
    + apply elem_of_items_of in Hy. apply (H3 (Item y)), elem_of_app. by left.
    + apply (H3 (Item y)), elem_of_app. right. by apply list_elem_of_fmap_2.
  - rewrite fmap_app. intros x [Hx|(y & -> & Hy%elem_of_items_of)%list_elem_of_fmap]%elem_of_app; [by apply H4|].
    apply slt_le. exact (H5 (Item y) Hy).
Qed.

Lemma place_keyValue b id es i up :
  keyValue b ({| ref := pageNode b (LeafPage id es); index := i |} :: up) = default es (nodes b !! id) !! i.
Proof.
  cbn. destruct (decide _) as [[l Hl]|Hn]; cbn; [by unfold leaf_inodes; rewrite Hl|].
  destruct (nodes b !! id) eqn:E; [|done]. destruct Hn. by eexists.
Qed.

Lemma place_count b id es i :
  count b {| ref := pageNode b (LeafPage id es); index := i |} = length (default es (nodes b !! id)).
Proof.
  unfold count. cbn. destruct (decide _) as [[l Hl]|Hn]; [by unfold leaf_inodes; rewrite Hl|].
  destruct (nodes b !! id) eqn:E; [|done]. destruct Hn. by eexists.
Qed.

Lemma seek_lands b key :
  tx_bucket b ->
  exists up id es l1 l2, lands b key (root b) up id es l1 l2 /\
    seek b key = Ret ({| ref := pageNode b (LeafPage id es); index := length l1 |} :: up, head l2).
Proof.
  intros [Hok _ Hs]. destruct (search_spec b key (root b) [] Hok Hs) as (up & id & es & l1 & l2 & Hl & E).
  exists up, id, es, l1, l2. split; [done|]. unfold seek. rewrite E. run_bind.
  rewrite place_keyValue, (la_inodes _ _ _ _ _ _ _ _ Hl), app_nil_r. do 2 f_equal.
  rewrite lookup_app_r, Nat.sub_diag by lia. by destruct l2.
Qed.

Lemma bk_Get_spec b key : tx_bucket b -> bk_Get b key = Ret (bk_view b !! key).
Proof.
  intros Hb. destruct (seek_lands b key Hb) as (up & id & es & l1 & l2 & Hl & E).
  unfold bk_Get. rewrite E. run_bind. f_equal. unfold bk_view.
  pose proof (lands_items _ _ _ _ _ _ _ Hl) as Hcut.
  rewrite (cut_lookup _ _ _ _ (tx_items_sorted b Hb) Hcut). destruct l2 as [|[k v] l2]; [|done]. cbn [head app].
  destruct (items_of (post_up b up)) as [|[k v] post] eqn:Ep; [done|]. cbn [head]. rewrite decide_False; [done|].
  apply slt_neq. apply (la_after _ _ _ _ _ _ _ _ Hl (Item (k, v))). apply elem_of_items_of. rewrite Ep. by left.
Qed.

(** The node a cursor gets is that of the leaf it landed on. *)
Lemma curs_node_lands b id es i up f :
  path (root b) up (LeafPage id es) ->
  ('(b, id) ← curs_node b ({| ref := pageNode b (LeafPage id es); index := i |} :: up);
   Ret (set_node b id (f (leaf_inodes b id)))) = Ret (set_node b id (f (default es (nodes b !! id)))).
Proof.
  intros Hp. cbn [curs_node pageNode ref]. destruct (decide _) as [[l Hl]|Hn].
  - run_bind. unfold leaf_inodes. by rewrite Hl.
  - rewrite (childAt_path _ _ _ Hp). run_bind. unfold set_node, leaf_inodes. cbn.
    by rewrite lookup_insert_eq, insert_insert_eq.
Qed.

(** [put] and [del] at the place a search finds. *)
Definition without_head (key : string) (l : list item) : list item :=
  match l with (k, _) :: l' => if decide (k = key) then l' else l | [] => [] end.

Lemma leaf_search_unique key l1 l2 :
  sorted (l1 ++ l2).*1 -> (forall x, x ∈ l1.*1 -> slt x key) -> (forall x, x ∈ l2.*1 -> String.le key x) ->
  leaf_search key (l1 ++ l2) = length l1.
Proof.
  intros Hs H1 H2. destruct (leaf_search_spec key (l1 ++ l2) Hs) as (m1 & m2 & E & <- & G1 & G2).
  apply app_eq_inv in E as [(m & -> & ->)|(m & -> & ->)].
  - destruct m as [|[k v] m]; [by rewrite app_nil_r|]. exfalso. apply (H1 k).
    + rewrite fmap_app. apply elem_of_app. right. by left.
    + apply G2. by left.
  - destruct m as [|[k v] m]; [by rewrite app_nil_r|]. exfalso. apply (G1 k).
    + rewrite fmap_app. apply elem_of_app. right. by left.
    + apply H2. by left.
Qed.

Lemma node_put_eq key value l1 l2 :
  leaf_search key (l1 ++ l2) = length l1 ->
  node_put key value (l1 ++ l2) = l1 ++ (key, value) :: without_head key l2.
Proof.
  intros E. unfold node_put. rewrite E, lookup_app_r, Nat.sub_diag by lia.
  destruct l2 as [|[k v] l2]; cbn [lookup list_lookup without_head].
  - by rewrite app_nil_r, take_ge, drop_ge by lia.
  - destruct (decide (k = key)) as [->|_]; [|by rewrite take_app_length, drop_app_length].
    rewrite <-(Nat.add_0_r (length l1)), insert_app_r. done.
Qed.

Lemma node_del_eq key l1 v l2 :
  leaf_search key (l1 ++ (key, v) :: l2) = length l1 -> node_del key (l1 ++ (key, v) :: l2) = l1 ++ l2.
Proof.
  intros E. unfold node_del. rewrite E, list_lookup_middle by done. rewrite decide_True by done.
  rewrite take_app_length, <-Nat.add_1_r, <-drop_drop, drop_app_length. done.
Qed.

Lemma sorted_put (pre post : list mark) l1 l2 key value :
  StronglySorted mark_lt (pre ++ (Item <$> (l1 ++ l2)) ++ post) ->
  (forall m, m ∈ pre ++ (Item <$> l1) -> mark_lt m (at_key key)) -> (forall x, x ∈ l2.*1 -> String.le key x) ->
  (forall m, m ∈ post -> mark_lt (at_key key) m) ->
  StronglySorted mark_lt (pre ++ (Item <$> (l1 ++ (key, value) :: without_head key l2)) ++ post).
Proof.
  intros Hs Hb Hh Ha. rewrite fmap_app, !(assoc_L (++)) in *. rewrite fmap_cons. rewrite <-!(assoc_L (++)) in *.
  rewrite (assoc_L (++)) in Hs |- *. apply sorted_marks_app in Hs as (H1 & Hpre & Hs). cbn [app].
  assert (StronglySorted mark_lt ((Item <$> without_head key l2) ++ post) /\
          (forall m, m ∈ (Item <$> without_head key l2) ++ post -> mark_lt (at_key key) m /\ m ∈ (Item <$> l2) ++ post))
    as [Hw Hin].
  { destruct l2 as [|[k v] l2]; cbn [without_head]; [by split; [|intros m Hm; split; [apply Ha|]]|].
    change (StronglySorted mark_lt (Item (k, v) :: ((Item <$> l2) ++ post))) in Hs.
    pose proof Hs as [Hall Hs']%StronglySorted_cons. rewrite Forall_forall in Hall.
    destruct (decide (k = key)) as [->|Hne].
    - split; [done|]. intros m Hm. split; [specialize (Hall m Hm); by destruct m|]. by right.
    - assert (slt key k) as Hk by (destruct (le_cases key k) as [|]; [apply Hh; by left|by subst|done]).
      split; [done|]. intros m Hm. split; [|done]. apply elem_of_cons in Hm as [->|Hm]; [exact Hk|].
      specialize (Hall m Hm). destruct m; cbn in *; by eapply slt_trans. }
  apply sorted_marks_app. split; [|split; [done|]].
  - intros m1 m2 Hm1 [->|Hm2]%elem_of_cons; [specialize (Hb m1 Hm1); by destruct m1|]. by apply H1, Hin.
  - apply StronglySorted_cons. split; [|done]. apply Forall_forall. intros m Hm.
    destruct (Hin m Hm) as [H _]. by destruct m.
Qed.

Lemma set_node_tx b up id es l :
  tx_bucket b -> path (root b) up (LeafPage id es) ->
  StronglySorted mark_lt (pre_up b up ++ (Item <$> l) ++ post_up b up) -> tx_bucket (set_node b id l).
Proof.
  intros [H1 H2 H3] Hp Hs. split; [done|done|]. change (root (set_node b id l)) with (root b).
  by rewrite (marks_set_node b up id es l H2 Hp).
Qed.

Lemma set_node_items b up id es l :
  tx_bucket b -> path (root b) up (LeafPage id es) ->
  items (set_node b id l) = items_of (pre_up b up) ++ l ++ items_of (post_up b up).
Proof.
  intros Hb Hp. unfold items. change (root (set_node b id l)) with (root b).
  rewrite (marks_set_node b up id es l (tb_ids _ Hb) Hp). by rewrite !items_of_app, items_of_Item.
Qed.

Lemma list_to_map_put (a l c : list item) key value :
  sorted (a ++ (key, value) :: without_head key l ++ c).*1 -> sorted (a ++ l ++ c).*1 ->
  (list_to_map (a ++ (key, value) :: without_head key l ++ c) : gmap string string)
  = <[key := value]> (list_to_map (a ++ l ++ c)).
Proof.
  intros H1%sorted_NoDup H2%sorted_NoDup. rewrite (proj1 (list_to_map_middle a (without_head key l ++ c) key value H1)).
  destruct l as [|[k v] l]; [done|]. cbn [without_head] in *. destruct (decide (k = key)) as [->|]; [|done].
  cbn [app] in *. by rewrite (proj1 (list_to_map_middle a (l ++ c) key v H2)), insert_insert_eq.
Qed.

(** [Put] in a transaction. *)
Lemma bk_Put_spec b key value :
  tx_bucket b ->
  match Put_check key value with
  | Some e => bk_Put b key value = Ret (Err e)
  | None => exists b', bk_Put b key value = Ret (Ok b') /\ tx_bucket b' /\ bk_view b' = <[key := value]> (bk_view b)
  end.
Proof.
  intros Hb. unfold bk_Put. destruct (Put_check key value); [done|].
  destruct (seek_lands b key Hb) as (up & id & es & l1 & l2 & Hl & E). rewrite E. run_bind.
  pose proof Hl as [Hp Hi H3 H4 H5].
  pose proof (curs_node_lands b id es (length l1) up (node_put key value) Hp) as Hn.
  destruct (curs_node b _) as [[b1 id1]|]; [|done]. run_bind. eexists. split; [done|].
  cbn [mbind outcome_bind] in Hn.
  apply (f_equal (fun o => match o with Ret x => x | Panic _ => b end)) in Hn. cbv beta iota in Hn. rewrite Hn.
  pose proof (tb_sorted _ Hb) as Hs. rewrite (path_marks _ _ _ _ Hp) in Hs. cbn [marks] in Hs. rewrite Hi in Hs |- *.
  rewrite (node_put_eq key value l1 l2).
  2: { apply leaf_search_unique; [|intros x (y & -> & Hy)%list_elem_of_fmap|done].
       - apply keys_of_Items. by apply sorted_marks_app in Hs as (_ & _ & (_ & ? & _)%sorted_marks_app).
       - apply (H3 (Item y)), elem_of_app. right. by apply list_elem_of_fmap_2. }
  pose proof (set_node_tx b up id es _ Hb Hp (sorted_put _ _ l1 l2 key value Hs H3 H4 H5)) as Hb'. split; [done|].
  pose proof (tx_items_sorted _ Hb') as S1. pose proof (tx_items_sorted _ Hb) as S2.
  unfold bk_view. rewrite (set_node_items b up id es _ Hb Hp) in *.
  rewrite (cut_app _ _ _ _ (lands_items _ _ _ _ _ _ _ Hl)) in *.
  set (pre := items_of (pre_up b up)) in *. set (post := items_of (post_up b up)) in *.
  assert (pre ++ (l1 ++ (key, value) :: without_head key l2) ++ post
          = (pre ++ l1) ++ (key, value) :: without_head key l2 ++ post) as E1 by by rewrite <-!(assoc_L (++)).
  rewrite E1 in *. by apply list_to_map_put.
Qed.

(** *** Moving on

    To the right of the stack every leaf is as its page has it, and has an
    item. *)
Definition full_right (r : elemRef) : Prop :=
  match ref r with OnPage (BranchPage _ es) => Forall (fun kc => full kc.2) (drop (S (index r)) es) | _ => True end.

Record clear (b : bucket) (up : stack) : Prop := {
  cl_nodes : forall id, id ∈ ids_after up -> nodes b !! id = None;
  cl_full : Forall full_right up;
}.

Lemma path_full_right p up q : path p up q -> full p -> Forall full_right up.
Proof.
  induction 1 as [|p up id es i k c Hp IH Hi]; [constructor|]. intros Hf. constructor; [|by apply IH].
  unfold full_right. cbn. apply Forall_drop. apply (full_branch id). by eapply path_full.
Qed.

Lemma first_page_spec b p st :
  page_ok p ->
  exists up id es,
    first_page b p st = Ret ({| ref := pageNode b (LeafPage id es); index := 0 |} :: up ++ st) /\
    path p up (LeafPage id es) /\ pre_up b up = [] /\ (full p -> es <> [] /\ Forall full_right up).
Proof.
  revert st. induction p as [id es|id es IH] using page_tree_ind; intros st Hok.
  - exists [], id, es. split; [done|]. split; [constructor|]. split; [done|]. intros Hf. split; [done|constructor].
  - apply page_ok_branch in Hok as (Hne & _ & Hok). destruct es as [|[k c] es]; [done|].
    apply Forall_cons in IH as [IH _], Hok as [Hok _].
    set (r := {| ref := OnPage (BranchPage id ((k, c) :: es)); index := 0 |}).
    destruct (IH (r :: st) Hok) as (up & id' & es' & E & Hp & Hpre & Hf). exists (up ++ [r]), id', es'.
    rewrite <-(assoc_L (++)). split; [exact E|]. split; [|split].
    + eapply path_app; [|exact Hp]. by eapply path_down; [constructor|].
    + unfold pre_up in *. rewrite fmap_app, reverse_app, concat_app. by rewrite Hpre.
    + rewrite full_branch, Forall_cons. intros [Hc Hes]. destruct (Hf Hc) as [Hne' Hup]. split; [done|].
      apply Forall_app. by repeat constructor.
Qed.

Lemma flat_items b es : items_of (flat b es) = concat (map (fun kc => items_of (marks b kc.2)) es).
Proof. induction es as [|[k c] es IH]; [done|]. unfold flat in *. cbn [map concat]. rewrite !items_of_app. cbn. by f_equal. Qed.

(** Up the stack, to the next child. *)
Lemma advance_spec b p up q :
  path p up q -> Forall full_right up ->
  match advance b up with
  | None => items_of (post_up b up) = [] /\ ids_after up = []
  | Some st => exists id es i k c up',
      st = {| ref := OnPage (BranchPage id es); index := i |} :: up' /\ es !! i = Some (k, c) /\ path p st c /\
      items_of (post_up b up) = items_of (marks b c) ++ items_of (post_up b st) /\
      ids_after up = leaf_ids c ++ ids_after st /\ Forall full_right st /\ full c
  end.
Proof.
  induction 1 as [p|p up id es i k c Hp IH Hi]; [done|]. intros [Hr Hup]%Forall_cons. cbn [advance].
  unfold count. cbn [ref index]. destruct (Nat.ltb_spec (S i) (length es)) as [Hlt|Hge].
  - destruct (lookup_lt_is_Some_2 es (S i) Hlt) as [[k' c'] Hc]. exists id, es, (S i), k', c', up.
    pose proof (drop_S es (k', c') (S i) Hc) as Ed. unfold full_right in Hr. cbn [ref index] in Hr. rewrite Ed in Hr.
    apply Forall_cons in Hr as [Hf Hr].
    split; [done|]. split; [done|]. split; [by eapply path_down|]. split; [|split; [|split; [by constructor|exact Hf]]].
    + unfold post_up, right_of. cbn [fmap list_fmap concat ref index]. rewrite Ed, !items_of_app, !flat_items.
      cbn [map concat snd]. by rewrite <-(assoc_L (++)).
    + unfold ids_after, right_ids. cbn [fmap list_fmap concat ref index]. rewrite Ed. unfold ids_of. cbn [map concat snd].
      by rewrite <-(assoc_L (++)).
  - set (r := {| ref := OnPage (BranchPage id es); index := i |}).
    assert (post_up b (r :: up) = post_up b up) as ->.
    { unfold post_up, right_of. cbn [fmap list_fmap concat r ref index]. by rewrite drop_ge. }
    assert (ids_after (r :: up) = ids_after up) as ->; [|by apply IH].
    unfold ids_after, right_ids. cbn [fmap list_fmap concat r ref index]. by rewrite drop_ge.
Qed.

(** *** A cursor that walks along pages

    The cursor is at the index [i] of the page [es] of a leaf whose items from
    [i] on are those of the page; [done] are the ones before it, changed or
    not. *)
Record walk (b : bucket) (up : stack) (id : nat) (es : list item) (i : nat) (past : list item) : Prop := {
  wk_bucket : tx_bucket b;
  wk_path : path (root b) up (LeafPage id es);
  wk_clear : clear b up;
  wk_inodes : default es (nodes b !! id) = past ++ drop i es;
}.

Definition on_page (id : nat) (es : list item) (i : nat) : elemRef := {| ref := OnPage (LeafPage id es); index := i |}.

(** What is still to come, the item under the cursor first. *)
Definition rest (b : bucket) (up : stack) (es : list item) (i : nat) : list item :=
  drop i es ++ items_of (post_up b up).

Lemma walk_items b up id es i past :
  walk b up id es i past -> items b = (items_of (pre_up b up) ++ past) ++ rest b up es i.
Proof.
  intros [_ Hp _ Hi]. unfold items, rest. rewrite (path_marks _ _ _ _ Hp). cbn [marks]. rewrite Hi.
  by rewrite !items_of_app, items_of_Item, <-!(assoc_L (++)).
Qed.

Lemma walk_rest b up id es i past kv :
  walk b up id es i past -> es !! i = Some kv ->
  items b = (items_of (pre_up b up) ++ past) ++ kv :: rest b up es (S i).
Proof. intros Hw Hi. rewrite (walk_items _ _ _ _ _ _ Hw). unfold rest. by rewrite (drop_S es kv i Hi). Qed.

Lemma pages_pos p : exists n, pages p = S n.
Proof. destruct p; by eexists. Qed.

(** Down from a child no leaf of which is in [nodes]. *)
Lemma first_clear b st c :
  tx_bucket b -> path (root b) st c -> full c -> (forall id, id ∈ leaf_ids c -> nodes b !! id = None) -> clear b st ->
  exists up id kv es,
    first_page b c st = Ret (on_page id (kv :: es) 0 :: up) /\ walk b up id (kv :: es) 0 [] /\
    items_of (marks b c) ++ items_of (post_up b st) = (kv :: es) ++ items_of (post_up b up).
Proof.
  intros Hb Hp Hfc Hn [Hns Hfs].
  destruct (first_page_spec b c st) as (up & id & es & E & Hp2 & Hpre & Hfull); [by eapply path_ok; [|apply Hb]|].
  destruct (Hfull Hfc) as [Hne Hf2]. destruct es as [|kv es]; [done|]. pose proof (path_ids _ _ _ Hp2) as Eids.
  assert (nodes b !! id = None) as Hid.
  { apply Hn. rewrite Eids, !elem_of_app. right. left. by left. }
  exists (up ++ st), id, kv, es. split; [|split].
  - rewrite E. unfold on_page, pageNode. rewrite Hid. by rewrite decide_False by by intros [].
  - split; [done|by eapply path_app| |by rewrite Hid]. split; [|by apply Forall_app].
    intros id' Hid'. unfold ids_after in Hid'. rewrite fmap_app, concat_app in Hid'.
    apply elem_of_app in Hid' as [Hid'|Hid']; [|by apply Hns]. apply Hn. rewrite Eids, !elem_of_app. by right; right.
  - rewrite (path_marks _ _ _ _ Hp2), Hpre. cbn [app marks]. rewrite Hid. cbn [default].
    unfold post_up. rewrite fmap_app, concat_app, !items_of_app, items_of_Item. by rewrite <-(assoc_L (++)).
Qed.

(** [Next] from the index [i], of which the items after it are those of the
    page. *)
Lemma curs_Next_spec b up id es i past :
  walk b up id es (S i) past ->
  match rest b up es (S i) with
  | [] => curs_Next b (on_page id es i :: up) = Ret (on_page id es i :: up, None)
  | kv :: more => exists up' id' es' i' past',
      curs_Next b (on_page id es i :: up) = Ret (on_page id' es' i' :: up', Some kv) /\
      walk b up' id' es' i' past' /\ es' !! i' = Some kv /\ rest b up' es' (S i') = more
  end.
Proof.
  intros [Hb Hp [Hn Hf] Hi]. unfold curs_Next. destruct (pages_pos (root b)) as [fuel ->]. cbn [next advance].
  unfold count, rest. cbn [on_page ref index]. destruct (Nat.ltb_spec (S i) (length es)) as [Hlt|Hge].
  - destruct (lookup_lt_is_Some_2 es (S i) Hlt) as [kv Hkv]. rewrite (drop_S es kv (S i) Hkv) in *. cbn [app].
    exists up, id, es, (S i), past. cbn [first isLeaf ref]. run_bind. cbn [top_count count ref keyValue index].
    rewrite Hkv, (proj2 (Nat.eqb_neq (length es) 0)) by lia. split; [done|]. split; [|by split].
    split; [done|done|done|]. by rewrite (drop_S es kv (S i) Hkv).
  - rewrite (drop_ge es (S i)) by lia. cbn [app].
    pose proof (advance_spec b (root b) up _ Hp Hf) as Ha. destruct (advance b up) as [st|].
    2: { destruct Ha as [-> _]. done. }
    destruct Ha as (id1 & es1 & i1 & k & c & up1 & -> & Hc & Hp1 & Ei & Eids & Hf1 & Hfc).
    set (st := {| ref := OnPage (BranchPage id1 es1); index := i1 |} :: up1) in *.
    destruct (first_clear b st c Hb Hp1 Hfc) as (up2 & id2 & kv & es2 & E & Hw & Er).
    { intros id' Hid'. apply Hn. rewrite Eids. apply elem_of_app. by left. }
    { split; [|done]. intros id' Hid'. apply Hn. rewrite Eids. apply elem_of_app. by right. }
    assert (first b st = first_page b c st) as ->.
    { cbn [st first isLeaf ref child index]. by rewrite Hc. }
    rewrite E, Ei, Er. run_bind. cbn [app]. by exists up2, id2, (kv :: es2), 0, [].
Qed.

Lemma sorted_without {A} (R : relation A) l1 x l2 :
  StronglySorted R (l1 ++ x :: l2) -> StronglySorted R (l1 ++ l2).
Proof.
  rewrite !StronglySorted_app, StronglySorted_cons. intros (H1 & H2 & _ & H3). split_and!; [|done..].
  intros y z Hy Hz. apply H1; [done|]. by right.
Qed.

(** [Delete] under a walking cursor: the item is gone from the bucket, and
    what is to come after it stays to come. *)
Lemma curs_Delete_spec b up id es i past k v :
  walk b up id es i past -> es !! i = Some (k, v) ->
  exists b', curs_Delete b (on_page id es i :: up) = Ret (Ok b') /\ walk b' up id es (S i) past /\
    rest b' up es (S i) = rest b up es (S i) /\ bk_view b' = delete k (bk_view b).
Proof.
  intros Hw Hkv. pose proof Hw as [Hb Hp [Hn Hf] Hi]. rewrite (drop_S es _ i Hkv) in Hi.
  exists (set_node b id (past ++ drop (S i) es)).
  pose proof (tb_sorted _ Hb) as Hs. rewrite (path_marks _ _ _ _ Hp) in Hs. cbn [marks] in Hs. rewrite Hi in Hs.
  assert (tx_bucket (set_node b id (past ++ drop (S i) es))) as Hb'.
  { eapply set_node_tx; [done|exact Hp|]. rewrite fmap_app, <-(assoc_L (++)), (assoc_L (++)).
    apply sorted_without with (Item (k, v)). rewrite <-(assoc_L (++)). rewrite fmap_app, <-(assoc_L (++)) in Hs. exact Hs. }
  assert (id ∉ ids_after up) as Hid.
  { pose proof (tb_ids _ Hb) as Hnd. rewrite (path_ids _ _ _ Hp) in Hnd.
    by apply NoDup_app in Hnd as (_ & _ & [? _]%NoDup_cons). }
  assert (post_up (set_node b id (past ++ drop (S i) es)) up = post_up b up) as Epost
    by by apply post_agree, set_node_agrees.
  split; [|split; [|split]].
  - unfold curs_Delete. cbn [on_page keyValue ref index]. rewrite Hkv. unfold on_page. cbn [curs_node ref].
    rewrite (childAt_path _ _ _ Hp). run_bind. rewrite Hi. unfold leaf_inodes. cbn [set_node nodes].
    rewrite lookup_insert_eq. change (default [] (Some ?l)) with l. unfold set_node. cbn [root nodes].
    rewrite insert_insert_eq. do 4 f_equal. apply node_del_eq.
    apply sorted_marks_app in Hs as (_ & _ & (_ & Hs & _)%sorted_marks_app). pose proof (keys_of_Items _ Hs) as Hk.
    rewrite fmap_app, fmap_cons in Hk. cbn [fst] in Hk. apply StronglySorted_app in Hk as (H1 & _ & [H2 _]%StronglySorted_cons).
    apply leaf_search_unique; [by apply keys_of_Items|intros x Hx; apply H1; [done|by left]|].
    rewrite fmap_cons. intros x [->|Hx]%elem_of_cons; [done|]. rewrite Forall_forall in H2. by apply slt_le, H2.
  - split; [done|exact Hp| |by cbn [set_node nodes]; rewrite lookup_insert_eq]. split; [|done].
    intros id' Hid'. cbn. rewrite lookup_insert_ne; [by apply Hn|]. by intros ->.
  - unfold rest. by rewrite Epost.
  - unfold bk_view. rewrite (set_node_items b up id es _ Hb Hp), (walk_items _ _ _ _ _ _ Hw).
    pose proof (sorted_NoDup _ (tx_items_sorted b Hb)) as Hnd. rewrite (walk_items _ _ _ _ _ _ Hw) in Hnd.
    unfold rest in *. rewrite (drop_S es _ i Hkv) in *. rewrite <-!(assoc_L (++)) in *. cbn [app] in *.
    rewrite !(assoc_L (++)) in *. rewrite <-!(assoc_L (++) _ (drop (S i) es)) in *. by apply delete_middle.
Qed.

(** *** The cursor of a new transaction *)

Lemma fresh_place b id es : fresh_bucket b -> pageNode b (LeafPage id es) = OnPage (LeafPage id es).
Proof. intros Hf. unfold pageNode. rewrite (fb_nodes _ Hf). by rewrite decide_False by by intros []. Qed.

Lemma path_leaf id es up q : path (LeafPage id es) up q -> up = [] /\ q = LeafPage id es.
Proof.
  intros H. remember (LeafPage id es) as p eqn:Ep. induction H as [|p up id' es' i k c _ IH Hi]; [done|].
  destruct (IH Ep) as [_ E]. congruence.
Qed.

Lemma fresh_clear b up q : fresh_bucket b -> path (root b) up q -> clear b up.
Proof.
  intros [_ Hn Hf] Hp. split; [intros id _; by rewrite Hn|]. destruct (root b) as [id es|id es].
  - by apply path_leaf in Hp as [-> _].
  - by eapply path_full_right.
Qed.

(** What a cursor answers: the first of the items [r] that are to come, which
    it then walks along. *)
Definition comes (b : bucket) (o : outcome (stack * option item)) (r : list item) : Prop :=
  match r with
  | [] => exists st, o = Ret (st, None)
  | kv :: more => exists up id es i past,
      o = Ret (on_page id es i :: up, Some kv) /\ walk b up id es i past /\ es !! i = Some kv /\ rest b up es (S i) = more
  end.

Lemma curs_Next_comes b up id es i past :
  walk b up id es (S i) past -> comes b (curs_Next b (on_page id es i :: up)) (rest b up es (S i)).
Proof.
  intros Hw. pose proof (curs_Next_spec b up id es i past Hw) as H. unfold comes.
  destruct (rest b up es (S i)); [by eexists|done].
Qed.

(** [Seek] cuts the items at the key. *)
Lemma curs_Seek_spec b key :
  fresh_bucket b -> exists a r, cut (items b) key a r /\ comes b (curs_Seek b key) r.
Proof.
  intros Hf. pose proof (fb_bucket _ Hf) as Hb.
  destruct (seek_lands b key Hb) as (up & id & es & l1 & l2 & Hl & E).
  pose proof (lands_items _ _ _ _ _ _ _ Hl) as Hcut. eexists _, _. split; [exact Hcut|].
  unfold curs_Seek. rewrite E, (fresh_place b id es Hf). run_bind. fold (on_page id es (length l1)).
  pose proof Hl as [Hp Hi _ _ _]. rewrite (fb_nodes _ Hf), lookup_empty in Hi. cbn [default] in Hi. subst es.
  pose proof (fresh_clear b up _ Hf Hp) as Hc. unfold count. cbn [on_page ref index]. rewrite length_app.
  assert (forall i past, default (l1 ++ l2) (nodes b !! id) = past ++ drop i (l1 ++ l2) -> walk b up id (l1 ++ l2) i past)
    as Hw by by split.
  rewrite (fb_nodes _ Hf), lookup_empty in Hw. cbn [default] in Hw. destruct l2 as [|kv l2].
  - rewrite (proj2 (Nat.leb_le _ _)) by (cbn; lia). rewrite !app_nil_r in *. cbn [app].
    assert (items_of (post_up b up) = rest b up l1 (S (length l1))) as ->.
    { unfold rest. by rewrite drop_ge by lia. }
    apply (curs_Next_comes b up id l1 (length l1) l1), Hw. by rewrite drop_ge, app_nil_r by lia.
  - rewrite (proj2 (Nat.leb_gt _ _)) by (cbn; lia). cbn [head app comes].
    exists up, id, (l1 ++ kv :: l2), (length l1), l1. split; [done|]. split; [apply Hw; by rewrite drop_app_length|].
    split; [by apply list_lookup_middle|]. unfold rest. f_equal.
    rewrite <-Nat.add_1_r, <-drop_drop, drop_app_length. done.
Qed.

Lemma curs_First_spec b : fresh_bucket b -> exists st, curs_First b = Ret (st, head (items b)).
Proof.
  intros Hf. pose proof (fb_bucket _ Hf) as Hb.
  destruct (first_page_spec b (root b) [] (tb_pages _ Hb)) as (up & id & es & E & Hp & Hpre & Hfull).
  unfold curs_First. rewrite E, (fresh_place b id es Hf), app_nil_r. run_bind. cbn [top_count count ref].
  assert (items b = es ++ items_of (post_up b up)) as Ei.
  { unfold items. rewrite (path_marks _ _ _ _ Hp), Hpre. cbn [app marks]. rewrite (fb_nodes _ Hf), lookup_empty. cbn [default].
    by rewrite items_of_app, items_of_Item. }
  destruct es as [|kv es]; cbn [length Nat.eqb].
  - assert (up = []) as ->.
    { pose proof (fb_full _ Hf) as Hr. destruct (root b); [by apply path_leaf in Hp as [-> _]|].
      by destruct (Hfull Hr) as [? _]. }
    unfold curs_Next. destruct (pages_pos (root b)) as [fuel ->]. cbn. rewrite Ei. by eexists.
  - rewrite Ei. by eexists.
Qed.

Lemma last_page_branch b id es1 k c st :
  last_page b (BranchPage id (es1 ++ [(k, c)])) st
  = last_page b c ({| ref := OnPage (BranchPage id (es1 ++ [(k, c)])); index := length es1 |} :: st).
Proof.
  assert (pred (length (es1 ++ [(k, c)])) = length es1) as El by (rewrite length_app; cbn; lia).
  cbn [last_page]. rewrite El. generalize ({| ref := OnPage (BranchPage id (es1 ++ [(k, c)])); index := length es1 |} :: st).
  intros st'. clear El. induction es1 as [|[k1 c1] es1 IH]; [done|]. cbn [app]. rewrite <-IH. by destruct es1.
Qed.

Lemma last_page_spec b p st :
  page_ok p -> nodes b = ∅ -> match p with LeafPage _ _ => True | BranchPage _ _ => full p end ->
  exists st', last_page b p st = Ret st' /\ keyValue b st' = last (items_of (marks b p)).
Proof.
  intros Hok Hn. revert st. induction p as [id es|id es IH] using page_tree_ind; intros st Hf.
  - eexists. split; [reflexivity|]. rewrite place_keyValue, place_count. cbn [marks]. rewrite Hn, lookup_empty. cbn [default].
    rewrite items_of_Item. symmetry. apply last_lookup.
  - apply page_ok_branch in Hok as (Hne & _ & Hok).
    destruct (exists_last Hne) as (es1 & [k c] & ->).
    apply Forall_app in IH as [_ [IH _]%Forall_cons], Hok as [_ [Hok _]%Forall_cons]. cbn [snd] in *.
    rewrite full_branch in Hf. apply Forall_app in Hf as [_ [Hf _]%Forall_cons]. cbn [snd] in Hf. rewrite last_page_branch.
    destruct (IH Hok ({| ref := OnPage (BranchPage id (es1 ++ [(k, c)])); index := length es1 |} :: st))
      as (st' & E & Ek); [by destruct c|].
    exists st'. split; [exact E|]. rewrite Ek, marks_branch. cbn [flat map concat]. rewrite app_nil_r, items_of_app, last_app.
    assert (items_of (marks b c) <> []) as Hc.
    { destruct (first_page_spec b c [] Hok) as (up & id' & es' & _ & Hp & Hpre & Hfull). destruct (Hfull Hf) as [Hne' _].
      rewrite (path_marks _ _ _ _ Hp), Hpre. cbn [app marks]. rewrite Hn, lookup_empty. cbn [default].
      rewrite items_of_app, items_of_Item. by destruct es'. }
    apply last_is_Some in Hc as [x ->]. done.
Qed.

Lemma curs_Last_spec b : fresh_bucket b -> exists st, curs_Last b = Ret (st, last (items b)).
Proof.
  intros Hf. destruct (last_page_spec b (root b) [] (tb_pages _ (fb_bucket _ Hf)) (fb_nodes _ Hf) (fb_full _ Hf)) as (st & E & Ek).
  unfold curs_Last. rewrite E. run_bind. exists st. by rewrite Ek.
Qed.

Lemma new_bucket_fresh : fresh_bucket new_bucket.
Proof. split; [|done|done]. split; [done|apply NoDup_singleton|constructor]. Qed.

Lemma new_bucket_view : bk_view new_bucket = ∅.
Proof. done. Qed.
