(* ===== verification/RaftBolt.v ===== *)
(** * raftboltdb: raft's log and stable store over BoltDB (bolt_store.go)

    The operations of a store, each a transaction on buckets whose cursors,
    [Put] and [Get] are those of BoltCursor.v.  The database file is a
    parameter: how transactions begin, what a commit leaves of their buckets,
    and the laws its documentation gives of both.  The encoding of raft logs
    (go-msgpack) is a parameter with its round trip. *)
From S2P Require Import Prelude ByteOrder SortSearch BoltCursor BoltTree.

Definition ErrKeyNotFound : goerror := Sentinel "raftboltdb.ErrKeyNotFound".
Definition ErrKeyDuplicated : goerror := Sentinel "raftboltdb.ErrKeyDuplicated".
Definition raft_ErrLogNotFound : goerror := Sentinel "raft.ErrLogNotFound".
Definition ErrBucketNameRequired : goerror := Sentinel "bolt.ErrBucketNameRequired".

Definition dbLogs : string := "logs".
Definition dbConf : string := "conf".

(** ** The calls to bolt *)

(** The buckets of a transaction by name. *)
Abbreviation Tx := (gmap string bucket).

(** A database and its transactions: [Begin] gives the buckets as they are in
    the file; [Commit] writes those of the transaction. *)
Class Database (D : Type) : Type := {
  db_Begin : D -> bool -> result Tx;
  db_Commit : D -> Tx -> D * error;
  db_Close : D -> D * error;
}.

(** What go-msgpack does with a [raft.Log]. *)
Class LogCodec (L : Type) : Type := {
  log_Index : L -> Z;
  codec_Encode : L -> result string;
  codec_Decode : string -> result L;
}.

(** util.go: an encoder over a new buffer, a decoder over the given bytes. *)
Definition encodeMsgPack {L} `{!LogCodec L} (log : L) : result string := codec_Encode log.
Definition decodeMsgPack {L} `{!LogCodec L} (buf : string) : result L := codec_Decode buf.

(** ** The store *)

Section store.
Context {D L : Type} `{!Database D, !LogCodec L}.
Implicit Types d : D.

(** A method on the nil bucket of a name that is not there. *)
Definition tx_Bucket (tx : Tx) (name : string) : outcome bucket :=
  match tx !! name with Some b => Ret b | None => Panic "nil pointer dereference" end.

(** A read-only transaction around [f]. *)
Definition view {A} d (name : string) (f : bucket -> outcome (result A)) : outcome (result A) :=
  match db_Begin d false with
  | Err e => Ret (Err e)
  | Ok tx => b ← tx_Bucket tx name; f b
  end.

(** A writable transaction that runs [f] on one bucket and commits, or
    rolls back on the first error. *)
Definition update d (name : string) (f : bucket -> outcome (result bucket)) : outcome (D * error) :=
  match db_Begin d true with
  | Err e => Ret (d, Some e)
  | Ok tx =>
    b ← tx_Bucket tx name;
    r ← f b;
    match r with
    | Err e => Ret (d, Some e)
    | Ok b' => Ret (db_Commit d (<[name := b']> tx))
    end
  end.

Definition CreateBucketIfNotExists (tx : Tx) (name : string) : result Tx :=
  match tx !! name with
  | Some _ => Ok tx
  | None => if decide (name = "") then Err ErrBucketNameRequired else Ok (<[name := new_bucket]> tx)
  end.

Definition initialize d : D * error :=
  match db_Begin d true with
  | Err e => (d, Some e)
  | Ok tx =>
    match tx ← CreateBucketIfNotExists tx dbLogs; CreateBucketIfNotExists tx dbConf with
    | Err e => (d, Some e)
    | Ok tx => db_Commit d tx
    end
  end.

Definition BoltStore_Close d : D * error := db_Close d.

Definition uint64_of_key (k : option string) : outcome (result Z) :=
  match k with
  | None => Ret (Ok 0%Z)
  | Some k => i ← bytesToUint64 k; Ret (Ok i)
  end.

Definition FirstIndex d : outcome (result Z) :=
  view d dbLogs (fun b => '(_, first) ← curs_First b; uint64_of_key (fst <$> first)).
Definition LastIndex d : outcome (result Z) :=
  view d dbLogs (fun b => '(_, last) ← curs_Last b; uint64_of_key (fst <$> last)).

Definition GetLog d (idx : Z) : outcome (result L) :=
  view d dbLogs (fun b =>
    val ← bk_Get b (uint64ToBytes idx);
    match val with
    | None => Ret (Err raft_ErrLogNotFound)
    | Some val => Ret (decodeMsgPack val)
    end).

Fixpoint put_logs (tx : Tx) (logs : list L) : outcome (result Tx) :=
  match logs with
  | [] => Ret (Ok tx)
  | log :: logs =>
    let key := uint64ToBytes (log_Index log) in
    match encodeMsgPack log with
    | Err e => Ret (Err e)
    | Ok val =>
      bucket ← tx_Bucket tx dbLogs;
      r ← bk_Put bucket key val;
      match r with
      | Err e => Ret (Err e)
      | Ok bucket => put_logs (<[dbLogs := bucket]> tx) logs
      end
    end
  end.

Definition StoreLogs d (logs : list L) : outcome (D * error) :=
  match db_Begin d true with
  | Err e => Ret (d, Some e)
  | Ok tx =>
    r ← put_logs tx logs;
    match r with
    | Err e => Ret (d, Some e)
    | Ok tx => Ret (db_Commit d tx)
    end
  end.

Definition StoreLog d (log : L) : outcome (D * error) := StoreLogs d [log].

(** The cursor loop of [DeleteRange], from where the cursor is. *)
Fixpoint delete_loop (fuel : nat) (max : Z) (b : bucket) (curs : stack * option item) : outcome (result bucket) :=
  match fuel with
  | O => Panic "out of fuel"
  | S fuel =>
    match curs with
    | (_, None) => Ret (Ok b)
    | (st, Some (k, _)) =>
      i ← bytesToUint64 k;
      if (max <? i)%Z then Ret (Ok b)
      else
        r ← curs_Delete b st;
        match r with
        | Err e => Ret (Err e)
        | Ok b => curs ← curs_Next b st; delete_loop fuel max b curs
        end
    end
  end.

Definition DeleteRange (fuel : nat) d (min max : Z) : outcome (D * error) :=
  let minKey := uint64ToBytes min in
  update d dbLogs (fun b => curs ← curs_Seek b minKey; delete_loop fuel max b curs).

Definition BoltStore_Set d (k v : string) : outcome (D * error) :=
  update d dbConf (fun b => bk_Put b k v).

Definition BoltStore_Add d (k v : string) : outcome (D * error) :=
  update d dbConf (fun b =>
    val ← bk_Get b k;
    match val with
    | Some val => if 0 <? String.length val then Ret (Err ErrKeyDuplicated) else bk_Put b k v
    | None => bk_Put b k v
    end).

Definition BoltStore_Get d (k : string) : outcome (result string) :=
  view d dbConf (fun b =>
    val ← bk_Get b k;
    match val with
    | None => Ret (Err ErrKeyNotFound)
    | Some val => Ret (Ok val)
    end).

Definition SetUint64 d (key : string) (val : Z) : outcome (D * error) :=
  BoltStore_Set d key (uint64ToBytes val).

Definition GetUint64 d (key : string) : outcome (result Z) :=
  r ← BoltStore_Get d key;
  match r with
  | Err e => Ret (Err e)
  | Ok val => i ← bytesToUint64 val; Ret (Ok i)
  end.
End store.

(** [New]: [open] is [bolt.Open] of the path. *)
Definition BoltStore_New {D} `{!Database D} (open : result D) (readOnly : bool)
    : result D :=
  match open with
  | Err e => Err e
  | Ok handle =>
    if readOnly then Ok handle
    else match initialize handle with
         | (d, Some e) => let '(_, _) := BoltStore_Close d in Err e
         | (d, None) => Ok d
         end
  end.

(** [Options]: the path and, unless the pointer is nil, the [ReadOnly] field
    of the bolt options.  [readOnly] is called on a pointer. *)
Record Options : Type := { Path : string; BoltOptions : option bool }.

Definition readOnly (o : option Options) : bool :=
  match o with
  | None => false
  | Some o => match BoltOptions o with None => false | Some ReadOnly => ReadOnly end
  end.

(** [NewBoltStore(path)], where [bolt_Open] opens a path with options. *)
Definition NewBoltStore {D} `{!Database D}
    (bolt_Open : string -> option bool -> result D) (path : string) : result D :=
  let options := {| Path := path; BoltOptions := None |} in
  BoltStore_New (bolt_Open (Path options) (BoltOptions options)) (readOnly (Some options)).

(** ** The laws of the database *)

(** The file has well-formed buckets; a transaction begins with them; a commit
    that answers nil leaves what the buckets of the transaction hold, any
    other and a close nothing new. *)
Class DatabaseLaws (D : Type) `{!Database D} : Type := {
  committed : D -> Tx;
  committed_fresh : forall d name b, committed d !! name = Some b -> fresh_bucket b;
  begin_law : forall d w tx, db_Begin d w = Ok tx -> tx = committed d;
  commit_law : forall d tx d' err,
    map_Forall (fun _ => tx_bucket) tx -> db_Commit d tx = (d', err) ->
    bk_view <$> committed d' = bk_view <$> match err with None => tx | Some _ => committed d end;
  close_law : forall d d' err, db_Close d = (d', err) -> bk_view <$> committed d' = bk_view <$> committed d;
}.

(** What the file holds, by bucket. *)
Definition contents {D} `{!Database D, !DatabaseLaws D} (d : D) : gmap string (gmap string string) :=
  bk_view <$> committed d.

Class LogCodecLaws (L : Type) `{!LogCodec L} : Prop := {
  codec_law : forall l s, encodeMsgPack l = Ok s -> decodeMsgPack s = Ok l;
  (** By the type of the field. *)
  index_law : forall l s, encodeMsgPack l = Ok s -> is_uint64 (log_Index l);
}.

(** ** The least key *)

(** [o] is the least key of [v] in the order [le] that satisfies [P]. *)
Definition is_least (le : string -> string -> Prop) (P : string -> Prop)
    (v : gmap string string) (o : option string) : Prop :=
  match o with
  | None => forall k, is_Some (v !! k) -> ¬ P k
  | Some k => is_Some (v !! k) /\ P k /\ forall k', is_Some (v !! k') -> P k' -> le k k'
  end.

Lemma items_lookup (l : list item) k : is_Some ((list_to_map l : gmap string string) !! k) <-> k ∈ l.*1.
Proof.
  split.
  - intros [v Hv%elem_of_list_to_map_2]. change k with ((k, v).1). by apply list_elem_of_fmap_2.
  - intros Hk. apply not_eq_None_Some. by intros ?%not_elem_of_list_to_map.
Qed.

Lemma least_of_split (P : string -> Prop) (a c : list item) :
  sorted (a ++ c).*1 -> (forall x, x ∈ a.*1 -> ¬ P x) -> (forall x, x ∈ c.*1 -> P x) ->
  is_least String.le P (list_to_map (a ++ c)) (fst <$> head c).
Proof.
  intros Hs Ha Hc. rewrite fmap_app in Hs. apply StronglySorted_app_1_r in Hs.
  assert (forall k, is_Some ((list_to_map (a ++ c) : gmap string string) !! k) -> P k -> k ∈ c.*1) as Hin.
  { intros k Hk HP. apply items_lookup in Hk. rewrite fmap_app in Hk. apply elem_of_app in Hk as [Hk|]; [|done].
    by destruct (Ha k Hk). }
  destruct c as [|[k v] c]; cbn.
  - intros k Hk HP. by apply (Hin k Hk), elem_of_nil in HP.
  - split; [apply items_lookup; rewrite fmap_app; apply elem_of_app; right; by left|].
    split; [apply Hc; by left|]. intros k' Hk' HP. cbn in Hs. apply StronglySorted_cons in Hs as [Hall _].
    rewrite Forall_forall in Hall. destruct (proj1 (elem_of_cons _ _ _) (Hin k' Hk' HP)) as [->|Hk]; [done|].
    by apply slt_le, Hall.
Qed.

Lemma last_of_sorted (l : list item) :
  sorted l.*1 -> is_least (flip String.le) (fun _ => True) (list_to_map l) (fst <$> last l).
Proof.
  intros Hs. destruct l as [|[k v] l _] using rev_ind; [by intros k ?%items_lookup%elem_of_nil|].
  rewrite last_snoc. cbn. rewrite fmap_app in Hs. split; [|split; [done|]].
  - apply items_lookup. rewrite fmap_app. apply elem_of_app. right. by left.
  - intros k' Hk' _. apply items_lookup in Hk'. rewrite fmap_app in Hk'.
    apply elem_of_app in Hk' as [Hk'|Hk'%list_elem_of_singleton]; [|by rewrite Hk'].
    apply slt_le. apply (StronglySorted_app_1_elem_of _ _ _ k' k Hs); [done|by left].
Qed.

(** ** The abstract log: a map from indices to entries *)

Section refinement.
Context {D L : Type} `{!Database D, !LogCodec L, !DatabaseLaws D, !LogCodecLaws L}.
Implicit Types (d : D) (v : gmap string string) (ml : gmap Z L).

Abbreviation key := uint64ToBytes.

(** The bucket contents [v] hold exactly the entries of [ml]. *)
Record repr v ml : Prop := {
  repr_keys : forall k s, v !! k = Some s ->
    exists i l, ml !! i = Some l /\ k = key i;
  repr_logs : forall i l, ml !! i = Some l ->
    log_Index l = i /\ exists s, v !! key i = Some s /\ encodeMsgPack l = Ok s;
}.

Lemma repr_index v ml i l : repr v ml -> ml !! i = Some l -> is_uint64 i.
Proof.
  intros Hr Hl. destruct (repr_logs _ _ Hr _ _ Hl) as (<- & s & _ & Hs). by eapply index_law.
Qed.

Lemma repr_empty : repr ∅ ∅.
Proof. split; intros ? ? H; by rewrite lookup_empty in H. Qed.

Lemma repr_insert v ml l s :
  repr v ml -> encodeMsgPack l = Ok s ->
  repr (<[key (log_Index l) := s]> v) (<[log_Index l := l]> ml).
Proof.
  intros Hr Hs. pose proof (index_law _ _ Hs) as Hi. split.
  - intros k s' [[<- <-]|[Hne Hk]]%lookup_insert_Some.
    + exists (log_Index l), l. by rewrite lookup_insert_eq.
    + destruct (repr_keys _ _ Hr _ _ Hk) as (i & l' & Hl & ->). exists i, l'.
      rewrite lookup_insert_ne by congruence. done.
  - intros i l' [[<- <-]|[Hne Hl]]%lookup_insert_Some.
    + split; [done|]. exists s. by rewrite lookup_insert_eq.
    + destruct (repr_logs _ _ Hr _ _ Hl) as (Hi' & s' & Hk & Hs'). split; [done|]. exists s'.
      rewrite lookup_insert_ne; [done|]. intros E%key_inj; [done|done|by eapply repr_index].
Qed.

Lemma repr_delete v ml i :
  repr v ml -> is_uint64 i -> repr (delete (key i) v) (delete i ml).
Proof.
  intros Hr Hi. split.
  - intros k s [Hne Hk]%lookup_delete_Some.
    destruct (repr_keys _ _ Hr _ _ Hk) as (j & l & Hl & ->). exists j, l.
    rewrite lookup_delete_ne by (intros ->; done). done.
  - intros j l [Hne Hl]%lookup_delete_Some.
    destruct (repr_logs _ _ Hr _ _ Hl) as (Hj & s & Hk & Hs). split; [done|]. exists s.
    rewrite lookup_delete_ne; [done|]. intros E%key_inj; [done|done|by eapply repr_index].
Qed.

Lemma repr_key_Some v ml i :
  repr v ml -> is_uint64 i -> is_Some (v !! key i) <-> is_Some (ml !! i).
Proof.
  intros Hr Hi. split.
  - intros [s Hs]. destruct (repr_keys _ _ Hr _ _ Hs) as (j & l & Hl & E).
    apply key_inj in E as ->; [by exists l|done|by eapply repr_index].
  - intros [l Hl]. destruct (repr_logs _ _ Hr _ _ Hl) as (_ & s & Hs & _). by exists s.
Qed.

(** The database is a store of the log [ml]. *)
Definition log_repr d ml : Prop := exists v, contents d !! dbLogs = Some v /\ repr v ml.

(** *** Transactions *)

(** The errors of the database. *)
Inductive db_error (e : goerror) : Prop :=
  | de_begin d w : db_Begin d w = Err e -> db_error e
  | de_commit d tx d' : db_Commit d tx = (d', Some e) -> db_error e.

Lemma committed_bucket d name v :
  contents d !! name = Some v -> exists b, committed d !! name = Some b /\ fresh_bucket b /\ bk_view b = v.
Proof.
  unfold contents. rewrite lookup_fmap, fmap_Some. intros (b & Hb & ->). exists b. split; [done|]. split; [|done].
  by eapply committed_fresh.
Qed.

Lemma committed_tx d : map_Forall (fun _ => tx_bucket) (committed d).
Proof. intros name b Hb. by apply fb_bucket, (committed_fresh d name). Qed.

Lemma view_spec d name v tx :
  contents d !! name = Some v -> db_Begin d false = Ok tx ->
  exists b, fresh_bucket b /\ bk_view b = v /\
    forall A (f : bucket -> outcome (result A)), view d name f = f b.
Proof.
  intros (b & Hb & Hf & Hv)%committed_bucket Ht. exists b. split; [done|]. split; [done|].
  intros A f. unfold view. rewrite Ht, (begin_law _ _ _ Ht). unfold tx_Bucket. by rewrite Hb.
Qed.

(** A transaction on one bucket does what its body does, all or nothing. *)
Lemma writes_spec d name v f (Q : gmap string string -> Prop) (E : goerror -> Prop) :
  contents d !! name = Some v ->
  (forall b, fresh_bucket b -> bk_view b = v ->
     exists r, f b = Ret r /\ match r with Ok b' => tx_bucket b' /\ Q (bk_view b') | Err e => E e end) ->
  exists d' err, update d name f = Ret (d', err) /\
    match err with
    | None => exists v', contents d' = <[name := v']> (contents d) /\ Q v'
    | Some e => contents d' = contents d /\ (E e \/ db_error e)
    end.
Proof.
  intros (b & Hb & Hfr & Hv)%committed_bucket Hf. destruct (Hf b Hfr Hv) as (r & Er & Hr). unfold update.
  destruct (db_Begin d true) as [tx|e] eqn:Et.
  2: { exists d, (Some e). split; [done|]. split; [done|right]. by eapply de_begin. }
  rewrite (begin_law _ _ _ Et). unfold tx_Bucket. rewrite Hb. run_bind. rewrite Er. run_bind.
  destruct r as [b'|e]; [|exists d, (Some e); split; [done|]; split; [done|by left]]. destruct Hr as [Hb' HQ].
  destruct (db_Commit d (<[name := b']> (committed d))) as [d' err] eqn:Ec. exists d', err. split; [done|].
  pose proof (commit_law _ _ _ _ (map_Forall_insert_2 (fun _ => tx_bucket) _ _ _ Hb' (committed_tx d)) Ec) as Hc.
  destruct err as [e|].
  - split; [exact Hc|right]. by eapply de_commit.
  - exists (bk_view b'). split; [|done]. unfold contents. by rewrite Hc, fmap_insert.
Qed.

(** *** StoreLogs *)

Definition insert_logs (ml : gmap Z L) (logs : list L) : gmap Z L :=
  foldl (fun ml l => <[log_Index l := l]> ml) ml logs.

(** The errors of putting an entry. *)
Inductive put_error (e : goerror) : Prop :=
  | pe_encode (l : L) : encodeMsgPack l = Err e -> put_error e
  | pe_put (k val : string) : Put_check k val = Some e -> put_error e.

Lemma put_logs_spec logs (tx : Tx) b ml :
  map_Forall (fun _ => tx_bucket) tx -> tx !! dbLogs = Some b -> repr (bk_view b) ml ->
  exists r, put_logs tx logs = Ret r /\
    match r with
    | Ok tx' => map_Forall (fun _ => tx_bucket) tx' /\
        exists v, bk_view <$> tx' = <[dbLogs := v]> (bk_view <$> tx) /\ repr v (insert_logs ml logs)
    | Err e => put_error e
    end.
Proof.
  revert tx b ml. induction logs as [|l logs IH]; intros tx b ml Htx Hb Hr; cbn [put_logs].
  { eexists. split; [done|]. cbn. split; [done|]. exists (bk_view b). split; [|done].
    by rewrite insert_id by by rewrite lookup_fmap, Hb. }
  destruct (encodeMsgPack l) as [s|e] eqn:Es; [|eexists; split; [done|by eapply pe_encode]].
  unfold tx_Bucket. rewrite Hb. run_bind.
  pose proof (bk_Put_spec b (key (log_Index l)) s (Htx _ _ Hb)) as Hp.
  destruct (Put_check (key (log_Index l)) s) as [e|] eqn:Ee.
  { rewrite Hp. run_bind. eexists. split; [done|by eapply pe_put]. }
  destruct Hp as (b1 & -> & Hb1 & Hv). run_bind.
  destruct (IH (<[dbLogs := b1]> tx) b1 (<[log_Index l := l]> ml)) as (r & E & Hok).
  - by apply map_Forall_insert_2.
  - by rewrite lookup_insert_eq.
  - rewrite Hv. by apply repr_insert.
  - exists r. split; [done|]. destruct r as [tx'|e]; [|done]. destruct Hok as (Htx' & v & Ev & Hr'). split; [done|].
    exists v. split; [|done]. by rewrite Ev, fmap_insert, insert_insert_eq.
Qed.

(** [StoreLogs] is all or nothing: when it returns no error the log is
    the old one with the entries inserted, the later one of two with the
    same index winning; when it returns an error the file holds what it
    held; and no other bucket is touched. *)
Lemma StoreLogs_spec d ml logs :
  log_repr d ml ->
  exists d' err, StoreLogs d logs = Ret (d', err) /\
    match err with
    | None => exists v, contents d' = <[dbLogs := v]> (contents d) /\ repr v (insert_logs ml logs)
    | Some e => contents d' = contents d /\ (put_error e \/ db_error e)
    end.
Proof.
  intros (v & Hv & Hr). destruct (committed_bucket d dbLogs v Hv) as (b & Hb & _ & Ev). rewrite <-Ev in Hr.
  destruct (put_logs_spec logs (committed d) b ml (committed_tx d) Hb Hr) as (r & E & Hok). unfold StoreLogs.
  destruct (db_Begin d true) as [tx|e] eqn:Et.
  2: { exists d, (Some e). split; [done|]. split; [done|right]. by eapply de_begin. }
  rewrite (begin_law _ _ _ Et), E. run_bind.
  destruct r as [tx'|e]; [|exists d, (Some e); split; [done|]; split; [done|by left]].
  destruct Hok as (Htx' & v' & Ev' & Hr'). destruct (db_Commit d tx') as [d' err] eqn:Ec. exists d', err. split; [done|].
  pose proof (commit_law _ _ _ _ Htx' Ec) as Hc. destruct err as [e|].
  - split; [exact Hc|right]. by eapply de_commit.
  - exists v'. split; [|done]. unfold contents. by rewrite Hc.
Qed.

(** *** DeleteRange *)

(** The cursor is on the least index from [lo] on. *)
Definition at_least (lo : Z) ml (o : option string) : Prop :=
  match o with
  | None => forall j, is_Some (ml !! j) -> (j < lo)%Z
  | Some k => exists i, k = key i /\ is_Some (ml !! i) /\ (lo <= i)%Z /\
      forall j, is_Some (ml !! j) -> (lo <= j)%Z -> (i <= j)%Z
  end.

Lemma is_least_at (P : string -> Prop) v ml lo o :
  repr v ml -> (forall j, is_uint64 j -> P (key j) <-> (lo <= j)%Z) ->
  is_least String.le P v o -> at_least lo ml o.
Proof.
  intros Hr HP.
  assert (forall j, is_Some (ml !! j) -> is_uint64 j /\ is_Some (v !! key j)) as Hj.
  { intros j Hj. destruct Hj as [l Hl]. pose proof (repr_index _ _ _ _ Hr Hl).
    split; [done|]. apply (repr_key_Some v ml j); [done..|by exists l]. }
  destruct o as [k|]; cbn [is_least at_least].
  - intros ([s Hs] & Hk & Hmin). destruct (repr_keys _ _ Hr _ _ Hs) as (i & l & Hl & ->).
    pose proof (repr_index _ _ _ _ Hr Hl) as Hi. exists i. split; [reflexivity|].
    split; [by exists l|]. split; [by apply (HP i Hi)|].
    intros j Hjs Hlj. destruct (Hj j Hjs) as [Hju Hjv]. apply (proj1 (key_le i j Hi Hju)).
    apply Hmin; [exact Hjv|by apply (HP j Hju)].
  - intros Hno j Hjs. destruct (Hj j Hjs) as [Hju Hjv].
    destruct (Z.lt_ge_cases j lo) as [?|Hge]; [done|]. exfalso. apply (Hno _ Hjv). by apply (HP j Hju).
Qed.

Lemma seek_at b ml lo :
  fresh_bucket b -> repr (bk_view b) ml -> is_uint64 lo ->
  exists r, comes b (curs_Seek b (key lo)) r /\ at_least lo ml (fst <$> head r).
Proof.
  intros Hb Hr Hlo. destruct (curs_Seek_spec b (key lo) Hb) as (a & r & [E Ha Hc] & Hcomes). exists r. split; [done|].
  eapply (is_least_at (fun k => String.le (key lo) k)); [exact Hr|intros j Hj; by apply key_le|].
  unfold bk_view. pose proof (tx_items_sorted b (fb_bucket _ Hb)) as Hs. rewrite E in *.
  by apply least_of_split.
Qed.

(** What comes after the entry under the cursor, once that is deleted. *)
Lemma next_at b b1 ml up id es i past ix s more :
  repr (bk_view b1) (delete ix ml) -> is_uint64 ix -> bk_view b1 = delete (key ix) (bk_view b) ->
  walk b up id es i past -> es !! i = Some (key ix, s) -> rest b up es (S i) = more ->
  at_least (ix + 1) (delete ix ml) (fst <$> head more).
Proof.
  intros Hr Hi Hv Hw Hkv Hmore. pose proof (tx_items_sorted b (wk_bucket _ _ _ _ _ _ Hw)) as Hs.
  rewrite (walk_rest b up id es i past _ Hw Hkv), Hmore in Hs.
  assert (bk_view b1 = list_to_map ((items_of (pre_up b up) ++ past) ++ more)) as Ev.
  { rewrite Hv. unfold bk_view. rewrite (walk_rest b up id es i past _ Hw Hkv), Hmore. symmetry.
    by apply delete_middle, sorted_NoDup. }
  rewrite fmap_app, fmap_cons in Hs. pose proof (sorted_without _ _ _ _ Hs) as Hs'. rewrite <-fmap_app in Hs'. apply StronglySorted_app in Hs as (H1 & _ & [H2 _]%StronglySorted_cons).
  rewrite Forall_forall in H2.
  eapply (is_least_at (fun k => slt (key ix) k)); [exact Hr| |].
  - intros j Hj. unfold slt. rewrite key_le by done. lia.
  - rewrite Ev. apply least_of_split; [done| |done]. intros x Hx. apply slt_not_slt. apply H1; [done|by left].
Qed.

Definition outside (lo max : Z) (p : Z * L) : Prop := ¬ (lo <= p.1 <= max)%Z.

Lemma outside_none lo max ml :
  (forall j, is_Some (ml !! j) -> (lo <= j)%Z -> (max < j)%Z) -> filter (outside lo max) ml = ml.
Proof.
  intros H. apply map_filter_id. intros j l Hl. unfold outside. cbn.
  specialize (H j ltac:(by exists l)). lia.
Qed.

Lemma outside_step lo max ml i :
  (lo <= i <= max)%Z -> (forall j, is_Some (ml !! j) -> (lo <= j)%Z -> (i <= j)%Z) ->
  filter (outside (i + 1) max) (delete i ml) = filter (outside lo max) ml.
Proof.
  intros Hi Hmin. apply map_eq. intros j. apply option_eq. intros l.
  rewrite !map_lookup_filter_Some, lookup_delete_Some. unfold outside. cbn. split.
  - intros [[Hne Hl] Ho]. split; [done|]. specialize (Hmin j ltac:(by exists l)). lia.
  - intros [Hl Ho]. specialize (Hmin j ltac:(by exists l)). split; [split; [lia|done]|lia].
Qed.

Lemma comes_cursor b o r : comes b o r -> exists curs, o = Ret curs /\ snd curs = head r.
Proof. destruct r as [|kv r]; [intros (st & ->)|intros (up & id & es & i & past & -> & _)]; by eexists. Qed.

(** The loop deletes what comes up to [max], whatever comes. *)
Lemma delete_loop_spec fuel max b ml lo curs r :
  tx_bucket b -> repr (bk_view b) ml -> comes b (Ret curs) r -> at_least lo ml (fst <$> head r) -> size ml < fuel ->
  exists b', delete_loop fuel max b curs = Ret (Ok b') /\ tx_bucket b' /\ repr (bk_view b') (filter (outside lo max) ml).
Proof.
  revert b ml lo curs r. induction fuel as [|fuel IH]; intros b ml lo curs r Hb Hr Hc Ho Hf; [lia|].
  cbn [delete_loop]. destruct r as [|[k v] more].
  { destruct Hc as (st & [= ->]). exists b. split; [done|]. split; [done|]. rewrite outside_none; [done|].
    intros j Hj Hlo. specialize (Ho j Hj). lia. }
  destruct Hc as (up & id & es & i & past & [= ->] & Hw & Hkv & Emore).
  destruct Ho as (ix & Ek & [l Hl] & Hlo & Hmin). cbn in Ek. subst k.
  pose proof (repr_index _ _ _ _ Hr Hl) as Hi. rewrite bytesToUint64_key by done. run_bind.
  destruct (Z.ltb_spec max ix) as [Hgt|Hle].
  { exists b. split; [done|]. split; [done|]. rewrite outside_none; [done|].
    intros j Hj Hj'. specialize (Hmin j Hj Hj'). lia. }
  destruct (curs_Delete_spec b up id es i past (key ix) v Hw Hkv) as (b1 & -> & Hw1 & Er & Hv). run_bind.
  pose proof (curs_Next_comes b1 up id es i past Hw1) as Hn. rewrite Er, Emore in Hn.
  destruct (comes_cursor _ _ _ Hn) as (curs1 & En & _). rewrite En in Hn |- *. run_bind.
  assert (repr (bk_view b1) (delete ix ml)) as Hr1 by (rewrite Hv; by apply repr_delete).
  destruct (IH b1 (delete ix ml) (ix + 1)%Z curs1 more) as (b' & E & Hb' & Hr').
  - apply Hw1.
  - done.
  - done.
  - by apply (next_at b b1 ml up id es i past ix v more).
  - rewrite map_size_delete_Some by (by exists l).
    assert (size ml <> 0); [|lia]. intros H0%map_size_empty_inv. subst ml. by rewrite lookup_empty in Hl.
  - exists b'. split; [done|]. split; [done|]. by rewrite <-(outside_step lo max ml ix) by (lia || done).
Qed.

(** [DeleteRange] removes exactly the entries with an index from [min]
    to [max], all or nothing, in at most one turn of its loop more than
    the log has entries; its only errors are those of the database. *)
Lemma DeleteRange_spec fuel d ml min max :
  log_repr d ml -> is_uint64 min -> size ml < fuel ->
  exists d' err, DeleteRange fuel d min max = Ret (d', err) /\
    match err with
    | None => exists v, contents d' = <[dbLogs := v]> (contents d) /\ repr v (filter (outside min max) ml)
    | Some e => contents d' = contents d /\ db_error e
    end.
Proof.
  intros (v & Hv & Hr) Hmin Hf. unfold DeleteRange.
  destruct (writes_spec d dbLogs v (fun b => curs ← curs_Seek b (key min); delete_loop fuel max b curs)
              (fun v' => repr v' (filter (outside min max) ml)) (fun _ => False) Hv) as (d' & err & E & H).
  - intros b Hb Ev. subst v. destruct (seek_at b ml min Hb Hr Hmin) as (r & Hc & Ho).
    destruct (comes_cursor _ _ _ Hc) as (curs & Es & _). rewrite Es in Hc |- *. run_bind.
    destruct (delete_loop_spec fuel max b ml min curs r (fb_bucket _ Hb) Hr Hc Ho Hf) as (b' & E & Hb' & Hr').
    by exists (Ok b').
  - exists d', err. split; [exact E|]. destruct err; [|done]. by destruct H as [? [[]|?]].
Qed.

(** *** The reads *)

Lemma first_at b ml :
  fresh_bucket b -> repr (bk_view b) ml ->
  exists st kv, curs_First b = Ret (st, kv) /\ at_least 0 ml (fst <$> kv).
Proof.
  intros Hb Hr. destruct (curs_First_spec b Hb) as [st E]. exists st, (head (items b)). split; [done|].
  eapply (is_least_at (fun _ => True)); [exact Hr| |].
  - intros j Hj. unfold is_uint64 in Hj. split; [lia|done].
  - apply (least_of_split (fun _ => True) []); [by apply tx_items_sorted, fb_bucket|by intros x ?%elem_of_nil|done].
Qed.

Lemma last_at b ml :
  fresh_bucket b -> repr (bk_view b) ml ->
  exists st kv, curs_Last b = Ret (st, kv) /\
  match fst <$> kv with
  | None => ml = ∅
  | Some k => exists i, k = key i /\ is_uint64 i /\ is_Some (ml !! i) /\
      forall j, is_Some (ml !! j) -> (j <= i)%Z
  end.
Proof.
  intros Hb Hr. destruct (curs_Last_spec b Hb) as [st E]. exists st, (last (items b)). split; [done|].
  pose proof (last_of_sorted (items b) (tx_items_sorted b (fb_bucket _ Hb))) as Hl. change (list_to_map (items b)) with (bk_view b) in Hl.
  destruct (fst <$> last (items b)) as [k|]; cbn in Hl.
  - destruct Hl as ([s Hs] & _ & Hmax). destruct (repr_keys _ _ Hr _ _ Hs) as (i & l & Hi & ->).
    pose proof (repr_index _ _ _ _ Hr Hi) as Hu. exists i. split; [reflexivity|]. split; [done|].
    split; [by exists l|]. intros j [lj Hj]. pose proof (repr_index _ _ _ _ Hr Hj) as Hju.
    apply (proj1 (key_le j i Hju Hu)). apply Hmax; [|done].
    apply (repr_key_Some _ ml j); [done..|by exists lj].
  - apply map_empty. intros i. apply eq_None_not_Some. intros [l Hi].
    apply (Hl (key i)); [|done]. apply (repr_key_Some _ ml i); [done|by eapply repr_index|by exists l].
Qed.

(** The reads of an open log: [GetLog] finds the entry of an index or
    says there is none, [FirstIndex] and [LastIndex] are the least and the
    greatest index, 0 for the empty log. *)
Lemma log_reads_spec d ml tx :
  log_repr d ml -> db_Begin d false = Ok tx ->
  (forall i, is_uint64 i ->
     GetLog d i = Ret (match ml !! i with Some l => Ok l | None => Err raft_ErrLogNotFound end)) /\
  (exists i, FirstIndex d = Ret (Ok i) /\
     if decide (ml = ∅) then i = 0%Z
     else is_Some (ml !! i) /\ forall j, is_Some (ml !! j) -> (i <= j)%Z) /\
  (exists i, LastIndex d = Ret (Ok i) /\
     if decide (ml = ∅) then i = 0%Z
     else is_Some (ml !! i) /\ forall j, is_Some (ml !! j) -> (j <= i)%Z).
Proof.
  intros (v & Hv & Hr) Ht. destruct (view_spec d dbLogs v tx Hv Ht) as (b & Hb & <- & E).
  unfold GetLog, FirstIndex, LastIndex. split_and!; [|rewrite E|rewrite E].
  - intros i Hi. rewrite E, (bk_Get_spec b _ (fb_bucket _ Hb)). run_bind.
    destruct (ml !! i) as [l|] eqn:El.
    + destruct (repr_logs _ _ Hr _ _ El) as (_ & s & -> & Hs). by rewrite (codec_law _ _ Hs).
    + assert (bk_view b !! key i = None) as ->; [|done]. apply eq_None_not_Some.
      intros [l' ?]%(repr_key_Some _ ml i Hr Hi). congruence.
  - destruct (first_at b ml Hb Hr) as (st & kv & -> & H). run_bind. destruct kv as [[k s]|]; cbn in H.
    + destruct H as (i & -> & [l Hl] & _ & Hmin). pose proof (repr_index _ _ _ _ Hr Hl) as Hi.
      exists i. cbn [fmap option_fmap option_map fst uint64_of_key]. rewrite bytesToUint64_key by done. split; [done|].
      rewrite decide_False by (intros ->; by rewrite lookup_empty in Hl).
      split; [by exists l|]. intros j [lj Hj]. apply Hmin; [by exists lj|].
      apply (repr_index _ _ _ _ Hr Hj).
    + exists 0%Z. split; [done|]. rewrite decide_True; [done|]. apply map_empty. intros i.
      apply eq_None_not_Some. intros [l Hl]. specialize (H i ltac:(by exists l)).
      pose proof (repr_index _ _ _ _ Hr Hl) as [? _]. lia.
  - destruct (last_at b ml Hb Hr) as (st & kv & -> & H). run_bind. destruct kv as [[k s]|].
    + destruct H as (i & Ek & Hi & [l Hl] & Hmax). cbn in Ek. subst k. exists i.
      cbn [fmap option_fmap option_map fst uint64_of_key].
      rewrite bytesToUint64_key by done. split; [done|].
      rewrite decide_False by (intros ->; by rewrite lookup_empty in Hl). split; [by exists l|done].
    + exists 0%Z. split; [done|]. by rewrite decide_True.
Qed.
End refinement.

(** ** A concrete database: its file holds a map for each bucket and lays it
    out on pages of two items under one branch when a transaction begins;
    transactions always commit *)

Module MemDB.
Definition keys (m : gmap string string) : list string := sort_strings (fst <$> map_to_list m).

Definition sorted_items (m : gmap string string) : list item := (fun k => (k, default "" (m !! k))) <$> keys m.

Fixpoint chunk (id : nat) (l : list item) : list (string * page) :=
  match l with
  | [] => []
  | [x] => [(x.1, LeafPage id [x])]
  | x :: y :: l => (x.1, LeafPage id [x; y]) :: chunk (S id) l
  end.

(** A bucket of few items is inline. *)
Definition lay_out (l : list item) : bucket :=
  {| root := if length l <=? 2 then LeafPage 0 l else BranchPage 1 (chunk 2 l); nodes := ∅ |}.

(** A database that can be closed, after which no transaction begins. *)
Record db : Type := { opened : bool; files : gmap string (gmap string string) }.

Definition buckets (d : db) : Tx := (fun m => lay_out (sorted_items m)) <$> files d.

#[global] Instance db_ops : Database db := {
  db_Begin := fun d _ => if opened d then Ok (buckets d) else Err (Fresh "database not open");
  db_Commit := fun d tx => ({| opened := opened d; files := bk_view <$> tx |}, None);
  db_Close := fun d => ({| opened := false; files := files d |}, None);
}.

Lemma elem_of_keys m k : k ∈ keys m <-> is_Some (m !! k).
Proof.
  unfold keys. rewrite elem_of_sort_strings, list_elem_of_fmap. split.
  - intros ([k' v] & -> & H). apply elem_of_map_to_list in H. by exists v.
  - intros [v Hv]. exists (k, v). split; [done|]. by apply elem_of_map_to_list.
Qed.

Lemma keys_sorted m : sorted (keys m).
Proof.
  assert (NoDup (keys m)) as Hnd by (unfold keys; rewrite sort_strings_perm; apply NoDup_fst_map_to_list).
  pose proof (sort_strings_sorted (fst <$> map_to_list m)) as Hs. fold (keys m) in Hs. revert Hs Hnd.
  generalize (keys m) as ks. induction ks as [|k ks IH]; [constructor|].
  intros [Hall Hs]%StronglySorted_cons [Hk Hnd]%NoDup_cons. constructor; [by apply IH|].
  rewrite Forall_forall in Hall |- *. intros k' Hk'. destruct (le_cases k k' (Hall k' Hk')) as [->|]; done.
Qed.

Lemma sorted_items_keys m : (sorted_items m).*1 = keys m.
Proof. unfold sorted_items. rewrite <-list_fmap_compose. apply list_fmap_id. Qed.

Lemma sorted_items_map m : list_to_map (sorted_items m) = m.
Proof.
  apply map_eq. intros k. apply option_eq. intros v. rewrite <-elem_of_list_to_map.
  2: { rewrite sorted_items_keys. apply sorted_NoDup, keys_sorted. }
  unfold sorted_items. rewrite list_elem_of_fmap. setoid_rewrite elem_of_keys. split.
  - intros (k' & [= -> ->] & [v' Hv]). by rewrite Hv.
  - intros Hv. exists k. split; [by rewrite Hv|by exists v].
Qed.

(** Induction over the chunks. *)
Lemma chunk_ind (P : nat -> list item -> Prop) :
  (forall id, P id []) -> (forall id x, P id [x]) -> (forall id x y l, P (S id) l -> P id (x :: y :: l)) -> forall id l, P id l.
Proof.
  intros H0 H1 H2. fix IH 2. intros id [|x [|y l]]; [apply H0|apply H1|apply H2, IH].
Qed.

Definition paper : bucket := {| root := LeafPage 0 []; nodes := ∅ |}.

Lemma flat_chunk id x y l :
  flat paper (chunk id (x :: y :: l)) = Sep x.1 :: Item x :: Item y :: flat paper (chunk (S id) l).
Proof. done. Qed.

Lemma chunk_items id l : items_of (flat paper (chunk id l)) = l.
Proof.
  revert id l. apply chunk_ind; [done..|]. intros id x y l IH. rewrite flat_chunk.
  change (x :: y :: items_of (flat paper (chunk (S id) l)) = x :: y :: l). by rewrite IH.
Qed.

(** A mark of the chunks is an item, or the key of one. *)
Definition mark_of (l : list item) (m : mark) : Prop := match m with Item x => x ∈ l | Sep k => k ∈ l.*1 end.

Lemma chunk_marks id l m : m ∈ flat paper (chunk id l) -> mark_of l m.
Proof.
  revert id l. apply (chunk_ind (fun id l => m ∈ flat paper (chunk id l) -> mark_of l m)).
  - by intros _ ?%elem_of_nil.
  - intros id x [->|[->|[]%elem_of_nil]%elem_of_cons]%elem_of_cons; by left.
  - intros id x y l IH. rewrite flat_chunk.
    intros [->|[->|[->|Hm]%elem_of_cons]%elem_of_cons]%elem_of_cons; [by left|by left|right; by left|].
    specialize (IH Hm). destruct m; by do 2 right.
Qed.

Lemma chunk_sorted id l : sorted l.*1 -> StronglySorted mark_lt (flat paper (chunk id l)).
Proof.
  revert id l. apply (chunk_ind (fun id l => sorted l.*1 -> StronglySorted mark_lt (flat paper (chunk id l)))).
  - constructor.
  - intros id x _. unfold flat. cbn. apply StronglySorted_cons.
    split; [constructor; [apply (reflexivity (R := String.le))|constructor]|by repeat constructor].
  - intros id x y l IH. rewrite !fmap_cons. intros [Hx [Hy Hs]%StronglySorted_cons]%StronglySorted_cons.
    rewrite Forall_forall in Hx, Hy. rewrite flat_chunk. specialize (IH Hs).
    assert (forall z, (forall k, k ∈ l.*1 -> slt z k) -> forall m, m ∈ flat paper (chunk (S id) l) ->
              slt z (match m with Item x => x.1 | Sep k => k end)) as Hafter.
    { intros z Hz m Hm%chunk_marks. destruct m as [k|w]; apply Hz; [done|by apply list_elem_of_fmap_2]. }
    assert (slt x.1 y.1) as Hxy by (apply Hx; by left).
    assert (forall k, k ∈ l.*1 -> slt x.1 k) as Hxl by (intros; apply Hx; by right).
    repeat (apply StronglySorted_cons; split); [..|exact IH]; rewrite ?Forall_cons; split_and?; cbn; rewrite ?Forall_cons;
      split_and?; try (apply Forall_forall; intros m Hm); try done.
    + by apply slt_le.
    + pose proof (Hafter x.1 Hxl m Hm). destruct m; by apply slt_le.
    + pose proof (Hafter x.1 Hxl m Hm). by destruct m.
    + pose proof (Hafter y.1 Hy m Hm). by destruct m.
Qed.

Lemma chunk_keys id l k : k ∈ (chunk id l).*1 -> k ∈ l.*1.
Proof.
  revert id l. apply (chunk_ind (fun id l => k ∈ (chunk id l).*1 -> k ∈ l.*1)); [done|done|].
  intros id x y l IH. cbn. intros [->|Hk]%elem_of_cons; [by left|]. do 2 right. by apply IH.
Qed.

Lemma chunk_separators id l : sorted l.*1 -> sorted (chunk id l).*1.
Proof.
  revert id l. apply (chunk_ind (fun id l => sorted l.*1 -> sorted (chunk id l).*1)); [done|by repeat constructor|].
  intros id x y l IH. rewrite !fmap_cons. intros [Hx [_ Hs]%StronglySorted_cons]%StronglySorted_cons. cbn.
  constructor; [by apply IH|]. rewrite Forall_forall in Hx |- *. intros k Hk%chunk_keys. apply Hx. by right.
Qed.

Lemma chunk_ids id l : (forall i, i ∈ ids_of (chunk id l) -> id <= i) /\ NoDup (ids_of (chunk id l)).
Proof.
  revert id l. apply chunk_ind.
  - intros id. split; [by intros i ?%elem_of_nil|constructor].
  - intros id x. split; [by intros i ->%list_elem_of_singleton|apply NoDup_singleton].
  - intros id x y l [H1 H2]. change (ids_of (chunk id (x :: y :: l))) with (id :: ids_of (chunk (S id) l)). split.
    + intros i [->|Hi%H1]%elem_of_cons; lia.
    + constructor; [|done]. intros Hi%H1. lia.
Qed.

Lemma chunk_pages id l : Forall (fun kc => page_ok kc.2 /\ full kc.2) (chunk id l).
Proof. revert id l. apply chunk_ind; [constructor|by repeat constructor|]. intros id x y l IH. by constructor. Qed.

Lemma lay_out_fresh l : sorted l.*1 -> fresh_bucket (lay_out l) /\ items (lay_out l) = l.
Proof.
  intros Hs. unfold lay_out. destruct (length l <=? 2) eqn:El.
  - assert (marks {| root := LeafPage 0 l; nodes := ∅ |} (LeafPage 0 l) = Item <$> l) as Em by done.
    split; [|unfold items; cbn [root]; by rewrite Em, items_of_Item]. split; [|done|done].
    split; cbn [root]; [done|apply NoDup_singleton|]. rewrite Em. clear Em El.
    induction l as [|x l IH]; [constructor|]. rewrite fmap_cons in *. apply StronglySorted_cons in Hs as [Hx Hs].
    constructor; [by apply IH|]. rewrite Forall_forall in Hx. apply Forall_forall.
    intros m (y & -> & Hy)%list_elem_of_fmap. apply Hx. by apply list_elem_of_fmap_2.
  - set (b := {| root := BranchPage 1 (chunk 2 l); nodes := ∅ |}).
    assert (marks b (root b) = tail (flat paper (chunk 2 l))) as Em.
    { change (marks b (root b)) with (tail (flat b (chunk 2 l))). f_equal. by apply flat_agree. }
    pose proof (chunk_sorted 2 l Hs) as Hm. pose proof (chunk_items 2 l) as Hi. pose proof (chunk_pages 2 l) as Hp.
    assert (exists k c es, chunk 2 l = (k, c) :: es) as (k & c & es & Ec).
    { destruct l as [|x [|y l]]; [done|done|]. by eexists _, _, _. }
    split; [split; [split|done|]|].
    + apply page_ok_branch. split; [by rewrite Ec|]. split; [by apply chunk_separators|].
      eapply Forall_impl; [exact Hp|]. by intros kc [? _].
    + apply chunk_ids.
    + rewrite Em. rewrite Ec in Hm |- *. unfold flat in *. cbn [map concat app tail] in *. by apply StronglySorted_cons in Hm as [_ ?].
    + apply full_branch. eapply Forall_impl; [exact Hp|]. by intros kc [_ ?].
    + unfold items. rewrite Em. rewrite Ec in Hi |- *. unfold flat in *. cbn [map concat app tail] in *. exact Hi.
Qed.

Lemma buckets_view d : bk_view <$> buckets d = files d.
Proof.
  unfold buckets. rewrite <-map_fmap_compose. rewrite <-(map_fmap_id (files d)) at 2. apply map_fmap_ext.
  intros name m _. change (list_to_map (items (lay_out (sorted_items m))) = m).
  rewrite (proj2 (lay_out_fresh (sorted_items m) ltac:(rewrite sorted_items_keys; apply keys_sorted))).
  apply sorted_items_map.
Qed.

#[global] Instance db_laws : DatabaseLaws db.
Proof.
  refine {| committed := buckets |}.
  - intros d name b. unfold buckets. rewrite lookup_fmap, fmap_Some. intros (m & _ & ->).
    apply lay_out_fresh. rewrite sorted_items_keys. apply keys_sorted.
  - intros d w tx. cbn. by destruct (opened d); intros [= <-].
  - intros d tx d' err _ [= <- <-]. by rewrite buckets_view.
  - intros d d' err [= <- <-]. by rewrite !buckets_view.
Defined.

#[global] Instance codec : LogCodec (Z * string) := {
  log_Index := fst;
  codec_Encode := fun l =>
    if decide (0 <= l.1 < 2 ^ 64)%Z then Ok (uint64ToBytes l.1 +:+ l.2) else Err (Fresh "overflow");
  codec_Decode := fun s =>
    match bytesToUint64 s with
    | Ret i => Ok (i, String.substring 8 (String.length s - 8) s)
    | Panic m => Err (Fresh m)
    end;
}.

#[global] Instance codec_laws : LogCodecLaws (Z * string).
Proof.
  split.
  - intros [i x] s. cbn. destruct (decide _) as [Hi|]; [|done]. intros [= <-].
    assert (bytesToUint64 (uint64ToBytes i +:+ x) = Ret i) as -> by by apply bytesToUint64_app.
    f_equal. f_equal. rewrite length_sapp, length_uint64ToBytes.
    replace (8 + String.length x - 8) with (String.length x) by lia.
    rewrite <-(length_uint64ToBytes i) at 1. apply substring_app_r.
  - intros [i x] s. cbn. by destruct (decide _).
Qed.

Definition open_db : db := {| opened := true; files := ∅ |}.
End MemDB.
