(* ===== verification/BoltLife.v ===== *)
(** * The life of a raft store: any sequence of calls and restarts

    An abstract specification of [BoltStore] (a map of log entries and a map
    of settings, with the effect each call has on them) and the refinement
    of it by bolt_store.go: from [New] on an empty file on, whatever calls
    are made and wherever the process stops and opens the file again, no
    call panics, each answers as the specification lets it, and the reads
    answer from the two maps. *)
From S2P Require Import Prelude ByteOrder SortSearch BoltCursor BoltTree RaftBolt.

Section life.
Context {D L : Type} `{!Database D, !LogCodec L, !DatabaseLaws D, !LogCodecLaws L}.
(** [bolt.Open] of the store's path, given the file as it was left. *)
Context (bolt_Open : D -> result D).
Hypothesis open_law : forall d h, bolt_Open d = Ok h -> contents h = contents d.

(** ** The calls that change the store *)

Inductive store_call : Type :=
  | rq_StoreLog (log : L)
  | rq_StoreLogs (logs : list L)
  | rq_DeleteRange (min max : Z)
  | rq_Set (k v : string)
  | rq_Add (k v : string)
  | rq_SetUint64 (key : string) (val : Z)
  (** The process ends, with or without [Close], and a new one calls
      [New] on the file. *)
  | rq_Restart (closed : bool).

Definition restart (closed : bool) (d : D) : D * error :=
  let d := if closed then fst (BoltStore_Close d) else d in
  match BoltStore_New (bolt_Open d) false with
  | Ok h => (h, None)
  | Err e => (d, Some e)
  end.

Definition perform (fuel : nat) (d : D) (rq : store_call) : outcome (D * error) :=
  match rq with
  | rq_StoreLog log => StoreLog d log
  | rq_StoreLogs logs => StoreLogs d logs
  | rq_DeleteRange min max => DeleteRange fuel d min max
  | rq_Set k v => BoltStore_Set d k v
  | rq_Add k v => BoltStore_Add d k v
  | rq_SetUint64 k v => SetUint64 d k v
  | rq_Restart closed => Ret (restart closed d)
  end.

Fixpoint run (fuel : nat) (d : D) (rqs : list store_call) : outcome (D * list error) :=
  match rqs with
  | [] => Ret (d, [])
  | rq :: rqs =>
    '(d, err) ← perform fuel d rq;
    '(d, errs) ← run fuel d rqs;
    Ret (d, err :: errs)
  end.

(** The arguments are 64-bit integers, as their types say. *)
Definition typed (rq : store_call) : Prop :=
  match rq with
  | rq_DeleteRange min max => is_uint64 min /\ is_uint64 max
  | rq_SetUint64 _ val => is_uint64 val
  | _ => True
  end.

(** The entries a call brings. *)
Definition brings (rq : store_call) : nat :=
  match rq with rq_StoreLog _ => 1 | rq_StoreLogs logs => length logs | _ => 0 end.

(** ** The specification *)

Record content : Type := { entries : gmap Z L; settings : gmap string string }.

Definition nothing : content := {| entries := ∅; settings := ∅ |}.

Definition spec_effect (rq : store_call) (c : content) : content :=
  match rq with
  | rq_StoreLog log => {| entries := <[log_Index log := log]> (entries c); settings := settings c |}
  | rq_StoreLogs logs => {| entries := insert_logs (entries c) logs; settings := settings c |}
  | rq_DeleteRange min max =>
    {| entries := filter (outside min max) (entries c); settings := settings c |}
  | rq_Set k v | rq_Add k v => {| entries := entries c; settings := <[k := v]> (settings c) |}
  | rq_SetUint64 k i => {| entries := entries c; settings := <[k := uint64ToBytes i]> (settings c) |}
  | rq_Restart _ => c
  end.

(** Only [Add] refuses, a key whose value is not empty. *)
Definition allowed (c : content) (rq : store_call) : Prop :=
  match rq with rq_Add k _ => default "" (settings c !! k) = "" | _ => True end.

#[local] Instance allowed_dec c rq : Decision (allowed c rq).
Proof. destruct rq; cbn; apply _. Defined.

(** The errors of the libraries: of the file, of a value that can not be
    encoded, and of a key or a value bolt does not take. *)
Inductive library_error (e : goerror) : Prop :=
  | le_open d : bolt_Open d = Err e -> library_error e
  | le_db : db_error (D := D) e -> library_error e
  | le_put : put_error (L := L) e -> library_error e.

(** [answers c rq err c']: on the content [c] the call may answer [err]
    and leave [c']. *)
Inductive answers (c : content) (rq : store_call) : error -> content -> Prop :=
  | answer_done : allowed c rq -> answers c rq None (spec_effect rq c)
  | answer_duplicate : ¬ allowed c rq -> answers c rq (Some ErrKeyDuplicated) c
  | answer_failed e : library_error e -> answers c rq (Some e) c.

Inductive spec_run : content -> list store_call -> list error -> content -> Prop :=
  | spec_nil c : spec_run c [] [] c
  | spec_cons c rq err c1 rqs errs c2 :
    answers c rq err c1 -> spec_run c1 rqs errs c2 -> spec_run c (rq :: rqs) (err :: errs) c2.

(** What the reads answer from a content. *)
Definition reads_from (d : D) (c : content) : Prop :=
  (forall i, is_uint64 i ->
     GetLog d i
     = Ret (match entries c !! i with Some l => Ok l | None => Err raft_ErrLogNotFound end)) /\
  (exists i, FirstIndex d = Ret (Ok i) /\
     if decide (entries c = ∅) then i = 0%Z
     else is_Some (entries c !! i) /\ forall j, is_Some (entries c !! j) -> (i <= j)%Z) /\
  (exists i, LastIndex d = Ret (Ok i) /\
     if decide (entries c = ∅) then i = 0%Z
     else is_Some (entries c !! i) /\ forall j, is_Some (entries c !! j) -> (j <= i)%Z) /\
  (forall k, BoltStore_Get d k
     = Ret (match settings c !! k with Some v => Ok v | None => Err ErrKeyNotFound end)) /\
  (forall k i, is_uint64 i -> settings c !! k = Some (uint64ToBytes i) ->
     GetUint64 d k = Ret (Ok i)) /\
  (forall k v, settings c !! k = Some v -> String.length v < 8 -> ¬ is_Ret (GetUint64 d k)).

(** ** The representation *)

Record holds (d : D) (c : content) : Prop := {
  ho_entries : log_repr d (entries c);
  ho_settings : contents d !! dbConf = Some (settings c);
}.

Lemma holds_contents d d' c : contents d' = contents d -> holds d c -> holds d' c.
Proof. intros E [H1 H2]. split; [unfold log_repr|]; by rewrite E. Qed.

Lemma holds_entries d d' v c ml :
  holds d c -> contents d' = <[dbLogs := v]> (contents d) -> repr v ml ->
  holds d' {| entries := ml; settings := settings c |}.
Proof.
  intros [_ H] E Hr. split; cbn.
  - exists v. by rewrite E, lookup_insert_eq.
  - by rewrite E, lookup_insert_ne.
Qed.

Lemma holds_settings d d' v c :
  holds d c -> contents d' = <[dbConf := v]> (contents d) -> holds d' {| entries := entries c; settings := v |}.
Proof.
  intros [(vl & H & Hr) _] E. split; cbn.
  - exists vl. by rewrite E, lookup_insert_ne.
  - by rewrite E, lookup_insert_eq.
Qed.

(** *** New *)

Lemma create_spec (tx : Tx) name :
  name <> "" -> map_Forall (fun _ => tx_bucket) tx ->
  exists tx', CreateBucketIfNotExists tx name = Ok tx' /\ map_Forall (fun _ => tx_bucket) tx' /\
    bk_view <$> tx' = <[name := default ∅ ((bk_view <$> tx) !! name)]> (bk_view <$> tx).
Proof.
  intros Hn Htx. unfold CreateBucketIfNotExists. rewrite lookup_fmap. destruct (tx !! name) as [b|] eqn:Hb; cbn.
  - exists tx. split; [done|]. split; [done|]. by rewrite insert_id by by rewrite lookup_fmap, Hb.
  - rewrite decide_False by done. eexists. split; [done|]. split; [|by rewrite fmap_insert].
    apply map_Forall_insert_2; [|done]. apply fb_bucket, new_bucket_fresh.
Qed.

(** [initialize] leaves the buckets that are there as they are and adds
    empty ones for those that are not. *)
Lemma initialize_spec d :
  match initialize d with
  | (d', Some e) => library_error e
  | (d', None) => contents d' =
      <[dbConf := default ∅ (contents d !! dbConf)]> (<[dbLogs := default ∅ (contents d !! dbLogs)]> (contents d))
  end.
Proof.
  unfold initialize. destruct (db_Begin d true) as [tx|e] eqn:Et; [|by eapply le_db, de_begin].
  rewrite (begin_law _ _ _ Et). clear tx Et.
  destruct (create_spec (committed d) dbLogs ltac:(done) (committed_tx d)) as (tx1 & -> & H1 & E1).
  cbn [mbind result_bind].
  destruct (create_spec tx1 dbConf ltac:(done) H1) as (tx2 & -> & H2 & E2).
  destruct (db_Commit d tx2) as [d' [e|]] eqn:Ec; [by eapply le_db, de_commit|].
  apply commit_law in Ec; [|done]. unfold contents. rewrite Ec, E2, E1. by rewrite lookup_insert_ne.
Qed.

Lemma New_spec file :
  match BoltStore_New (bolt_Open file) false with
  | Err e => library_error e
  | Ok h => (forall c, holds file c -> holds h c) /\ (contents file = ∅ -> holds h nothing)
  end.
Proof.
  unfold BoltStore_New. destruct (bolt_Open file) as [h0|e] eqn:Eo; [|by eapply le_open].
  pose proof (initialize_spec h0) as Hi. destruct (initialize h0) as [h [e|]].
  { by destruct (BoltStore_Close h). }
  rewrite (open_law _ _ Eo) in Hi. split.
  - intros c [(v & Hv & Hr) Hs]. rewrite Hv, Hs in Hi. cbn [default] in Hi. split.
    + exists v. rewrite Hi, lookup_insert_ne, lookup_insert_eq by done. by split.
    + by rewrite Hi, lookup_insert_eq.
  - intros E. rewrite E, !lookup_empty in Hi. cbn [default] in Hi. split.
    + exists ∅. rewrite Hi, lookup_insert_ne, lookup_insert_eq by done. split; [done|]. apply repr_empty.
    + by rewrite Hi, lookup_insert_eq.
Qed.

(** *** Each call *)

(** The answer of a call is one the specification has, and the store holds
    the content the specification has after it. *)
Definition refines (d : D) (c : content) (rq : store_call) (o : outcome (D * error)) : Prop :=
  exists d' err c', o = Ret (d', err) /\ answers c rq err c' /\ holds d' c'.

(** A call that answers [err], having its effect if it is nil and none
    otherwise. *)
Lemma refines_allowed d c rq o :
  allowed c rq -> holds d c ->
  (exists d' err, o = Ret (d', err) /\
     match err with
     | None => holds d' (spec_effect rq c)
     | Some e => contents d' = contents d /\ library_error e
     end) -> refines d c rq o.
Proof.
  intros Ha Hh (d' & err & -> & H). exists d', err. destruct err as [e|].
  - destruct H as [E He]. exists c. split; [done|]. split; [by apply answer_failed|by eapply holds_contents].
  - exists (spec_effect rq c). split; [done|]. by split; [constructor|].
Qed.

Lemma StoreLogs_refined d c logs : holds d c -> refines d c (rq_StoreLogs logs) (StoreLogs d logs).
Proof.
  intros Hh. apply refines_allowed; [done|done|].
  destruct (StoreLogs_spec d (entries c) logs (ho_entries _ _ Hh)) as (d' & err & E & H). exists d', err.
  split; [done|]. destruct err as [e|].
  - destruct H as [E' [He|He]]; (split; [exact E'|]); [by apply le_put|by apply le_db].
  - destruct H as (v & Ev & Hr). by eapply holds_entries.
Qed.

Lemma DeleteRange_refined fuel d c min max :
  holds d c -> is_uint64 min -> size (entries c) < fuel ->
  refines d c (rq_DeleteRange min max) (DeleteRange fuel d min max).
Proof.
  intros Hh Hm Hf. apply refines_allowed; [done|done|].
  destruct (DeleteRange_spec fuel d (entries c) min max (ho_entries _ _ Hh) Hm Hf) as (d' & err & E & H).
  exists d', err. split; [done|]. destruct err as [e|].
  - destruct H as [E' He]. split; [exact E'|by apply le_db].
  - destruct H as (v & Ev & Hr). by eapply holds_entries.
Qed.

(** Putting a setting. *)
Lemma put_setting d c k v b :
  holds d c -> fresh_bucket b -> bk_view b = settings c ->
  exists r, bk_Put b k v = Ret r /\
    match r with
    | Ok b' => tx_bucket b' /\ bk_view b' = <[k := v]> (settings c)
    | Err e => put_error (L := L) e
    end.
Proof.
  intros Hh Hb <-. pose proof (bk_Put_spec b k v (fb_bucket _ Hb)) as Hp. destruct (Put_check k v) as [e|] eqn:Ee.
  - exists (Err e). split; [done|]. by eapply pe_put.
  - destruct Hp as (b' & E & Hb' & Hv). by exists (Ok b').
Qed.

Lemma Set_refined d c rq k v :
  holds d c -> allowed c rq ->
  spec_effect rq c = {| entries := entries c; settings := <[k := v]> (settings c) |} ->
  refines d c rq (BoltStore_Set d k v).
Proof.
  intros Hh Ha Heff. apply refines_allowed; [done|done|]. unfold BoltStore_Set.
  destruct (writes_spec d dbConf (settings c) (fun b => bk_Put b k v) (fun v' => v' = <[k := v]> (settings c))
              (put_error (L := L)) (ho_settings _ _ Hh)) as (d' & err & E & H).
  - intros b Hb Hv. by apply (put_setting d).
  - exists d', err. split; [done|]. destruct err as [e|].
    + destruct H as [E' [He|He]]; (split; [exact E'|]); [by apply le_put|by apply le_db].
    + destruct H as (v' & Ev & ->). rewrite Heff. by eapply holds_settings.
Qed.

Lemma Add_refined d c k v : holds d c -> refines d c (rq_Add k v) (BoltStore_Add d k v).
Proof.
  intros Hh. unfold BoltStore_Add.
  set (f := fun b => val ← bk_Get b k;
    match val with
    | Some val => if 0 <? String.length val then Ret (Err ErrKeyDuplicated) else bk_Put b k v
    | None => bk_Put b k v
    end).
  assert (forall b, fresh_bucket b -> bk_view b = settings c ->
            f b = if decide (allowed c (rq_Add k v)) then bk_Put b k v else Ret (Err ErrKeyDuplicated)) as Hf.
  { intros b Hb Hv. unfold f. rewrite (bk_Get_spec b k (fb_bucket _ Hb)), Hv. run_bind.
    destruct (decide (allowed c (rq_Add k v))) as [Ha|Ha]; cbn in Ha; destruct (settings c !! k) as [[|x old]|]; done. }
  destruct (decide (allowed c (rq_Add k v))) as [Ha|Ha].
  - apply refines_allowed; [done|done|].
    destruct (writes_spec d dbConf (settings c) f (fun v' => v' = <[k := v]> (settings c))
                (put_error (L := L)) (ho_settings _ _ Hh)) as (d' & err & E & H).
    { intros b Hb Hv. rewrite (Hf b Hb Hv). by apply (put_setting d). }
    exists d', err. split; [done|]. destruct err as [e|].
    + destruct H as [E' [He|He]]; (split; [exact E'|]); [by apply le_put|by apply le_db].
    + destruct H as (v' & Ev & ->). by eapply holds_settings.
  - destruct (writes_spec d dbConf (settings c) f (fun _ => False) (fun e => e = ErrKeyDuplicated)
                (ho_settings _ _ Hh)) as (d' & err & E & H).
    { intros b Hb Hv. rewrite (Hf b Hb Hv). by exists (Err ErrKeyDuplicated). }
    exists d', err, c. split; [done|]. destruct err as [e|]; [|by destruct H as (? & _ & [])].
    destruct H as [E' He]. split; [|by eapply holds_contents].
    destruct He as [->|He]; [by apply answer_duplicate|by apply answer_failed, le_db].
Qed.

Lemma restart_refined d c closed : holds d c -> refines d c (rq_Restart closed) (Ret (restart closed d)).
Proof.
  intros Hh. unfold restart.
  set (d1 := if closed then _ else d). assert (contents d1 = contents d) as E1.
  { subst d1. destruct closed; [|done]. destruct (BoltStore_Close d) as [d' err] eqn:Ec. by eapply close_law. }
  pose proof (New_spec d1) as Hn. apply refines_allowed; [done|done|].
  destruct (BoltStore_New (bolt_Open d1) false) as [h|e]; eexists _, _; (split; [reflexivity|]).
  - apply Hn. by eapply holds_contents.
  - by split.
Qed.

Lemma perform_refined fuel d c rq :
  holds d c -> typed rq -> size (entries c) < fuel -> refines d c rq (perform fuel d rq).
Proof.
  intros Hh Ht Hf. destruct rq as [log|logs|min max|k v|k v|k v|closed]; cbn [perform typed] in *.
  - (* [StoreLog] is [StoreLogs] of one entry. *)
    destruct (StoreLogs_refined d c [log] Hh) as (d' & err & c' & E & Ha & Hh').
    exists d', err, c'. split; [done|]. split; [|done].
    destruct Ha as [_|[]|e He]; [apply (answer_done c (rq_StoreLog log))|..|by apply answer_failed]; done.
  - by apply StoreLogs_refined.
  - by apply DeleteRange_refined; [|apply Ht|].
  - by apply Set_refined.
  - by apply Add_refined.
  - by apply Set_refined.
  - by apply restart_refined.
Qed.

(** *** Runs *)

Lemma size_insert_logs (ml : gmap Z L) logs : size (insert_logs ml logs) <= size ml + length logs.
Proof.
  revert ml. induction logs as [|l logs IH]; intros ml; cbn; [lia|].
  specialize (IH (<[log_Index l := l]> ml)). unfold insert_logs in IH.
  rewrite map_size_insert in IH. destruct (ml !! _); cbn in IH; lia.
Qed.

Lemma answers_size c rq err c' : answers c rq err c' -> size (entries c') <= size (entries c) + brings rq.
Proof.
  intros [_|_|e _]; [|lia..]. destruct rq; cbn [spec_effect entries brings]; try lia.
  - rewrite map_size_insert. destruct (_ !! _); cbn; lia.
  - apply size_insert_logs.
  - rewrite Nat.add_0_r. apply map_size_filter.
Qed.

Lemma run_refined fuel rqs d c :
  holds d c -> Forall typed rqs -> size (entries c) + sum_list_with brings rqs < fuel ->
  exists d' errs c', run fuel d rqs = Ret (d', errs) /\ spec_run c rqs errs c' /\ holds d' c'.
Proof.
  intros Hh Ht. revert d c Hh. induction Ht as [|rq rqs Ht Hts IH]; intros d c Hh Hf; cbn [run sum_list_with] in *.
  { exists d, [], c. split; [done|]. by split; [constructor|]. }
  destruct (perform_refined fuel d c rq Hh Ht ltac:(lia)) as (d1 & err & c1 & -> & Ha & Hh1). run_bind.
  pose proof (answers_size _ _ _ _ Ha).
  destruct (IH d1 c1 Hh1 ltac:(lia)) as (d2 & errs & c2 & -> & Hs & Hh2). run_bind.
  exists d2, (err :: errs), c2. split; [done|]. split; [|done]. by econstructor.
Qed.

(** *** The reads *)

Lemma holds_reads d c tx : holds d c -> db_Begin d false = Ok tx -> reads_from d c.
Proof.
  intros [Hl Hs] Ht. destruct (log_reads_spec d (entries c) tx Hl Ht) as (H1 & H2 & H3).
  assert (forall k, BoltStore_Get d k
      = Ret (match settings c !! k with Some v => Ok v | None => Err ErrKeyNotFound end)) as Hg.
  { intros k. destruct (view_spec d dbConf (settings c) tx Hs Ht) as (b & Hb & Hv & E).
    unfold BoltStore_Get. rewrite E, (bk_Get_spec b k (fb_bucket _ Hb)), Hv. run_bind. by destruct (settings c !! k). }
  split_and!; [done..| |].
  - intros k i Hi Hk. unfold GetUint64. rewrite Hg, Hk. run_bind. by rewrite bytesToUint64_key.
  - intros k v Hk Hv. unfold GetUint64. rewrite Hg, Hk. run_bind.
    pose proof (bytesToUint64_short v Hv). by destruct (bytesToUint64 v).
Qed.

(** C23: a store that [New] opened on an empty file refines the
    specification, over any sequence of calls and of ends of the process
    with a new [New] on the file: no call panics (with fuel for more turns
    of the loop of [DeleteRange] than entries were stored, which is enough),
    each call has its effect on the two maps when it answers nil and none
    when it answers an error, the only errors are those of the libraries
    and [ErrKeyDuplicated] of an [Add] for a key with a non-empty value, and
    whenever a transaction can begin the reads answer from the two maps.
    Buckets and cursors are bolt's, on pages of any layout: that the loop of
    [DeleteRange], which does not reposition its cursor after a deletion,
    meets every entry is proved of them. *)
Theorem store_refines_spec file h rqs fuel :
  contents file = ∅ -> BoltStore_New (bolt_Open file) false = Ok h ->
  Forall typed rqs -> sum_list_with brings rqs < fuel ->
  exists d errs c, run fuel h rqs = Ret (d, errs) /\ spec_run nothing rqs errs c /\
    forall tx, db_Begin d false = Ok tx -> reads_from d c.
Proof.
  intros He Hn Ht Hf. pose proof (New_spec file) as Hs. rewrite Hn in Hs. destruct Hs as [_ Hh].
  destruct (run_refined fuel rqs h nothing (Hh He) Ht) as (d & errs & c & E & Hs & Hd).
  { cbn [nothing entries]. by rewrite (map_size_empty (M := gmap Z)). }
  exists d, errs, c. split; [done|]. split; [done|]. intros tx. by apply holds_reads.
Qed.
End life.

(** ** A run on the concrete database *)

(** Opening the file of a [MemDB] database, closed or not. *)
Definition mem_Open (d : MemDB.db) : result MemDB.db :=
  Ok {| MemDB.opened := true; MemDB.files := MemDB.files d |}.

(** Seven entries take four leaves; [DeleteRange] starts in the first of them
    and ends in the third. *)
Definition calls : list (store_call (L := Z * string)) :=
  [rq_StoreLogs [(5, "a"); (6, "b"); (7, "c"); (8, "d"); (9, "e"); (10, "f"); (11, "g")]%Z; rq_DeleteRange 6 9;
   rq_Add "k" "1"; rq_Restart true; rq_Add "k" "2"; rq_Set "" "x"; rq_SetUint64 "term" 258; rq_Restart false;
   rq_StoreLog (7, "d")%Z].

(** The file [New] opened for the first time. *)
Definition new_file : MemDB.db :=
  default MemDB.open_db
    (match BoltStore_New (mem_Open MemDB.open_db) false with
     | Ok h => Some h | Err _ => None end).

Definition calls_answers : option (MemDB.db * list error) :=
  match run mem_Open 9 new_file calls with Ret r => Some r | Panic _ => None end.

Example calls_errors :
  snd <$> calls_answers
  = Some [None; None; None; None; Some ErrKeyDuplicated; Some ErrKeyRequired; None; None; None].
Proof. vm_compute. reflexivity. Qed.

Example calls_left :
  (fun '(d, _) => (fun i => GetLog (L := Z * string) d i) <$> [5; 6; 7; 9; 10; 11]%Z) <$> calls_answers
  = Some [Ret (Ok (5%Z, "a")); Ret (Err raft_ErrLogNotFound); Ret (Ok (7%Z, "d")); Ret (Err raft_ErrLogNotFound);
          Ret (Ok (10%Z, "f")); Ret (Ok (11%Z, "g"))].
Proof. vm_compute. reflexivity. Qed.

Lemma store_refines_witness :
  exists d errs c, run mem_Open 9 new_file calls = Ret (d, errs) /\
    spec_run mem_Open nothing calls errs c /\
    forall tx, db_Begin d false = Ok tx -> reads_from d c.
Proof.
  apply (store_refines_spec mem_Open) with (file := MemDB.open_db).
  - intros d h [= <-]. unfold contents. cbn [committed MemDB.db_laws]. by rewrite !MemDB.buckets_view.
  - unfold contents. cbn [committed MemDB.db_laws]. by rewrite MemDB.buckets_view.
  - reflexivity.
  - by repeat constructor.
  - vm_compute. lia.
Defined.
