(* ===== verification/CacheMaster.v ===== *)
(** * cache/master: the cache master (master.go)

    The map of cache nodes in memory and its copy in the metadata store, the
    join RPC, the heartbeat that posts the peers to every node and removes
    the nodes that do not take them, and their interleaving as a step
    relation. *)
From S2P Require Import Prelude Utf8 Json JsonTypes UrlUtil Http MetaKV Config DBMaster.

Record PeerParam : Type := { Peers : slice string; DBs : slice string }.
Record JoinParam : Type := { HTTPAddr : string; NodeAddr : string }.

#[global] Instance PeerParam_eq_dec : EqDecision PeerParam.
Proof. solve_decision. Defined.

Definition marshal_PeerParam (p : PeerParam) : string :=
  print_json (JObj [("peers", enc_strings (Peers p)); ("dbs", enc_strings (DBs p))]).

(** ** nodesMap: HTTP address to node address *)

Definition httpAddrs (p : gomap string) : list string :=
  sort_strings (fst <$> map_to_list (entries p)).
Definition nodeAddrs (p : gomap string) : list string :=
  sort_strings (snd <$> map_to_list (entries p)).

(** The runtime data of the master. *)
Record Master : Type := { nodesMap : gomap string; dbs : slice string }.

Definition with_nodesMap (m : Master) (p : gomap string) : Master :=
  {| nodesMap := p; dbs := dbs m |}.

Section master.
Context {M : Type} `{!MetaOps M}.
Context (cfg : Config).
Implicit Types (m : Master) (s : M).

(** An error of the store other than not-found leaves [val] empty, which
    does not parse. *)
Definition fetchNodesMap s : result (gomap string) :=
  match meta_Get s (CacheNodesKey cfg) with
  | Err e =>
    if e ==e config_ErrDataNotFound then Ok (Some ∅) else json_unmarshal (dec_map (Some ∅)) ""
  | Ok val => json_unmarshal (dec_map (Some ∅)) val
  end.

Definition updateNodesMap s (peers : gomap string) : M * error :=
  meta_Put s (CacheNodesKey cfg) (print_json (enc_map peers)).

Definition CacheMaster_New s : outcome Master :=
  match fetchNodesMap s with
  | Err _ => Panic "fetchNodesMap"
  | Ok p => Ret {| nodesMap := p; dbs := None |}
  end.

Definition CacheMaster_Peers s : result (list string) := httpAddrs <$> fetchNodesMap s.

(** The RPC; [None] is a nil [args].  On an error the reply is not sent. *)
Definition JoinNode m s (args : option JoinParam) : outcome (Master * M * result PeerParam) :=
  match args with
  | None => Ret (m, s, Err (Fresh "wrong params"))
  | Some args =>
    if decide (HTTPAddr args = "" \/ NodeAddr args = "")
    then Ret (m, s, Err (Fresh "wrong params"))
    else
      p ← map_assign (nodesMap m) (MakeURL (HTTPAddr args)) (MakeURL (NodeAddr args));
      let m := with_nodesMap m p in
      match updateNodesMap s (nodesMap m) with
      | (s, Some _) => Ret (m, s, Err (Fresh "fail updateNodesMap"))
      | (s, None) =>
        Ret (m, s, Ok {| Peers := Some (httpAddrs (nodesMap m)); DBs := dbs m |})
      end
  end.

Definition removeNode m s (node : string) : Master * M :=
  match entries (nodesMap m) !! node with
  | None => (m, s)
  | Some _ =>
    let m := with_nodesMap m (delete node <$> nodesMap m) in
    let '(s, _) := updateNodesMap s (nodesMap m) in
    (m, s)
  end.

Definition syncDBs m s : Master * error :=
  match Master_Peers cfg s with
  | Err e => (m, Some e)
  | Ok dbs => ({| nodesMap := nodesMap m; dbs := dbs |}, None)
  end.

Section http.
Context {W : Type} (httpPoster : HTTPPoster W).

(** [sendPeers] after [syncDBs]: the post of the nodes and of [m.dbs]. *)
Definition postPeers (w : W) m (node : string) (nodes : list string) : W * error :=
  let b := marshal_PeerParam {| Peers := Some nodes; DBs := dbs m |} in
  match httpPoster w (MakeURL node +:+ "/meta") "application/json" b with
  | (w, Err e) => (w, Some e)
  | (w, Ok res) =>
    if (StatusCode res =? StatusOK_http)%Z then (w, None)
    else (w, Some (Fresh "failed to send peers"))
  end.

Definition sendPeers (w : W) m s (node : string) (nodes : list string) : W * Master * error :=
  match syncDBs m s with
  | (m, Some e) => (w, m, Some e)
  | (m, None) => let '(w, err) := postPeers w m node nodes in (w, m, err)
  end.

(** What one turn of the heartbeat loop starts: a goroutine per node,
    each with the node list of that moment. *)
Definition heartbeat m : list (string * list string) :=
  let nodePeers := nodeAddrs (nodesMap m) in
  (fun nodeURL => (nodeURL, nodePeers)) <$> httpAddrs (nodesMap m).

(** *** The running master

    The goroutines of the heartbeat run concurrently with each other and
    with the joins.  Each synchronises the databases, posts, and removes the
    node if one of the two failed, as three separate steps: a goroutine is
    the step it is at. *)
Inductive task : Type :=
  | Send (node : string) (nodes : list string)
  | Post (node : string) (nodes : list string)
  | Remove (node : string).

Record state : Type := { st_world : W; st_master : Master; st_meta : M; st_tasks : list task }.

Inductive goroutine_step : state -> state -> Prop :=
  | step_sync_ok st ts1 ts2 node nodes m' :
      st_tasks st = ts1 ++ Send node nodes :: ts2 ->
      syncDBs (st_master st) (st_meta st) = (m', None) ->
      goroutine_step st {| st_world := st_world st; st_master := m'; st_meta := st_meta st;
                           st_tasks := ts1 ++ Post node nodes :: ts2 |}
  | step_sync_fail st ts1 ts2 node nodes m' e :
      st_tasks st = ts1 ++ Send node nodes :: ts2 ->
      syncDBs (st_master st) (st_meta st) = (m', Some e) ->
      goroutine_step st {| st_world := st_world st; st_master := m'; st_meta := st_meta st;
                           st_tasks := ts1 ++ Remove node :: ts2 |}
  | step_post_ok st ts1 ts2 node nodes w' :
      st_tasks st = ts1 ++ Post node nodes :: ts2 ->
      postPeers (st_world st) (st_master st) node nodes = (w', None) ->
      goroutine_step st {| st_world := w'; st_master := st_master st; st_meta := st_meta st;
                           st_tasks := ts1 ++ ts2 |}
  | step_post_fail st ts1 ts2 node nodes w' e :
      st_tasks st = ts1 ++ Post node nodes :: ts2 ->
      postPeers (st_world st) (st_master st) node nodes = (w', Some e) ->
      goroutine_step st {| st_world := w'; st_master := st_master st; st_meta := st_meta st;
                           st_tasks := ts1 ++ Remove node :: ts2 |}
  | step_remove st ts1 ts2 node m' s' :
      st_tasks st = ts1 ++ Remove node :: ts2 ->
      removeNode (st_master st) (st_meta st) node = (m', s') ->
      goroutine_step st {| st_world := st_world st; st_master := m'; st_meta := s';
                           st_tasks := ts1 ++ ts2 |}.

Inductive step : state -> state -> Prop :=
  | step_goroutine st st' : goroutine_step st st' -> step st st'
  (** Addresses are UTF-8. *)
  | step_join st args m' s' reply :
      (forall a, args = Some a -> valid_utf8 (MakeURL (HTTPAddr a)) = true /\
                                  valid_utf8 (MakeURL (NodeAddr a)) = true) ->
      JoinNode (st_master st) (st_meta st) args = Ret (m', s', reply) ->
      step st {| st_world := st_world st; st_master := m'; st_meta := s'; st_tasks := st_tasks st |}
  | step_heartbeat st :
      step st {| st_world := st_world st; st_master := st_master st; st_meta := st_meta st;
                 st_tasks := st_tasks st ++ ((fun t => Send t.1 t.2) <$> heartbeat (st_master st)) |}
  (** The watch callback. *)
  | step_syncDBs st m' err :
      syncDBs (st_master st) (st_meta st) = (m', err) ->
      step st {| st_world := st_world st; st_master := m'; st_meta := st_meta st;
                 st_tasks := st_tasks st |}
  (** The database nodes and their master write their own keys, and the
      outside world moves on. *)
  | step_other st w' k v s' err :
      k <> CacheNodesKey cfg -> meta_Put (st_meta st) k v = (s', err) ->
      step st {| st_world := w'; st_master := st_master st; st_meta := s'; st_tasks := st_tasks st |}.
End http.
End master.

(** ** Facts *)

Lemma valid_map_assign g k v :
  valid_map g -> valid_utf8 k = true -> valid_utf8 v = true -> valid_map (<[k := v]> g).
Proof. intros. by apply map_Forall_insert_2. Qed.

Lemma elem_of_httpAddrs g k : k ∈ httpAddrs (Some g) <-> is_Some (g !! k).
Proof.
  unfold httpAddrs. cbn [entries default]. change (id g) with g.
  rewrite elem_of_sort_strings, list_elem_of_fmap. split.
  - intros ([k' v] & -> & H%elem_of_map_to_list). by exists v.
  - intros [v Hv]. exists (k, v). split; [done|]. by apply elem_of_map_to_list.
Qed.

Lemma valid_nodeAddrs g : valid_map g -> valid_list (nodeAddrs (Some g)).
Proof.
  intros Hg. unfold nodeAddrs, valid_list. cbn [entries default]. change (id g) with g.
  rewrite sort_strings_perm, Forall_fmap. apply Forall_forall.
  intros [k v] Hk%elem_of_map_to_list. by apply (Hg k v).
Qed.

Lemma valid_httpAddrs g : valid_map g -> valid_list (httpAddrs (Some g)).
Proof.
  intros Hg. unfold httpAddrs, valid_list. cbn [entries default]. change (id g) with g.
  rewrite sort_strings_perm, Forall_fmap. apply Forall_forall.
  intros [k v] Hk%elem_of_map_to_list. by apply (Hg k v).
Qed.

Lemma NoDup_httpAddrs p : NoDup (httpAddrs p).
Proof. unfold httpAddrs. rewrite sort_strings_perm. apply NoDup_fst_map_to_list. Qed.

Section facts.
Context {M : Type} `{!MetaOps M, !MetaLaws M}.
Context (cfg : Config).
Implicit Types (m : Master) (s : M).

(** Memory and store hold the same node map. *)
Definition in_sync m s (g : gmap string string) : Prop :=
  nodesMap m = Some g /\ valid_map g /\ fetchNodesMap cfg s = Ok (Some g).

Lemma fetch_update s g s' :
  valid_map g -> updateNodesMap cfg s (Some g) = (s', None) -> fetchNodesMap cfg s' = Ok (Some g).
Proof.
  intros Hg Hu. unfold fetchNodesMap. unfold updateNodesMap in Hu.
  rewrite (meta_get_put_same _ _ _ _ Hu). by apply unmarshal_map_roundtrip.
Qed.

Lemma fetch_put_other s k v s' :
  k <> CacheNodesKey cfg -> meta_Put s k v = (s', None) -> fetchNodesMap cfg s' = fetchNodesMap cfg s.
Proof. intros Hk Hp. unfold fetchNodesMap. by rewrite (meta_get_put_other _ _ _ _ _ Hp Hk). Qed.

Lemma update_ok s g :
  writable (M := M) -> updateNodesMap cfg s g = ((updateNodesMap cfg s g).1, None).
Proof. intros Hw. unfold updateNodesMap. by apply put_eq. Qed.

Lemma JoinNode_eq m s g a :
  writable (M := M) -> nodesMap m = Some g -> HTTPAddr a <> "" -> NodeAddr a <> "" ->
  let g' := <[MakeURL (HTTPAddr a) := MakeURL (NodeAddr a)]> g in
  JoinNode cfg m s (Some a) =
  Ret (with_nodesMap m (Some g'), (updateNodesMap cfg s (Some g')).1,
       Ok {| Peers := Some (httpAddrs (Some g')); DBs := dbs m |}).
Proof.
  intros Hw Hg H1 H2 g'. unfold JoinNode. rewrite decide_False by tauto. rewrite Hg.
  cbn [map_assign mbind outcome_bind with_nodesMap nodesMap]. fold g'.
  by rewrite (update_ok s (Some g') Hw).
Qed.

Lemma removeNode_eq m s g node :
  nodesMap m = Some g ->
  removeNode cfg m s node =
  match g !! node with
  | None => (m, s)
  | Some _ => (with_nodesMap m (Some (delete node g)), (updateNodesMap cfg s (Some (delete node g))).1)
  end.
Proof.
  intros Hg. unfold removeNode. rewrite Hg. cbn [entries default]. change (id g) with g.
  destruct (g !! node); [|done]. cbn [with_nodesMap nodesMap fmap option_fmap option_map].
  by destruct (updateNodesMap _ _ _).
Qed.

Lemma removeNode_sync m s g node m' s' :
  writable (M := M) -> in_sync m s g -> removeNode cfg m s node = (m', s') ->
  in_sync m' s' (delete node g) /\ dbs m' = dbs m.
Proof.
  intros Hw (Hg & Hv & Hf). rewrite (removeNode_eq m s g node Hg).
  destruct (g !! node) eqn:E; intros [= <- <-].
  - split; [|done]. split_and!; [done|by apply map_Forall_delete|].
    eapply fetch_update; [by apply map_Forall_delete|by apply update_ok].
  - rewrite delete_id by done. done.
Qed.

Lemma syncDBs_nodesMap m s m' err : syncDBs cfg m s = (m', err) -> nodesMap m' = nodesMap m.
Proof. unfold syncDBs. destruct (Master_Peers cfg s); by intros [= <- <-]. Qed.

Section http.
Context {W : Type} (httpPoster : HTTPPoster W).

(** The three steps of a goroutine that is alone are the calls of the source:
    [sendPeers], and [removeNode] if it failed. *)
Lemma goroutine_runs_sendPeers w m s node nodes :
  rtc (goroutine_step cfg httpPoster)
    {| st_world := w; st_master := m; st_meta := s; st_tasks := [Send node nodes] |}
    match sendPeers cfg httpPoster w m s node nodes with
    | (w, m, None) => {| st_world := w; st_master := m; st_meta := s; st_tasks := [] |}
    | (w, m, Some _) =>
      let '(m, s) := removeNode cfg m s node in
      {| st_world := w; st_master := m; st_meta := s; st_tasks := [] |}
    end.
Proof.
  unfold sendPeers. destruct (syncDBs cfg m s) as [m1 [e|]] eqn:Es.
  - destruct (removeNode cfg m1 s node) as [m2 s2] eqn:Er.
    eapply rtc_l; [by eapply (step_sync_fail _ _ _ [] [])|].
    apply rtc_once. refine (step_remove _ _ _ [] [] node m2 s2 _ _); done.
  - destruct (postPeers httpPoster w m1 node nodes) as [w1 [e|]] eqn:Ep.
    + destruct (removeNode cfg m1 s node) as [m2 s2] eqn:Er.
      eapply rtc_l; [by eapply (step_sync_ok _ _ _ [] [])|].
      eapply rtc_l; [by eapply (step_post_fail _ _ _ [] [])|].
      apply rtc_once. refine (step_remove _ _ _ [] [] node m2 s2 _ _); done.
    + eapply rtc_l; [by eapply (step_sync_ok _ _ _ [] [])|].
      apply rtc_once. refine (step_post_ok _ _ _ [] [] node nodes w1 _ _); done.
Qed.

Lemma in_sync_nodesMap m m' s g : nodesMap m' = nodesMap m -> in_sync m s g -> in_sync m' s g.
Proof. intros E (? & ? & ?). split; [by rewrite E|done]. Qed.

Lemma goroutine_in_sync (st st' : state (M := M) (W := W)) g :
  writable (M := M) -> in_sync (st_master st) (st_meta st) g -> goroutine_step cfg httpPoster st st' ->
  exists g', in_sync (st_master st') (st_meta st') g'.
Proof.
  intros Hw Hs Hst. inversion Hst; subst; cbn [st_master st_meta];
    try (eexists; by eapply removeNode_sync); exists g; try done;
    (eapply in_sync_nodesMap; [by eapply syncDBs_nodesMap|done]).
Qed.

Lemma step_in_sync (st st' : state (M := M) (W := W)) g :
  writable (M := M) -> in_sync (st_master st) (st_meta st) g -> step cfg httpPoster st st' ->
  exists g', in_sync (st_master st') (st_meta st') g'.
Proof.
  intros Hw Hs Hst. inversion Hst as [? ? Hgo|? args m' s' reply Hargs Hj|?|? ? ? Hsync
    |? ? k v ? ? Hk Hput]; subst; cbn [st_master st_meta].
  - by eapply goroutine_in_sync.
  - destruct args as [a|]; [|simplify_eq/=; by exists g].
    destruct (decide (HTTPAddr a = "" \/ NodeAddr a = "")) as [Hn|Hn].
    { unfold JoinNode in Hj. rewrite decide_True in Hj by done. simplify_eq. by exists g. }
    destruct Hs as (Hg & Hv & Hf). destruct (Hargs a eq_refl) as [Hv1 Hv2].
    rewrite (JoinNode_eq _ _ g a Hw Hg) in Hj by tauto. injection Hj as <- <- _.
    eexists. assert (Hv' := valid_map_assign g _ _ Hv Hv1 Hv2).
    split; [done|]. split; [exact Hv'|]. eapply fetch_update; [exact Hv'|by apply update_ok].
  - by exists g.
  - exists g. eapply in_sync_nodesMap; [by eapply syncDBs_nodesMap|done].
  - exists g. destruct Hs as (? & ? & Hf). split; [done|]. split; [done|].
    pose proof (Hw (st_meta st) k v) as He. rewrite Hput in He. cbn in He. subst err.
    rewrite <-Hf. by eapply fetch_put_other.
Qed.
End http.
End facts.

Section heartbeat.
Context {M : Type} `{!MetaOps M, !MetaLaws M}.
Context (cfg : Config).
Implicit Types (m : Master) (s : M).
Context {W : Type} (httpPoster : HTTPPoster W).
(** In the worlds [ok], which posts keep, a post to a URL is answered by
    [answers]. *)
Definition answered_by (answers : string -> result Response) (ok : W -> Prop) : Prop :=
  forall w url ct p, ok w ->
    ok (httpPoster w url ct (marshal_PeerParam p)).1 /\
    (httpPoster w url ct (marshal_PeerParam p)).2 = answers url.

Variable answers : string -> result Response.
Variable ok : W -> Prop.
Hypothesis poster_answers : answered_by answers ok.

Definition takes (node : string) : bool :=
  match answers (MakeURL node +:+ "/meta") with
  | Ok res => (StatusCode res =? StatusOK_http)%Z
  | Err _ => false
  end.

Lemma postPeers_takes w m node nodes w' err :
  ok w -> postPeers httpPoster w m node nodes = (w', err) -> ok w' /\ (err = None <-> takes node = true).
Proof.
  intros Hok. unfold postPeers, takes.
  match goal with |- context [httpPoster w ?u ?c (marshal_PeerParam ?p)] =>
    pose proof (poster_answers w u c p Hok) as Ha; destruct (httpPoster w u c (marshal_PeerParam p)) as [w1 r] end.
  cbn [fst snd] in Ha. destruct Ha as [Hw ->].
  destruct (answers _) as [res|e]; [destruct (_ =? _)%Z|]; by intros [= <- <-].
Qed.

Lemma Master_Peers_updateNodesMap s s' p err :
  keys_disjoint cfg -> writable (M := M) -> updateNodesMap cfg s p = (s', err) ->
  Master_Peers cfg s' = Master_Peers cfg s.
Proof.
  intros Hk Hw Hu. rewrite (update_ok cfg s p Hw) in Hu. injection Hu as Hs _.
  unfold Master_Peers, Master_fetchPeers. rewrite (meta_get_put_other s (CacheNodesKey cfg)
    (print_json (enc_map p)) s' (RaftNodesKey cfg)); [done| |].
  - rewrite <-Hs. by apply put_eq.
  - intros E. by apply (nodes_key_cache cfg Hk).
Qed.

Lemma Master_Peers_removeNode m m' s s' g node :
  keys_disjoint cfg -> writable (M := M) -> nodesMap m = Some g ->
  removeNode cfg m s node = (m', s') -> Master_Peers cfg s' = Master_Peers cfg s.
Proof.
  intros Hk Hw Hg. rewrite (removeNode_eq cfg m s g) by done.
  destruct (g !! node); intros [= <- <-]; [|done].
  eapply Master_Peers_updateNodesMap; [done|done|by apply update_ok].
Qed.

Lemma syncDBs_eq m s r :
  Master_Peers cfg s = r ->
  syncDBs cfg m s = match r with
                    | Ok l => ({| nodesMap := nodesMap m; dbs := l |}, None)
                    | Err e => (m, Some e)
                    end.
Proof. unfold syncDBs. by intros ->. Qed.

(** *** The goroutines of one heartbeat

    [r] is the list of databases on record, which no goroutine changes. *)
Definition survives (r : result (slice string)) (node : string) : bool :=
  match r with Ok _ => takes node | Err _ => false end.

Definition task_node (t : task) : string :=
  match t with Send n _ | Post n _ | Remove n => n end.

Definition task_ok (r : result (slice string)) (t : task) : Prop :=
  match t with
  | Send _ _ => True
  | Post _ _ => exists l, r = Ok l
  | Remove n => survives r n = false
  end.

Record beat_inv (r : result (slice string)) (w0 : W) (g : gmap string string)
    (st : state (M := M) (W := W)) (g' : gmap string string) : Prop := {
  bi_sync : in_sync cfg (st_master st) (st_meta st) g';
  bi_record : Master_Peers cfg (st_meta st) = r;
  bi_sub : g' ⊆ g;
  bi_stay : forall k v, g !! k = Some v -> survives r k = true -> g' !! k = Some v;
  bi_go : forall k, is_Some (g' !! k) -> survives r k = false -> k ∈ task_node <$> st_tasks st;
  bi_tasks : Forall (task_ok r) (st_tasks st);
  bi_silent : forall e, r = Err e -> st_world st = w0;
  bi_ok : ok (st_world st);
}.

(** A step that leaves the node map alone. *)
Lemma beat_inv_move r w0 g g' (st : state (M := M) (W := W)) w' m' ts1 t ts2 ts' :
  beat_inv r w0 g st g' -> st_tasks st = ts1 ++ t :: ts2 -> nodesMap m' = nodesMap (st_master st) ->
  (forall e, r = Err e -> w' = st_world st) -> ok w' -> Forall (task_ok r) ts' ->
  (survives r (task_node t) = false -> task_node t ∈ task_node <$> ts') ->
  beat_inv r w0 g {| st_world := w'; st_master := m'; st_meta := st_meta st;
                     st_tasks := ts1 ++ ts' ++ ts2 |} g'.
Proof.
  intros [Hs Hr Hsub Hst Hgo Ht Hq _] Hts Hm Hw Hok Hts' Hn. rewrite Hts in Ht, Hgo.
  apply Forall_app in Ht as [Ht1 [_ Ht2]%Forall_cons].
  split; cbn [st_world st_master st_meta st_tasks]; try done.
  - by eapply in_sync_nodesMap.
  - intros k Hk Hd. specialize (Hgo k Hk Hd). rewrite fmap_app, fmap_cons in Hgo.
    rewrite !fmap_app, !elem_of_app. apply elem_of_app in Hgo as [?|[->|?]%elem_of_cons]; auto.
  - rewrite !Forall_app. auto.
  - intros e He. rewrite (Hw e He). by eapply Hq.
Qed.

Lemma goroutine_beat r w0 g g' (st st' : state (M := M) (W := W)) :
  keys_disjoint cfg -> writable (M := M) -> beat_inv r w0 g st g' ->
  goroutine_step cfg httpPoster st st' -> exists g'', beat_inv r w0 g st' g''.
Proof.
  intros Hk Hw Hi Hst. pose proof (bi_tasks _ _ _ _ _ Hi) as Hts. pose proof (bi_ok _ _ _ _ _ Hi) as Hw0.
  inversion Hst as [? ts1 ts2 node nodes m' Ht Hsync|? ts1 ts2 node nodes m' e Ht Hsync
    |? ts1 ts2 node nodes w' Ht Hp|? ts1 ts2 node nodes w' e Ht Hp|? ts1 ts2 node m' s' Ht Hrm]; subst;
    rewrite Ht in Hts; apply Forall_app in Hts as [_ [Hok _]%Forall_cons].
  - rewrite (syncDBs_eq _ _ _ (bi_record _ _ _ _ _ Hi)) in Hsync. destruct r as [l|]; [|done].
    injection Hsync as <-. exists g'.
    eapply (beat_inv_move _ _ _ _ _ _ _ _ _ _ [Post node nodes]); [done|done|done|done|done| |].
    + repeat constructor. by exists l.
    + intros _. by left.
  - rewrite (syncDBs_eq _ _ _ (bi_record _ _ _ _ _ Hi)) in Hsync. destruct r as [|e']; [done|].
    injection Hsync as <- _. exists g'.
    eapply (beat_inv_move _ _ _ _ _ _ _ _ _ _ [Remove node]); [done|done|done|done|done| |].
    + by repeat constructor.
    + intros _. by left.
  - destruct Hok as [l ->]. apply postPeers_takes in Hp as [Hw1 [Hp _]]; [|done]. exists g'.
    eapply (beat_inv_move _ _ _ _ _ _ _ _ _ _ []); [done|done|done|done|done|constructor|].
    cbn. intros Hd. by rewrite Hp in Hd.
  - destruct Hok as [l ->]. apply postPeers_takes in Hp as [Hw1 [_ Hp]]; [|done]. exists g'.
    eapply (beat_inv_move _ _ _ _ _ _ _ _ _ _ [Remove node]); [done|done|done|done|done| |].
    + repeat constructor. cbn. destruct (takes node); naive_solver.
    + intros _. by left.
  - exists (delete node g'). destruct Hi as [Hs Hr Hsub Hstay Hgo Htasks Hq _].
    rewrite Ht in Htasks, Hgo. apply Forall_app in Htasks as [Ht1 [_ Ht2]%Forall_cons].
    split; cbn [st_world st_master st_meta st_tasks].
    + by eapply removeNode_sync.
    + rewrite <-Hr. by eapply Master_Peers_removeNode; [| |apply Hs|].
    + etrans; [apply delete_subseteq|done].
    + intros k v Hkv Hsv. rewrite lookup_delete_ne; [by apply Hstay|]. intros ->.
      cbn in Hok. congruence.
    + intros k [v [Hne Hkv]%lookup_delete_Some] Hd.
      specialize (Hgo k (ex_intro _ v Hkv) Hd). rewrite fmap_app, fmap_cons in Hgo.
      rewrite fmap_app, elem_of_app. apply elem_of_app in Hgo as [?|[->|?]%elem_of_cons]; auto. done.
    + rewrite Forall_app. auto.
    + done.
    + done.
Qed.

Definition beat_start (w : W) m s (order : list (string * list string)) : state :=
  {| st_world := w; st_master := m; st_meta := s; st_tasks := (fun t => Send t.1 t.2) <$> order |}.

Lemma beat_start_inv w m s g order :
  in_sync cfg m s g -> order ≡ₚ heartbeat m -> ok w ->
  beat_inv (Master_Peers cfg s) w g (beat_start w m s order) g.
Proof.
  intros Hs Hp Hok. split; cbn [beat_start st_world st_master st_meta st_tasks]; try done.
  - intros k Hk _. rewrite Hp. unfold heartbeat. destruct Hs as (-> & _).
    rewrite <-!list_fmap_compose, (list_fmap_ext _ id), list_fmap_id by done.
    by apply elem_of_httpAddrs.
  - apply Forall_fmap, Forall_true. done.
Qed.

Lemma beat_reachable w m s g order st :
  keys_disjoint cfg -> writable (M := M) -> in_sync cfg m s g -> order ≡ₚ heartbeat m -> ok w ->
  rtc (goroutine_step cfg httpPoster) (beat_start w m s order) st ->
  exists g', beat_inv (Master_Peers cfg s) w g st g'.
Proof.
  intros Hk Hw Hs Hp Hok. revert st. apply rtc_ind_r; [exists g; by apply beat_start_inv|].
  intros st1 st2 _ Hst [g' Hi]. by eapply goroutine_beat.
Qed.

Lemma beat_done r w0 g g' st :
  beat_inv r w0 g st g' -> st_tasks st = [] -> g' = filter (fun p => survives r p.1 = true) g.
Proof.
  intros [Hs Hr Hsub Hst Hgo Ht Hq _] Htasks. apply map_eq. intros k. apply option_eq. intros v.
  rewrite map_lookup_filter_Some. cbn. split.
  - intros Hk. split; [by eapply lookup_weaken|]. destruct (survives r k) eqn:E; [done|].
    specialize (Hgo k (ex_intro _ v Hk) E). rewrite Htasks in Hgo. by apply elem_of_nil in Hgo.
  - intros [Hk Hv]. by apply Hst.
Qed.

(** A goroutine that is not through can take a step, and takes three at
    most. *)
Lemma goroutine_progress (st : state (M := M) (W := W)) :
  st_tasks st <> [] -> exists st', goroutine_step cfg httpPoster st st'.
Proof.
  destruct (st_tasks st) as [|[n ns|n ns|n] ts] eqn:E; intros H; [done|..].
  - destruct (syncDBs cfg (st_master st) (st_meta st)) as [m' [e|]] eqn:Es; eexists.
    + by eapply (step_sync_fail _ _ _ []).
    + by eapply (step_sync_ok _ _ _ []).
  - destruct (postPeers httpPoster (st_world st) (st_master st) n ns) as [w' [e|]] eqn:Ep; eexists.
    + by eapply (step_post_fail _ _ _ []).
    + by eapply (step_post_ok _ _ _ []).
  - destruct (removeNode cfg (st_master st) (st_meta st) n) as [m' s'] eqn:Er.
    eexists. by eapply (step_remove _ _ _ []).
Qed.

Definition task_steps (t : task) : nat := match t with Send _ _ => 3 | Post _ _ => 2 | Remove _ => 1 end.

Lemma goroutine_decreases (st st' : state (M := M) (W := W)) :
  goroutine_step cfg httpPoster st st' ->
  sum_list_with task_steps (st_tasks st') < sum_list_with task_steps (st_tasks st).
Proof.
  intros Hst. inversion Hst as [? ? ? ? ? ? Ht|? ? ? ? ? ? ? Ht|? ? ? ? ? ? Ht|? ? ? ? ? ? ? Ht|? ? ? ? ? ? Ht];
    subst; rewrite Ht; cbn [st_tasks]; rewrite !sum_list_with_app; cbn; lia.
Qed.

Lemma goroutines_bounded n (st st' : state (M := M) (W := W)) :
  nsteps (goroutine_step cfg httpPoster) n st st' ->
  n + sum_list_with task_steps (st_tasks st') <= sum_list_with task_steps (st_tasks st).
Proof. apply (measure_nsteps _ (fun st => sum_list_with task_steps (st_tasks st))), goroutine_decreases. Qed.

Lemma goroutines_end (st : state (M := M) (W := W)) :
  exists n st', nsteps (goroutine_step cfg httpPoster) n st st' /\ st_tasks st' = [].
Proof. exact (measure_ends _ _ goroutine_decreases (fun st => st_tasks st = []) goroutine_progress st). Qed.
End heartbeat.

(** ** Properties *)

Section properties.
Context {M : Type} `{!MetaOps M, !MetaLaws M}.
Context (cfg : Config).
Implicit Types (m : Master) (s : M).
Context {W : Type} (httpPoster : HTTPPoster W).

(** C20: on a store that takes every write, and with addresses that are
    UTF-8, the node map in memory is the one on record in every reachable state, however joins, heartbeats,
    posts, removals, database syncs and other writers interleave; so
    [Peers] lists the nodes of the running master and a master restarted
    on the store has the same nodes. *)
Theorem memory_matches_store st0 st g :
  writable (M := M) -> in_sync cfg (st_master st0) (st_meta st0) g ->
  rtc (step cfg httpPoster) st0 st ->
  exists g', nodesMap (st_master st) = Some g' /\
    CacheMaster_Peers cfg (st_meta st) = Ok (httpAddrs (Some g')) /\
    CacheMaster_New cfg (st_meta st) = Ret {| nodesMap := Some g'; dbs := None |}.
Proof.
  intros Hw Hs Hr. assert (exists g', in_sync cfg (st_master st) (st_meta st) g') as (g' & Hg & _ & Hf).
  { revert g Hs. induction Hr as [|st1 st2 st3 Hst _ IH]; intros g Hs; [by exists g|].
    destruct (step_in_sync cfg httpPoster st1 st2 g Hw Hs Hst) as [g1 H1]. by eapply IH. }
  exists g'. split; [done|]. unfold CacheMaster_Peers, CacheMaster_New. by rewrite Hf.
Qed.

(** C21: one heartbeat over all nodes, however its goroutines interleave: it
    ends, after at most three steps a goroutine, and when it has ended the
    nodes that stay, in memory and on record, are exactly those that
    answered the post of the peers with 200, with the addresses they had. *)
Theorem heartbeat_keeps_exactly_answering answers ok w m s g l order n st :
  answered_by httpPoster answers ok -> ok w ->
  keys_disjoint cfg -> writable (M := M) -> in_sync cfg m s g ->
  Master_Peers cfg s = Ok l -> order ≡ₚ heartbeat m ->
  nsteps (goroutine_step cfg httpPoster) n (beat_start w m s order) st ->
  n <= 3 * length order /\
  (st_tasks st <> [] -> exists st', goroutine_step cfg httpPoster st st') /\
  (st_tasks st = [] ->
   in_sync cfg (st_master st) (st_meta st) (filter (fun p => takes answers p.1 = true) g)).
Proof.
  intros Ha Hok Hk Hw Hs Hl Hp Hst. split; [|split].
  - apply goroutines_bounded in Hst. cbn [beat_start st_tasks] in Hst.
    assert (sum_list_with task_steps ((fun t => Send t.1 t.2) <$> order) = 3 * length order) as E
      by (clear; induction order as [|t order IH]; [done|]; rewrite fmap_cons; cbn; rewrite IH; lia).
    lia.
  - apply goroutine_progress.
  - intros Hn. apply rtc_nsteps_2 in Hst.
    destruct (beat_reachable cfg httpPoster answers ok Ha w m s g order st Hk Hw Hs Hp Hok Hst) as [g' Hi].
    pose proof (beat_done cfg answers ok _ _ _ _ _ Hi Hn) as E. rewrite Hl in E. cbn in E. rewrite <-E.
    apply (bi_sync _ _ _ _ _ _ _ _ Hi).
Qed.

(** C31: when the list of database nodes cannot be read, no node is posted
    to, and when the heartbeat has ended every node is removed, from memory
    and from the record: an unreadable database list empties the cache
    cluster. *)
Theorem outage_removes_all_nodes answers ok w m s g order e st :
  answered_by httpPoster answers ok -> ok w ->
  keys_disjoint cfg -> writable (M := M) -> in_sync cfg m s g ->
  Master_Peers cfg s = Err e -> order ≡ₚ heartbeat m ->
  rtc (goroutine_step cfg httpPoster) (beat_start w m s order) st -> st_tasks st = [] ->
  st_world st = w /\ in_sync cfg (st_master st) (st_meta st) ∅.
Proof.
  intros Ha Hok Hk Hw Hs He Hp Hst Hn.
  destruct (beat_reachable cfg httpPoster answers ok Ha w m s g order st Hk Hw Hs Hp Hok Hst) as [g' Hi].
  split; [by eapply (bi_silent _ _ _ _ _ _ _ _ Hi)|].
  pose proof (beat_done cfg answers ok _ _ _ _ _ Hi Hn) as E. rewrite He in E. cbn [survives] in E.
  replace (∅ : gmap string string) with g'; [apply (bi_sync _ _ _ _ _ _ _ _ Hi)|].
  rewrite E. apply map_empty. intros k. apply eq_None_not_Some.
  by intros [v [_ ?]%map_lookup_filter_Some].
Qed.

(** A join on a writable store records the two URLs, replies with the
    sorted HTTP addresses of all nodes, the new one included, and with the
    databases known; missing addresses are refused without an effect. *)
Theorem JoinNode_spec m s g a :
  writable (M := M) -> in_sync cfg m s g ->
  if decide (HTTPAddr a = "" \/ NodeAddr a = "") then
    JoinNode cfg m s (Some a) = Ret (m, s, Err (Fresh "wrong params"))
  else exists m' s' peers, JoinNode cfg m s (Some a) = Ret (m', s', Ok {| Peers := Some peers; DBs := dbs m |}) /\
    nodesMap m' = Some (<[MakeURL (HTTPAddr a) := MakeURL (NodeAddr a)]> g) /\
    StronglySorted String.le peers /\
    (forall k, k ∈ peers <-> k = MakeURL (HTTPAddr a) \/ is_Some (g !! k)) /\
    (valid_utf8 (MakeURL (HTTPAddr a)) = true -> valid_utf8 (MakeURL (NodeAddr a)) = true ->
     CacheMaster_Peers cfg s' = Ok peers).
Proof.
  intros Hw (Hg & Hv & _). destruct (decide _) as [Hn|Hn].
  { unfold JoinNode. by rewrite decide_True. }
  rewrite (JoinNode_eq cfg m s g a Hw Hg) by tauto. eexists _, _, _. split; [done|].
  split; [done|]. split; [apply sort_strings_sorted|]. split.
  - intros k. rewrite elem_of_httpAddrs, lookup_insert_is_Some'. naive_solver.
  - intros Hv1 Hv2. unfold CacheMaster_Peers.
    erewrite fetch_update; [done| |by apply update_ok]. by apply valid_map_assign.
Qed.

(** A join whose write to the store fails is answered with an error but
    stays in the map in memory, unknown to the store. *)
Theorem failed_join_stays_in_memory m s g a s' e :
  nodesMap m = Some g -> HTTPAddr a <> "" -> NodeAddr a <> "" ->
  updateNodesMap cfg s (Some (<[MakeURL (HTTPAddr a) := MakeURL (NodeAddr a)]> g)) = (s', Some e) ->
  exists m' err, JoinNode cfg m s (Some a) = Ret (m', s', Err err) /\
    MakeURL (HTTPAddr a) ∈ httpAddrs (nodesMap m').
Proof.
  intros Hg H1 H2 Hu. unfold JoinNode. rewrite decide_False by tauto. rewrite Hg.
  cbn [map_assign mbind outcome_bind with_nodesMap nodesMap]. rewrite Hu.
  eexists _, _. split; [done|]. cbn [nodesMap with_nodesMap]. apply elem_of_httpAddrs.
  by rewrite lookup_insert_eq.
Qed.

(** A master started on a store whose record is the JSON [null] has a
    nil map, and its first join panics. *)
Theorem null_record_panics s a :
  meta_Get s (CacheNodesKey cfg) = Ok "null" -> HTTPAddr a <> "" -> NodeAddr a <> "" ->
  exists m, CacheMaster_New cfg s = Ret m /\ ¬ is_Ret (JoinNode cfg m s (Some a)).
Proof.
  intros Hn H1 H2. exists {| nodesMap := None; dbs := None |}. split.
  - unfold CacheMaster_New, fetchNodesMap. rewrite Hn. reflexivity.
  - unfold JoinNode. rewrite decide_False by tauto. by intros [].
Qed.
End properties.

(** ** Witnesses *)

Definition two_caches : gmap string string := {["http://a" := "http://na"; "http://b" := "http://nb"]}.

(** A store with the given record of database nodes and the two caches. *)
Definition meta_of (dbs : string) : Mock.Meta :=
  {| Mock.data := {[RaftNodesKey default_Config := dbs;
                    CacheNodesKey default_Config := print_json (enc_map (Some two_caches))]} |}.

Definition running : Master := {| nodesMap := Some two_caches; dbs := None |}.

Lemma meta_of_sync dbs : in_sync default_Config running (meta_of dbs) two_caches.
Proof.
  split; [done|]. split.
  - by apply map_Forall_insert_2; [|apply map_Forall_singleton].
  - unfold fetchNodesMap. cbn [meta_Get mock_ops]. unfold Mock.Get, meta_of. cbn [Mock.data].
    rewrite lookup_insert_ne by done. rewrite lookup_singleton_eq. apply unmarshal_map_roundtrip.
    by apply map_Forall_insert_2; [|apply map_Forall_singleton].
Qed.

(** Only node [a] answers. *)
Definition a_answers (url : string) : result Response :=
  if String.eqb url "http://a/meta" then Ok {| StatusCode := 200; Body := "" |}
  else Err (Fresh "refused").
Definition a_poster : HTTPPoster unit := fun w url _ _ => (w, a_answers url).

Lemma memory_matches_store_witness :
  exists g', Some two_caches = Some g' /\
    CacheMaster_Peers default_Config (meta_of "[]") = Ok (httpAddrs (Some g')) /\
    CacheMaster_New default_Config (meta_of "[]") = Ret {| nodesMap := Some g'; dbs := None |}.
Proof.
  exact (memory_matches_store default_Config a_poster
           {| st_world := (); st_master := running; st_meta := meta_of "[]"; st_tasks := [] |}
           {| st_world := (); st_master := running; st_meta := meta_of "[]";
              st_tasks := (fun t => Send t.1 t.2) <$> heartbeat running |}
           two_caches mock_writable (meta_of_sync "[]")
           (rtc_once _ _ (step_heartbeat _ _ {| st_world := (); st_master := running;
                                                st_meta := meta_of "[]"; st_tasks := [] |}))).
Defined.

Lemma heartbeat_keeps_witness :
  exists n st, nsteps (goroutine_step default_Config a_poster) n
      (beat_start () running (meta_of "[]") (rev (heartbeat running))) st /\
    in_sync default_Config (st_master st) (st_meta st)
      (filter (fun p => takes a_answers p.1 = true) two_caches).
Proof.
  destruct (goroutines_end default_Config a_poster
              (beat_start () running (meta_of "[]") (rev (heartbeat running)))) as (n & st & Hst & Hn).
  exists n, st. split; [exact Hst|].
  apply (heartbeat_keeps_exactly_answering default_Config a_poster a_answers (fun _ => True) () running (meta_of "[]")
           two_caches (Some []) (rev (heartbeat running)) n st); [| | | | | | |exact Hst|exact Hn].
  - split; reflexivity.
  - exact I.
  - exact default_keys_disjoint.
  - exact mock_writable.
  - exact (meta_of_sync "[]").
  - vm_compute. reflexivity.
  - symmetry. apply Permutation_rev.
Defined.

Lemma outage_witness :
  exists n st, nsteps (goroutine_step default_Config a_poster) n
      (beat_start () running (meta_of "junk") (heartbeat running)) st /\
    st_world st = () /\ in_sync default_Config (st_master st) (st_meta st) ∅.
Proof.
  destruct (goroutines_end default_Config a_poster
              (beat_start () running (meta_of "junk") (heartbeat running))) as (n & st & Hst & Hn).
  exists n, st. split; [exact Hst|].
  apply (outage_removes_all_nodes default_Config a_poster a_answers (fun _ => True) () running (meta_of "junk")
           two_caches (heartbeat running) syntax_error st); [| | | | | | |by eapply rtc_nsteps_2|exact Hn].
  - split; reflexivity.
  - exact I.
  - exact default_keys_disjoint.
  - exact mock_writable.
  - exact (meta_of_sync "junk").
  - vm_compute. reflexivity.
  - reflexivity.
Defined.

Lemma JoinNode_witness :
  exists m' s' peers, JoinNode default_Config running (meta_of "[]")
      (Some {| HTTPAddr := ":1"; NodeAddr := ":2" |}) = Ret (m', s', Ok {| Peers := Some peers; DBs := None |}) /\
    "http://127.0.0.1:1" ∈ peers /\ CacheMaster_Peers default_Config s' = Ok peers.
Proof.
  pose proof (JoinNode_spec default_Config running (meta_of "[]") two_caches
                {| HTTPAddr := ":1"; NodeAddr := ":2" |} mock_writable (meta_of_sync "[]")) as H.
  destruct (decide _) as [[Hn|Hn]|_]; [discriminate Hn|discriminate Hn|].
  destruct H as (m' & s' & peers & E & _ & _ & Hin & Hp). exists m', s', peers.
  split; [exact E|]. split; [apply Hin; left; reflexivity|apply Hp; vm_compute; reflexivity].
Defined.
