(* ===== verification/ConsistentHash.v ===== *)
(** * utils/consistenthash: the consistent hash ring (consistenthash.go)

    The ring with its sorted points and CRC-32, the hash
    a nil function stands for.  An [int] is 64 bits wide. *)
From S2P Require Import Prelude SortSearch.
From Stdlib Require Import Ascii.

(** ** Go's standard library *)

Definition wrap64 (z : Z) : Z := ((z + 2 ^ 63) mod 2 ^ 64 - 2 ^ 63)%Z.

(** [sort.Ints] *)
Definition sort_ints (l : list Z) : list Z := merge_sort Z.le l.

(** [crc32.ChecksumIEEE]: the reflected polynomial, bit by bit. *)
Definition crc_poly : Z := 0xEDB88320%Z.
Definition crc_bit (c : Z) : Z :=
  if Z.odd c then Z.lxor (Z.shiftr c 1%Z) crc_poly else Z.shiftr c 1%Z.
Definition crc_byte (c : Z) (a : ascii) : Z := Nat.iter 8 crc_bit (Z.lxor c (Z.of_N (N_of_ascii a))).
Definition ChecksumIEEE (s : string) : Z :=
  Z.lxor (foldl crc_byte 0xFFFFFFFF%Z (String.list_ascii_of_string s)) 0xFFFFFFFF%Z.

Example crc_check : ChecksumIEEE "123456789" = 0xCBF43926%Z.
Proof. vm_compute. reflexivity. Qed.

(** ** The ring *)

Definition Hash : Type := string -> Z.

Record Map : Type := {
  hash : Hash;
  replicas : Z;
  keys : list Z;
  hashMap : gmap Z Z;
}.

Definition New (replicas : Z) (fn : option Hash) : Map :=
  {| hash := default ChecksumIEEE fn; replicas := replicas; keys := []; hashMap := ∅ |}.

Definition IsEmpty (m : Map) : bool := length (keys m) =? 0.

Definition put_point (m : Map) (key : Z) (i : nat) : Map :=
  let h := hash m (pretty (wrap64 (wrap64 (key * 10) + Z.of_nat i)%Z)) in
  {| hash := hash m; replicas := replicas m; keys := keys m ++ [h];
     hashMap := <[h := key]> (hashMap m) |}.

(** The inner loop, for the replicas of one key. *)
Definition Add_key (m : Map) (key : Z) : Map :=
  foldl (fun m i => put_point m key i) m (seq 0 (Z.to_nat (replicas m))).

Definition Add (m : Map) (ks : list Z) : Map :=
  let m := foldl Add_key m ks in
  {| hash := hash m; replicas := replicas m; keys := sort_ints (keys m); hashMap := hashMap m |}.

Definition Get (m : Map) (key : string) : Z :=
  if IsEmpty m then 0%Z
  else
    let hash := hash m key in
    let idx := Search (length (keys m)) (fun i => (hash <=? nth i (keys m) 0%Z)%Z) in
    let idx := if idx =? length (keys m) then 0 else idx in
    default 0%Z (hashMap m !! nth idx (keys m) 0%Z).

(** The ring of consistenthash_test.go: the hash reads a decimal number. *)
Fixpoint atoi_acc (acc : Z) (s : string) : Z :=
  match s with
  | EmptyString => acc
  | String a s => atoi_acc (acc * 10 + (Z.of_N (N_of_ascii a) - 48))%Z s
  end.
Definition test_ring : Map := Add (New 3%Z (Some (atoi_acc 0%Z))) [6; 4; 2]%Z.

Example TestHashing :
  (Get test_ring <$> ["2"; "11"; "23"; "27"; "60"; "63"]) = [2; 2; 4; 4; 6; 2]%Z /\
  keys test_ring = [20; 21; 22; 40; 41; 42; 60; 61; 62]%Z.
Proof. split; vm_compute; reflexivity. Qed.

(** ** The ring invariant *)

(** The sorted list holds exactly the points of the map. *)
Record wf (m : Map) : Prop := {
  wf_sorted : StronglySorted Z.le (keys m);
  wf_points : forall h, h ∈ keys m <-> is_Some (hashMap m !! h);
}.

(** [h] is the point of the ring an item hashed to [x] belongs to: the first
    from [x] on, the very first if there is none. *)
Definition successor (hm : gmap Z Z) (x h : Z) : Prop :=
  is_Some (hm !! h) /\
  ((x <= h /\ forall h', is_Some (hm !! h') -> x <= h' -> h <= h') \/
   ((forall h', is_Some (hm !! h') -> h' < x) /\ forall h', is_Some (hm !! h') -> h <= h'))%Z.

Lemma successor_unique hm x h1 h2 : successor hm x h1 -> successor hm x h2 -> h1 = h2.
Proof.
  intros [H1 [[Hx1 Hm1]|[Hn1 Hm1]]] [H2 [[Hx2 Hm2]|[Hn2 Hm2]]].
  - pose proof (Hm1 h2 H2 Hx2). pose proof (Hm2 h1 H1 Hx1). lia.
  - pose proof (Hn2 h1 H1). lia.
  - pose proof (Hn1 h2 H2). lia.
  - pose proof (Hm1 h2 H2). pose proof (Hm2 h1 H1). lia.
Qed.

Lemma sort_ints_perm l : sort_ints l ≡ₚ l.
Proof. apply merge_sort_Permutation. Qed.

Lemma sort_ints_sorted l : StronglySorted Z.le (sort_ints l).
Proof. apply (StronglySorted_merge_sort _). Qed.

Lemma sorted_nth l i j :
  StronglySorted Z.le l -> i <= j < length l -> (nth i l 0 <= nth j l 0)%Z.
Proof.
  intros Hs. revert i j. induction Hs as [|x l Hs IH Hx]; intros i j Hij; cbn in Hij; [lia|].
  destruct i as [|i], j as [|j]; cbn [nth]; [lia| |lia|apply IH; lia].
  rewrite Forall_forall in Hx. apply Hx, list_elem_of_In, nth_In. lia.
Qed.

Lemma Get_successor m key :
  wf m -> IsEmpty m = false ->
  exists h, successor (hashMap m) (hash m key) h /\ hashMap m !! h = Some (Get m key).
Proof.
  intros [Hs Hp] He. unfold Get. rewrite He. set (x := hash m key).
  set (f := fun i => (x <=? nth i (keys m) 0)%Z).
  destruct (Search_spec (length (keys m)) f) as (Hle & Hlo & Hhi).
  { subst f. cbn. intros a b Hab Ha%Z.leb_le. apply Z.leb_le.
    pose proof (sorted_nth _ a b Hs Hab). lia. }
  set (k := Search (length (keys m)) f) in *. clearbody k.
  unfold IsEmpty in He. apply Nat.eqb_neq in He.
  set (idx := if k =? length (keys m) then 0 else k).
  assert (idx < length (keys m)) as Hidx.
  { subst idx. destruct (Nat.eqb_spec k (length (keys m))); lia. }
  set (h := nth idx (keys m) 0%Z).
  assert (is_Some (hashMap m !! h)) as Hh by (apply Hp, list_elem_of_In, nth_In; done).
  exists h. split; [|destruct Hh as [v Hv]; by rewrite Hv].
  split; [done|].
  assert (forall h', is_Some (hashMap m !! h') -> exists i, i < length (keys m) /\ nth i (keys m) 0%Z = h') as Hnth.
  { intros h' Hh'. apply Hp, list_elem_of_In, (In_nth _ _ 0%Z) in Hh' as (i & Hi & E). by exists i. }
  subst h idx. destruct (Nat.eqb_spec k (length (keys m))) as [->|Hk].
  - right. split; intros h' Hh'; destruct (Hnth h' Hh') as (i & Hi & <-).
    + specialize (Hlo i Hi). subst f. cbn in Hlo. apply Z.leb_gt in Hlo. done.
    + apply sorted_nth; [done|lia].
  - left. specialize (Hhi ltac:(lia)). subst f. cbn in *. apply Z.leb_le in Hhi. split; [done|].
    intros h' Hh' Hx. destruct (Hnth h' Hh') as (i & Hi & <-).
    apply sorted_nth; [done|]. split; [|done]. destruct (Nat.le_gt_cases k i) as [?|Hlt]; [done|].
    specialize (Hlo i Hlt). apply Z.leb_gt in Hlo. lia.
Qed.

(** *** Adding *)

Definition point (m : Map) (key : Z) (i : nat) : Z :=
  hash m (pretty (wrap64 (wrap64 (key * 10) + Z.of_nat i)%Z)).

Definition is_point (m : Map) (key h : Z) : Prop :=
  exists i, i < Z.to_nat (replicas m) /\ h = point m key i.

Lemma point_cases m (ks : list Z) h :
  (exists k, k ∈ ks /\ is_point m k h) \/ (forall k, k ∈ ks -> ¬ is_point m k h).
Proof.
  destruct (decide (Exists (fun k => Exists (fun i => h = point m k i)
        (seq 0 (Z.to_nat (replicas m)))) ks)) as [He|He].
  - left. apply Exists_exists in He as (k & Hk & (i & Hi & E)%Exists_exists).
    exists k. split; [done|]. exists i. rewrite elem_of_seq in Hi. split; [lia|done].
  - right. intros k Hk (i & Hi & E). apply He, Exists_exists. exists k. split; [done|].
    apply Exists_exists. exists i. rewrite elem_of_seq. split; [lia|done].
Qed.

Record extends (m m' : Map) (ks : list Z) : Prop := {
  ext_hash : hash m' = hash m;
  ext_replicas : replicas m' = replicas m;
  ext_old : forall h, (forall k, k ∈ ks -> ¬ is_point m k h) -> hashMap m' !! h = hashMap m !! h;
  ext_new : forall h k, k ∈ ks -> is_point m k h -> exists k', k' ∈ ks /\ is_point m k' h /\ hashMap m' !! h = Some k';
  ext_keys : (forall h, h ∈ keys m <-> is_Some (hashMap m !! h)) ->
             forall h, h ∈ keys m' <-> is_Some (hashMap m' !! h);
}.

Lemma put_points m key idxs :
  let m' := foldl (fun m i => put_point m key i) m idxs in
  hash m' = hash m /\ replicas m' = replicas m /\
  (forall h, (forall i, i ∈ idxs -> h <> point m key i) -> hashMap m' !! h = hashMap m !! h) /\
  (forall i, i ∈ idxs -> hashMap m' !! point m key i = Some key) /\
  ((forall h, h ∈ keys m <-> is_Some (hashMap m !! h)) ->
   forall h, h ∈ keys m' <-> is_Some (hashMap m' !! h)).
Proof.
  cbv zeta. revert m. induction idxs as [|i idxs IH]; intros m; cbn [foldl].
  { split_and!; try done. by intros i Hi%elem_of_nil. }
  destruct (IH (put_point m key i)) as (H1 & H2 & H3 & H4 & H5). split_and!.
  - by rewrite H1.
  - by rewrite H2.
  - intros h Hh. rewrite H3 by (intros j Hj; apply Hh; by right). cbn [put_point hashMap].
    rewrite lookup_insert_ne; [done|]. intros E. apply (Hh i); [by left|done].
  - intros j Hj. destruct (decide (j ∈ idxs)) as [Hin|Hin]; [by apply H4|].
    apply elem_of_cons in Hj as [->|Hj]; [|done].
    destruct (decide (Exists (fun j => point m key i = point m key j) idxs)) as [He|He].
    + apply Exists_exists in He as (j & Hj & E). rewrite E. by apply (H4 j).
    + rewrite H3.
      * cbn [put_point hashMap]. by rewrite lookup_insert_eq.
      * intros j Hj E. apply He, Exists_exists. by exists j.
  - intros Hk. apply H5. intros h. cbn [put_point keys hashMap]. fold (point m key i).
    rewrite elem_of_app, list_elem_of_singleton, Hk, lookup_insert_is_Some'. clear; naive_solver.
Qed.

Lemma Add_key_extends m key : extends m (Add_key m key) [key].
Proof.
  unfold Add_key. destruct (put_points m key (seq 0 (Z.to_nat (replicas m)))) as (H1 & H2 & H3 & H4 & H5).
  split; [done|done| | |done].
  - intros h Hh. apply H3. intros i Hi ->. apply (Hh key); [by left|].
    exists i. rewrite elem_of_seq in Hi. split; [lia|done].
  - intros h k ->%list_elem_of_singleton (i & Hi & ->). exists key. split; [by left|].
    split; [by exists i|]. apply H4. rewrite elem_of_seq. lia.
Qed.

Lemma foldl_Add_extends m ks : extends m (foldl Add_key m ks) ks.
Proof.
  revert m. induction ks as [|k ks IH]; intros m; cbn [foldl].
  { split; try done. by intros h k Hk%elem_of_nil. }
  destruct (Add_key_extends m k) as [A1 A2 A3 A4 A5].
  destruct (IH (Add_key m k)) as [B1 B2 B3 B4 B5].
  assert (forall k' h, is_point (Add_key m k) k' h <-> is_point m k' h) as Hpt.
  { intros k' h. unfold is_point, point. by rewrite A1, A2. }
  split.
  - by rewrite B1.
  - by rewrite B2.
  - intros h Hh. rewrite B3, A3; [done| |].
    + intros k' ->%list_elem_of_singleton. apply Hh. by left.
    + intros k' Hk'. rewrite Hpt. apply Hh. by right.
  - intros h k' Hk' Hp. destruct (point_cases m ks h) as [(k2 & Hk2 & Hp2)|Hno].
    + destruct (B4 h k2 Hk2) as (k3 & Hk3 & Hp3 & E3); [by apply Hpt|].
      exists k3. split; [by right|]. split; [by apply Hpt|done].
    + apply elem_of_cons in Hk' as [->|Hk']; [|by destruct (Hno k' Hk')].
      destruct (A4 h k) as (k3 & ->%list_elem_of_singleton & _ & E); [by left|done|].
      exists k. split; [by left|]. split; [done|]. rewrite B3; [done|].
      intros k2 Hk2. rewrite Hpt. by apply Hno.
  - intros Hk. apply B5, A5, Hk.
Qed.

Lemma New_wf r fn : wf (New r fn).
Proof. split; [constructor|]. intros h. cbn. rewrite lookup_empty. split; [by intros ?%elem_of_nil|by intros []]. Qed.

Lemma Add_wf m ks : wf m -> wf (Add m ks).
Proof.
  intros [_ Hp]. split; cbn [Add keys hashMap]; [apply sort_ints_sorted|].
  intros h. rewrite sort_ints_perm. apply (ext_keys _ _ _ (foldl_Add_extends m ks) Hp).
Qed.

Lemma IsEmpty_false m : wf m -> IsEmpty m = false <-> hashMap m <> ∅.
Proof.
  intros [_ Hp]. unfold IsEmpty. rewrite Nat.eqb_neq. split.
  - intros Hl E. destruct (keys m) as [|h l] eqn:Ek; [done|].
    destruct (proj1 (Hp h)) as [v Hv]; [left|]. by rewrite E, lookup_empty in Hv.
  - intros Hne Hl. apply Hne, map_empty. intros h. apply eq_None_not_Some. intros Hh%Hp.
    destruct (keys m); [by apply elem_of_nil in Hh|done].
Qed.

(** A lookup that finds a point is determined by the map of points. *)
Lemma Get_unique m key h v :
  wf m -> IsEmpty m = false -> successor (hashMap m) (hash m key) h -> hashMap m !! h = Some v ->
  Get m key = v.
Proof.
  intros Hw He Hs Hv. destruct (Get_successor m key Hw He) as (h' & Hs' & Hg).
  rewrite (successor_unique _ _ _ _ Hs' Hs) in Hg. congruence.
Qed.

Lemma Get_ext m1 m2 key :
  wf m1 -> wf m2 -> hash m1 = hash m2 -> hashMap m1 = hashMap m2 -> Get m1 key = Get m2 key.
Proof.
  intros H1 H2 Hh Hm. destruct (IsEmpty m1) eqn:E1.
  - assert (IsEmpty m2 = true) as E2.
    { destruct (IsEmpty m2) eqn:E2; [done|]. apply IsEmpty_false in E2; [|done].
      rewrite <-Hm in E2. apply IsEmpty_false in E2; [congruence|done]. }
    unfold Get. by rewrite E1, E2.
  - assert (IsEmpty m2 = false) as E2.
    { apply IsEmpty_false; [done|]. rewrite <-Hm. by apply IsEmpty_false. }
    destruct (Get_successor m2 key H2 E2) as (h & Hs & Hg).
    apply (Get_unique m1 key h); [done|done|by rewrite Hh, Hm|by rewrite Hm].
Qed.

Lemma extends_lookup m ks h v :
  hashMap (foldl Add_key m ks) !! h = Some v -> v ∈ ks \/ hashMap m !! h = Some v.
Proof.
  intros Hv. destruct (foldl_Add_extends m ks) as [_ _ Hold Hnew _].
  destruct (point_cases m ks h) as [(k & Hk & Hp)|Hno].
  - destruct (Hnew h k Hk Hp) as (k' & Hk' & _ & E'). left. congruence.
  - right. rewrite <-Hv. symmetry. by apply Hold.
Qed.

Lemma Add_keeps_points m ks h : is_Some (hashMap m !! h) -> is_Some (hashMap (Add m ks) !! h).
Proof.
  intros Hs. cbn [Add hashMap]. destruct (foldl_Add_extends m ks) as [_ _ Hold Hnew _].
  destruct (point_cases m ks h) as [(k & Hk & Hp)|Hno].
  - destruct (Hnew h k Hk Hp) as (k' & _ & _ & ->). by eexists.
  - by rewrite Hold.
Qed.

Lemma Add_not_empty m ks : wf m -> IsEmpty m = false -> IsEmpty (Add m ks) = false.
Proof.
  intros Hw He. apply IsEmpty_false; [by apply Add_wf|]. apply IsEmpty_false in He; [|done].
  intros E. apply He, map_empty. intros h. apply eq_None_not_Some.
  intros [v Hv]%(Add_keeps_points _ ks). by rewrite E, lookup_empty in Hv.
Qed.

(** ** Properties *)

(** C25: the ring built by any sequence of [Add]s keeps its points sorted and
    maps exactly them, and [Get] returns the owner of the first point
    clockwise from the hash of the item: the least point from it on, or the
    least of all when there is none. *)
Theorem Get_clockwise r fn kss key :
  let m := foldl Add (New r fn) kss in
  wf m /\ (IsEmpty m = true -> Get m key = 0%Z) /\
  (IsEmpty m = false -> exists h, successor (hashMap m) (hash m key) h /\
                                  hashMap m !! h = Some (Get m key)).
Proof.
  intros m. assert (wf m) as Hw.
  { subst m. assert (wf (New r fn)) as Hn by apply New_wf. revert Hn.
    generalize (New r fn) as m0. induction kss as [|ks kss IH]; intros m0 Hm0; [done|].
    cbn. apply IH. by apply Add_wf. }
  split; [done|]. split; [unfold Get; by intros ->|by apply Get_successor].
Qed.

(** C24: consistent hashing: when keys are added to a ring that is not empty,
    every item keeps its owner or moves to one of the added keys. *)
Theorem Add_moves_only_to_new m ks key :
  wf m -> IsEmpty m = false ->
  Get (Add m ks) key = Get m key \/ Get (Add m ks) key ∈ ks.
Proof.
  intros Hw He. pose proof (Add_wf m ks Hw) as Hw'. pose proof (Add_not_empty m ks Hw He) as He'.
  pose proof (ext_hash _ _ _ (foldl_Add_extends m ks)) as Hh.
  destruct (Get_successor (Add m ks) key Hw' He') as (h & [Hh1 Hsucc] & Hg).
  destruct (extends_lookup m ks h _ Hg) as [?|Hv]; [by right|]. left. symmetry.
  apply (Get_unique m key h); [done|done| |done]. split; [by eexists|].
  cbn [Add hash] in Hsucc. rewrite Hh in Hsucc.
  destruct Hsucc as [[Hx Hm]|[Hn Hm]]; [left|right]; (split; [|intros h' Hh'%(Add_keeps_points _ ks); by apply Hm]);
    [done|]. intros h' Hh'%(Add_keeps_points _ ks). by apply Hn.
Qed.

(** When no two of the added keys share a point, the owner of every item
    is independent of the order in which they are added. *)
Theorem Add_order_irrelevant m ks ks' key :
  wf m -> ks ≡ₚ ks' ->
  (forall k1 k2 h, k1 ∈ ks -> k2 ∈ ks -> is_point m k1 h -> is_point m k2 h -> k1 = k2) ->
  Get (Add m ks) key = Get (Add m ks') key.
Proof.
  intros Hw Hp Hc. apply Get_ext; [by apply Add_wf|by apply Add_wf| |].
  { cbn [Add hash]. by rewrite !(ext_hash _ _ _ (foldl_Add_extends m _)). }
  cbn [Add hashMap]. apply map_eq. intros h.
  destruct (foldl_Add_extends m ks) as [_ _ Hold Hnew _].
  destruct (foldl_Add_extends m ks') as [_ _ Hold' Hnew' _].
  destruct (point_cases m ks h) as [(k & Hk & Hpt)|Hno].
  - destruct (Hnew h k Hk Hpt) as (k1 & Hk1 & Hp1 & ->).
    destruct (Hnew' h k) as (k2 & Hk2 & Hp2 & ->); [by rewrite <-Hp|done|].
    f_equal. apply (Hc k1 k2 h); [done|by rewrite Hp|done|done].
  - rewrite Hold, Hold'; [done| |done]. intros k Hk. apply Hno. by rewrite Hp.
Qed.

(** Every owner is a key that was added. *)
Lemma Get_added r fn kss key :
  IsEmpty (foldl Add (New r fn) kss) = false -> exists ks, ks ∈ kss /\ Get (foldl Add (New r fn) kss) key ∈ ks.
Proof.
  intros He.
  assert (forall m0, wf m0 -> wf (foldl Add m0 kss) /\
            forall h v, hashMap (foldl Add m0 kss) !! h = Some v ->
              hashMap m0 !! h = Some v \/ exists ks, ks ∈ kss /\ v ∈ ks) as H.
  { clear He. induction kss as [|ks kss IH]; intros m0 Hm0; [split; [done|by left]|]. cbn [foldl].
    destruct (IH (Add m0 ks) (Add_wf _ _ Hm0)) as [Hw Hv]. split; [done|].
    intros h v Hh. destruct (Hv h v Hh) as [[Hin|?]%extends_lookup|(ks' & Hks & Hin)];
      [right; exists ks; by split; [left|]|by left|right; exists ks'; by split; [right|]]. }
  destruct (H _ (New_wf r fn)) as [Hw Hv].
  destruct (Get_successor _ key Hw He) as (h & _ & Hg).
  destruct (Hv h _ Hg) as [Hn|?]; [|done].
  change (hashMap (New r fn)) with (∅ : gmap Z Z) in Hn. by rewrite lookup_empty in Hn.
Qed.

(** With a replica per key, a ring with a key is not empty. *)
Lemma ring_not_empty r fn k kss :
  (0 < r)%Z -> head kss = Some [k] -> IsEmpty (foldl Add (New r fn) kss) = false.
Proof.
  intros Hr Hk. destruct kss as [|ks kss]; [done|]. injection Hk as ->. cbn [foldl].
  assert (forall m, wf m -> IsEmpty m = false -> IsEmpty (foldl Add m kss) = false) as Hkeep.
  { clear. induction kss as [|ks kss IH]; intros m Hw He; [done|]. cbn [foldl].
    apply IH; [by apply Add_wf|by apply Add_not_empty]. }
  apply Hkeep; [apply Add_wf, New_wf|]. apply IsEmpty_false; [apply Add_wf, New_wf|].
  intros E. destruct (ext_new _ _ _ (foldl_Add_extends (New r fn) [k])
                        (point (New r fn) k 0) k) as (k' & _ & _ & Hk'); [by left| |].
  - exists 0. cbn. split; [lia|done].
  - cbn [Add hashMap] in E. by rewrite E, lookup_empty in Hk'.
Qed.

(** ** Witnesses *)

Lemma Add_moves_witness :
  Get (Add test_ring [8%Z]) "27" = Get test_ring "27" \/ Get (Add test_ring [8%Z]) "27" ∈ [8%Z].
Proof. apply (Add_moves_only_to_new test_ring [8%Z] "27"); [apply Add_wf, New_wf|reflexivity]. Defined.

Lemma test_points k h :
  is_point (New 2 (Some (atoi_acc 0%Z))) k h ->
  h = point (New 2 (Some (atoi_acc 0%Z))) k 0 \/ h = point (New 2 (Some (atoi_acc 0%Z))) k 1.
Proof.
  intros (i & Hi & ->). assert (i < 2) as Hi' by exact Hi.
  destruct i as [|[|i]]; [by left|by right|lia].
Qed.

Lemma Add_order_witness :
  Get (Add (New 2 (Some (atoi_acc 0%Z))) [6; 4]%Z) "50" = Get (Add (New 2 (Some (atoi_acc 0%Z))) [4; 6]%Z) "50".
Proof.
  apply (Add_order_irrelevant (New 2 (Some (atoi_acc 0%Z))) [6; 4]%Z [4; 6]%Z "50");
    [apply New_wf|apply Permutation_swap|].
  intros k1 k2 h H1 H2 P1%test_points P2%test_points.
  assert (forall k, k ∈ [6; 4]%Z -> k = 6%Z \/ k = 4%Z) as Hk.
  { intros k [->|[->|[]%elem_of_nil]%elem_of_cons]%elem_of_cons; [by left|by right]. }
  destruct (Hk k1 H1) as [->| ->], (Hk k2 H2) as [->| ->]; try reflexivity;
    destruct P1 as [->| ->], P2 as [P2|P2]; vm_compute in P2; discriminate P2.
Defined.
