(* ===== verification/ShardMaster.v ===== *)
(** * db/master: the shard master (shardmaster.go)

    Which groups serve a key: the ring of shards, the sequence of mappings
    from shard to group, and [Query].  The order in which Go ranges over a
    map and the gob encoding of the stored values are parameters. *)
From S2P Require Import Prelude MetaKV Config ConsistentHash.

Definition shardMasterServerStorageKey : string := "oncekv.shard.master.mapping".
Definition shardMasterMemberGroupKey : string := "oncekv.shard.master.member.group".
Definition shardMasterMemberGroupKeyForID (gid : Z) : string :=
  shardMasterMemberGroupKey +:+ "." +:+ pretty gid.

Definition ErrServiceUnavailable : goerror := Sentinel "master.ErrServiceUnavailable".

(** [map[int]int], shard id to group id. *)
Abbreviation shardIDToGroupIDs := (slice (gmap Z Z)).

Record shardMasterServer : Type := {
  shardCount : Z;
  keyMapping : Map;
  mapping : shardIDToGroupIDs;
}.

Section shardmaster.
Context {M : Type} `{!MetaOps M}.
Context (cfg : Config).
(** The keys of a map in the order of a [range] over it. *)
Context (range : gset Z -> list Z).
Context (gob_mappings : string -> result shardIDToGroupIDs).
Context (gob_members : string -> result (slice string)).
Implicit Types s : M.

(** The loop over the mappings, newest first. *)
Definition gidMap (mp : shardIDToGroupIDs) (shardID : Z) : gset Z :=
  foldl (fun gids (g : gmap Z Z) => match g !! shardID with Some gid => {[gid]} ∪ gids | None => gids end)
        ∅ (rev (elems mp)).

(** The index [i] keeps its initial value. *)
Definition groupIDs (mp : shardIDToGroupIDs) (shardID : Z) : list Z :=
  let gids := replicate (size (gidMap mp shardID)) 0%Z in
  let i := 0 in
  foldl (fun gids k => <[i := k]> gids) gids (range (gidMap mp shardID)).

Definition fetchShardIDToGroupIDs s : result shardIDToGroupIDs :=
  mappingsVal ← meta_Get s shardMasterServerStorageKey;
  gob_mappings mappingsVal.

(** The shards are added to the ring one by one. *)
Definition shard_ring (count : Z) : Map :=
  foldl Add (ConsistentHash.New count None) ((fun i => [Z.of_nat i]) <$> seq 0 (Z.to_nat count)).

Definition NewShardMasterServer s : result shardMasterServer :=
  let server mp := {| shardCount := ShardCount cfg; keyMapping := shard_ring (ShardCount cfg);
                      mapping := mp |} in
  match fetchShardIDToGroupIDs s with
  | Err e =>
    if e ==e config_ErrDataNotFound then Ok (server None)
    else Err (Fresh "failed to fetch the shardIDToGroupIDs")
  | Ok mp => Ok (server mp)
  end.

Definition Query_members s (gid : Z) : result (slice string) :=
  match meta_Get s (shardMasterMemberGroupKeyForID gid) with
  | Err _ => Err (Fresh "failed to get the value")
  | Ok membersVal =>
    match gob_members membersVal with
    | Err _ => Err (Fresh "data broken")
    | Ok members => Ok members
    end
  end.

Fixpoint Query_loop s (gids : list Z) (groups : list (slice string)) : result (list (slice string)) :=
  match gids with
  | [] => Ok groups
  | gid :: gids =>
    members ← Query_members s gid;
    Query_loop s gids (groups ++ [members])
  end.

Definition Query (server : shardMasterServer) s (key : string) : result (list (slice string)) :=
  match mapping server with
  | None => Err ErrServiceUnavailable
  | Some _ =>
    let gids := groupIDs (mapping server) (ConsistentHash.Get (keyMapping server) key) in
    if decide (length gids = 0) then Err ErrServiceUnavailable
    else Query_loop s gids (replicate (length gids) None)
  end.

(** [Join], [Leave] and [Move] have empty bodies. *)
Record Member : Type := { Addr : string; GID : Z; Extras : gomap string }.

Definition ShardMaster_Join (server : shardMasterServer) (_ : Member) : shardMasterServer * error := (server, None).
Definition ShardMaster_Leave (server : shardMasterServer) (_ : Member) : shardMasterServer * error := (server, None).
Definition ShardMaster_Move (server : shardMasterServer) (_ : Z) (_ : Member) : shardMasterServer * error :=
  (server, None).

(** ** Facts *)

Hypothesis range_perm : forall X, range X ≡ₚ elements X.

Lemma elem_of_gidMap mp shardID gid :
  gid ∈ gidMap mp shardID <-> exists g, g ∈ elems mp /\ g !! shardID = Some gid.
Proof.
  unfold gidMap.
  assert (forall l X, gid ∈ foldl (fun (gids : gset Z) (g : gmap Z Z) =>
            match g !! shardID with Some gid => {[gid]} ∪ gids | None => gids end) X l
          <-> gid ∈ X \/ exists g, g ∈ l /\ g !! shardID = Some gid) as H.
  { induction l as [|g l IH]; intros X; cbn [foldl].
    - split; [by left|]. intros [?|(g & Hg%elem_of_nil & _)]; done.
    - rewrite IH. setoid_rewrite elem_of_cons. destruct (g !! shardID) as [gid'|] eqn:E.
      + rewrite elem_of_union, elem_of_singleton. clear IH. split.
        * intros [[->|?]|(g' & ? & ?)]; eauto 10.
        * intros [?|(g' & [->|?] & Hg')]; [tauto| |eauto]. left. left. congruence.
      + clear IH. split.
        * intros [?|(g' & ? & ?)]; eauto 10.
        * intros [?|(g' & [->|?] & Hg')]; [tauto|congruence|eauto]. }
  rewrite H. split.
  - intros [?%elem_of_empty|(g & Hg & E)]; [done|]. exists g. split; [|done].
    apply list_elem_of_In. apply list_elem_of_In in Hg. by apply in_rev.
  - intros (g & Hg & E). right. exists g. split; [|done].
    apply list_elem_of_In. apply list_elem_of_In in Hg. by apply in_rev in Hg.
Qed.

(** All but the first id are 0. *)
Lemma groupIDs_eq mp shardID :
  gidMap mp shardID <> ∅ ->
  exists gid, gid ∈ gidMap mp shardID /\
    groupIDs mp shardID = gid :: replicate (size (gidMap mp shardID) - 1) 0%Z.
Proof.
  intros Hne. unfold groupIDs. set (X := gidMap mp shardID) in *. clearbody X.
  assert (forall l (x : Z) t, foldl (fun gids k => <[0 := k]> gids) (x :: t) l
                        = default x (last l) :: t) as Hf.
  { induction l as [|k l IH]; intros x t; [done|]. cbn [foldl]. change (<[0:=k]> (x :: t)) with (k :: t).
    rewrite IH. rewrite last_cons. by destruct (last l). }
  assert (size X <> 0) as Hs by by rewrite size_empty_iff, leibniz_equiv_iff.
  destruct (size X) as [|n] eqn:En; [done|]. cbn [replicate]. rewrite Hf.
  destruct (last (range X)) as [gid|] eqn:El.
  - exists gid. split; [|f_equal; cbn; by rewrite Nat.sub_0_r].
    apply elem_of_elements. rewrite <-range_perm. by apply last_Some_elem_of.
  - apply last_None in El. pose proof (range_perm X) as Hp. rewrite El in Hp.
    apply Permutation_nil in Hp. unfold size, set_size in En. cbn in En. by rewrite Hp in En.
Qed.

Lemma groupIDs_nil mp shardID : gidMap mp shardID = ∅ -> groupIDs mp shardID = [].
Proof.
  intros He. unfold groupIDs. rewrite He. pose proof (range_perm ∅) as Hp. rewrite elements_empty in Hp.
  symmetry in Hp. apply Permutation_nil in Hp. by rewrite Hp.
Qed.

Lemma Query_loop_eq s gids groups :
  Query_loop s gids groups = ms ← mapM (Query_members s) gids; Ok (groups ++ ms).
Proof.
  revert groups. induction gids as [|gid gids IH]; intros groups; cbn [Query_loop mapM].
  { cbn. by rewrite app_nil_r. }
  destruct (Query_members s gid) as [ms|e]; [|done]. cbn [mbind result_bind]. rewrite IH.
  destruct (mapM (Query_members s) gids) as [mss|e]; [|done]. cbn. by rewrite <-(assoc_L (++)).
Qed.

(** ** Properties *)

(** C39: [Query] is unavailable when no mapping gives the shard of the key a
    group.  Otherwise it looks up the members of one of the groups, then
    those of group 0 for each other one, since the index of [groupIDs] is
    never advanced, and its answer starts with as many nil groups. *)
Theorem Query_spec server s key :
  let gids := gidMap (mapping server) (ConsistentHash.Get (keyMapping server) key) in
  (mapping server = None \/ gids = ∅ -> Query server s key = Err ErrServiceUnavailable) /\
  (mapping server <> None -> gids <> ∅ ->
   exists gid, gid ∈ gids /\
     Query server s key =
     (ms ← mapM (Query_members s) (gid :: replicate (size gids - 1) 0%Z);
      Ok (replicate (size gids) None ++ ms))).
Proof.
  intros gids. unfold Query. split.
  - intros [->|He]; [done|]. destruct (mapping server) as [mp|] eqn:Em; [|done].
    rewrite groupIDs_nil by done. done.
  - intros Hm Hne. destruct (mapping server) as [mp|] eqn:Em; [|done].
    destruct (groupIDs_eq (Some mp) (ConsistentHash.Get (keyMapping server) key) Hne) as (gid & Hg & E).
    exists gid. split; [done|]. rewrite E.
    assert (size gids <> 0) as Hs by by rewrite size_empty_iff, leibniz_equiv_iff.
    fold gids. rewrite decide_False by done. rewrite Query_loop_eq.
    cbn [length]. rewrite length_replicate.
    by replace (S (size gids - 1)) with (size gids) by lia.
Qed.

(** The ring of a server with a positive number of shards gives every
    key a shard id below that number. *)
Theorem shard_in_range s server key :
  (0 < ShardCount cfg)%Z -> NewShardMasterServer s = Ok server ->
  (0 <= ConsistentHash.Get (keyMapping server) key < ShardCount cfg)%Z.
Proof.
  intros Hc Hn.
  assert (keyMapping server = shard_ring (ShardCount cfg)) as ->.
  { revert Hn. unfold NewShardMasterServer. repeat case_match; by intros [= <-]. }
  destruct (Get_added (ShardCount cfg) None
              ((fun i => [Z.of_nat i]) <$> seq 0 (Z.to_nat (ShardCount cfg))) key) as (ks & Hks & Hin).
  - apply (ring_not_empty _ _ 0%Z); [lia|]. destruct (Z.to_nat (ShardCount cfg)) eqn:E; [lia|done].
  - apply list_elem_of_fmap in Hks as (i & -> & Hi). rewrite elem_of_seq in Hi.
    apply list_elem_of_singleton in Hin. unfold shard_ring. rewrite Hin. lia.
Qed.
End shardmaster.

(** ** Witnesses *)

Definition gob_members_id (v : string) : result (slice string) := Ok (Some [v]).

(** Shard [i] was given to group 1, then to group 2. *)
Definition moved_server : shardMasterServer :=
  {| shardCount := 3; keyMapping := shard_ring 3;
     mapping := Some [{[0 := 1; 1 := 1; 2 := 1]}; {[0 := 2; 1 := 2; 2 := 2]}]%Z |}.

Definition group_meta : Mock.Meta :=
  {| Mock.data := {[shardMasterMemberGroupKeyForID 0 := "g0"; shardMasterMemberGroupKeyForID 1 := "g1";
                    shardMasterMemberGroupKeyForID 2 := "g2"]} |}.

Lemma Query_witness :
  exists gid, gid ∈ gidMap (mapping moved_server) (ConsistentHash.Get (keyMapping moved_server) "k") /\
    Query elements gob_members_id moved_server group_meta "k"
    = (ms ← mapM (Query_members gob_members_id group_meta) [gid; 0%Z]; Ok (replicate 2 None ++ ms)).
Proof.
  destruct (Query_spec elements gob_members_id (fun _ => reflexivity _) moved_server group_meta "k")
    as [_ H].
  destruct H as (gid & Hg & E); [discriminate|vm_compute; discriminate|].
  exists gid. split; [exact Hg|].
  replace (size (gidMap (mapping moved_server) (ConsistentHash.Get (keyMapping moved_server) "k")))
    with 2 in E by (vm_compute; reflexivity).
  exact E.
Defined.

Lemma shard_in_range_witness :
  exists server, NewShardMasterServer default_Config (fun _ => Ok None) Mock.DefaultMeta = Ok server /\
    (0 <= ConsistentHash.Get (keyMapping server) "some key" < 10)%Z.
Proof.
  eexists. split; [reflexivity|].
  exact (shard_in_range default_Config (fun _ => Ok None) Mock.DefaultMeta _ "some key"
           ltac:(reflexivity) eq_refl).
Defined.
