(* ===== verification/Race.v ===== *)
(** * The first-answer race of cache/node/node.go and client/kv.go

    Both programs ask all databases at once and take the first answer
    ([Node.tryAllDBFind], [KV.tryAllDBFind]).  The bodies are the same but
    for the query a goroutine makes and the package's error values, which
    are the parameters here: the variables the goroutines share, a step for
    the query of a goroutine and one for its critical section, and the two
    ways the function returns. *)
From S2P Require Import Prelude.

(** What a call leaves: the value handed over, the error, and the
    [setFastDB] goroutines it started. *)
Record fetched : Type := { f_dest : option string; f_err : error; f_fastDB : list string }.

Section race.
Context {W : Type} (query : W -> string -> W * result string).
Context (ErrNotFound ErrExpired : goerror).
Implicit Types (w : W) (dbs : list string).

(** [returned] is the return of the function; [data] the value a sender
    goroutine offers on the channel.  A goroutine queries its database and
    then waits for the lock with the answer: [r_pending] are the databases
    that have not answered yet, [r_waiting] the answers that have not been
    looked at. *)
Record race : Type := {
  r_world : W;
  r_pending : list string;
  r_waiting : list (string * result string);
  completeCount : nat;
  got : bool;
  fastURL : string;
  resErr : error;
  data : option string;
  returned : option fetched;
}.

Definition race_init w dbs : race :=
  {| r_world := w; r_pending := dbs; r_waiting := []; completeCount := 0; got := false;
     fastURL := ""; resErr := None; data := None; returned := None |}.

(** The query of the goroutine of [url], with [rest] left. *)
Definition race_query (r : race) (url : string) (rest : list string) : race :=
  let '(w, res) := query (r_world r) url in
  {| r_world := w; r_pending := rest; r_waiting := r_waiting r ++ [(url, res)];
     completeCount := completeCount r; got := got r; fastURL := fastURL r; resErr := resErr r;
     data := data r; returned := returned r |}.

(** Its critical section, with the answers [rest] still waiting. *)
Definition race_lock dbs (r : race) (url : string) (res : result string)
    (rest : list (string * result string)) : race :=
  let val := match res with Ok b => b | Err _ => "" end in
  let err := result_error res in
  if ((0 <? String.length val) || bool_decide (err = Some ErrNotFound)
      || (completeCount r =? length dbs)) && negb (got r)
  then {| r_world := r_world r; r_pending := r_pending r; r_waiting := rest;
          completeCount := completeCount r; got := true; fastURL := url; resErr := err;
          data := Some val; returned := returned r |}
  else {| r_world := r_world r; r_pending := r_pending r; r_waiting := rest;
          completeCount := completeCount r; got := got r; fastURL := fastURL r; resErr := resErr r;
          data := data r; returned := returned r |}.

(** The return, with what is left on offer: a timeout leaves a sender
    blocked. *)
Definition race_return (r : race) (f : fetched) (offer : option string) : race :=
  {| r_world := r_world r; r_pending := r_pending r; r_waiting := r_waiting r;
     completeCount := completeCount r; got := got r; fastURL := fastURL r; resErr := resErr r;
     data := offer; returned := Some f |}.

Definition timed_out : fetched :=
  {| f_dest := None; f_err := Some ErrExpired; f_fastDB := [""] |}.

Inductive race_step dbs : race -> race -> Prop :=
  | race_step_query r l1 url l2 :
      r_pending r = l1 ++ url :: l2 ->
      race_step dbs r (race_query r url (l1 ++ l2))
  | race_step_lock r l1 url res l2 :
      r_waiting r = l1 ++ (url, res) :: l2 ->
      race_step dbs r (race_lock dbs r url res (l1 ++ l2))
  | race_step_timeout r :
      returned r = None -> race_step dbs r (race_return r timed_out (data r))
  | race_step_receive r value :
      returned r = None -> data r = Some value ->
      race_step dbs r
        (race_return r {| f_dest := Some value; f_err := resErr r;
           f_fastDB := if (0 <? String.length value) || bool_decide (resErr r = Some ErrNotFound)
                       then [fastURL r] else [] |} None).

(** The race over [dbs] may return [f] in the world [w']. *)
Definition race_returns w dbs w' (f : fetched) : Prop :=
  exists r, rtc (race_step dbs) (race_init w dbs) r /\ returned r = Some f /\ r_world r = w'.

(** ** The invariant *)

Hypothesis query_nonempty : forall w url w' b, query w url = (w', Ok b) -> b <> "".

(** [w] is a world queries can make of [w0]. *)
Definition after_queries (w0 w : W) : Prop := rtc (fun a b => exists url, b = (query a url).1) w0 w.

(** [url] gave the answer [res] to a query of the race. *)
Definition replied (w0 : W) dbs (url : string) (res : result string) : Prop :=
  url ∈ dbs /\ exists w w', after_queries w0 w /\ query w url = (w', res).

(** [url] gave the value [val], or said that there is none. *)
Definition answered (w0 : W) dbs (url val : string) (err : error) : Prop :=
  (replied w0 dbs url (Ok val) /\ val <> "" /\ err = None) \/
  (replied w0 dbs url (Err ErrNotFound) /\ val = "" /\ err = Some ErrNotFound).

Definition good_return w0 dbs (f : fetched) : Prop :=
  f = timed_out \/ exists url val err, answered w0 dbs url val err /\
    f = {| f_dest := Some val; f_err := err; f_fastDB := [url] |}.

Record race_inv w0 dbs (r : race) : Prop := {
  ri_world : after_queries w0 (r_world r);
  ri_count : completeCount r = 0;
  ri_pending : forall url, url ∈ r_pending r -> url ∈ dbs;
  ri_waiting : forall url res, (url, res) ∈ r_waiting r -> replied w0 dbs url res;
  ri_empty : got r = false -> data r = None;
  ri_data : forall val, data r = Some val -> answered w0 dbs (fastURL r) val (resErr r);
  ri_returned : forall f, returned r = Some f -> good_return w0 dbs f;
  ri_offer : got r = true -> returned r = None -> is_Some (data r);
}.

(** The answers that decide a race without a winner. *)
Definition wins (res : result string) : bool :=
  match res with Ok _ => true | Err e => bool_decide (e = ErrNotFound) end.

Lemma replied_nonempty w0 dbs url b : replied w0 dbs url (Ok b) -> b <> "".
Proof. intros (_ & w & w' & _ & H). by eapply query_nonempty. Qed.

(** The critical section of an answer that is no empty value: it is taken if
    it decides the race and none was taken before. *)
Lemma race_lock_eq w0 dbs r url res rest :
  completeCount r = 0 -> dbs <> [] -> replied w0 dbs url res ->
  race_lock dbs r url res rest =
  {| r_world := r_world r; r_pending := r_pending r; r_waiting := rest; completeCount := 0;
     got := got r || wins res;
     fastURL := if negb (got r) && wins res then url else fastURL r;
     resErr := if negb (got r) && wins res then result_error res else resErr r;
     data := if negb (got r) && wins res then Some (match res with Ok b => b | Err _ => "" end)
             else data r;
     returned := returned r |}.
Proof.
  intros Hc Hd Hf. unfold race_lock. rewrite Hc.
  assert ((0 =? length dbs) = false) as -> by by destruct dbs. rewrite orb_false_r.
  destruct res as [b|e]; cbn [result_error wins].
  - assert ((0 <? String.length b) = true) as ->.
    { apply Nat.ltb_lt. apply replied_nonempty in Hf. destruct b; [done|cbn; lia]. }
    by destruct (got r).
  - cbn. destruct (decide (e = ErrNotFound)) as [->|Hne].
    + rewrite !bool_decide_eq_true_2 by done. by destruct (got r).
    + rewrite !bool_decide_eq_false_2 by congruence. by destruct (got r).
Qed.

Lemma answered_shown w0 dbs url val err :
  answered w0 dbs url val err ->
  ((0 <? String.length val) || bool_decide (err = Some ErrNotFound)) = true.
Proof.
  intros [(_ & Hv & _)|(_ & _ & ->)]; apply orb_true_intro.
  - left. apply Nat.ltb_lt. destruct val; [done|cbn; lia].
  - right. by apply bool_decide_eq_true_2.
Qed.

Lemma answered_wins w0 dbs url res :
  replied w0 dbs url res -> wins res = true ->
  answered w0 dbs url (match res with Ok b => b | Err _ => "" end) (result_error res).
Proof.
  intros Hr Hw. destruct res as [b|e]; cbn in Hw |- *.
  - left. split_and!; [done|by eapply replied_nonempty|done].
  - apply bool_decide_eq_true in Hw as ->. by right.
Qed.

Lemma race_init_inv w dbs : race_inv w dbs (race_init w dbs).
Proof. split; try done; [apply rtc_refl|]. by intros ? ? ?%elem_of_nil. Qed.

Lemma race_query_inv w0 dbs r l1 url l2 :
  race_inv w0 dbs r -> r_pending r = l1 ++ url :: l2 -> race_inv w0 dbs (race_query r url (l1 ++ l2)).
Proof.
  intros Hi Hp. unfold race_query. destruct (query (r_world r) url) as [w' res] eqn:Hf.
  assert (forall u, u ∈ url :: l1 ++ l2 -> u ∈ dbs) as Hpend.
  { intros u Hu. apply (ri_pending _ _ _ Hi). rewrite Hp. by apply elem_of_middle. }
  destruct Hi. split; cbn; try done.
  - eapply rtc_r; [done|]. exists url. by rewrite Hf.
  - intros u Hu. apply Hpend. by right.
  - intros u x [Hin|Hin]%elem_of_app; [by apply ri_waiting0|].
    apply list_elem_of_singleton in Hin. injection Hin as -> ->. split; [apply Hpend; by left|].
    by exists (r_world r), w'.
Qed.

Lemma race_lock_inv w0 dbs r l1 url res l2 :
  dbs <> [] -> race_inv w0 dbs r -> r_waiting r = l1 ++ (url, res) :: l2 ->
  race_inv w0 dbs (race_lock dbs r url res (l1 ++ l2)).
Proof.
  intros Hd Hi Hp.
  assert (forall u x, (u, x) ∈ (url, res) :: l1 ++ l2 -> replied w0 dbs u x) as Hwait.
  { intros u x Hu. apply (ri_waiting _ _ _ Hi). rewrite Hp. by apply elem_of_middle. }
  assert (replied w0 dbs url res) as Hrep by (apply Hwait; by left).
  rewrite (race_lock_eq w0 dbs r url res (l1 ++ l2) (ri_count _ _ _ Hi) Hd Hrep).
  assert (forall u x, (u, x) ∈ l1 ++ l2 -> replied w0 dbs u x) as Hrest
    by (intros u x Hu; apply Hwait; by right).
  destruct Hi, (got r); cbn [negb andb orb]; [by split|].
  destruct (wins res) eqn:Ew; [|by split]. split; cbn; try done.
  intros val [= <-]. by apply answered_wins.
Qed.

Lemma race_step_inv w0 dbs r r' :
  dbs <> [] -> race_inv w0 dbs r -> race_step dbs r r' -> race_inv w0 dbs r'.
Proof.
  intros Hd Hi Hs. inversion Hs as [? l1 url l2 Hp|? l1 url res l2 Hp|? Hr|? value Hr Hdata]; subst.
  - by apply race_query_inv.
  - by apply race_lock_inv.
  - destruct Hi. split; cbn; try done. intros f [= <-]. by left.
  - pose proof (ri_data _ _ _ Hi _ Hdata) as Ha.
    rewrite (answered_shown _ _ _ _ _ Ha).
    destruct Hi. split; cbn; try done. intros f [= <-]. right.
    by exists (fastURL r), value, (resErr r).
Qed.

Lemma race_reachable_inv dbs w r :
  dbs <> [] -> rtc (race_step dbs) (race_init w dbs) r -> race_inv w dbs r.
Proof.
  intros Hd. revert r. apply rtc_ind_r; [apply race_init_inv|].
  intros r1 r2 _ Hs Hi. by eapply race_step_inv.
Qed.

Lemma race_returns_good w dbs w' f :
  dbs <> [] -> race_returns w dbs w' f -> good_return w dbs f.
Proof.
  intros Hd (r & Hr & Hf & _). by apply (ri_returned _ _ _ (race_reachable_inv dbs w r Hd Hr)).
Qed.

(** *** With steady answers *)

(** Every query of [url] has the outcome [decides url], whether it wins. *)
Variable decides : string -> bool.
Hypothesis steady : forall w url, wins (query w url).2 = decides url.

Lemma replied_decides w0 dbs url res : replied w0 dbs url res -> wins res = decides url.
Proof. intros (_ & w & w' & _ & H). pose proof (steady w url) as Hs. by rewrite H in Hs. Qed.

(** Where a database that decides the race is, and who won. *)
Definition tracked dbs (r : race) : Prop :=
  (forall url, url ∈ dbs -> decides url = true ->
     url ∈ r_pending r \/ url ∈ (r_waiting r).*1 \/ got r = true) /\
  (got r = true -> exists url, url ∈ dbs /\ decides url = true).

Lemma race_step_tracked w0 dbs r r' :
  dbs <> [] -> race_inv w0 dbs r -> tracked dbs r -> race_step dbs r r' -> tracked dbs r'.
Proof.
  intros Hd Hi [H1 H2] Hs.
  inversion Hs as [? l1 url l2 Hp|? l1 url res l2 Hp|? Hr|? value Hr Hdata]; subst; [| |by split..].
  - unfold race_query. destruct (query (r_world r) url) as [w' res].
    split; cbn [r_pending r_waiting got]; [|done]. intros u Hu Hdb. rewrite fmap_app.
    destruct (H1 u Hu Hdb) as [Hpu|[?|?]]; [|right; left; apply elem_of_app; by left|by right; right].
    rewrite Hp in Hpu. apply elem_of_middle, elem_of_cons in Hpu as [->|Hpu]; [|by left].
    right; left. apply elem_of_app. right. by apply list_elem_of_singleton.
  - assert (replied w0 dbs url res) as Hrep.
    { apply (ri_waiting _ _ _ Hi). rewrite Hp. apply elem_of_app. right. by left. }
    rewrite (race_lock_eq w0 dbs r url res (l1 ++ l2) (ri_count _ _ _ Hi) Hd Hrep).
    pose proof (replied_decides _ _ _ _ Hrep) as Hw. rewrite Hw.
    split; cbn [r_pending r_waiting got].
    + intros u Hu Hdb. destruct (H1 u Hu Hdb) as [?|[Hwu|Hg]]; [by left| |by right; right; rewrite Hg].
      rewrite Hp, fmap_app, fmap_cons in Hwu. cbn [fst] in Hwu.
      apply elem_of_middle, elem_of_cons in Hwu as [->|Hwu].
      * right; right. rewrite Hdb. apply orb_true_r.
      * right; left. by rewrite fmap_app.
    + destruct (got r); [intros _; by apply H2|]. cbn. intros Hdb. exists url. by split; [apply Hrep|].
Qed.

Lemma race_reachable_tracked dbs w r :
  dbs <> [] -> rtc (race_step dbs) (race_init w dbs) r -> tracked dbs r.
Proof.
  intros Hd Hr. assert (race_inv w dbs r /\ tracked dbs r) as [_ H]; [|exact H].
  revert r Hr. apply rtc_ind_r.
  { split; [apply race_init_inv|]. split; cbn; [by left|done]. }
  intros r1 r2 _ Hs [Hi Ht]. split; [by eapply race_step_inv|by eapply race_step_tracked].
Qed.

(** When all have answered and the function still waits, a value is on
    offer exactly if one of them decides the race. *)
Lemma race_offer dbs w r :
  dbs <> [] -> rtc (race_step dbs) (race_init w dbs) r -> r_pending r = [] -> r_waiting r = [] ->
  returned r = None ->
  is_Some (data r) <-> Exists (fun url => decides url = true) dbs.
Proof.
  intros Hd Hr Hp Hq Hret. pose proof (race_reachable_inv dbs w r Hd Hr) as Hi.
  destruct (race_reachable_tracked dbs w r Hd Hr) as [H1 H2]. rewrite Exists_exists. split.
  - intros [v Hv]. apply H2. destruct (got r) eqn:E; [done|].
    by rewrite (ri_empty _ _ _ Hi E) in Hv.
  - intros (url & Hin & Hw). destruct (H1 url Hin Hw) as [Hpend|[Hwait|Hg]].
    + rewrite Hp in Hpend. by apply elem_of_nil in Hpend.
    + rewrite Hq in Hwait. by apply elem_of_nil in Hwait.
    + by apply (ri_offer _ _ _ Hi).
Qed.

(** *** The end of a race

    Every step is taken by a goroutine that has two to take, or is the
    return. *)
Definition race_size (r : race) : nat :=
  2 * length (r_pending r) + length (r_waiting r) + match returned r with None => 1 | Some _ => 0 end.

Lemma race_step_decreases dbs r r' : race_step dbs r r' -> race_size r' < race_size r.
Proof.
  intros Hs. inversion Hs as [? l1 url l2 Hp|? l1 url res l2 Hp|? Hr|? value Hr Hdata]; subst;
    unfold race_size; [| |rewrite Hr; cbn; lia..].
  - unfold race_query. destruct (query _ _) as [w' res]. cbn [r_pending r_waiting returned].
    rewrite Hp, !length_app. cbn. lia.
  - assert (forall r0, r_pending r0 = r_pending r -> r_waiting r0 = l1 ++ l2 -> returned r0 = returned r ->
      2 * length (r_pending r0) + length (r_waiting r0) + match returned r0 with None => 1 | Some _ => 0 end
      < 2 * length (r_pending r) + length (r_waiting r) + match returned r with None => 1 | Some _ => 0 end) as H.
    { intros r0 -> -> ->. rewrite Hp, !length_app. cbn. lia. }
    unfold race_lock. by destruct (_ && _); apply H.
Qed.

Lemma race_ended dbs r :
  nf (race_step dbs) r -> r_pending r = [] /\ r_waiting r = [] /\ is_Some (returned r).
Proof.
  intros Hn. split_and!.
  - destruct (r_pending r) as [|url l] eqn:E; [done|]. exfalso. apply Hn. eexists.
    by eapply (race_step_query _ _ []).
  - destruct (r_waiting r) as [|[url res] l] eqn:E; [done|]. exfalso. apply Hn. eexists.
    by eapply (race_step_lock _ _ []).
  - destruct (returned r) eqn:E; [done|]. exfalso. apply Hn. eexists. by apply race_step_timeout.
Qed.

(** Who is left on the channel: the sender of a race that timed out. *)
Record sender_inv (r : race) : Prop := {
  se_empty : got r = false -> data r = None;
  se_offer : returned r = None -> got r = true -> is_Some (data r);
  se_returned : forall f, returned r = Some f ->
    (f = timed_out \/ (f_dest f <> None /\ got r = true)) /\
    (is_Some (data r) <-> f = timed_out /\ got r = true);
}.

Lemma race_lock_sender dbs r url res rest : sender_inv r -> sender_inv (race_lock dbs r url res rest).
Proof.
  intros [H1 H2 H3]. unfold race_lock. destruct (got r) eqn:E; rewrite ?andb_false_r, ?andb_true_r;
    [by split; cbn; auto|].
  destruct (_ || _); split; cbn; auto; try done.
  intros f Hf. destruct (H3 f Hf) as [[->|[_ ?]] _]; [|done].
  split; [by left|]. by split; [|by eexists].
Qed.

Lemma race_step_sender dbs r r' : sender_inv r -> race_step dbs r r' -> sender_inv r'.
Proof.
  intros Hi Hs. inversion Hs as [? l1 url l2 Hp|? l1 url res l2 Hp|? Hr|? value Hr Hdata]; subst.
  - destruct Hi. unfold race_query. by destruct (query _ _).
  - by apply race_lock_sender.
  - destruct Hi as [H1 H2 H3]. split; cbn; [done|done|]. intros f [= <-].
    split; [by left|]. split; [|intros [_ ?]; by apply H2].
    intros [v Hv]. split; [done|]. destruct (got r); [done|]. by rewrite H1 in Hv.
  - destruct Hi as [H1 H2 H3]. assert (got r = true) as Hg.
    { destruct (got r); [done|]. by rewrite H1 in Hdata. }
    split; cbn; [by rewrite Hg|done|]. intros f [= <-]. split; [by right|].
    split; [by intros [? ?]|]. by intros [? _].
Qed.

(** A race ends, the function has then returned, and a sender is blocked for
    ever exactly if it returned for the timeout although a database
    decides the race. *)
Lemma race_ends dbs w :
  dbs <> [] ->
  sn (race_step dbs) (race_init w dbs) /\
  (forall r, rtc (race_step dbs) (race_init w dbs) r -> nf (race_step dbs) r ->
     exists f, returned r = Some f /\
       (is_Some (data r) <-> f = timed_out /\ Exists (fun url => decides url = true) dbs)).
Proof.
  intros Hd. split; [apply (measure_sn _ race_size), race_step_decreases|]. intros r Hr Hn.
  destruct (race_ended dbs r Hn) as (Hp & Hq & [f Hf]). exists f. split; [done|].
  assert (sender_inv r) as Hi.
  { clear Hn Hp Hq Hf. revert r Hr. apply rtc_ind_r; [by split|]. intros r1 r2 _ Hs Hi.
    by eapply race_step_sender. }
  destruct (se_returned _ Hi f Hf) as [_ ->]. destruct (race_reachable_tracked dbs w r Hd Hr) as [H1 H2].
  rewrite Exists_exists. split; intros [-> H]; (split; [done|]).
  - destruct (H2 H) as (url & ? & ?). by exists url.
  - destruct H as (url & Hin & Hdec). destruct (H1 url Hin Hdec) as [H|[H|H]]; [| |done].
    + rewrite Hp in H. by apply elem_of_nil in H.
    + rewrite Hq in H. by apply elem_of_nil in H.
Qed.

(** When none decides it, only the timeout is left. *)
Lemma race_all_failing w dbs w' f :
  dbs <> [] -> (forall url, url ∈ dbs -> decides url = false) -> race_returns w dbs w' f ->
  f = timed_out.
Proof.
  intros Hd Hno Hf.
  destruct (race_returns_good w dbs w' f Hd Hf) as [->|(url & val & err & Ha & _)]; [done|].
  exfalso. destruct Ha as [[Hrep _]|[Hrep _]]; pose proof (replied_decides _ _ _ _ Hrep) as Hw;
    destruct Hrep as [Hin _]; rewrite (Hno url Hin) in Hw; cbn in Hw; [done|].
  by rewrite bool_decide_eq_true_2 in Hw.
Qed.
End race.
