(* ===== verification/CacheNode.v ===== *)
(** * cache/node: a cache node (node.go)

    Joining the master and taking its posts, and the way a missing key is
    fetched: the fast database first, then all databases at once, whose
    goroutines race with each other and with the timeout.  The cache itself
    (groupcache) is a parameter. *)
From S2P Require Import Prelude Utf8 Json JsonTypes UrlUtil Http WebSocket MetaKV Config DBMaster CacheMaster Race.
From Stdlib Require Import Ascii.

Definition ErrDataNotFound : goerror := Sentinel "cache/node.ErrDataNotFound".
Definition ErrDatabaseQueryTimeout : goerror := Sentinel "cache/node.ErrDatabaseQueryTimeout".

(** [masterParam] has the fields and tags of the master's [PeerParam]. *)
Fixpoint dec_masterParam_members (p : PeerParam) (l : list (string * json)) : result PeerParam :=
  match l with
  | [] => Ok p
  | (k, v) :: l =>
    match find_field ["peers"; "dbs"] k with
    | Some 0 => s ← dec_strings v; dec_masterParam_members {| Peers := s; DBs := DBs p |} l
    | Some _ => s ← dec_strings v; dec_masterParam_members {| Peers := Peers p; DBs := s |} l
    | None => dec_masterParam_members p l
    end
  end.

Definition dec_masterParam (j : json) : result PeerParam :=
  let p := {| Peers := None; DBs := None |} in
  match j with
  | JObj l => dec_masterParam_members p l
  | JNull => Ok p
  | _ => Err (Fresh "json: cannot unmarshal into Go value of type node.masterParam")
  end.

(** The state of a node; [pool] is the peer list last given to the groupcache
    pool. *)
Record Node : Type := {
  node_dbs : slice string;
  fastDB : string;
  peers : slice string;
  masterAddr : string;
  httpAddr : string;
  nodeAddr : string;
  pool : list string;
}.

Definition CacheNode_New (httpAddr nodeAddr masterAddr : string) : Node :=
  {| node_dbs := None; fastDB := ""; peers := None; masterAddr := TrimSuffix masterAddr "/";
     httpAddr := httpAddr; nodeAddr := nodeAddr; pool := [] |}.

(** The update under the lock: the pool, the peers and the databases. *)
Definition set_meta (node : Node) (ps dbs : slice string) : Node :=
  {| node_dbs := dbs; fastDB := fastDB node; peers := ps; masterAddr := masterAddr node;
     httpAddr := httpAddr node; nodeAddr := nodeAddr node; pool := elems ps |}.

Definition setFastDB (node : Node) (db : string) : Node :=
  {| node_dbs := node_dbs node; fastDB := db; peers := peers node; masterAddr := masterAddr node;
     httpAddr := httpAddr node; nodeAddr := nodeAddr node; pool := pool node |}.

(** [mock.RPCClient] (utils/mock/rpccaller.go) at the argument and reply types
    of the one call made: the service method, the arguments, and the reply
    that is filled in.  A function is a client. *)
Class RPCClient (W C : Type) : Type := {
  Call : C -> W -> string -> JoinParam -> W * result PeerParam;
}.

Definition RPCClientFunc (W : Type) : Type := W -> string -> JoinParam -> W * result PeerParam.

#[export] Instance RPCClientFunc_client {W} : RPCClient W (RPCClientFunc W) := { Call := fun f => f }.

Definition join {W C} `{!RPCClient W C} (client : C) (w : W) (node : Node) : W * Node * error :=
  match Call client w "Master.JoinNode" {| HTTPAddr := httpAddr node; NodeAddr := nodeAddr node |} with
  | (w, Err _) => (w, node, Some (Fresh "fail call Master.JoinNode"))
  | (w, Ok reply) => (w, set_meta node (Peers reply) (DBs reply), None)
  end.

(** [err.Error()] of a decoding error (the decoder's texts are abridged). *)
Definition err_Error (err : goerror) : string :=
  match err with Fresh msg => msg | Sentinel var => var end.

Definition handleMeta (node : Node) (body : string) : Node * Response :=
  match BindJSON dec_masterParam body new_writer with
  | (Err err, w) =>
    (node, sent_response
             (ctx_JSON StatusBadRequest (print_json (JObj [("error", JStr (err_Error err))])) w))
  | (Ok params, w) =>
    let ps := sort_strings <$> Peers params in
    let dbs := sort_strings <$> DBs params in
    if decide (peers node = ps /\ node_dbs node = dbs)
    then (node, sent_response (ctx_JSON StatusOK_http "null" w))
    else (set_meta node ps dbs, sent_response (ctx_JSON StatusOK_http "null" w))
  end.

(** The answer to [GET /key/:key] for what [group.Get] returned. *)
Definition handleGetKey (r : result string) : Response :=
  match r with
  | Err e =>
    if e ==e ErrDataNotFound then sent_response (ctx_JSON StatusNotFound "null" new_writer)
    else sent_response (ctx_JSON StatusInternalServerError "null" new_writer)
  | Ok view => sent_response (writer_Write view (WriteHeader StatusOK_http new_writer))
  end.

(** ** Fetching from the databases *)

Section fetch.
Context {W : Type} (httpGetter : HTTPGetter W).
Implicit Types (w : W) (node : Node).

Definition find w (key url : string) : W * result string :=
  let url := MakeURL url +:+ "/i/key/" +:+ key in
  match httpGetter w url with
  | (w, Err e) => (w, Err e)
  | (w, Ok resp) =>
    if (StatusCode resp =? StatusNotFound)%Z then (w, Err ErrDataNotFound)
    else if (StatusCode resp =? StatusOK_http)%Z then
      if decide (String.length (Body resp) = 0) then (w, Err (Fresh "database error, lost data of key"))
      else (w, Ok (Body resp))
    else (w, Err (Fresh "failed to fetch data"))
  end.

(** [tryAllDBFind] may return [f] in the world [w']. *)
Inductive tryAllDBFind node w (key : string) : W -> fetched -> Prop :=
  | tryAllDBFind_none :
      elems (node_dbs node) = [] ->
      tryAllDBFind node w key w
        {| f_dest := None; f_err := Some (Fresh "databases are not available"); f_fastDB := [] |}
  | tryAllDBFind_race w' f :
      elems (node_dbs node) <> [] ->
      race_returns (fun w => find w key) ErrDataNotFound ErrDatabaseQueryTimeout w
        (elems (node_dbs node)) w' f ->
      tryAllDBFind node w key w' f.

(** The field [fastDB] is read twice without the lock, once to test it and
    again to use it: [fast] is what the second read gives, another value if a
    goroutine of an earlier fetch has set or reset the field in between. *)
Inductive fetchData node (fast : string) w (key : string) : W -> fetched -> Prop :=
  | fetchData_slow w' f :
      fastDB node = "" -> tryAllDBFind node w key w' f -> fetchData node fast w key w' f
  | fetchData_not_found w' :
      fastDB node <> "" -> find w key fast = (w', Err ErrDataNotFound) ->
      fetchData node fast w key w' {| f_dest := None; f_err := Some ErrDataNotFound; f_fastDB := [] |}
  | fetchData_fallback w1 e w' f :
      fastDB node <> "" -> find w key fast = (w1, Err e) -> e <> ErrDataNotFound ->
      tryAllDBFind node w1 key w' f ->
      fetchData node fast w key w' {| f_dest := f_dest f; f_err := f_err f; f_fastDB := "" :: f_fastDB f |}
  | fetchData_fast w' b :
      fastDB node <> "" -> find w key fast = (w', Ok b) ->
      fetchData node fast w key w' {| f_dest := Some b; f_err := None; f_fastDB := [] |}.
End fetch.

(** ** groupcache *)

(** The local cache of a group: what it holds and how it is filled.  An
    entry may be evicted at any time. *)
Class GroupCache (C : Type) : Type := {
  gc_lookup : C -> string -> option string;
  gc_populate : C -> string -> string -> C;
}.

Class GroupCacheLaws (C : Type) `{!GroupCache C} : Prop := {
  gc_populate_law : forall c k v k' v',
    gc_lookup (gc_populate c k v) k' = Some v' -> (k' = k /\ v' = v) \/ gc_lookup c k' = Some v';
}.

(** [group.Get] for a key this node owns: from the cache, else from the
    getter, whose value is then cached.  [fast] is what [fetchData] reads of
    [fastDB] the second time. *)
Inductive group_Get {W C} `{!GroupCache C} (httpGetter : HTTPGetter W) (node : Node) (fast : string)
    (c : C) (w : W) (key : string) : C -> W -> result string -> Prop :=
  | group_Get_hit v :
      gc_lookup c key = Some v -> group_Get httpGetter node fast c w key c w (Ok v)
  | group_Get_load w' f v :
      gc_lookup c key = None -> fetchData httpGetter node fast w key w' f -> f_err f = None ->
      f_dest f = Some v ->
      group_Get httpGetter node fast c w key (gc_populate c key v) w' (Ok v)
  | group_Get_error w' f e :
      gc_lookup c key = None -> fetchData httpGetter node fast w key w' f -> f_err f = Some e ->
      group_Get httpGetter node fast c w key c w' (Err e).

#[global] Instance map_cache : GroupCache (gmap string string) := {
  gc_lookup := fun c k => c !! k;
  gc_populate := fun c k v => <[k := v]> c;
}.

#[global] Instance map_cache_laws : GroupCacheLaws (gmap string string).
Proof.
  split. intros c k v k' v' H. cbn in H. apply lookup_insert_Some in H as [[<- <-]|[_ H]]; [by left|by right].
Qed.

Definition basePath : string := "/oncekv/".
Definition defaultGroup : string := "kv".

(** The path under which a node asks the owner of a key for it (groupcache's
    [httpGetter.Get]). *)
Definition peer_path (key : string) : string := basePath +:+ QueryEscape defaultGroup +:+ "/" +:+ QueryEscape key.

(** The key the groupcache server of the owner reads from it
    ([HTTPPool.ServeHTTP]). *)
Definition peer_key (key : string) : option string :=
  path ← url_path (peer_path key);
  let prefix := String.length (basePath +:+ defaultGroup +:+ "/") in
  Some (String.substring prefix (String.length path - prefix) path).

(** ** The server of a node

    [newServer]: the requests it takes and what becomes of the node, its
    cache and the world; [stats] is the JSON of [group.Stats].  The
    goroutines that set the fast database after a fetch run by
    themselves. *)
Inductive node_request : Type :=
  | NodePostMeta (body : string)
  | NodeGetStats
  | NodeGetKey (key : string).

Inductive node_serve {W C} `{!GroupCache C} (httpGetter : HTTPGetter W) (stats : string)
    (node : Node) (fast : string) (c : C) (w : W) : node_request -> Node -> C -> W -> Response -> Prop :=
  | node_serve_meta body :
      node_serve httpGetter stats node fast c w (NodePostMeta body)
        (handleMeta node body).1 c w (handleMeta node body).2
  | node_serve_stats :
      node_serve httpGetter stats node fast c w NodeGetStats node c w
        (sent_response (ctx_JSON StatusOK_http stats new_writer))
  | node_serve_key key c' w' r :
      group_Get httpGetter node fast c w key c' w' r ->
      node_serve httpGetter stats node fast c w (NodeGetKey key) node c' w' (handleGetKey r).

(** gin's choice of the handler of a GET path, but the websocket. *)
Definition node_route_GET (path : string) : option node_request :=
  if decide (path = "/stats") then Some NodeGetStats
  else if HasPrefix path "/key/" then
    let key := String.substring 5 (String.length path - 5) path in
    if decide (key = "" \/ "/"%char ∈ String.list_ascii_of_string key) then None
    else Some (NodeGetKey key)
  else None.

(** [/ws/stats]: the upgrade and a turn of its loop. *)
Definition handleStatsWebSocket : (goerror -> string) -> upgrade -> Response + stream := upgrade_stats.
Definition node_stats_tick : result string -> bool -> stream -> stream := stats_tick.

(** The RPC client [New] stores: a failed dial is logged and leaves the nil
    pointer. *)
Definition New_masterRPCClient {C} (dial : result C) : option C :=
  match dial with Ok client => Some client | Err _ => None end.

(** [Start] up to the servers it runs: the error it exits with.  A call on
    the nil client is a nil pointer dereference. *)
Definition Node_Start {W C} `{!RPCClient W C} (client : option C) (w : W) (node : Node)
    : outcome (W * Node * error) :=
  match client with
  | None => Panic "nil pointer dereference"
  | Some client => Ret (join client w node)
  end.

(** ** Facts about fetching *)

Abbreviation good g w0 dbs key :=
  (good_return (fun w => find g w key) ErrDataNotFound ErrDatabaseQueryTimeout w0 dbs).

Section fetch_facts.
Context {W : Type} (httpGetter : HTTPGetter W).

Lemma find_nonempty key w url w' b : find httpGetter w key url = (w', Ok b) -> b <> "".
Proof.
  unfold find. destruct (httpGetter w _) as [w1 [resp|e]]; [|done].
  destruct (_ =? _)%Z; [done|]. destruct (_ =? _)%Z; [|done].
  destruct (decide (String.length (Body resp) = 0)) as [|Hl]; [done|]. intros [= _ <-] E.
  by rewrite E in Hl.
Qed.

Lemma tryAllDBFind_good node w key w' f :
  elems (node_dbs node) <> [] -> tryAllDBFind httpGetter node w key w' f ->
  good httpGetter w (elems (node_dbs node)) key f.
Proof.
  intros Hd Ht. inversion Ht as [He|? ? _ Hr]; subst; [done|].
  eapply race_returns_good; [apply find_nonempty|done|done].
Qed.

(** The databases answer every query of a URL alike. *)
Definition steady_getter (ans : string -> result Response) : Prop :=
  forall w url, (httpGetter w url).2 = ans url.

Definition db_wins (ans : string -> result Response) (key url : string) : bool :=
  match ans (MakeURL url +:+ "/i/key/" +:+ key) with
  | Err e => bool_decide (e = ErrDataNotFound)
  | Ok resp =>
    (StatusCode resp =? StatusNotFound)%Z ||
    ((StatusCode resp =? StatusOK_http)%Z && negb (String.length (Body resp) =? 0))
  end.

Lemma find_wins ans key :
  steady_getter ans ->
  forall w url, wins ErrDataNotFound (find httpGetter w key url).2 = db_wins ans key url.
Proof.
  intros Ha w url. unfold find, db_wins. rewrite <-(Ha w).
  destruct (httpGetter w _) as [w1 [resp|e]]; [|done].
  cbn [snd]. destruct (StatusCode resp =? StatusNotFound)%Z; [done|].
  destruct (StatusCode resp =? StatusOK_http)%Z; [|done].
  destruct (decide (String.length (Body resp) = 0)) as [->|Hl]; [done|].
  apply Nat.eqb_neq in Hl. by rewrite Hl.
Qed.
End fetch_facts.

(** ** Facts about the master's posts *)

Lemma dec_marshal_PeerParam p :
  json_decode dec_masterParam (marshal_PeerParam p)
  = Ok {| Peers := sanitize_slice (Peers p); DBs := sanitize_slice (DBs p) |}.
Proof.
  unfold marshal_PeerParam. rewrite json_decode_print.
  - pose proof (dec_enc_strings (Peers p)) as H1. pose proof (dec_enc_strings (DBs p)) as H2.
    cbn [sanitize_json] in *. rewrite !fmap_cons. cbn [fmap list_fmap].
    change (sanitize "peers") with "peers". change (sanitize "dbs") with "dbs".
    unfold dec_masterParam. cbn [dec_masterParam_members find_field]. rewrite H1.
    cbn [mbind result_bind]. cbn [dec_masterParam_members find_field]. rewrite H2. done.
  - cbn. by rewrite !textual_strings.
Qed.

Definition valid_slice (l : slice string) : Prop := valid_list (elems l).

Lemma sanitize_slice_id l : valid_slice l -> sanitize_slice l = l.
Proof. destruct l as [l|]; [|done]. intros H. cbn. by rewrite sanitize_list_id. Qed.

Lemma handleMeta_eq node p :
  valid_slice (Peers p) -> valid_slice (DBs p) ->
  handleMeta node (marshal_PeerParam p) =
  (let ps := sort_strings <$> Peers p in let dbs := sort_strings <$> DBs p in
   if decide (peers node = ps /\ node_dbs node = dbs) then node else set_meta node ps dbs,
   {| StatusCode := 200; Body := "null" |}).
Proof.
  intros H1 H2. unfold handleMeta, BindJSON. rewrite dec_marshal_PeerParam, !sanitize_slice_id by done.
  cbn [Peers DBs]. by destruct (decide _).
Qed.

(** ** Properties *)

Section properties.
Context {W : Type} (httpGetter : HTTPGetter W).
Implicit Types (node : Node) (w : W).

Definition db_url (url key : string) : string := MakeURL url +:+ "/i/key/" +:+ key.

Lemma find_Ok w key url w' b :
  find httpGetter w key url = (w', Ok b) ->
  httpGetter w (db_url url key) = (w', Ok {| StatusCode := 200; Body := b |}).
Proof.
  unfold find, db_url. destruct (httpGetter w _) as [w1 [[c body]|e]]; [|done]. cbn [StatusCode Body].
  destruct (c =? StatusNotFound)%Z; [done|]. destruct (Z.eqb_spec c StatusOK_http) as [->|]; [|done].
  destruct (decide _); [done|]. by intros [= <- <-].
Qed.

(** [w'] is a world GET requests can make of [w]. *)
Definition after_gets w w' : Prop := rtc (fun a b => exists url, b = (httpGetter a url).1) w w'.

Lemma find_after_gets w key url : after_gets w (find httpGetter w key url).1.
Proof.
  apply rtc_once. exists (db_url url key). unfold find, db_url.
  destruct (httpGetter w _) as [w1 [resp|e]]; [|done].
  destruct (_ =? _)%Z; [done|]. destruct (_ =? _)%Z; [|done]. by destruct (decide _).
Qed.

Lemma after_queries_gets w key w' :
  after_queries (fun w => find httpGetter w key) w w' -> after_gets w w'.
Proof.
  induction 1 as [|w1 w2 w3 [url ->] _ IH]; [apply rtc_refl|].
  eapply rtc_trans; [apply find_after_gets|exact IH].
Qed.

(** What a fetch may say. *)
Definition sound_fetch node (fast : string) w (key : string) (f : fetched) : Prop :=
  match f_err f with
  | None => exists b url w1 w2, f_dest f = Some b /\ b <> "" /\
      url ∈ fast :: elems (node_dbs node) /\ after_gets w w1 /\
      httpGetter w1 (db_url url key) = (w2, Ok {| StatusCode := 200; Body := b |})
  | Some e => e = ErrDatabaseQueryTimeout \/
      (e = ErrDataNotFound /\ exists url w1 w2, url ∈ fast :: elems (node_dbs node) /\
       after_gets w w1 /\ find httpGetter w1 key url = (w2, Err ErrDataNotFound))
  end.

Lemma good_sound node fast w0 w key f :
  after_gets w0 w -> good httpGetter w (elems (node_dbs node)) key f -> sound_fetch node fast w0 key f.
Proof.
  intros Hw [->|(url & val & err & Ha & ->)]; [by left|]. unfold sound_fetch. cbn [f_err f_dest].
  destruct Ha as [([Hin (w1 & w2 & Hw1%after_queries_gets & Hfind)] & Hne & ->)
                 |([Hin (w1 & w2 & Hw1%after_queries_gets & Hfind)] & _ & ->)].
  - exists val, url, w1, w2.
    split_and!; [done|done|by right|by eapply rtc_trans|by apply find_Ok].
  - right. split; [done|]. exists url, w1, w2. split_and!; [by right|by eapply rtc_trans|done].
Qed.

Lemma fetchData_sound_fetch node fast w key w' f :
  elems (node_dbs node) <> [] -> fetchData httpGetter node fast w key w' f -> sound_fetch node fast w key f.
Proof.
  intros Hd Hf.
  inversion Hf as [? ? _ Ht|? _ Hfast|w1 ? ? f0 _ Hfast _ Ht|? b _ Hfast]; subst.
  - eapply good_sound; [apply rtc_refl|by eapply tryAllDBFind_good].
  - right. split; [done|]. exists fast, w, w'. split_and!; [by left|apply rtc_refl|done].
  - pose proof (find_after_gets w key fast) as Hw. rewrite Hfast in Hw.
    exact (good_sound node fast w w1 key f0 Hw (tryAllDBFind_good _ _ _ _ _ _ Hd Ht)).
  - exists b, fast, w, w'.
    split_and!; [done|by eapply find_nonempty|by left|apply rtc_refl|by apply find_Ok].
Qed.

(** A fetch that succeeds has been given the value, whatever it knows. *)
Lemma fetchData_told node fast w key w' f :
  fetchData httpGetter node fast w key w' f -> f_err f = None ->
  exists b url w1 w2, f_dest f = Some b /\ b <> "" /\ after_gets w w1 /\
    httpGetter w1 (db_url url key) = (w2, Ok {| StatusCode := 200; Body := b |}).
Proof.
  intros Hf He. destruct (decide (elems (node_dbs node) = [])) as [Hd|Hd].
  - inversion Hf as [? ? _ Ht|? _ Hfast|w1 ? ? f0 _ Hfast _ Ht|? b _ Hfast]; subst; try done;
      try (inversion Ht as [|]; subst; done).
    exists b, fast, w, w'. split_and!; [done|by eapply find_nonempty|apply rtc_refl|by apply find_Ok].
  - pose proof (fetchData_sound_fetch node fast w key w' f Hd Hf) as Hs. unfold sound_fetch in Hs.
    rewrite He in Hs. destruct Hs as (b & url & w1 & w2 & H1 & H2 & _ & H3 & H4). by exists b, url, w1, w2.
Qed.

(** C17: a fetch succeeds only with the non-empty body of a 200 answer that
    some database, the fast one (as it is read the second time) or one of the
    list, gave for the key during the fetch; it says that the data is not
    found only when a database did; and with databases known it fails
    otherwise only by the timeout. *)
Theorem fetchData_sound node fast w key w' f :
  elems (node_dbs node) <> [] -> fetchData httpGetter node fast w key w' f ->
  match f_err f with
  | None => exists b url w1 w2, f_dest f = Some b /\ b <> "" /\
      url ∈ fast :: elems (node_dbs node) /\ after_gets w w1 /\
      httpGetter w1 (db_url url key) = (w2, Ok {| StatusCode := 200; Body := b |})
  | Some e => e = ErrDatabaseQueryTimeout \/
      (e = ErrDataNotFound /\ exists url w1 w2, url ∈ fast :: elems (node_dbs node) /\
       after_gets w w1 /\ find httpGetter w1 key url = (w2, Err ErrDataNotFound))
  end.
Proof. intros Hd Hf. exact (fetchData_sound_fetch node fast w key w' f Hd Hf). Qed.

(** What [GET /key/:key] answers: 200 with what the cache held or a database
    gave, 404 exactly when a database said that it has no such key during
    the fetch, and 500 after a timeout. *)
Theorem node_get_answers {C} `{!GroupCache C, !GroupCacheLaws C} stats node fast (c c' : C) w w' key node' resp :
  elems (node_dbs node) <> [] ->
  node_serve httpGetter stats node fast c w (NodeGetKey key) node' c' w' resp ->
  node' = node /\
  ((StatusCode resp = 200%Z /\
    (gc_lookup c key = Some (Body resp) \/
     exists url w1 w2, url ∈ fast :: elems (node_dbs node) /\ after_gets w w1 /\
       httpGetter w1 (db_url url key) = (w2, Ok {| StatusCode := 200; Body := Body resp |}))) \/
   (StatusCode resp = 404%Z /\ gc_lookup c key = None /\
    exists url w1 w2, url ∈ fast :: elems (node_dbs node) /\ after_gets w w1 /\
      find httpGetter w1 key url = (w2, Err ErrDataNotFound)) \/
   (StatusCode resp = 500%Z /\ gc_lookup c key = None)).
Proof.
  intros Hd Hs. inversion Hs as [| |? ? ? r Hg]; subst. split; [done|].
  inversion Hg as [v Hv|? f v Hn Hf He Hv|? f e Hn Hf He]; subst.
  - left. split; [done|]. by left.
  - left. split; [done|]. right. pose proof (fetchData_sound_fetch _ _ _ _ _ _ Hd Hf) as H.
    unfold sound_fetch in H. rewrite He in H. destruct H as (b & url & w1 & w2 & E & _ & H).
    rewrite E in Hv. injection Hv as ->. by exists url, w1, w2.
  - right. pose proof (fetchData_sound_fetch _ _ _ _ _ _ Hd Hf) as H. unfold sound_fetch in H. rewrite He in H.
    destruct H as [->|[-> (url & w1 & w2 & H)]]; [by right|left].
    split_and!; [done|done|]. by exists url, w1, w2.
Qed.

(** When all goroutines of a race have answered and the function still
    waits, it is offered a value exactly if some database has the key or
    says that it has not; so if every database fails, and only then, the
    function waits for the timeout, although the answers are all in. *)
Theorem race_verdict ans dbs w key r :
  steady_getter httpGetter ans -> dbs <> [] ->
  rtc (race_step (fun w => find httpGetter w key) ErrDataNotFound ErrDatabaseQueryTimeout dbs)
      (race_init w dbs) r ->
  r_pending r = [] -> r_waiting r = [] -> returned r = None ->
  is_Some (data r) <-> Exists (fun url => db_wins ans key url = true) dbs.
Proof.
  intros Ha Hd Hr Hp Hq Hret.
  eapply race_offer; [apply find_nonempty|by apply find_wins|done..].
Qed.

(** C18: a fetch race ends, in every interleaving of answers, critical sections
    and the timeout, and the function has then returned; a goroutine is left
    blocked on the channel for ever exactly if the function returned for the
    timeout although some database has the key or denies it. *)
Theorem fetch_race_ends ans dbs w key :
  steady_getter httpGetter ans -> dbs <> [] ->
  let step := race_step (fun w => find httpGetter w key) ErrDataNotFound ErrDatabaseQueryTimeout dbs in
  sn step (race_init w dbs) /\
  (forall r, rtc step (race_init w dbs) r -> nf step r ->
     exists f, returned r = Some f /\
       (is_Some (data r) <-> f = timed_out ErrDatabaseQueryTimeout /\
                             Exists (fun url => db_wins ans key url = true) dbs)).
Proof.
  intros Ha Hd. cbv zeta. apply race_ends; [apply find_nonempty|by apply find_wins|done].
Qed.

(** When no database answers with the value or with 404, a node without
    a fast database can only return the timeout error. *)
Theorem all_failing_is_timeout ans node fast w key w' f :
  steady_getter httpGetter ans -> elems (node_dbs node) <> [] -> fastDB node = "" ->
  (forall url, url ∈ elems (node_dbs node) -> db_wins ans key url = false) ->
  fetchData httpGetter node fast w key w' f ->
  f = {| f_dest := None; f_err := Some ErrDatabaseQueryTimeout; f_fastDB := [""] |}.
Proof.
  intros Ha Hd Hfast Hno Hf. inversion Hf as [? ? _ Ht| | |]; subst; try congruence.
  inversion Ht as [?|? ? _ Hr]; subst; [done|].
  eapply race_all_failing; [apply find_nonempty|by apply find_wins|done..].
Qed.
End properties.

(** A post of the master with valid strings is answered 200 and leaves
    the node with the posted peers and databases, sorted, its pool holding
    the peers; the same post again changes nothing; a body that does not
    parse is answered 400 without an effect. *)
Theorem handleMeta_spec node p :
  valid_slice (Peers p) -> valid_slice (DBs p) -> pool node = elems (peers node) ->
  exists node', handleMeta node (marshal_PeerParam p) = (node', {| StatusCode := 200; Body := "null" |}) /\
    peers node' = sort_strings <$> Peers p /\ node_dbs node' = sort_strings <$> DBs p /\
    pool node' = elems (peers node') /\ fastDB node' = fastDB node /\
    (handleMeta node' (marshal_PeerParam p)).1 = node' /\
    (forall body e, json_decode dec_masterParam body = Err e ->
       (handleMeta node body).1 = node /\ StatusCode (handleMeta node body).2 = 400%Z).
Proof.
  intros H1 H2 Hp. rewrite handleMeta_eq by done. eexists. split; [done|]. cbv zeta.
  set (node' := if decide _ then _ else _).
  assert (peers node' = sort_strings <$> Peers p /\ node_dbs node' = sort_strings <$> DBs p /\
          pool node' = elems (peers node') /\ fastDB node' = fastDB node) as (E1 & E2 & E3 & E4).
  { subst node'. destruct (decide _) as [[Ha Hb]|_]; by split_and!. }
  split_and!; try done.
  - rewrite handleMeta_eq by done. cbn [fst]. by rewrite decide_True.
  - intros body e He. unfold handleMeta, BindJSON. rewrite He. split; [done|].
    cbn [snd]. by apply ctx_JSON_sent.
Qed.

(** A master that replies [reply]. *)
Definition reply_client (reply : PeerParam) : RPCClientFunc unit := fun w _ _ => (w, Ok reply).

(** The reply to a join holds the HTTP addresses of the nodes, which the
    new node gives to its groupcache pool; the post of the next heartbeat
    holds their node addresses, which then replace them. *)
Theorem join_then_heartbeat {M} `{!MetaOps M, !MetaLaws M} cfg (m m' : Master) (s s' : M) g node reply nodes :
  writable (M := M) -> nodesMap m = Some g ->
  httpAddr node <> "" -> nodeAddr node <> "" ->
  JoinNode cfg m s (Some {| HTTPAddr := httpAddr node; NodeAddr := nodeAddr node |})
    = Ret (m', s', Ok reply) ->
  (MakeURL (httpAddr node), nodes) ∈ heartbeat m' ->
  valid_list nodes -> valid_slice (dbs m') ->
  let node1 := (join (reply_client reply) () node).1.2 in
  let node2 := (handleMeta node1 (marshal_PeerParam {| Peers := Some nodes; DBs := dbs m' |})).1 in
  pool node1 = httpAddrs (nodesMap m') /\ pool node2 = nodeAddrs (nodesMap m').
Proof.
  intros Hw Hg H1 H2 Hj Hin Hv1 Hv2. cbv zeta.
  rewrite (JoinNode_eq cfg m s g _ Hw Hg) in Hj by done. injection Hj as <- _ <-.
  unfold heartbeat in Hin. apply list_elem_of_fmap in Hin as (k & [= <- ->] & _).
  split; [done|]. rewrite handleMeta_eq by done. cbn [fst Peers DBs].
  destruct (decide _) as [[Ha _]|_].
  - change (Some (httpAddrs (nodesMap (with_nodesMap m (Some (<[MakeURL (httpAddr node):=
      MakeURL (nodeAddr node)]> g))))) = Some (sort_strings (nodeAddrs (nodesMap (with_nodesMap m
      (Some (<[MakeURL (httpAddr node):=MakeURL (nodeAddr node)]> g))))))) in Ha.
    injection Ha as Ha. cbn [join fst snd set_meta pool Peers elems default HTTPAddr NodeAddr].
    etrans; [exact Ha|]. apply sort_strings_idemp.
  - cbn [set_meta pool]. apply sort_strings_idemp.
Qed.

(** ** Witnesses *)

Definition node_with (fast : string) (dbs : list string) : Node :=
  {| node_dbs := Some dbs; fastDB := fast; peers := None; masterAddr := ""; httpAddr := ":1";
     nodeAddr := ":2"; pool := [] |}.

(** The leader [l] has the key [k]; every other database refuses. *)
Definition leader_answers (url : string) : result Response :=
  if String.eqb url "http://l/i/key/k" then Ok {| StatusCode := 200; Body := "v" |}
  else Ok {| StatusCode := 400; Body := "" |}.
Definition leader_getter : HTTPGetter unit := fun w url => (w, leader_answers url).

Lemma fetchData_witness :
  exists b url, Some "v" = Some b /\ url ∈ ["l"; "a"; "l"] /\
    leader_answers (db_url url "k") = Ok {| StatusCode := 200; Body := b |}.
Proof.
  destruct (fetchData_sound leader_getter (node_with "l" ["a"; "l"]) "l" () "k" ()
              {| f_dest := Some "v"; f_err := None; f_fastDB := [] |})
    as (b & url & w1 & w2 & E & _ & Hin & _ & H).
  - discriminate.
  - apply (fetchData_fast leader_getter (node_with "l" ["a"; "l"]) "l" () "k"); [discriminate|].
    vm_compute. reflexivity.
  - exists b, url. split; [exact E|]. split; [exact Hin|]. by injection H.
Defined.

(** A race between [a] and [l] in which both have answered. *)
Definition ask (w : unit) : string -> unit * result string := find leader_getter w "k".
Definition race_asked : race (W := unit) :=
  race_query ask (race_query ask (race_init () ["a"; "l"]) "l" ["a"]) "a" [].
Definition race_done : race (W := unit) :=
  race_lock ErrDataNotFound ["a"; "l"]
    (race_lock ErrDataNotFound ["a"; "l"] race_asked "a" (ask () "a").2 [("l", Ok "v")]) "l" (Ok "v") [].

Lemma race_done_reachable :
  rtc (race_step ask ErrDataNotFound ErrDatabaseQueryTimeout ["a"; "l"]) (race_init () ["a"; "l"]) race_done.
Proof.
  eapply rtc_l; [apply (race_step_query ask ErrDataNotFound _ ["a"; "l"] _ ["a"] "l" []); reflexivity|].
  eapply rtc_l; [apply (race_step_query ask ErrDataNotFound _ ["a"; "l"] _ [] "a" []); reflexivity|].
  eapply rtc_l; [apply (race_step_lock ask ErrDataNotFound _ ["a"; "l"] _ [("l", Ok "v")] "a" (ask () "a").2 []);
                 vm_compute; reflexivity|].
  apply rtc_once.
  apply (race_step_lock ask ErrDataNotFound _ ["a"; "l"] _ [] "l" (Ok "v") []); vm_compute; reflexivity.
Qed.

Lemma race_verdict_witness :
  is_Some (data race_done) <-> Exists (fun url => db_wins leader_answers "k" url = true) ["a"; "l"].
Proof.
  apply (race_verdict leader_getter leader_answers ["a"; "l"] () "k" race_done);
    [by intros ? ?|discriminate|exact race_done_reachable|vm_compute; reflexivity..].
Defined.

(** The race of [race_done] after the timeout: the sender is blocked. *)
Lemma fetch_race_ends_witness :
  let step := race_step ask ErrDataNotFound ErrDatabaseQueryTimeout ["a"; "l"] in
  let late := race_return race_done (timed_out ErrDatabaseQueryTimeout) (data race_done) in
  sn step (race_init () ["a"; "l"]) /\ is_Some (data late).
Proof.
  destruct (fetch_race_ends leader_getter leader_answers ["a"; "l"] () "k") as [H1 H2];
    [by intros ? ?|discriminate|].
  split; [exact H1|].
  destruct (H2 (race_return race_done (timed_out ErrDatabaseQueryTimeout) (data race_done)))
    as (f & Hf & Hblocked).
  - eapply rtc_r; [exact race_done_reachable|]. apply race_step_timeout. vm_compute. reflexivity.
  - intros [r Hs]. inversion Hs as [? l1 url l2 Hp|? l1 url res l2 Hp|? Hr|? value Hr Hdata]; subst.
    + vm_compute in Hp. by destruct l1.
    + vm_compute in Hp. by destruct l1.
    + vm_compute in Hr. discriminate Hr.
    + vm_compute in Hr. discriminate Hr.
  - apply Hblocked. vm_compute in Hf. injection Hf as <-. split; [vm_compute; reflexivity|].
    right. left. vm_compute. reflexivity.
Defined.

Lemma all_failing_witness :
  timed_out ErrDatabaseQueryTimeout
  = {| f_dest := None; f_err := Some ErrDatabaseQueryTimeout; f_fastDB := [""] |}.
Proof.
  apply (all_failing_is_timeout leader_getter leader_answers (node_with "" ["a"]) "" () "k" ()
           (timed_out ErrDatabaseQueryTimeout)).
  - by intros ? ?.
  - discriminate.
  - reflexivity.
  - intros url [->|[]%elem_of_nil]%elem_of_cons. vm_compute. reflexivity.
  - apply fetchData_slow; [reflexivity|].
    apply (tryAllDBFind_race leader_getter (node_with "" ["a"])); [discriminate|].
    exists (race_return (race_init () ["a"]) (timed_out ErrDatabaseQueryTimeout) None).
    split; [|by split]. apply rtc_once. by apply race_step_timeout.
Defined.

Lemma handleMeta_witness :
  exists node', handleMeta (node_with "" []) (marshal_PeerParam {| Peers := Some ["b"; "a"]; DBs := Some ["d"] |})
    = (node', {| StatusCode := 200; Body := "null" |}) /\ peers node' = Some ["a"; "b"].
Proof.
  destruct (handleMeta_spec (node_with "" []) {| Peers := Some ["b"; "a"]; DBs := Some ["d"] |})
    as (node' & E & Hp & _); [by repeat constructor|by repeat constructor|reflexivity|].
  exists node'. split; [exact E|]. rewrite Hp. vm_compute. reflexivity.
Defined.

Lemma join_then_heartbeat_witness :
  exists m' s' reply,
    JoinNode default_Config running (meta_of "[]") (Some {| HTTPAddr := ":1"; NodeAddr := ":2" |})
      = Ret (m', s', Ok reply) /\
    pool (join (reply_client reply) () (node_with "" [])).1.2 = httpAddrs (nodesMap m').
Proof.
  set (g := <[MakeURL ":1" := MakeURL ":2"]> two_caches).
  pose proof (JoinNode_eq default_Config running (meta_of "[]") two_caches
    {| HTTPAddr := ":1"; NodeAddr := ":2" |} mock_writable eq_refl ltac:(discriminate) ltac:(discriminate)) as E.
  eexists _, _, _. split; [exact E|].
  apply (join_then_heartbeat default_Config running (with_nodesMap running (Some g)) (meta_of "[]") _
           two_caches (node_with "" []) _ (nodeAddrs (Some g)) mock_writable eq_refl
           ltac:(discriminate) ltac:(discriminate) E).
  - unfold heartbeat. apply list_elem_of_fmap. exists (MakeURL ":1"). split; [reflexivity|].
    apply elem_of_httpAddrs. unfold g. by rewrite lookup_insert_eq.
  - apply valid_nodeAddrs. apply valid_map_assign; [|reflexivity|reflexivity]. apply (meta_of_sync "[]").
  - constructor.
Defined.
