(* ===== verification/Client.v ===== *)
(** * client: the key-value client (client.go, kv.go)

    The client's view of the cluster, the requests to caches and databases
    with their timeouts, and the three functions that ask all servers at
    once and race: [tryAllDBFind] (the race of Race.v), [tryAllCaches] and
    [tryAllDBSet], whose goroutines share one [err] variable. *)
From S2P Require Import Prelude Utf8 Json JsonTypes UrlUtil Http Config Race.
From Stdlib Require Import Ascii.

Definition ErrDataNotFound : goerror := Sentinel "client.ErrDataNotFound".
Definition ErrTimeout : goerror := Sentinel "client.ErrTimeout".

(** ** client.go *)

Record client : Type := {
  dbs : slice string;
  caches : slice string;
  fastCache : string;
  fastDB : string;
}.

Definition setFastCache (c : client) (cacheURL : string) : client :=
  {| dbs := dbs c; caches := caches c; fastCache := cacheURL; fastDB := fastDB c |}.
Definition setFastDB (c : client) (dbURL : string) : client :=
  {| dbs := dbs c; caches := caches c; fastCache := fastCache c; fastDB := dbURL |}.

(** [update] with the answers of the two clusters; the second is only asked
    when the first answers. *)
Definition update (dbPeers cachePeers : result (slice string)) (c : client) : client * error :=
  match dbPeers with
  | Err e => (c, Some e)
  | Ok ds =>
    let ds := sort_strings <$> ds in
    match cachePeers with
    | Err e => (c, Some e)
    | Ok cs =>
      let cs := sort_strings <$> cs in
      if decide (dbs c = ds /\ caches c = cs) then (c, None)
      else ({| dbs := ds; caches := cs; fastCache := fastCache c; fastDB := fastDB c |}, None)
    end
  end.

Definition newClient (dbPeers cachePeers : result (slice string)) : result client :=
  let cli := {| dbs := Some []; caches := Some []; fastCache := ""; fastDB := "" |} in
  match update dbPeers cachePeers cli with
  | (_, Some e) => Err e
  | (cli, None) => Ok cli
  end.

(** [refresh]: an update at every tick; an error is only logged. *)
Definition refresh (polls : list (result (slice string) * result (slice string))) (c : client) : client :=
  foldl (fun c p => (update p.1 p.2 c).1) c polls.

(** The last poll that both clusters answered. *)
Fixpoint last_view (polls : list (result (slice string) * result (slice string)))
    (cur : slice string * slice string) : slice string * slice string :=
  match polls with
  | [] => cur
  | (Ok ds, Ok cs) :: polls => last_view polls (sort_strings <$> ds, sort_strings <$> cs)
  | _ :: polls => last_view polls cur
  end.

(** Refreshing leaves the client with the sorted lists of the last poll that
    both clusters answered, or with what it had, and with its fast servers,
    which may by then be in neither list. *)
Theorem refresh_view polls c :
  (dbs (refresh polls c), caches (refresh polls c)) = last_view polls (dbs c, caches c) /\
  fastCache (refresh polls c) = fastCache c /\ fastDB (refresh polls c) = fastDB c.
Proof.
  revert c. induction polls as [|[[ds|e] [cs|e']] polls IH]; intros c; [done|..];
    cbn [refresh foldl fst snd last_view]; change (foldl _ ?a polls) with (refresh polls a); try apply IH.
  unfold update. destruct (decide _) as [[<- <-]|_]; [apply IH|].
  destruct (IH {| dbs := sort_strings <$> ds; caches := sort_strings <$> cs;
                  fastCache := fastCache c; fastDB := fastDB c |}) as (H1 & H2 & H3). done.
Qed.

(** ** kvParams *)

(** An [int] field: a literal of digits that fits 64 bits. *)
Fixpoint parse_digits (acc : Z) (s : string) : option Z :=
  match s with
  | EmptyString => Some acc
  | String a s =>
    if (48 <=? N_of_ascii a)%N && (N_of_ascii a <=? 57)%N
    then parse_digits (acc * 10 + (Z.of_N (N_of_ascii a) - 48))%Z s else None
  end.

Definition parse_int (lit : string) : option Z :=
  n ← match lit with
      | String "-" s => Z.opp <$> parse_digits 0 s
      | s => parse_digits 0 s
      end;
  if decide (- 2 ^ 63 <= n < 2 ^ 63)%Z then Some n else None.

Record kvParams : Type := { Key : string; Value : string; Code : Z; Message : string }.

Definition dec_int (cur : Z) (j : json) : result Z :=
  match j with
  | JNull => Ok cur
  | JNum lit =>
    match parse_int lit with
    | Some n => Ok n
    | None => Err (Fresh "json: cannot unmarshal number into Go value of type int")
    end
  | _ => Err (Fresh "json: cannot unmarshal into Go value of type int")
  end.

Fixpoint dec_kvParams_members (p : kvParams) (l : list (string * json)) : result kvParams :=
  match l with
  | [] => Ok p
  | (k, v) :: l =>
    match find_field ["key"; "value"; "code"; "message"] k with
    | Some 0 => s ← dec_string (Key p) v;
        dec_kvParams_members {| Key := s; Value := Value p; Code := Code p; Message := Message p |} l
    | Some 1 => s ← dec_string (Value p) v;
        dec_kvParams_members {| Key := Key p; Value := s; Code := Code p; Message := Message p |} l
    | Some 2 => n ← dec_int (Code p) v;
        dec_kvParams_members {| Key := Key p; Value := Value p; Code := n; Message := Message p |} l
    | Some _ => s ← dec_string (Message p) v;
        dec_kvParams_members {| Key := Key p; Value := Value p; Code := Code p; Message := s |} l
    | None => dec_kvParams_members p l
    end
  end.

Definition dec_kvParams (j : json) : result kvParams :=
  let p := {| Key := ""; Value := ""; Code := 0; Message := "" |} in
  match j with
  | JObj l => dec_kvParams_members p l
  | JNull => Ok p
  | _ => Err (Fresh "json: cannot unmarshal into Go value of type client.kvParams")
  end.

(** [json.Marshal(&kvParams{Key: key, Value: value})] *)
Definition marshal_kvParams (key value : string) : string :=
  print_json (JObj (omitempty "key" key ++ omitempty "value" value)).

Definition parseData (b key : string) : result string :=
  param ← json_unmarshal dec_kvParams b;
  if decide (Key param <> key) then Err (Fresh "wrong response for key")
  else if decide (Value param = "") then Err (Fresh "empty value response for key")
  else Ok (Value param).

(** ** kv.go: the requests *)

(** What becomes of a GET within its timeout: it takes too long, fails, or is
    answered after some time. *)
Inductive exchange : Type :=
  | TimedOut
  | Failed (e : goerror)
  | Answered (elapsed : Z) (res : Response).

Section kv.
Context (cfg : Config) {W : Type}.
Context (net_get : W -> string -> Z -> W * exchange).
Context (net_post : W -> string -> string -> string -> W * (Z * result Response)).
Implicit Types (w : W) (c : client).

Definition requestTimeout : Z := HTTPRequestTimeout cfg.
Definition idealResponseDuration : Z := IdealResponseDuration cfg.

(** The duration and the value or error. *)
Definition find w (key url : string) (timeout : Z) : W * (Z * result string) :=
  match net_get w (MakeURL url +:+ "/key/" +:+ key) timeout with
  | (w, TimedOut) => (w, (requestTimeout, Err ErrTimeout))
  | (w, Failed e) => (w, (requestTimeout, Err e))
  | (w, Answered duration res) =>
    if (StatusCode res =? StatusNotFound)%Z then (w, (duration, Err ErrDataNotFound))
    else if (StatusCode res =? StatusOK_http)%Z then
      match parseData (Body res) key with
      | Ok val => (w, (duration, Ok val))
      | Err e => (w, (requestTimeout, Err e))
      end
    else (w, (requestTimeout, Err ErrTimeout))
  end.

Definition set w (key value url : string) : W * (Z * error) :=
  let b := marshal_kvParams key value in
  match net_post w (MakeURL url +:+ "/key") "application-type/json" b with
  | (w, (_, Err e)) => (w, (requestTimeout, Some e))
  | (w, (elapsed, Ok res)) =>
    if negb (StatusCode res =? StatusOK_http)%Z
    then (w, (requestTimeout, Some (Fresh "failed to set kv")))
    else (w, (elapsed, None))
  end.

(** *** The handle: the options are stored, no method reads them *)
Record Option : Type := { RequestTimeout : Z; Option_IdealResponseDuration : Z }.
Record KV : Type := { kv_cli : client; kv_option : Option }.

Definition NewKV (dbPeers cachePeers : result (slice string)) (option : option Option) : result KV :=
  cli ← newClient dbPeers cachePeers;
  Ok {| kv_cli := cli;
        kv_option := default {| RequestTimeout := requestTimeout;
                                Option_IdealResponseDuration := idealResponseDuration |} option |}.

Definition DefaultKV (dbPeers cachePeers : result (slice string)) : result KV := NewKV dbPeers cachePeers None.

(** The [setFastDB] and [setFastCache] goroutines a call starts. *)
Inductive effect : Type := SetFastDB (url : string) | SetFastCache (url : string).

Definition run_effect c (e : effect) : client :=
  match e with SetFastDB u => setFastDB c u | SetFastCache u => setFastCache c u end.

(** *** tryAllDBFind *)

Definition result_of (f : fetched) : result string :=
  match f_err f with Some e => Err e | None => Ok (default "" (f_dest f)) end.

Definition find_all w (key url : string) : W * result string :=
  let '(w, (_, r)) := find w key url requestTimeout in (w, r).

Inductive tryAllDBFind c w (key : string) : W -> result string -> list effect -> Prop :=
  | tryAllDBFind_none :
      elems (dbs c) = [] ->
      tryAllDBFind c w key w (Err (Fresh "databases are not available")) []
  | tryAllDBFind_race w' f :
      elems (dbs c) <> [] ->
      race_returns (fun w => find_all w key) ErrDataNotFound ErrTimeout w (elems (dbs c)) w' f ->
      tryAllDBFind c w key w' (result_of f) (SetFastDB <$> f_fastDB f).

(** *** tryAllDBSet

    [s_err] is the variable [err] all goroutines assign.  A goroutine
    posts and assigns, then takes the lock; the sender it may start reads
    [err] when it runs. *)
Record set_race : Type := {
  s_world : W;
  s_posting : list string;
  s_waiting : list string;
  s_err : error;
  s_fetched : bool;
  s_fastURL : string;
  s_completeCount : nat;
  s_sender : bool;
  s_result : option error;
  s_returned : option (error * list effect);
}.

Definition set_init w (ds : list string) : set_race :=
  {| s_world := w; s_posting := ds; s_waiting := []; s_err := None; s_fetched := false;
     s_fastURL := ""; s_completeCount := 0; s_sender := false; s_result := None;
     s_returned := None |}.

Definition set_post (key value : string) (r : set_race) (url : string) (rest : list string) : set_race :=
  let '(w, (_, err)) := set (s_world r) key value url in
  {| s_world := w; s_posting := rest; s_waiting := s_waiting r ++ [url]; s_err := err;
     s_fetched := s_fetched r; s_fastURL := s_fastURL r; s_completeCount := s_completeCount r;
     s_sender := s_sender r; s_result := s_result r; s_returned := s_returned r |}.

Definition set_lock (ds : list string) (r : set_race) (url : string) (rest : list string) : set_race :=
  let completeCount := S (s_completeCount r) in
  let win := (bool_decide (s_err r = None) || (length ds <=? completeCount)) && negb (s_fetched r) in
  {| s_world := s_world r; s_posting := s_posting r; s_waiting := rest; s_err := s_err r;
     s_fetched := s_fetched r || win; s_fastURL := if win then url else s_fastURL r;
     s_completeCount := completeCount; s_sender := s_sender r || win; s_result := s_result r;
     s_returned := s_returned r |}.

Definition set_send (r : set_race) : set_race :=
  {| s_world := s_world r; s_posting := s_posting r; s_waiting := s_waiting r; s_err := s_err r;
     s_fetched := s_fetched r; s_fastURL := s_fastURL r; s_completeCount := s_completeCount r;
     s_sender := false; s_result := Some (s_err r); s_returned := s_returned r |}.

(** The return, with what is left on the channel: after a timeout a sender
    stays blocked there. *)
Definition set_return (r : set_race) (res : error) (effs : list effect) (offer : option error) : set_race :=
  {| s_world := s_world r; s_posting := s_posting r; s_waiting := s_waiting r; s_err := s_err r;
     s_fetched := s_fetched r; s_fastURL := s_fastURL r; s_completeCount := s_completeCount r;
     s_sender := s_sender r; s_result := offer; s_returned := Some (res, effs) |}.

Inductive set_step (ds : list string) (key value : string) : set_race -> set_race -> Prop :=
  | set_step_post r l1 url l2 :
      s_posting r = l1 ++ url :: l2 ->
      set_step ds key value r (set_post key value r url (l1 ++ l2))
  | set_step_lock r l1 url l2 :
      s_waiting r = l1 ++ url :: l2 ->
      set_step ds key value r (set_lock ds r url (l1 ++ l2))
  | set_step_send r :
      s_sender r = true -> set_step ds key value r (set_send r)
  | set_step_timeout r :
      s_returned r = None ->
      set_step ds key value r (set_return r (Some ErrTimeout) [SetFastDB ""] (s_result r))
  | set_step_receive r res :
      s_returned r = None -> s_result r = Some res ->
      set_step ds key value r
        (set_return r res match res with None => [SetFastDB (s_fastURL r)] | Some _ => [] end None).

Inductive tryAllDBSet c w (key value : string) : W -> error -> list effect -> Prop :=
  | tryAllDBSet_none :
      elems (dbs c) = [] ->
      tryAllDBSet c w key value w (Some (Fresh "db unavailable")) []
  | tryAllDBSet_race r res effs :
      elems (dbs c) <> [] ->
      rtc (set_step (elems (dbs c)) key value) (set_init w (elems (dbs c))) r ->
      s_returned r = Some (res, effs) ->
      tryAllDBSet c w key value (s_world r) res effs.

(** *** tryAllCaches

    A goroutine asks its cache and then waits for the lock with the duration
    and the answer. *)
Record cache_race : Type := {
  k_world : W;
  k_pending : list string;
  k_waiting : list (string * (Z * result string));
  k_fetched : bool;
  k_completeCount : nat;
  k_fastURL : string;
  k_minDuration : Z;
  k_completed : bool;
  k_resErr : error;
  k_data : option string;
  k_effects : list effect;
  k_returned : option (result string);
}.

Definition cache_init w (cs : list string) : cache_race :=
  {| k_world := w; k_pending := cs; k_waiting := []; k_fetched := false; k_completeCount := 0;
     k_fastURL := ""; k_minDuration := requestTimeout; k_completed := false; k_resErr := None;
     k_data := None; k_effects := []; k_returned := None |}.

Definition cache_query (key : string) (r : cache_race) (url : string) (rest : list string) : cache_race :=
  let '(w, found) := find (k_world r) key url requestTimeout in
  {| k_world := w; k_pending := rest; k_waiting := k_waiting r ++ [(url, found)];
     k_fetched := k_fetched r; k_completeCount := k_completeCount r; k_fastURL := k_fastURL r;
     k_minDuration := k_minDuration r; k_completed := k_completed r; k_resErr := k_resErr r;
     k_data := k_data r; k_effects := k_effects r; k_returned := k_returned r |}.

Definition cache_lock (cs : list string) (r : cache_race) (url : string) (found : Z * result string)
    (rest : list (string * (Z * result string))) : cache_race :=
  let '(duration, res) := found in
  let val := match res with Ok v => v | Err _ => "" end in
  let err := result_error res in
  let faster := (duration <=? k_minDuration r)%Z in
  let completeCount := S (k_completeCount r) in
  let last := completeCount =? length cs in
  let take := (last || (0 <? String.length val) || bool_decide (err = Some ErrDataNotFound))
              && negb (k_fetched r) in
  {| k_world := k_world r; k_pending := k_pending r; k_waiting := rest;
     k_fetched := k_fetched r || take; k_completeCount := completeCount;
     k_fastURL := if faster then url else k_fastURL r;
     k_minDuration := if faster then duration else k_minDuration r;
     k_completed := k_completed r || last;
     k_resErr := if take then err else k_resErr r;
     k_data := if take then Some val else k_data r;
     k_effects := k_effects r; k_returned := k_returned r |}.

(** The goroutine that waits for [completed]. *)
Definition cache_all_completed (r : cache_race) : cache_race :=
  {| k_world := k_world r; k_pending := k_pending r; k_waiting := k_waiting r;
     k_fetched := k_fetched r; k_completeCount := k_completeCount r; k_fastURL := k_fastURL r;
     k_minDuration := k_minDuration r; k_completed := false; k_resErr := k_resErr r;
     k_data := k_data r;
     k_effects := k_effects r ++ (if decide (k_fastURL r <> "") then [SetFastCache (k_fastURL r)] else []);
     k_returned := k_returned r |}.

Definition cache_return (r : cache_race) (res : result string) (offer : option string) : cache_race :=
  {| k_world := k_world r; k_pending := k_pending r; k_waiting := k_waiting r;
     k_fetched := k_fetched r; k_completeCount := k_completeCount r; k_fastURL := k_fastURL r;
     k_minDuration := k_minDuration r; k_completed := k_completed r; k_resErr := k_resErr r;
     k_data := offer; k_effects := k_effects r; k_returned := Some res |}.

Inductive cache_step (cs : list string) (key : string) : cache_race -> cache_race -> Prop :=
  | cache_step_query r l1 url l2 :
      k_pending r = l1 ++ url :: l2 ->
      cache_step cs key r (cache_query key r url (l1 ++ l2))
  | cache_step_lock r l1 url found l2 :
      k_waiting r = l1 ++ (url, found) :: l2 ->
      cache_step cs key r (cache_lock cs r url found (l1 ++ l2))
  | cache_step_completed r :
      k_completed r = true -> cache_step cs key r (cache_all_completed r)
  | cache_step_timeout r :
      k_returned r = None -> cache_step cs key r (cache_return r (Err ErrTimeout) (k_data r))
  | cache_step_receive r value :
      k_returned r = None -> k_data r = Some value ->
      cache_step cs key r
        (cache_return r match k_resErr r with Some e => Err e | None => Ok value end None).

(** The effects are those started by the time of the return or later. *)
Inductive tryAllCaches c w (key : string) : W -> result string -> list effect -> Prop :=
  | tryAllCaches_none :
      elems (caches c) = [] ->
      tryAllCaches c w key w (Err (Fresh "caches are unavailable")) []
  | tryAllCaches_race r res :
      elems (caches c) <> [] ->
      rtc (cache_step (elems (caches c)) key) (cache_init w (elems (caches c))) r ->
      k_returned r = Some res ->
      tryAllCaches c w key (k_world r) res (k_effects r).

(** *** KV.cache, KV.get, KV.Get, KV.Put *)

Inductive cache c w (key : string) : W -> result string -> list effect -> Prop :=
  | cache_slow w' res effs :
      fastCache c = "" -> tryAllCaches c w key w' res effs -> cache c w key w' res effs
  | cache_fast_not_found w' d :
      fastCache c <> "" ->
      find w key (fastCache c) idealResponseDuration = (w', (d, Err ErrDataNotFound)) ->
      cache c w key w' (Err ErrDataNotFound) []
  | cache_fast_fallback w1 d e w' res effs :
      fastCache c <> "" ->
      find w key (fastCache c) idealResponseDuration = (w1, (d, Err e)) -> e <> ErrDataNotFound ->
      tryAllCaches c w1 key w' res effs -> cache c w key w' res effs
  | cache_fast w' d val :
      fastCache c <> "" ->
      find w key (fastCache c) idealResponseDuration = (w', (d, Ok val)) ->
      cache c w key w' (Ok val) [].

Inductive get c w (key : string) : W -> result string -> list effect -> Prop :=
  | get_slow w' res effs :
      fastDB c = "" -> tryAllDBFind c w key w' res effs -> get c w key w' res effs
  | get_fast_not_found w' d :
      fastDB c <> "" -> find w key (fastDB c) requestTimeout = (w', (d, Err ErrDataNotFound)) ->
      get c w key w' (Err ErrDataNotFound) []
  | get_fast_fallback w1 d e w' res effs :
      fastDB c <> "" -> find w key (fastDB c) requestTimeout = (w1, (d, Err e)) ->
      e <> ErrDataNotFound ->
      tryAllDBFind c w1 key w' res effs -> get c w key w' res effs
  | get_fast w' d val :
      fastDB c <> "" -> find w key (fastDB c) requestTimeout = (w', (d, Ok val)) ->
      get c w key w' (Ok val) (if (idealResponseDuration <? d)%Z then [SetFastDB ""] else []).

Inductive KV_Get c w (key : string) : W -> result string -> list effect -> Prop :=
  | KV_Get_not_found w' effs :
      cache c w key w' (Err ErrDataNotFound) effs ->
      KV_Get c w key w' (Err ErrDataNotFound) effs
  | KV_Get_cached w' val effs :
      cache c w key w' (Ok val) effs -> KV_Get c w key w' (Ok val) effs
  | KV_Get_db w1 e effs1 w' res effs2 :
      cache c w key w1 (Err e) effs1 -> e <> ErrDataNotFound ->
      get c w1 key w' res effs2 ->
      KV_Get c w key w' res (effs1 ++ effs2).

Inductive KV_Put c w (key value : string) : W -> error -> list effect -> Prop :=
  | KV_Put_slow w' res effs :
      fastDB c = "" -> tryAllDBSet c w key value w' res effs -> KV_Put c w key value w' res effs
  | KV_Put_fallback w1 d e w' res effs :
      fastDB c <> "" -> set w key value (fastDB c) = (w1, (d, Some e)) ->
      tryAllDBSet c w1 key value w' res effs -> KV_Put c w key value w' res effs
  | KV_Put_fast w' d :
      fastDB c <> "" -> set w key value (fastDB c) = (w', (d, None)) ->
      KV_Put c w key value w' None (if (idealResponseDuration <? d)%Z then [SetFastDB ""] else []).
End kv.

(** ** Facts *)

Section facts.
Context (cfg : Config) {W : Type}.
Context (net_get : W -> string -> Z -> W * exchange).

Lemma parseData_nonempty b key v : parseData b key = Ok v -> v <> "".
Proof.
  unfold parseData. destruct (json_unmarshal _ b) as [p|]; [|done]. cbn [mbind result_bind].
  destruct (decide _); [done|]. destruct (decide (Value p = "")); [done|]. by intros [= <-].
Qed.

Lemma find_value w key url t w' d v :
  find cfg net_get w key url t = (w', (d, Ok v)) ->
  v <> "" /\ exists res, net_get w (MakeURL url +:+ "/key/" +:+ key) t = (w', Answered d res) /\
    StatusCode res = 200%Z /\ parseData (Body res) key = Ok v.
Proof.
  unfold find. destruct (net_get w _ t) as [w1 [|e|d1 res]]; [done..|].
  destruct (StatusCode res =? StatusNotFound)%Z; [done|].
  destruct (Z.eqb_spec (StatusCode res) StatusOK_http) as [Hs|]; [|done].
  destruct (parseData (Body res) key) as [v'|e] eqn:Ep; [|done].
  intros [= <- <- <-]. split; [by eapply parseData_nonempty|]. by exists res.
Qed.

(** [w] is a world the client's reads can make of [w0]. *)
Definition after_reads (w0 w : W) : Prop :=
  rtc (fun a b => exists url t, b = (net_get a url t).1) w0 w.

Lemma find_after_reads w key url t : after_reads w (find cfg net_get w key url t).1.
Proof.
  apply rtc_once. exists (MakeURL url +:+ "/key/" +:+ key), t. unfold find.
  destruct (net_get w _ t) as [w1 [|e|d res]]; [done..|].
  destruct (_ =? _)%Z; [done|]. destruct (_ =? _)%Z; [|done]. by destruct (parseData _ _).
Qed.

(** A server of [l] gave the answer [res], when it is a value or not-found,
    to a request of this read, which began in [w0]. *)
Definition told (w0 : W) (key : string) (l : list string) (res : result string) : Prop :=
  (forall e, res = Err e -> e = ErrDataNotFound) ->
  exists url w t w' d, url ∈ l /\ after_reads w0 w /\ find cfg net_get w key url t = (w', (d, res)).

Lemma told_intro w0 key l url w t w' d res :
  url ∈ l -> after_reads w0 w -> find cfg net_get w key url t = (w', (d, res)) -> told w0 key l res.
Proof. intros Hin Hw Hf _. by exists url, w, t, w', d. Qed.

Lemma told_weaken w0 w1 key l l' res :
  l ⊆ l' -> after_reads w0 w1 -> told w1 key l res -> told w0 key l' res.
Proof.
  intros Hl Hw H He. destruct (H He) as (u & w & t & w' & d & Hu & Hr & Hf).
  exists u, w, t, w', d. split; [by apply Hl|]. split; [by eapply rtc_trans|done].
Qed.

Lemma told_error w0 key l e : e <> ErrDataNotFound -> told w0 key l (Err e).
Proof. intros He H. by destruct He, (H e). Qed.

Lemma find_all_nonempty key w url w' b : find_all cfg net_get w key url = (w', Ok b) -> b <> "".
Proof.
  unfold find_all. destruct (find _ _ w key url _) as [w1 [d r]] eqn:E. intros [= <- ->].
  by apply find_value in E as [? _].
Qed.

Lemma after_queries_reads key w w' : after_queries (fun w => find_all cfg net_get w key) w w' -> after_reads w w'.
Proof.
  induction 1 as [|w1 w2 w3 [url ->] _ IH]; [apply rtc_refl|]. eapply rtc_trans; [|exact IH].
  pose proof (find_after_reads w1 key url (requestTimeout cfg)) as Hr. unfold find_all.
  by destruct (find cfg net_get w1 key url (requestTimeout cfg)) as [w' [d r]].
Qed.

Lemma tryAllDBFind_told c w key w' res effs :
  tryAllDBFind cfg net_get c w key w' res effs -> told w key (elems (dbs c)) res.
Proof.
  intros Ht. inversion Ht as [He|? f Hne Hr]; subst; [by apply told_error|].
  apply race_returns_good in Hr; [|by apply find_all_nonempty|done].
  destruct Hr as [->|(url & val & err & Ha & ->)]; [by apply told_error|].
  destruct Ha as [([Hin (w1 & w2 & Hw%after_queries_reads & E)] & _ & ->)
                 |([Hin (w1 & w2 & Hw%after_queries_reads & E)] & _ & ->)]; unfold find_all in E;
    destruct (find _ _ w1 key url _) as [w3 [d r]] eqn:Ef; injection E as -> ->;
    by eapply told_intro.
Qed.

(** *** tryAllCaches *)

Record cache_inv (w0 : W) (cs : list string) (key : string) (r : cache_race (W := W)) : Prop := {
  ci_world : after_reads w0 (k_world r);
  ci_pending : forall url, url ∈ k_pending r -> url ∈ cs;
  ci_waiting : forall url d res, (url, (d, res)) ∈ k_waiting r -> told w0 key cs res;
  ci_data : forall v, k_data r = Some v ->
    told w0 key cs (match k_resErr r with Some e => Err e | None => Ok v end);
  ci_returned : forall res, k_returned r = Some res -> told w0 key cs res;
}.

Lemma cache_init_inv cs key w : cache_inv w cs key (cache_init cfg w cs).
Proof. split; try done; [apply rtc_refl|]. by intros ? ? ? ?%elem_of_nil. Qed.

Lemma cache_query_inv w0 cs key r l1 url l2 :
  cache_inv w0 cs key r -> k_pending r = l1 ++ url :: l2 ->
  cache_inv w0 cs key (cache_query cfg net_get key r url (l1 ++ l2)).
Proof.
  intros [Hw Hp Hq Hd Hr] Hpe. unfold cache_query.
  pose proof (find_after_reads (k_world r) key url (requestTimeout cfg)) as Hw'.
  destruct (find cfg net_get (k_world r) key url (requestTimeout cfg)) as [w' [d res]] eqn:Ef.
  assert (forall u, u ∈ url :: l1 ++ l2 -> u ∈ cs) as Hsub.
  { intros u Hu. apply Hp. rewrite Hpe. by apply elem_of_middle. }
  split; cbn; try done; [by eapply rtc_trans|by (intros u Hu; apply Hsub; right)|].
  intros u d' x [Hin|Hin]%elem_of_app; [by eapply Hq|].
  apply list_elem_of_singleton in Hin. injection Hin as -> -> ->.
  eapply told_intro; [by apply Hsub; left|exact Hw|exact Ef].
Qed.

Lemma cache_lock_inv w0 cs key r l1 url found l2 :
  cache_inv w0 cs key r -> k_waiting r = l1 ++ (url, found) :: l2 ->
  cache_inv w0 cs key (cache_lock cs r url found (l1 ++ l2)).
Proof.
  intros [Hw Hp Hq Hd Hr] Hwe. destruct found as [d res]. unfold cache_lock.
  assert (forall u d' x, (u, (d', x)) ∈ (url, (d, res)) :: l1 ++ l2 -> told w0 key cs x) as Hsub.
  { intros u d' x Hu. apply (Hq u d'). rewrite Hwe. by apply elem_of_middle. }
  split; cbn [k_world k_pending k_waiting k_data k_resErr k_returned]; try done.
  - intros u d' x Hu. apply (Hsub u d'). by right.
  - intros v. destruct (_ && negb (k_fetched r)); [|by apply Hd]. intros [= <-].
    assert (told w0 key cs res) as Ht by (apply (Hsub url d); by left). by destruct res.
Qed.

Lemma cache_step_inv w0 cs key r r' :
  cache_inv w0 cs key r -> cache_step cfg net_get cs key r r' -> cache_inv w0 cs key r'.
Proof.
  intros Hi Hs. inversion Hs as [? l1 url l2 Hpe|? l1 url found l2 Hwe|? Hc|? Hn|? value Hn Hv]; subst.
  - by apply cache_query_inv.
  - by apply cache_lock_inv.
  - by destruct Hi.
  - destruct Hi. split; cbn; try done. intros res [= <-]. by apply told_error.
  - destruct Hi. split; cbn; try done. intros res [= <-]. auto.
Qed.

Lemma cache_reachable_inv cs key w r :
  rtc (cache_step cfg net_get cs key) (cache_init cfg w cs) r -> cache_inv w cs key r.
Proof.
  revert r. apply rtc_ind_r; [apply cache_init_inv|]. intros r1 r2 _ Hs Hi. by eapply cache_step_inv.
Qed.

Lemma tryAllCaches_told c w key w' res effs :
  tryAllCaches cfg net_get c w key w' res effs -> told w key (elems (caches c)) res.
Proof.
  intros Ht. inversion Ht as [He|r ? Hne Hr Hret]; subst; [by apply told_error|].
  by apply (ci_returned _ _ _ _ (cache_reachable_inv _ _ _ _ Hr)).
Qed.

(** *** The composed reads *)

(** The servers a read may turn to. *)
Definition servers (c : client) : list string :=
  fastCache c :: fastDB c :: elems (caches c) ++ elems (dbs c).

(** A composed read leaves a world reads can make of its first. *)
Lemma find_world w key url t w' x :
  find cfg net_get w key url t = (w', x) -> after_reads w w'.
Proof. intros E. pose proof (find_after_reads w key url t) as H. by rewrite E in H. Qed.

Lemma tryAllCaches_world c w key w' res effs :
  tryAllCaches cfg net_get c w key w' res effs -> after_reads w w'.
Proof.
  intros Ht. inversion Ht as [He|r ? Hne Hr Hret]; subst; [apply rtc_refl|].
  by apply (ci_world _ _ _ _ (cache_reachable_inv _ _ _ _ Hr)).
Qed.

Lemma cache_told c w key w' res effs :
  cache cfg net_get c w key w' res effs -> told w key (servers c) res /\ after_reads w w'.
Proof.
  intros Hc. unfold servers.
  inversion Hc as [? ? ? ? Ht|? ? ? Hf|w1 ? ? ? ? ? ? Hf ? Ht|? ? ? ? Hf]; subst.
  - split; [|by eapply tryAllCaches_world].
    eapply told_weaken; [|apply rtc_refl|by eapply tryAllCaches_told]. set_solver.
  - split; [|by eapply find_world]. eapply told_intro; [by left|apply rtc_refl|exact Hf].
  - apply find_world in Hf. split; [|eapply rtc_trans; [exact Hf|by eapply tryAllCaches_world]].
    eapply told_weaken; [|exact Hf|by eapply tryAllCaches_told]. set_solver.
  - split; [|by eapply find_world]. eapply told_intro; [by left|apply rtc_refl|exact Hf].
Qed.

Lemma get_told c w key w' res effs :
  get cfg net_get c w key w' res effs -> told w key (fastDB c :: elems (dbs c)) res.
Proof.
  intros Hd. inversion Hd as [? ? ? ? Ht|? ? ? Hf|? ? ? ? ? ? ? Hf ? Ht|? ? ? ? Hf]; subst.
  - eapply told_weaken; [|apply rtc_refl|by eapply tryAllDBFind_told]. set_solver.
  - eapply told_intro; [by left|apply rtc_refl|exact Hf].
  - eapply told_weaken; [|by eapply find_world|by eapply tryAllDBFind_told]. set_solver.
  - eapply told_intro; [by left|apply rtc_refl|exact Hf].
Qed.

Lemma KV_Get_told c w key w' res effs :
  KV_Get cfg net_get c w key w' res effs -> told w key (servers c) res.
Proof.
  intros Hg. inversion Hg as [? ? H|? ? ? H|? ? ? ? ? ? H ? Hd]; subst; [by eapply cache_told..|].
  eapply told_weaken; [|by eapply cache_told|by eapply get_told]. unfold servers. set_solver.
Qed.
End facts.

Section set_facts.
Context (cfg : Config) {W : Type}.
Context (net_post : W -> string -> string -> string -> W * (Z * result Response)).

(** [w] is a world the client's writes can make of [w0]. *)
Definition after_posts (w0 w : W) : Prop :=
  rtc (fun a b => exists url ct body, b = (net_post a url ct body).1) w0 w.

(** A database of [l] answered the write of the pair with 200, in a call
    that began in [w0]. *)
Definition stored (w0 : W) (l : list string) (key value : string) : Prop :=
  exists url w w' d, url ∈ l /\ after_posts w0 w /\ set cfg net_post w key value url = (w', (d, None)).

Lemma set_after_posts w key value url w' x :
  set cfg net_post w key value url = (w', x) -> after_posts w w'.
Proof.
  intros E. apply rtc_once. unfold set in E.
  exists (MakeURL url +:+ "/key"), "application-type/json", (marshal_kvParams key value).
  destruct (net_post w _ _ _) as [w1 [d [res|e]]]; [|by injection E as <- _].
  by destruct (negb _); injection E as <- _.
Qed.

Lemma stored_weaken w0 w1 l l' key value :
  l ⊆ l' -> after_posts w0 w1 -> stored w1 l key value -> stored w0 l' key value.
Proof.
  intros Hl Hw (url & w & w' & d & Hin & Hr & Hs). exists url, w, w', d.
  split; [by apply Hl|]. split; [by eapply rtc_trans|done].
Qed.

Record set_inv (w0 : W) (ds : list string) (key value : string) (r : set_race (W := W)) : Prop := {
  si_world : after_posts w0 (s_world r);
  si_posting : forall url, url ∈ s_posting r -> url ∈ ds;
  si_count : s_completeCount r + length (s_waiting r) + length (s_posting r) = length ds;
  si_err : s_err r = None -> stored w0 ds key value \/ (s_waiting r = [] /\ s_completeCount r = 0);
  si_sender : s_sender r = true -> 0 < s_completeCount r;
  si_result : s_result r = Some None -> stored w0 ds key value;
  si_returned : forall effs, s_returned r = Some (None, effs) -> stored w0 ds key value;
  si_all : length ds <= s_completeCount r -> s_fetched r = true;
  si_fetched : s_fetched r = true ->
    s_sender r = true \/ is_Some (s_result r) \/ is_Some (s_returned r);
}.

Lemma set_init_inv ds key value w : ds <> [] -> set_inv w ds key value (set_init w ds).
Proof.
  intros Hd. split; cbn; try done; [apply rtc_refl|by right|]. destruct ds; [done|cbn; lia].
Qed.

Lemma set_post_inv w0 ds key value r l1 url l2 :
  set_inv w0 ds key value r -> s_posting r = l1 ++ url :: l2 ->
  set_inv w0 ds key value (set_post cfg net_post key value r url (l1 ++ l2)).
Proof.
  intros [Hw0 Hp Hc He Hs Hr Hret Ha Hf] Hpe. unfold set_post.
  destruct (set cfg net_post (s_world r) key value url) as [w' [d err]] eqn:Ef.
  assert (forall u, u ∈ url :: l1 ++ l2 -> u ∈ ds) as Hsub.
  { intros u Hu. apply Hp. rewrite Hpe. by apply elem_of_middle. }
  split; cbn; try done.
  - eapply rtc_trans; [exact Hw0|by eapply set_after_posts].
  - intros u Hu. apply Hsub. by right.
  - rewrite Hpe in Hc. rewrite !length_app in *. cbn in *. lia.
  - intros ->. left. exists url, (s_world r), w', d. split; [by apply Hsub; left|done].
Qed.

Lemma set_lock_inv w0 ds key value r l1 url l2 :
  set_inv w0 ds key value r -> s_waiting r = l1 ++ url :: l2 ->
  set_inv w0 ds key value (set_lock ds r url (l1 ++ l2)).
Proof.
  intros [Hw0 Hp Hc He Hs Hr Hret Ha Hf] Hw. unfold set_lock.
  assert (s_err r = None -> stored w0 ds key value) as He'.
  { intros E. destruct (He E) as [?|[Hn _]]; [done|]. rewrite Hw in Hn. by destruct l1. }
  split; cbn [s_world s_posting s_completeCount s_waiting s_err s_sender s_result s_returned s_fetched]; try done.
  - rewrite Hw in Hc. rewrite !length_app in *. cbn in *. lia.
  - intros E. left. by apply He'.
  - lia.
  - intros Hl. apply Nat.leb_le in Hl. rewrite Hl, orb_true_r. by destruct (s_fetched r).
  - destruct (s_fetched r); cbn.
    + intros _. destruct (Hf eq_refl) as [->|?]; [by left|by right].
    + rewrite andb_true_r. intros ->. left. by destruct (s_sender r).
Qed.

Lemma set_step_inv w0 ds key value r r' :
  set_inv w0 ds key value r -> set_step cfg net_post ds key value r r' -> set_inv w0 ds key value r'.
Proof.
  intros Hi Hs. inversion Hs as [? l1 url l2 Hp|? l1 url l2 Hw|? Hsend|? Hn|? res Hn Hv]; subst.
  - by apply set_post_inv.
  - by apply set_lock_inv.
  - destruct Hi as [Hw0 Hp Hc He Hse Hr Hret Ha Hf]. split; cbn; try done; [|by right; left].
    intros [= E]. specialize (Hse Hsend). destruct (He E) as [?|[_ ?]]; [done|lia].
  - destruct Hi. split; cbn; try done. intros _. right. by right.
  - destruct Hi as [Hw0 Hp Hc He Hse Hr Hret Ha Hf]. split; cbn; try done.
    + intros effs [= -> _]. by apply Hr.
    + intros _. right. by right.
Qed.

Lemma set_reachable_inv ds key value w r :
  ds <> [] -> rtc (set_step cfg net_post ds key value) (set_init w ds) r -> set_inv w ds key value r.
Proof.
  intros Hd. revert r. apply rtc_ind_r; [by apply set_init_inv|].
  intros r1 r2 _ Hs Hi. by eapply set_step_inv.
Qed.
End set_facts.

(** ** Properties *)

Section get_properties.
Context (cfg : Config) {W : Type}.
Context (net_get : W -> string -> Z -> W * exchange).

(** C13: whichever caches and databases answer, fail or are late, and in
    whatever order, [Get] returns a value only if it is the non-empty value
    that a known server gave for this very key, in a 200 answer to a request
    of this read; and it says that the data is not found only when a server
    did. *)
Theorem KV_Get_sound c w key w' res effs :
  KV_Get cfg net_get c w key w' res effs ->
  match res with
  | Ok v => v <> "" /\ exists url w1 t w2 d resp, url ∈ servers c /\ after_reads net_get w w1 /\
      net_get w1 (MakeURL url +:+ "/key/" +:+ key) t = (w2, Answered d resp) /\
      StatusCode resp = 200%Z /\ parseData (Body resp) key = Ok v
  | Err e => e = ErrDataNotFound -> exists url w1 t w2 d, url ∈ servers c /\ after_reads net_get w w1 /\
      find cfg net_get w1 key url t = (w2, (d, Err ErrDataNotFound))
  end.
Proof.
  intros Hg%KV_Get_told. destruct res as [v|e].
  - destruct Hg as (url & w1 & t & w2 & d & Hin & Hw & Hf); [done|].
    apply find_value in Hf as (Hv & resp & Hn & Hs & Hp). split; [done|].
    by exists url, w1, t, w2, d, resp.
  - intros ->. by destruct Hg as (url & w1 & t & w2 & d & Hin & Hw & Hf); [by intros e [= <-]|eauto 8].
Qed.

(** A request that fails counts as lasting the request timeout, which
    is not more than the initial minimum; so when all caches fail, one of
    them becomes the fast cache. *)
Theorem failing_cache_becomes_fast cs key w r :
  (forall w url, url ∈ cs -> exists w' e, find cfg net_get w key url (requestTimeout cfg)
                                          = (w', (requestTimeout cfg, Err e))) ->
  "" ∉ cs -> rtc (cache_step cfg net_get cs key) (cache_init cfg w cs) r -> k_completed r = true ->
  exists url, url ∈ cs /\ k_effects (cache_all_completed r) = k_effects r ++ [SetFastCache url].
Proof.
  intros Hfail He Hr Hc.
  assert ((forall u, u ∈ k_pending r -> u ∈ cs) /\
          (forall u x, (u, x) ∈ k_waiting r -> u ∈ cs /\ x.1 = requestTimeout cfg) /\
          k_minDuration r = requestTimeout cfg /\ (k_completed r = true -> k_fastURL r ∈ cs))
    as (_ & _ & _ & Hu).
  { clear Hc. revert r Hr. apply rtc_ind_r; [by split_and!; try done; intros ? ? ?%elem_of_nil|].
    intros r1 r2 _ Hs (Hp & Hq & Hm & Hu).
    inversion Hs as [? l1 url l2 Hpe|? l1 url found l2 Hwe|? Hcc|? Hn|? value Hn Hv]; subst; try by split_and!.
    - assert (forall u, u ∈ url :: l1 ++ l2 -> u ∈ cs) as Hsub.
      { intros u Hu'. apply Hp. rewrite Hpe. by apply elem_of_middle. }
      destruct (Hfail (k_world r1) url) as (w' & e & E); [apply Hsub; by left|].
      unfold cache_query. rewrite E. split_and!; cbn; try done.
      + intros u Hu'. apply Hsub. by right.
      + intros u x [?|Hin%list_elem_of_singleton]%elem_of_app; [by apply Hq|].
        injection Hin as -> ->. split; [apply Hsub; by left|done].
    - assert (forall u x, (u, x) ∈ (url, found) :: l1 ++ l2 -> u ∈ cs /\ x.1 = requestTimeout cfg) as Hsub.
      { intros u x Hu'. apply Hq. rewrite Hwe. by apply elem_of_middle. }
      destruct (Hsub url found) as [Hin Ed]; [by left|]. destruct found as [d res]. cbn in Ed. subst d.
      unfold cache_lock. rewrite Hm, Z.leb_refl.
      split_and!; cbn [k_pending k_waiting k_minDuration k_completed k_fastURL]; try done.
      intros u x Hu'. apply Hsub. by right. }
  exists (k_fastURL r). split; [by apply Hu|]. unfold cache_all_completed. cbn [k_effects].
  rewrite decide_True; [done|]. intros E. apply He. rewrite <-E. by apply Hu.
Qed.
End get_properties.

Section put_properties.
Context (cfg : Config) {W : Type}.
Context (net_post : W -> string -> string -> string -> W * (Z * result Response)).

(** C14: [Put] reports success only when a database answered the write of
    the pair with 200 during the call. *)
Theorem KV_Put_sound c w key value w' effs :
  KV_Put cfg net_post c w key value w' None effs ->
  exists url w1 w2 d, url ∈ fastDB c :: elems (dbs c) /\ after_posts net_post w w1 /\
    set cfg net_post w1 key value url = (w2, (d, None)).
Proof.
  assert (forall w w' effs, tryAllDBSet cfg net_post c w key value w' None effs ->
            stored cfg net_post w (elems (dbs c)) key value) as Ha.
  { clear. intros w w' effs Ht. inversion Ht as [|r ? ? Hne Hr Hret]; subst.
    pose proof (set_reachable_inv cfg net_post _ _ _ _ _ Hne Hr) as Hi.
    exact (si_returned _ _ _ _ _ _ _ Hi _ Hret). }
  intros Hp. inversion Hp as [? ? ? Hf Ht|? ? ? ? ? ? Hf Hs Ht|? d Hf Hs]; subst.
  - eapply stored_weaken; [|apply rtc_refl|by eapply Ha]. set_solver.
  - eapply stored_weaken; [|by eapply set_after_posts|by eapply Ha]. set_solver.
  - exists (fastDB c), w, w', d. split; [by left|]. split; [apply rtc_refl|done].
Qed.

(** A write to all databases never needs its timeout once every
    goroutine is through: whatever the answers, a result has been offered
    or is about to be. *)
Theorem tryAllDBSet_answers ds key value w r :
  ds <> [] -> rtc (set_step cfg net_post ds key value) (set_init w ds) r ->
  s_posting r = [] -> s_waiting r = [] ->
  s_sender r = true \/ is_Some (s_result r) \/ is_Some (s_returned r).
Proof.
  intros Hd Hr Hp Hw. pose proof (set_reachable_inv cfg net_post _ _ _ _ _ Hd Hr) as Hi.
  apply (si_fetched _ _ _ _ _ _ _ Hi), (si_all _ _ _ _ _ _ _ Hi).
  pose proof (si_count _ _ _ _ _ _ _ Hi) as Hc. rewrite Hp, Hw in Hc. cbn in Hc. lia.
Qed.

(** C30: the goroutines of a write share the variable [err].  When database
    [a] refuses the write and [b] takes it, the function can return nil and
    make [a] the fast database; and it can return the error of [a] although
    [b] holds the pair. *)
Theorem tryAllDBSet_shared_err a b key value w e :
  (forall w, set cfg net_post w key value a = (w, (requestTimeout cfg, Some e))) ->
  (forall w, exists d, set cfg net_post w key value b = (w, (d, None))) ->
  (exists r, rtc (set_step cfg net_post [a; b] key value) (set_init w [a; b]) r /\
     s_returned r = Some (None, [SetFastDB a])) /\
  (exists r, rtc (set_step cfg net_post [a; b] key value) (set_init w [a; b]) r /\
     s_returned r = Some (Some e, [])).
Proof.
  intros Ha Hb. destruct (Hb w) as [d Hbw].
  assert (forall r rest, s_world r = w -> set_post cfg net_post key value r a rest =
    {| s_world := w; s_posting := rest; s_waiting := s_waiting r ++ [a]; s_err := Some e;
       s_fetched := s_fetched r; s_fastURL := s_fastURL r; s_completeCount := s_completeCount r;
       s_sender := s_sender r; s_result := s_result r; s_returned := s_returned r |}) as Ea
    by (intros r rest Hr; unfold set_post; by rewrite Hr, Ha).
  assert (forall r rest, s_world r = w -> set_post cfg net_post key value r b rest =
    {| s_world := w; s_posting := rest; s_waiting := s_waiting r ++ [b]; s_err := None;
       s_fetched := s_fetched r; s_fastURL := s_fastURL r; s_completeCount := s_completeCount r;
       s_sender := s_sender r; s_result := s_result r; s_returned := s_returned r |}) as Eb
    by (intros r rest Hr; unfold set_post; by rewrite Hr, Hbw).
  split; eexists.
  - split.
    + eapply rtc_l; [apply (set_step_post _ _ _ _ _ _ [] a [b]); done|]. rewrite Ea by done.
      eapply rtc_l; [apply (set_step_post _ _ _ _ _ _ [] b []); done|]. rewrite Eb by done.
      eapply rtc_l; [apply (set_step_lock _ _ _ _ _ _ [] a [b]); done|].
      eapply rtc_l; [apply set_step_send; done|].
      apply rtc_once. apply (set_step_receive _ _ _ _ _ _ None); done.
    + done.
  - split.
    + eapply rtc_l; [apply (set_step_post _ _ _ _ _ _ [a] b []); done|]. rewrite Eb by done.
      eapply rtc_l; [apply (set_step_post _ _ _ _ _ _ [] a []); done|]. rewrite Ea by done.
      eapply rtc_l; [apply (set_step_lock _ _ _ _ _ _ [] b [a]); done|].
      eapply rtc_l; [apply (set_step_lock _ _ _ _ _ _ [] a []); done|].
      eapply rtc_l; [apply set_step_send; done|].
      apply rtc_once. apply (set_step_receive _ _ _ _ _ _ (Some e)); done.
    + done.
Qed.

End put_properties.

(** A successful [update] leaves the client with the sorted lists of both
    clusters, keeping its fast servers, and a second one with the same
    answers changes nothing; when either cluster cannot be read the client
    is unchanged. *)
Theorem update_spec ds cs c :
  match ds, cs with
  | Ok d, Ok k =>
    exists c', update ds cs c = (c', None) /\ dbs c' = sort_strings <$> d /\
      caches c' = sort_strings <$> k /\ fastDB c' = fastDB c /\ fastCache c' = fastCache c /\
      update ds cs c' = (c', None)
  | _, _ => exists e, update ds cs c = (c, Some e)
  end.
Proof.
  unfold update. destruct ds as [d|e]; [|by exists e]. destruct cs as [k|e]; [|by exists e].
  destruct (decide _) as [[Hd Hk]|Hne].
  - exists c. split_and!; try done. by rewrite decide_True.
  - eexists. split; [done|]. cbn [dbs caches]. split_and!; try done. by rewrite decide_True.
Qed.

(** ** Witnesses *)

(** A network on which only host [b] answers. *)
Definition b_get (w : unit) (url : string) (_ : Z) : unit * exchange :=
  (w, if HasPrefix url "http://b/"
      then Answered 1000 {| StatusCode := 200; Body := print_json (JObj [("key", JStr "k"); ("value", JStr "v")]) |}
      else Failed (Fresh "refused")).
Definition b_post (w : unit) (url ct body : string) : unit * (Z * result Response) :=
  (w, (1000%Z, if HasPrefix url "http://b/" then Ok {| StatusCode := 200; Body := "" |}
               else Err (Fresh "refused"))).

Definition client_with (fc fd : string) (ds cs : list string) : client :=
  {| dbs := Some ds; caches := Some cs; fastCache := fc; fastDB := fd |}.

Lemma KV_Get_witness :
  "v" <> "" /\ exists url w1 t w2 d resp, url ∈ servers (client_with "b" "" [] ["a"; "b"]) /\
    after_reads b_get () w1 /\
    b_get w1 (MakeURL url +:+ "/key/" +:+ "k") t = (w2, Answered d resp) /\
    StatusCode resp = 200%Z /\ parseData (Body resp) "k" = Ok "v".
Proof.
  apply (KV_Get_sound default_Config b_get (client_with "b" "" [] ["a"; "b"]) () "k" () (Ok "v") []).
  apply KV_Get_cached. apply (cache_fast _ _ _ _ _ () 1000%Z); [discriminate|]. vm_compute. reflexivity.
Defined.

Lemma KV_Put_witness :
  exists url w1 w2 d, url ∈ ["b"; "a"] /\ after_posts b_post () w1 /\
    set default_Config b_post w1 "k" "v" url = (w2, (d, None)).
Proof.
  apply (KV_Put_sound default_Config b_post (client_with "" "b" ["a"] []) () "k" "v" () []).
  apply (KV_Put_fast default_Config b_post (client_with "" "b" ["a"] []) () "k" "v" () 1000%Z);
    [discriminate|]. vm_compute. reflexivity.
Defined.

Definition put_done : set_race (W := unit) :=
  set_lock ["a"] (set_post default_Config b_post "k" "v" (set_init () ["a"]) "a" []) "a" [].

Lemma tryAllDBSet_answers_witness :
  s_sender put_done = true \/ is_Some (s_result put_done) \/ is_Some (s_returned put_done).
Proof.
  apply (tryAllDBSet_answers default_Config b_post ["a"] "k" "v" () put_done);
    [discriminate| |vm_compute; reflexivity|vm_compute; reflexivity].
  eapply rtc_l; [apply (set_step_post default_Config b_post ["a"] "k" "v" _ [] "a" []); reflexivity|].
  apply rtc_once. apply (set_step_lock default_Config b_post ["a"] "k" "v" _ [] "a" []).
  vm_compute. reflexivity.
Defined.

Lemma shared_err_witness :
  (exists r, rtc (set_step default_Config b_post ["a"; "b"] "k" "v") (set_init () ["a"; "b"]) r /\
     s_returned r = Some (None, [SetFastDB "a"])) /\
  (exists r, rtc (set_step default_Config b_post ["a"; "b"] "k" "v") (set_init () ["a"; "b"]) r /\
     s_returned r = Some (Some (Fresh "refused"), [])).
Proof.
  apply (tryAllDBSet_shared_err default_Config b_post "a" "b" "k" "v" () (Fresh "refused")).
  - intros []. vm_compute. reflexivity.
  - intros []. eexists. vm_compute. reflexivity.
Defined.

Definition caches_done : cache_race (W := unit) :=
  cache_lock ["a"] (cache_query default_Config b_get "k" (cache_init default_Config () ["a"]) "a" [])
    "a" (requestTimeout default_Config, Err (Fresh "refused")) [].

Lemma failing_cache_witness :
  exists url, url ∈ ["a"] /\ k_effects (cache_all_completed caches_done) = k_effects caches_done ++ [SetFastCache url].
Proof.
  apply (failing_cache_becomes_fast default_Config b_get ["a"] "k" () caches_done).
  - intros [] url [->|[]%elem_of_nil]%elem_of_cons. eexists _, _. vm_compute. reflexivity.
  - intros [E|[]%elem_of_nil]%elem_of_cons. discriminate E.
  - eapply rtc_l; [apply (cache_step_query default_Config b_get ["a"] "k"
      (cache_init default_Config () ["a"]) [] "a" []); reflexivity|].
    apply rtc_once. apply (cache_step_lock default_Config b_get ["a"] "k" _ [] "a" _ []).
    vm_compute. reflexivity.
  - vm_compute. reflexivity.
Defined.
