(* ===== verification/ClientEnds.v ===== *)
(** * client: the calls end

    Client.v says what the results of the client's calls mean; here, that
    there are results: the three races have no infinite run, a run without
    a step has returned, and so [Get] and [Put] always have an outcome.
    And what a timeout costs: the goroutine that was to hand over the
    result stays blocked on its channel for ever. *)
From S2P Require Import Prelude Json JsonTypes UrlUtil Http Config Race Client.

Section write.
Context (cfg : Config) {W : Type}.
Context (net_post : W -> string -> string -> string -> W * (Z * result Response)).
Context (ds : list string) (key value : string).
Abbreviation step := (set_step cfg net_post ds key value).

(** A goroutine posts, takes the lock and may start a sender. *)
Definition set_size (r : set_race (W := W)) : nat :=
  3 * length (s_posting r) + 2 * length (s_waiting r) + (if s_sender r then 1 else 0)
  + match s_returned r with None => 1 | Some _ => 0 end.

Lemma set_step_decreases r r' : step r r' -> set_size r' < set_size r.
Proof.
  intros Hs. inversion Hs as [? l1 url l2 Hp|? l1 url l2 Hw|? Hsend|? Hn|? res Hn Hv]; subst; unfold set_size.
  - unfold set_post. destruct (set _ _ _ _ _ _) as [w' [d err]]. cbn. rewrite Hp, !length_app. cbn. lia.
  - unfold set_lock. cbn [s_posting s_waiting s_sender s_returned]. rewrite Hw, !length_app. cbn [length].
    destruct (s_sender r), ((_ || _) && _); cbn [orb]; lia.
  - cbn. rewrite Hsend. lia.
  - cbn. rewrite Hn. lia.
  - cbn. rewrite Hn. lia.
Qed.

Lemma set_ended r :
  nf step r -> s_posting r = [] /\ s_waiting r = [] /\ s_sender r = false /\ is_Some (s_returned r).
Proof.
  intros Hn. split_and!.
  - destruct (s_posting r) as [|url l] eqn:E; [done|]. exfalso. apply Hn. eexists.
    by eapply (set_step_post _ _ _ _ _ _ []).
  - destruct (s_waiting r) as [|url l] eqn:E; [done|]. exfalso. apply Hn. eexists.
    by eapply (set_step_lock _ _ _ _ _ _ []).
  - destruct (s_sender r) eqn:E; [|done]. exfalso. apply Hn. eexists. by apply set_step_send.
  - destruct (s_returned r) eqn:E; [done|]. exfalso. apply Hn. eexists. by apply set_step_timeout.
Qed.

(** After a timeout nobody receives. *)
Definition set_abandoned (r : set_race (W := W)) : Prop :=
  is_Some (s_returned r) /\ (s_fetched r = true -> s_sender r = true \/ is_Some (s_result r)).

Lemma set_step_abandoned r r' : set_abandoned r -> step r r' -> set_abandoned r'.
Proof.
  intros [[f Hf] Hr] Hs.
  inversion Hs as [? l1 url l2 Hp|? l1 url l2 Hw|? Hsend|? Hn|? res Hn Hv]; subst; [..|congruence|congruence].
  - unfold set_post. destruct (set _ _ _ _ _ _) as [w' [d err]]. by split; [exists f|].
  - split; [by exists f|]. unfold set_lock. cbn [s_fetched s_sender s_result].
    destruct (s_fetched r); cbn [orb negb]; rewrite ?andb_false_r, ?andb_true_r, ?orb_false_r; [done|].
    intros ->. left. by destruct (s_sender r).
  - split; [by exists f|]. intros _. right. by eexists.
Qed.

Lemma set_timeout_blocks w r1 r :
  ds <> [] -> rtc step (set_init w ds) r1 -> s_returned r1 = None ->
  rtc step (set_return r1 (Some ErrTimeout) [SetFastDB ""] (s_result r1)) r -> nf step r ->
  is_Some (s_result r).
Proof.
  intros Hd Hr1 Hn Hr Hnf. pose proof (set_reachable_inv cfg net_post _ _ _ _ _ Hd Hr1) as Hi1.
  assert (set_abandoned r) as [_ Ha].
  { clear Hnf. revert r Hr. apply rtc_ind_r; [|intros ? ? _ Hs Ha; by eapply set_step_abandoned].
    split; [by eexists|]. cbn. intros Hf. destruct (si_fetched _ _ _ _ _ _ _ Hi1 Hf) as [?|[?|[? ?]]]; [by left|by right|].
    congruence. }
  assert (rtc step (set_init w ds) r) as Hr0.
  { eapply rtc_trans; [exact Hr1|]. eapply rtc_l; [by apply set_step_timeout|exact Hr]. }
  pose proof (set_reachable_inv cfg net_post _ _ _ _ _ Hd Hr0) as Hi.
  destruct (set_ended r Hnf) as (Hp & Hw & Hs & _).
  destruct Ha as [E|?]; [|congruence|done]. apply (si_all _ _ _ _ _ _ _ Hi).
  pose proof (si_count _ _ _ _ _ _ _ Hi) as Hc. rewrite Hp, Hw in Hc. cbn in Hc. lia.
Qed.
End write.

Section read.
Context (cfg : Config) {W : Type}.
Context (net_get : W -> string -> Z -> W * exchange).
Context (cs : list string) (key : string).
Abbreviation step := (cache_step cfg net_get cs key).

Definition cache_size (r : cache_race (W := W)) : nat :=
  3 * length (k_pending r) + 2 * length (k_waiting r) + (if k_completed r then 1 else 0)
  + match k_returned r with None => 1 | Some _ => 0 end.

Lemma cache_step_decreases r r' : step r r' -> cache_size r' < cache_size r.
Proof.
  intros Hs. inversion Hs as [? l1 url l2 Hp|? l1 url found l2 Hw|? Hc|? Hn|? value Hn Hv]; subst; unfold cache_size.
  - unfold cache_query. destruct (find _ _ _ _ _ _) as [w' found]. cbn. rewrite Hp, !length_app. cbn. lia.
  - destruct found as [d res]. unfold cache_lock. cbn [k_pending k_waiting k_completed k_returned].
    rewrite Hw, !length_app. cbn [length]. destruct (k_completed r), (_ =? _); cbn [orb]; lia.
  - cbn. rewrite Hc. lia.
  - cbn. rewrite Hn. lia.
  - cbn. rewrite Hn. lia.
Qed.

Lemma cache_ended r :
  nf step r -> k_pending r = [] /\ k_waiting r = [] /\ is_Some (k_returned r).
Proof.
  intros Hn. split_and!.
  - destruct (k_pending r) as [|url l] eqn:E; [done|]. exfalso. apply Hn. eexists.
    by eapply (cache_step_query _ _ _ _ _ []).
  - destruct (k_waiting r) as [|[url found] l] eqn:E; [done|]. exfalso. apply Hn. eexists.
    by eapply (cache_step_lock _ _ _ _ _ []).
  - destruct (k_returned r) eqn:E; [done|]. exfalso. apply Hn. eexists. by apply cache_step_timeout.
Qed.

(** Every goroutine is counted; the last one hands a result over if no other
    has; and a result stays on offer until the function takes it. *)
Record cache_counted (r : cache_race (W := W)) : Prop := {
  cc_count : k_completeCount r + length (k_waiting r) + length (k_pending r) = length cs;
  cc_all : k_completeCount r = length cs -> k_fetched r = true;
  cc_offer : k_fetched r = true -> is_Some (k_data r) \/ is_Some (k_returned r);
}.

Lemma cache_init_counted w : cs <> [] -> cache_counted (cache_init cfg w cs).
Proof. intros Hd. split; cbn; [done| |done]. by destruct cs. Qed.

Lemma cache_step_counted r r' : cache_counted r -> step r r' -> cache_counted r'.
Proof.
  intros [Hc Ha Ho] Hs.
  inversion Hs as [? l1 url l2 Hp|? l1 url [d res] l2 Hw|? Hcp|? Hn|? value Hn Hv]; subst.
  - unfold cache_query. destruct (find _ _ _ _ _ _) as [w' found]. split; cbn; [|done|done].
    rewrite Hp, !length_app in Hc. rewrite !length_app. cbn in *. lia.
  - unfold cache_lock. rewrite Hw, !length_app in Hc. cbn [length] in Hc.
    split; cbn [k_completeCount k_waiting k_pending k_fetched k_data k_returned].
    + rewrite !length_app. lia.
    + intros E. apply Nat.eqb_eq in E. rewrite E. cbn [orb andb]. by destruct (k_fetched r).
    + destruct (k_fetched r); cbn [orb negb]; rewrite ?andb_false_r, ?andb_true_r; [done|].
      intros ->. left. by eexists.
  - by split.
  - split; [done|done|]. intros _. right. by eexists.
  - split; [done|done|]. intros _. right. by eexists.
Qed.

Lemma cache_reachable_counted w r :
  cs <> [] -> rtc step (cache_init cfg w cs) r -> cache_counted r.
Proof.
  intros Hd. revert r. apply rtc_ind_r; [by apply cache_init_counted|].
  intros r1 r2 _ Hs Hi. by eapply cache_step_counted.
Qed.

Definition cache_abandoned (r : cache_race (W := W)) : Prop :=
  is_Some (k_returned r) /\ (k_fetched r = true -> is_Some (k_data r)).

Lemma cache_step_abandoned r r' : cache_abandoned r -> step r r' -> cache_abandoned r'.
Proof.
  intros [[f Hf] Hr] Hs.
  inversion Hs as [? l1 url l2 Hp|? l1 url [d res] l2 Hw|? Hcp|? Hn|? value Hn Hv]; subst; [..|congruence|congruence].
  - unfold cache_query. destruct (find _ _ _ _ _ _) as [w' found]. by split; [exists f|].
  - split; [by exists f|]. unfold cache_lock. cbn [k_fetched k_data].
    destruct (k_fetched r); cbn [orb negb]; rewrite ?andb_false_r, ?andb_true_r; [done|].
    intros ->. by eexists.
  - by split; [exists f|].
Qed.

Lemma cache_timeout_blocks w r1 r :
  cs <> [] -> rtc step (cache_init cfg w cs) r1 -> k_returned r1 = None ->
  rtc step (cache_return r1 (Err ErrTimeout) (k_data r1)) r -> nf step r -> is_Some (k_data r).
Proof.
  intros Hd Hr1 Hn Hr Hnf. pose proof (cache_reachable_counted w r1 Hd Hr1) as Hi1.
  assert (cache_abandoned r) as [_ Ha].
  { clear Hnf. revert r Hr. apply rtc_ind_r; [|intros ? ? _ Hs Ha; by eapply cache_step_abandoned].
    split; [by eexists|]. cbn. intros Hf. destruct (cc_offer _ Hi1 Hf) as [?|[? ?]]; [done|]. congruence. }
  assert (rtc step (cache_init cfg w cs) r) as Hr0.
  { eapply rtc_trans; [exact Hr1|]. eapply rtc_l; [by apply cache_step_timeout|exact Hr]. }
  destruct (cache_reachable_counted w r Hd Hr0) as [Hc Hall _].
  destruct (cache_ended r Hnf) as (Hp & Hw & _). rewrite Hp, Hw in Hc. cbn in Hc.
  apply Ha, Hall. lia.
Qed.
End read.

(** ** Properties *)

Section properties.
Context (cfg : Config) {W : Type}.
Context (net_get : W -> string -> Z -> W * exchange).
Context (net_post : W -> string -> string -> string -> W * (Z * result Response)).

(** C19: a write to all databases and a read from all caches end, in every
    interleaving of answers, critical sections and the timeout: no run goes
    on for ever, and one that cannot go on has returned.  If it took the
    timeout the goroutine with the result is then blocked on a channel
    nobody receives from. *)
Theorem client_races_end l key value w :
  l <> [] ->
  (sn (set_step cfg net_post l key value) (set_init w l) /\
   forall r, rtc (set_step cfg net_post l key value) (set_init w l) r ->
     (nf (set_step cfg net_post l key value) r -> is_Some (s_returned r)) /\
     (s_returned r = None -> forall r',
        rtc (set_step cfg net_post l key value)
            (set_return r (Some ErrTimeout) [SetFastDB ""] (s_result r)) r' ->
        nf (set_step cfg net_post l key value) r' -> is_Some (s_result r'))) /\
  (sn (cache_step cfg net_get l key) (cache_init cfg w l) /\
   forall r, rtc (cache_step cfg net_get l key) (cache_init cfg w l) r ->
     (nf (cache_step cfg net_get l key) r -> is_Some (k_returned r)) /\
     (k_returned r = None -> forall r',
        rtc (cache_step cfg net_get l key) (cache_return r (Err ErrTimeout) (k_data r)) r' ->
        nf (cache_step cfg net_get l key) r' -> is_Some (k_data r'))).
Proof.
  intros Hl. split; (split; [eapply measure_sn; first [apply set_step_decreases|apply cache_step_decreases]|]);
    intros r Hr; split.
  - by intros (_ & _ & _ & H)%set_ended.
  - intros Hn r' Hr' Hnf. by eapply set_timeout_blocks.
  - by intros (_ & _ & H)%cache_ended.
  - intros Hn r' Hr' Hnf. by eapply cache_timeout_blocks.
Qed.

(** The races that take the timeout at once. *)
Lemma tryAllDBFind_total c w key : exists w' res effs, tryAllDBFind cfg net_get c w key w' res effs.
Proof.
  destruct (decide (elems (dbs c) = [])) as [E|E]; [do 3 eexists; apply tryAllDBFind_none; exact E|].
  eexists _, _, _. eapply tryAllDBFind_race; [done|].
  exists (race_return (race_init w (elems (dbs c))) (timed_out ErrTimeout) None).
  split; [|by split]. apply rtc_once. by apply race_step_timeout.
Qed.

Lemma tryAllDBSet_total c w key value : exists w' res effs, tryAllDBSet cfg net_post c w key value w' res effs.
Proof.
  destruct (decide (elems (dbs c) = [])) as [E|E]; [do 3 eexists; by apply tryAllDBSet_none|].
  eexists _, _, _. eapply tryAllDBSet_race; [done|apply rtc_once; by apply set_step_timeout|done].
Qed.

Lemma tryAllCaches_total c w key : exists w' res effs, tryAllCaches cfg net_get c w key w' res effs.
Proof.
  destruct (decide (elems (caches c) = [])) as [E|E]; [do 3 eexists; by apply tryAllCaches_none|].
  eexists _, _, _. eapply tryAllCaches_race; [done|apply rtc_once; by apply cache_step_timeout|done].
Qed.

Lemma cache_total c w key : exists w' res effs, cache cfg net_get c w key w' res effs.
Proof.
  destruct (decide (fastCache c = "")) as [E|E].
  { destruct (tryAllCaches_total c w key) as (w' & res & effs & H). do 3 eexists. by apply cache_slow. }
  destruct (find cfg net_get w key (fastCache c) (idealResponseDuration cfg)) as [w1 [d [v|e]]] eqn:Ef.
  { do 3 eexists. by eapply cache_fast. }
  destruct (decide (e = ErrDataNotFound)) as [->|Hne]; [do 3 eexists; by eapply cache_fast_not_found|].
  destruct (tryAllCaches_total c w1 key) as (w' & res & effs & H). do 3 eexists. by eapply cache_fast_fallback.
Qed.

Lemma get_total c w key : exists w' res effs, get cfg net_get c w key w' res effs.
Proof.
  destruct (decide (fastDB c = "")) as [E|E].
  { destruct (tryAllDBFind_total c w key) as (w' & res & effs & H). do 3 eexists. by apply get_slow. }
  destruct (find cfg net_get w key (fastDB c) (requestTimeout cfg)) as [w1 [d [v|e]]] eqn:Ef.
  { do 3 eexists. by eapply get_fast. }
  destruct (decide (e = ErrDataNotFound)) as [->|Hne]; [do 3 eexists; by eapply get_fast_not_found|].
  destruct (tryAllDBFind_total c w1 key) as (w' & res & effs & H). do 3 eexists. by eapply get_fast_fallback.
Qed.

(** Every [Get] and every [Put] has an outcome. *)
Theorem KV_Get_total c w key : exists w' res effs, KV_Get cfg net_get c w key w' res effs.
Proof.
  destruct (cache_total c w key) as (w1 & [v|e] & effs & H); [do 3 eexists; by apply KV_Get_cached|].
  destruct (decide (e = ErrDataNotFound)) as [->|Hne]; [do 3 eexists; by apply KV_Get_not_found|].
  destruct (get_total c w1 key) as (w' & res & effs' & H'). do 3 eexists. by eapply KV_Get_db.
Qed.

Theorem KV_Put_total c w key value : exists w' res effs, KV_Put cfg net_post c w key value w' res effs.
Proof.
  destruct (decide (fastDB c = "")) as [E|E].
  { destruct (tryAllDBSet_total c w key value) as (w' & res & effs & H). do 3 eexists. by apply KV_Put_slow. }
  destruct (set cfg net_post w key value (fastDB c)) as [w1 [d [e|]]] eqn:Ef;
    [|do 3 eexists; by eapply KV_Put_fast].
  destruct (tryAllDBSet_total c w1 key value) as (w' & res & effs & H). do 3 eexists. by eapply KV_Put_fallback.
Qed.
End properties.

(** ** Witness: one database and one cache, neither of which answers *)

Definition silent_get : unit -> string -> Z -> unit * exchange := fun w _ _ => (w, TimedOut).
Definition silent_post : unit -> string -> string -> string -> unit * (Z * result Response) :=
  fun w _ _ _ => (w, (0%Z, Err (Fresh "refused"))).

Lemma client_races_witness :
  sn (set_step default_Config silent_post ["a"] "k" "v") (set_init () ["a"]) /\
  sn (cache_step default_Config silent_get ["a"] "k") (cache_init default_Config () ["a"]).
Proof.
  destruct (client_races_end default_Config silent_get silent_post ["a"] "k" "v" () ltac:(discriminate))
    as [[H1 _] [H2 _]].
  exact (conj H1 H2).
Defined.
