(* ===== verification/ClientSession.v ===== *)
(** * client: the servers a client turns to

    The life of a client handle (client.go, kv.go): it polls the two masters,
    reads and writes, in several goroutines at once, and the [setFastDB] and
    [setFastCache] goroutines that the calls have started run at any time
    after.  A call is taken apart at its reads of the handle; undisturbed it
    is the [KV_Get] or [KV_Put] of Client.v.  The network records the URLs it
    is asked for. *)
From S2P Require Import Prelude Json JsonTypes UrlUtil Http Config Race Client.

(** ** A call, read by read

    The code reads the fast servers and the lists of the handle without a
    lock, [Put] and [get] the variable [fastDB] twice; goroutines of other
    calls and the poll write them in between.  A call is suspended before each
    of its reads. *)
Inductive call : Type :=
  | PutStart (key value : string)
  | PutFast (key value : string)
  | PutAll (key value : string)
  | PutDone (err : error)
  | GetStart (key : string)
  | GetAllCaches (key : string)
  | GetDB (key : string)
  | GetFastDB (key : string)
  | GetAllDBs (key : string)
  | GetDone (res : result string).

Section calls.
Context (cfg : Config) {W : Type}.
Context (net_get : W -> string -> Z -> W * exchange).
Context (net_post : W -> string -> string -> string -> W * (Z * result Response)).
Implicit Types (c : client) (w : W).

(** What [Get] does with the outcome of [cache]. *)
Definition after_cache (key : string) (res : result string) : call :=
  match res with
  | Ok val => GetDone (Ok val)
  | Err e => if decide (e = ErrDataNotFound) then GetDone (Err e) else GetDB key
  end.

(** One read of the handle [c], and what the call does up to the next. *)
Inductive call_step c w : call -> W -> call -> list effect -> Prop :=
  | put_test key value :
      call_step c w (PutStart key value) w
        (if decide (fastDB c = "") then PutAll key value else PutFast key value) []
  | put_fast key value w' d :
      set cfg net_post w key value (fastDB c) = (w', (d, None)) ->
      call_step c w (PutFast key value) w' (PutDone None)
        (if (idealResponseDuration cfg <? d)%Z then [SetFastDB ""] else [])
  | put_failed key value w' d e :
      set cfg net_post w key value (fastDB c) = (w', (d, Some e)) ->
      call_step c w (PutFast key value) w' (PutAll key value) []
  | put_all key value w' err effs :
      tryAllDBSet cfg net_post c w key value w' err effs ->
      call_step c w (PutAll key value) w' (PutDone err) effs
  | get_no_cache key :
      fastCache c = "" -> call_step c w (GetStart key) w (GetAllCaches key) []
  | get_cached key w' d res :
      fastCache c <> "" -> find cfg net_get w key (fastCache c) (idealResponseDuration cfg) = (w', (d, res)) ->
      call_step c w (GetStart key) w'
        match res with
        | Ok val => GetDone (Ok val)
        | Err e => if decide (e = ErrDataNotFound) then GetDone (Err e) else GetAllCaches key
        end []
  | get_all_caches key w' res effs :
      tryAllCaches cfg net_get c w key w' res effs ->
      call_step c w (GetAllCaches key) w' (after_cache key res) effs
  | get_test key :
      call_step c w (GetDB key) w (if decide (fastDB c = "") then GetAllDBs key else GetFastDB key) []
  | get_fast key w' d val :
      find cfg net_get w key (fastDB c) (requestTimeout cfg) = (w', (d, Ok val)) ->
      call_step c w (GetFastDB key) w' (GetDone (Ok val))
        (if (idealResponseDuration cfg <? d)%Z then [SetFastDB ""] else [])
  | get_failed key w' d e :
      find cfg net_get w key (fastDB c) (requestTimeout cfg) = (w', (d, Err e)) ->
      call_step c w (GetFastDB key) w' (if decide (e = ErrDataNotFound) then GetDone (Err e) else GetAllDBs key) []
  | get_all_dbs key w' res effs :
      tryAllDBFind cfg net_get c w key w' res effs ->
      call_step c w (GetAllDBs key) w' (GetDone res) effs.

(** The call runs on, and nothing writes the handle. *)
Inductive call_runs c : W -> call -> W -> call -> list effect -> Prop :=
  | runs_here w x : call_runs c w x w x []
  | runs_on w x w1 x1 effs1 w' x' effs2 :
      call_step c w x w1 x1 effs1 -> call_runs c w1 x1 w' x' effs2 -> call_runs c w x w' x' (effs1 ++ effs2).

Lemma runs_once c w x w' x' effs : call_step c w x w' x' effs -> call_runs c w x w' x' effs.
Proof. intros H. rewrite <-(app_nil_r effs). eapply runs_on; [exact H|constructor]. Qed.

Lemma runs_trans c w x w1 x1 effs1 w' x' effs2 :
  call_runs c w x w1 x1 effs1 -> call_runs c w1 x1 w' x' effs2 -> call_runs c w x w' x' (effs1 ++ effs2).
Proof. induction 1; [done|]. intros H'. rewrite <-(assoc_L (++)). eapply runs_on; [done|auto]. Qed.

(** *** A call that nothing disturbs *)

Lemma runs_PutDone c w err w' x' effs : call_runs c w (PutDone err) w' x' effs -> w' = w /\ x' = PutDone err /\ effs = [].
Proof. inversion 1 as [|? ? ? ? ? ? ? ? Hs]; subst; [done|inversion Hs]. Qed.

Lemma runs_GetDone c w res w' x' effs : call_runs c w (GetDone res) w' x' effs -> w' = w /\ x' = GetDone res /\ effs = [].
Proof. inversion 1 as [|? ? ? ? ? ? ? ? Hs]; subst; [done|inversion Hs]. Qed.

(** Ends a run at its last call, and opens the first step of one that goes
    on. *)
Ltac run_ends :=
  repeat match goal with
  | H : call_runs _ _ (PutDone _) _ _ _ |- _ => apply runs_PutDone in H as (? & ? & ?); simplify_eq
  | H : call_runs _ _ (GetDone _) _ _ _ |- _ => apply runs_GetDone in H as (? & ? & ?); simplify_eq
  end; rewrite ?app_nil_r, ?app_nil_l.
Ltac run_goes_on H :=
  let Hs := fresh "Hs" in let Hr := fresh "Hr" in
  inversion H as [|? ? ? ? ? ? ? ? Hs Hr]; clear H; simplify_eq; inversion Hs; clear Hs; simplify_eq; run_ends.

Lemma runs_PutAll c w key value w' err effs :
  call_runs c w (PutAll key value) w' (PutDone err) effs -> tryAllDBSet cfg net_post c w key value w' err effs.
Proof. intros H. run_goes_on H. done. Qed.

Lemma undisturbed_put c w key value w' err effs :
  call_runs c w (PutStart key value) w' (PutDone err) effs <-> KV_Put cfg net_post c w key value w' err effs.
Proof.
  split.
  - intros H. run_goes_on H. destruct (decide _) as [E|E] in Hr; [by apply KV_Put_slow, runs_PutAll|].
    run_goes_on Hr; [by eapply KV_Put_fast|]. by eapply KV_Put_fallback, runs_PutAll.
  - inversion 1 as [? ? ? E Ht|? ? ? ? ? ? E Hs Ht|? ? E Hs]; subst; eapply (runs_on _ _ _ _ _ []); try apply put_test.
    all: rewrite ?decide_True, ?decide_False by done.
    + by apply runs_once, put_all.
    + eapply (runs_on _ _ _ _ _ []); [by eapply put_failed|]. by apply runs_once, put_all.
    + by eapply runs_once, put_fast.
Qed.

Lemma runs_GetAllDBs c w key w' res effs :
  call_runs c w (GetAllDBs key) w' (GetDone res) effs -> tryAllDBFind cfg net_get c w key w' res effs.
Proof. intros H. run_goes_on H. done. Qed.

Lemma undisturbed_get_db c w key w' res effs :
  call_runs c w (GetDB key) w' (GetDone res) effs <-> get cfg net_get c w key w' res effs.
Proof.
  split.
  - intros H. run_goes_on H. destruct (decide _) as [E|E] in Hr; [by apply get_slow, runs_GetAllDBs|].
    run_goes_on Hr; [by eapply Client.get_fast|]. destruct (decide _) as [->|Hne] in Hr0; run_ends.
    + by eapply get_fast_not_found.
    + by eapply get_fast_fallback, runs_GetAllDBs.
  - inversion 1 as [? ? ? E Ht|? ? E Hf|? ? ? ? ? ? E Hf Hne Ht|? ? ? E Hf]; subst;
      eapply (runs_on _ _ _ _ _ []); try apply get_test; rewrite ?decide_True, ?decide_False by done.
    + by apply runs_once, get_all_dbs.
    + apply runs_once. pose proof (get_failed c w key _ _ _ Hf) as Hg. by rewrite decide_True in Hg.
    + pose proof (get_failed c w key _ _ _ Hf) as Hg. rewrite decide_False in Hg by done.
      eapply (runs_on _ _ _ _ _ []); [exact Hg|]. by apply runs_once, get_all_dbs.
    + by eapply runs_once, get_fast.
Qed.

Lemma runs_cache c w key w1 res effs :
  cache cfg net_get c w key w1 res effs -> call_runs c w (GetStart key) w1 (after_cache key res) effs.
Proof.
  inversion 1 as [? ? ? E Ht|? ? E Hf|? ? ? ? ? ? E Hf Hne Ht|? ? ? E Hf]; subst.
  - eapply (runs_on _ _ _ _ _ []); [by apply get_no_cache|]. by apply runs_once, get_all_caches.
  - apply runs_once. unfold after_cache. by apply (get_cached c w key _ _ _ E Hf).
  - eapply (runs_on _ _ _ _ _ []); [by eapply get_cached|]. cbn. rewrite decide_False by done.
    by apply runs_once, get_all_caches.
  - apply runs_once. by apply (get_cached c w key _ _ _ E Hf).
Qed.

Lemma runs_GetAllCaches c w key w' res effs :
  call_runs c w (GetAllCaches key) w' (GetDone res) effs ->
  exists w1 r effs1 effs2, tryAllCaches cfg net_get c w key w1 r effs1 /\
    call_runs c w1 (after_cache key r) w' (GetDone res) effs2 /\ effs = effs1 ++ effs2.
Proof. intros H. run_goes_on H. by do 4 eexists. Qed.

Lemma cache_runs c w key w' res effs :
  call_runs c w (GetStart key) w' (GetDone res) effs ->
  exists w1 r effs1 effs2, cache cfg net_get c w key w1 r effs1 /\
    call_runs c w1 (after_cache key r) w' (GetDone res) effs2 /\ effs = effs1 ++ effs2.
Proof.
  intros H. run_goes_on H.
  - apply runs_GetAllCaches in Hr as (w2 & r & ea & eb & Ht & Hr2 & ->). do 4 eexists. split; [by apply cache_slow|done].
  - case_match; [|destruct (decide _) as [->|Hne] in Hr].
    + do 4 eexists. split; [by eapply cache_fast|done].
    + do 4 eexists. split; [by eapply cache_fast_not_found|done].
    + apply runs_GetAllCaches in Hr as (w2 & r & ea & eb & Ht & Hr2 & ->). do 4 eexists.
      split; [by eapply cache_fast_fallback|done].
Qed.

(** [Get] and [Put] of Client.v are the calls that nothing disturbs. *)
Lemma undisturbed_get c w key w' res effs :
  call_runs c w (GetStart key) w' (GetDone res) effs <-> KV_Get cfg net_get c w key w' res effs.
Proof.
  split.
  - intros (w1 & [val|e] & effs1 & effs2 & Hc & Hr & ->)%cache_runs; cbn [after_cache] in Hr; run_ends; [by apply KV_Get_cached|].
    destruct (decide (e = ErrDataNotFound)) as [->|Hne]; run_ends; [by apply KV_Get_not_found|].
    apply undisturbed_get_db in Hr. by eapply KV_Get_db.
  - inversion 1 as [? ? Hc|? ? ? Hc|? ? ? ? ? ? Hc Hne Hg]; subst; apply runs_cache in Hc; [done..|].
    cbn [after_cache] in Hc. rewrite decide_False in Hc by done. eapply runs_trans; [done|by apply undisturbed_get_db].
Qed.
End calls.

Section session.
Context (cfg : Config) {W : Type}.
Context (net_get : W -> string -> Z -> W * exchange).
Context (net_post : W -> string -> string -> string -> W * (Z * result Response)).

(** ** The network that records *)

Abbreviation recording := (W * list string)%type.

Definition rec_get (w : recording) (url : string) (t : Z) : recording * exchange :=
  let '(w', x) := net_get w.1 url t in ((w', w.2 ++ [url]), x).
Definition rec_post (w : recording) (url ct body : string) : recording * (Z * result Response) :=
  let '(w', x) := net_post w.1 url ct body in ((w', w.2 ++ [url]), x).

(** ** The life of a client *)

Record session : Type := {
  ss_world : recording;
  ss_client : client;
  ss_calls : list call;
  ss_effects : list effect;
  ss_listed : list string;
}.

Definition answered_list (r : result (slice string)) : list string :=
  match r with Ok l => elems l | Err _ => [] end.

Inductive session_step : session -> session -> Prop :=
  | ss_poll s dbPeers cachePeers :
      session_step s {| ss_world := ss_world s; ss_client := (update dbPeers cachePeers (ss_client s)).1;
                        ss_calls := ss_calls s; ss_effects := ss_effects s;
                        ss_listed := ss_listed s ++ answered_list dbPeers ++ answered_list cachePeers |}
  | ss_Get s key :
      session_step s {| ss_world := ss_world s; ss_client := ss_client s; ss_calls := ss_calls s ++ [GetStart key];
                        ss_effects := ss_effects s; ss_listed := ss_listed s |}
  | ss_Put s key value :
      session_step s {| ss_world := ss_world s; ss_client := ss_client s; ss_calls := ss_calls s ++ [PutStart key value];
                        ss_effects := ss_effects s; ss_listed := ss_listed s |}
  | ss_call s l1 x l2 w' x' effs :
      ss_calls s = l1 ++ x :: l2 ->
      call_step cfg rec_get rec_post (ss_client s) (ss_world s) x w' x' effs ->
      session_step s {| ss_world := w'; ss_client := ss_client s; ss_calls := l1 ++ x' :: l2;
                        ss_effects := ss_effects s ++ effs; ss_listed := ss_listed s |}
  | ss_effect s l1 e l2 :
      ss_effects s = l1 ++ e :: l2 ->
      session_step s {| ss_world := ss_world s; ss_client := run_effect (ss_client s) e; ss_calls := ss_calls s;
                        ss_effects := l1 ++ l2; ss_listed := ss_listed s |}.

(** ** What a call asks *)

(** A URL of a request to a server of [l]. *)
Definition url_of (l : list string) (url : string) : Prop :=
  exists srv, srv ∈ l /\ (url = MakeURL srv +:+ "/key" \/ exists key, url = MakeURL srv +:+ "/key/" +:+ key).

Definition within (l : list string) (w w' : recording) : Prop :=
  exists us, w'.2 = w.2 ++ us /\ Forall (url_of l) us.

#[local] Instance within_refl l : Reflexive (within l).
Proof. intros w. exists []. by rewrite app_nil_r. Qed.
#[local] Instance within_trans l : Transitive (within l).
Proof.
  intros w1 w2 w3 (us & E & H) (us' & E' & H'). exists (us ++ us'). rewrite E', E, (assoc_L (++)).
  split; [done|by apply Forall_app].
Qed.

Lemma url_of_mono l l' url : l ⊆ l' -> url_of l url -> url_of l' url.
Proof. intros Hl (srv & Hin & H). exists srv. split; [by apply Hl|done]. Qed.

Lemma within_mono l l' w w' : l ⊆ l' -> within l w w' -> within l' w w'.
Proof.
  intros Hl (us & E & H). exists us. split; [done|]. eapply Forall_impl; [exact H|]. intros u. by apply url_of_mono.
Qed.

Lemma find_within l w key srv t : srv ∈ l -> within l w (find cfg rec_get w key srv t).1.
Proof.
  intros Hin. exists [MakeURL srv +:+ "/key/" +:+ key]. split.
  - unfold find, rec_get. destruct (net_get w.1 _ t) as [w' [|e|d res]]; [done..|].
    destruct (_ =? _)%Z; [done|]. destruct (_ =? _)%Z; [|done]. by destruct (parseData _ _).
  - constructor; [|done]. exists srv. split; [done|]. right. by exists key.
Qed.

Lemma find_all_within l w key srv : srv ∈ l -> within l w (find_all cfg rec_get w key srv).1.
Proof.
  intros Hin. unfold find_all. pose proof (find_within l w key srv (requestTimeout cfg) Hin) as H.
  by destruct (find cfg rec_get w key srv _) as [w' [d r]].
Qed.

Lemma set_within l w key value srv : srv ∈ l -> within l w (set cfg rec_post w key value srv).1.
Proof.
  intros Hin. exists [MakeURL srv +:+ "/key"]. split.
  - unfold set, rec_post. destruct (net_post w.1 _ _ _) as [w' [d [res|e]]]; [|done]. by destruct (negb _).
  - constructor; [|done]. exists srv. split; [done|]. by left.
Qed.

(** A server, or none. *)
Definition known (l : list string) (srv : string) : Prop := srv = "" \/ srv ∈ l.

Lemma known_mono l l' srv : l ⊆ l' -> known l srv -> known l' srv.
Proof. intros Hl [->|Hin]; [by left|right; by apply Hl]. Qed.

Definition effect_url (e : effect) : string := match e with SetFastDB u | SetFastCache u => u end.
Definition effects_known (l : list string) (effs : list effect) : Prop :=
  Forall (fun e => known l (effect_url e)) effs.

Lemma effects_known_mono l l' effs : l ⊆ l' -> effects_known l effs -> effects_known l' effs.
Proof. intros Hl H. eapply Forall_impl; [exact H|]. intros e. by apply known_mono. Qed.

(** *** The three races *)

Record race_asks (dbs : list string) (w0 : recording) (r : race (W := recording)) : Prop := {
  ra_world : within dbs w0 (r_world r);
  ra_pending : r_pending r ⊆ dbs;
  ra_waiting : forall url res, (url, res) ∈ r_waiting r -> url ∈ dbs;
  ra_fast : known dbs (fastURL r);
  ra_returned : forall f, returned r = Some f -> Forall (known dbs) (f_fastDB f);
}.

Lemma race_asks_step key dbs w0 r r' :
  race_asks dbs w0 r ->
  race_step (fun w => find_all cfg rec_get w key) ErrDataNotFound ErrTimeout dbs r r' -> race_asks dbs w0 r'.
Proof.
  intros [Hw Hp Hq Hf Hr] Hs. inversion Hs as [? l1 url l2 Hpe|? l1 url res l2 Hwe|? Hn|? value Hn Hd]; subst.
  - assert (url :: l1 ++ l2 ⊆ dbs) as Hsub by (intros u Hu; apply Hp; rewrite Hpe; by apply elem_of_middle).
    assert (url ∈ dbs) as Hin by (apply Hsub; by left).
    pose proof (find_all_within dbs (r_world r) key url Hin) as Hw'. unfold race_query.
    destruct (find_all cfg rec_get (r_world r) key url) as [w' res]. split; cbn; try done.
    + by etrans.
    + intros u Hu. apply Hsub. by right.
    + intros u x [?|E%list_elem_of_singleton]%elem_of_app; [by eapply Hq|]. by injection E as -> _.
  - assert (forall u x, (u, x) ∈ (url, res) :: l1 ++ l2 -> u ∈ dbs) as Hsub.
    { intros u x Hu. apply (Hq u x). rewrite Hwe. by apply elem_of_middle. }
    unfold race_lock. destruct (_ && _); split; cbn; try done.
    all: try (intros u x Hu; apply (Hsub u x); by right).
    right. apply (Hsub url res). by left.
  - split; cbn; try done. intros f [= <-]. apply Forall_singleton. by left.
  - split; cbn; try done. intros f [= <-]. cbn [f_fastDB]. destruct (_ || _); [by apply (proj2 (Forall_singleton _ _))|constructor].
Qed.

Lemma tryAllDBFind_asks c w key w' res effs :
  tryAllDBFind cfg rec_get c w key w' res effs ->
  within (elems (dbs c)) w w' /\ effects_known (elems (dbs c)) effs.
Proof.
  intros Ht. inversion Ht as [|? f _ (r & Hr & Hret & <-)]; subst; [by split; [|constructor]|].
  assert (race_asks (elems (dbs c)) w r) as [H1 _ _ _ H2].
  { clear Hret Ht. revert r Hr. apply rtc_ind_r; [|intros r1 r2 _ Hs Hi; by eapply race_asks_step].
    split; cbn; try done; [by intros u x ?%elem_of_nil|by left]. }
  split; [done|]. apply Forall_fmap. by apply H2.
Qed.

Record set_asks (ds : list string) (w0 : recording) (r : set_race (W := recording)) : Prop := {
  sa_world : within ds w0 (s_world r);
  sa_posting : s_posting r ⊆ ds;
  sa_waiting : s_waiting r ⊆ ds;
  sa_fast : known ds (s_fastURL r);
  sa_returned : forall res effs, s_returned r = Some (res, effs) -> effects_known ds effs;
}.

Lemma set_asks_step key value ds w0 r r' :
  set_asks ds w0 r -> set_step cfg rec_post ds key value r r' -> set_asks ds w0 r'.
Proof.
  intros [Hw Hp Hq Hf Hr] Hs. inversion Hs as [? l1 url l2 Hpe|? l1 url l2 Hwe|? Hsend|? Hn|? res Hn Hv]; subst.
  - assert (url :: l1 ++ l2 ⊆ ds) as Hsub by (intros u Hu; apply Hp; rewrite Hpe; by apply elem_of_middle).
    assert (url ∈ ds) as Hin by (apply Hsub; by left).
    pose proof (set_within ds (s_world r) key value url Hin) as Hw'. unfold set_post.
    destruct (set cfg rec_post (s_world r) key value url) as [w' [d err]]. split; cbn; try done.
    + by etrans.
    + intros u Hu. apply Hsub. by right.
    + intros u [?|E%list_elem_of_singleton]%elem_of_app; [by apply Hq|by rewrite E].
  - assert (url :: l1 ++ l2 ⊆ ds) as Hsub by (intros u Hu; apply Hq; rewrite Hwe; by apply elem_of_middle).
    split; cbn [set_lock s_world s_posting s_waiting s_fastURL s_returned]; try done.
    + intros u Hu. apply Hsub. by right.
    + destruct (_ && _); [right; apply Hsub; by left|done].
  - by split.
  - split; cbn; try done. intros res effs [= ? <-]. apply Forall_singleton. by left.
  - split; cbn; try done. intros x effs [= ? <-]. destruct res; [constructor|by apply Forall_singleton].
Qed.

Lemma tryAllDBSet_asks c w key value w' err effs :
  tryAllDBSet cfg rec_post c w key value w' err effs ->
  within (elems (dbs c)) w w' /\ effects_known (elems (dbs c)) effs.
Proof.
  intros Ht. inversion Ht as [|r ? ? _ Hr Hret]; subst; [by split; [|constructor]|].
  assert (set_asks (elems (dbs c)) w r) as [H1 _ _ _ H2]; [|by split; [|eapply H2]].
  clear Hret Ht. revert r Hr. apply rtc_ind_r; [|intros r1 r2 _ Hs Hi; by eapply set_asks_step].
  split; cbn; try done; [by intros u ?%elem_of_nil|by left].
Qed.

Record cache_asks (cs : list string) (w0 : recording) (r : cache_race (W := recording)) : Prop := {
  ca_world : within cs w0 (k_world r);
  ca_pending : k_pending r ⊆ cs;
  ca_waiting : forall url found, (url, found) ∈ k_waiting r -> url ∈ cs;
  ca_fast : known cs (k_fastURL r);
  ca_effects : effects_known cs (k_effects r);
}.

Lemma cache_asks_step key cs w0 r r' :
  cache_asks cs w0 r -> cache_step cfg rec_get cs key r r' -> cache_asks cs w0 r'.
Proof.
  intros [Hw Hp Hq Hf He] Hs. inversion Hs as [? l1 url l2 Hpe|? l1 url found l2 Hwe|? Hc|? Hn|? value Hn Hv]; subst.
  - assert (url :: l1 ++ l2 ⊆ cs) as Hsub by (intros u Hu; apply Hp; rewrite Hpe; by apply elem_of_middle).
    assert (url ∈ cs) as Hin by (apply Hsub; by left).
    pose proof (find_within cs (k_world r) key url (requestTimeout cfg) Hin) as Hw'. unfold cache_query.
    destruct (find cfg rec_get (k_world r) key url _) as [w' found]. split; cbn; try done.
    + by etrans.
    + intros u Hu. apply Hsub. by right.
    + intros u x [?|E%list_elem_of_singleton]%elem_of_app; [by eapply Hq|]. by injection E as -> _.
  - assert (forall u x, (u, x) ∈ (url, found) :: l1 ++ l2 -> u ∈ cs) as Hsub.
    { intros u x Hu. apply (Hq u x). rewrite Hwe. by apply elem_of_middle. }
    destruct found as [d res]. split; cbn [cache_lock k_world k_pending k_waiting k_fastURL k_effects]; try done.
    + intros u x Hu. apply (Hsub u x). by right.
    + destruct (_ <=? _)%Z; [|done]. right. apply (Hsub url (d, res)). by left.
  - split; cbn; try done. apply Forall_app. split; [done|].
    destruct (decide _); [by apply Forall_singleton|constructor].
  - by split.
  - by split.
Qed.

Lemma tryAllCaches_asks c w key w' res effs :
  tryAllCaches cfg rec_get c w key w' res effs ->
  within (elems (caches c)) w w' /\ effects_known (elems (caches c)) effs.
Proof.
  intros Ht. inversion Ht as [|r ? _ Hr Hret]; subst; [by split; [|constructor]|].
  assert (cache_asks (elems (caches c)) w r) as [H1 _ _ _ H2]; [|done].
  clear Hret Ht. revert r Hr. apply rtc_ind_r; [|intros r1 r2 _ Hs Hi; by eapply cache_asks_step].
  split; cbn; try done; [by intros u x ?%elem_of_nil|by left|by constructor].
Qed.

(** *** The calls *)

Record client_known (l : list string) (c : client) : Prop := {
  ck_dbs : elems (dbs c) ⊆ l;
  ck_caches : elems (caches c) ⊆ l;
  ck_fastDB : known l (fastDB c);
  ck_fastCache : known l (fastCache c);
}.

(** Of the listed servers and of the empty one. *)
Definition asks (l : list string) (w w' : recording) (effs : list effect) : Prop :=
  within ("" :: l) w w' /\ effects_known l effs.

Lemma known_cons l srv : known l srv -> srv ∈ "" :: l.
Proof. intros [->|Hin]; [by left|by right]. Qed.

Lemma asks_all l l' w w' effs : l ⊆ l' -> within l w w' /\ effects_known l effs -> asks l' w w' effs.
Proof.
  intros Hl [H1 H2]. split; [|by eapply effects_known_mono]. eapply within_mono; [|exact H1].
  intros u Hu. right. by apply Hl.
Qed.

Lemma asks_find l w key srv t w' x effs :
  known l srv -> find cfg rec_get w key srv t = (w', x) -> effects_known l effs -> asks l w w' effs.
Proof.
  intros Hk%known_cons E He. pose proof (find_within _ w key srv t Hk) as H. rewrite E in H. by split.
Qed.

Lemma asks_set l w key value srv w' x effs :
  known l srv -> set cfg rec_post w key value srv = (w', x) -> effects_known l effs -> asks l w w' effs.
Proof.
  intros Hk%known_cons E He. pose proof (set_within _ w key value srv Hk) as H. rewrite E in H. by split.
Qed.

Lemma resets_known l (d : Z) : effects_known l (if (idealResponseDuration cfg <? d)%Z then [SetFastDB ""] else []).
Proof. destruct (_ <? _)%Z; [|constructor]. apply Forall_singleton. by left. Qed.

Lemma call_step_asks l c w x w' x' effs :
  client_known l c -> call_step cfg rec_get rec_post c w x w' x' effs -> asks l w w' effs.
Proof.
  intros [Hd Hc Hf Hg] Hs.
  inversion Hs as [|? ? ? ? E|? ? ? ? ? E|? ? ? ? ? Ht| |? ? ? ? ? E|? ? ? ? Ht| |? ? ? ? E|? ? ? ? E|? ? ? ? Ht]; subst.
  all: try (split; [done|constructor]).
  - eapply asks_set; [exact Hf|exact E|apply resets_known].
  - eapply asks_set; [exact Hf|exact E|constructor].
  - eapply asks_all; [exact Hd|by eapply tryAllDBSet_asks].
  - eapply asks_find; [exact Hg|exact E|constructor].
  - eapply asks_all; [exact Hc|by eapply tryAllCaches_asks].
  - eapply asks_find; [exact Hf|exact E|apply resets_known].
  - eapply asks_find; [exact Hf|exact E|constructor].
  - eapply asks_all; [exact Hd|by eapply tryAllDBFind_asks].
Qed.

(** *** A client that knows nobody *)

Definition fast_call (x : call) : bool :=
  match x with PutFast _ _ | GetFastDB _ => true | _ => false end.

Lemma within_nil w w' : within [] w w' -> w'.2 = w.2.
Proof.
  intros ([|u us] & E & H); [by rewrite E, app_nil_r|]. apply Forall_cons in H as [(srv & []%elem_of_nil & _) _].
Qed.

Lemma known_nil srv : known [] srv -> srv = "".
Proof. by intros [?|?%elem_of_nil]. Qed.

Lemma call_step_quiet c w x w' x' effs :
  client_known [] c -> fast_call x = false -> call_step cfg rec_get rec_post c w x w' x' effs ->
  w'.2 = w.2 /\ fast_call x' = false.
Proof.
  intros [Hd Hc Hf%known_nil Hg%known_nil] Hx Hs.
  inversion Hs as [| | |? ? ? ? ? Ht| |? ? ? ? Hn|? ? ? ? Ht| | | |? ? ? ? Ht]; subst.
  all: try done; try (by rewrite decide_True).
  - apply tryAllDBSet_asks in Ht as [Ht _]. split; [|done]. apply within_nil. eapply within_mono; [|exact Ht]; done.
  - apply tryAllCaches_asks in Ht as [Ht _]. split; [apply within_nil; eapply within_mono; [|exact Ht]; done|].
    unfold after_cache. case_match; [done|]. by destruct (decide _).
  - apply tryAllDBFind_asks in Ht as [Ht _]. split; [|done]. apply within_nil. eapply within_mono; [|exact Ht]; done.
Qed.

(** ** The invariant *)

Record session_inv (s : session) : Prop := {
  sv_client : client_known (ss_listed s) (ss_client s);
  sv_effects : effects_known (ss_listed s) (ss_effects s);
  sv_asked : Forall (url_of ("" :: ss_listed s)) (ss_world s).2;
  sv_quiet : ss_listed s = [] -> (ss_world s).2 = [] /\ Forall (fun x => fast_call x = false) (ss_calls s);
}.

Lemma client_known_mono l l' c : l ⊆ l' -> client_known l c -> client_known l' c.
Proof.
  intros Hl [H1 H2 H3 H4]. split; [by etrans|by etrans|by eapply known_mono|by eapply known_mono].
Qed.

Lemma elems_sorted_sub (l : slice string) L : elems l ⊆ L -> elems (sort_strings <$> l) ⊆ L.
Proof.
  intros H u Hu. apply H. destruct l as [l|]; [|done].
  cbn in *. by rewrite sort_strings_perm in Hu.
Qed.

Lemma update_known l dbPeers cachePeers c :
  client_known l c ->
  client_known (l ++ answered_list dbPeers ++ answered_list cachePeers) (update dbPeers cachePeers c).1.
Proof.
  intros Hc. set (L := l ++ _). assert (client_known L c) as Hc' by (eapply client_known_mono; [|exact Hc]; set_solver).
  destruct dbPeers as [ds|e]; [|done]. destruct cachePeers as [cs|e]; [|done]. cbn [update].
  destruct (decide _) as [_|_]; [done|]. destruct Hc' as [_ _ H3 H4].
  split; cbn [fst Client.dbs Client.caches Client.fastDB Client.fastCache]; [| |done|done];
    apply elems_sorted_sub; subst L; cbn [answered_list]; set_solver.
Qed.

Lemma session_step_inv s s' : session_inv s -> session_step s s' -> session_inv s'.
Proof.
  intros [H1 H2 H3 H4] Hs. inversion Hs as [? ds cs|? key|? key value|? l1 x l2 w' x' effs Hx Hc|? l1 e l2 He]; subst.
  - split; cbn [ss_listed ss_client ss_effects ss_world ss_calls].
    + by apply update_known.
    + eapply effects_known_mono; [|exact H2]. set_solver.
    + eapply Forall_impl; [exact H3|]. intros u. apply url_of_mono. set_solver.
    + by intros [E _]%app_nil; apply H4.
  - split; cbn; [done..|]. intros E. destruct (H4 E) as [Ha Hb]. split; [done|]. apply Forall_app. by split; [|constructor].
  - split; cbn; [done..|]. intros E. destruct (H4 E) as [Ha Hb]. split; [done|]. apply Forall_app. by split; [|constructor].
  - destruct (call_step_asks _ _ _ _ _ _ _ H1 Hc) as [(us & E & Hus) He].
    split; cbn [ss_listed ss_client ss_effects ss_world ss_calls]; [done|by apply Forall_app|rewrite E; by apply Forall_app|].
    intros En. destruct (H4 En) as [Ha Hb]. rewrite Hx in Hb. apply Forall_app in Hb as [Hb1 [Hb2 Hb3]%Forall_cons].
    rewrite En in H1. destruct (call_step_quiet _ _ _ _ _ _ H1 Hb2 Hc) as [Hw Hf]. split; [by rewrite Hw|].
    apply Forall_app. by split; [|constructor].
  - rewrite He in H2. apply Forall_app in H2 as [Ha [Hb Hc]%Forall_cons]. destruct H1 as [Hd Hk Hf Hg].
    split; cbn [ss_listed ss_client ss_effects ss_world ss_calls]; [|by apply Forall_app|done..]. by destruct e.
Qed.

(** The handle [newClient] makes, before its first poll. *)
Definition session_start (w : W) : session :=
  {| ss_world := (w, []); ss_calls := []; ss_effects := []; ss_listed := [];
     ss_client := {| dbs := Some []; caches := Some []; fastCache := ""; fastDB := "" |} |}.

(** ** Property *)

(** C15: whatever goroutines do with one client, reading, writing and polling
    at the same time, with the goroutines of their calls setting and
    resetting the fast servers between any two reads of the handle: every
    request has gone to a server that a poll had listed, or to the empty
    address, which a reset between two reads leaves; every server the handle
    knows was listed; and before a poll has listed a server nobody is
    asked. *)
Theorem asks_only_listed_servers w s :
  rtc session_step (session_start w) s ->
  (forall url, url ∈ (ss_world s).2 ->
     exists srv, (srv = "" \/ srv ∈ ss_listed s) /\
       (url = MakeURL srv +:+ "/key" \/ exists key, url = MakeURL srv +:+ "/key/" +:+ key)) /\
  (forall srv, srv ∈ servers (ss_client s) -> srv = "" \/ srv ∈ ss_listed s) /\
  (ss_listed s = [] -> (ss_world s).2 = []).
Proof.
  intros Hr. assert (session_inv s) as [[H1 H2 H3 H4] _ H6 H7].
  { revert s Hr. apply rtc_ind_r; [|intros s1 s2 _ Hs Hi; by eapply session_step_inv].
    split; [split; cbn; [done|done|by left|by left]|constructor|constructor|by split]. }
  split; [|split].
  - intros url Hu. apply (proj1 (Forall_forall _ _) H6) in Hu as (srv & Hin%elem_of_cons & E). by exists srv.
  - intros srv. unfold servers. rewrite !elem_of_cons, elem_of_app. intros [->|[->|[Hin|Hin]]]; [done|done|right; auto..].
  - intros E. by apply H7.
Qed.
End session.

(** ** Witness

    Three writes on one handle.  The first times out at once, and the
    goroutine that is to reset [fastDB] waits.  The second makes the server
    that answers the fast one.  The third finds it and is about to read it
    again when the reset comes: it posts to the URL of the empty address,
    whose host is the name of the path. *)
Definition after_reset : session (W := unit) :=
  {| ss_world := ((), ["http://b/key"; "http://key"]);
     ss_client := {| dbs := Some ["b"]; caches := Some ["b"]; fastCache := ""; fastDB := "" |};
     ss_calls := [PutDone (Some ErrTimeout); PutDone None; PutAll "k" "v"];
     ss_effects := []; ss_listed := ["b"; "b"] |}.

(** Evaluates the state a run has come to. *)
Ltac eval_state := match goal with |- rtc _ ?x _ => let y := eval vm_compute in x in change x with y end.

Lemma after_reset_reached : rtc (session_step default_Config b_get b_post) (session_start ()) after_reset.
Proof.
  eapply rtc_l; [apply (ss_poll _ _ _ _ (Ok (Some ["b"])) (Ok (Some ["b"])))|eval_state].
  eapply rtc_l; [apply (ss_Put _ _ _ _ "k" "v")|eval_state].
  eapply rtc_l; [apply (ss_call _ _ _ _ [] (PutStart "k" "v") []); [reflexivity|apply put_test]|eval_state].
  eapply rtc_l; [eapply (ss_call _ _ _ _ [] (PutAll "k" "v") []); [reflexivity|apply put_all]|].
  { eapply tryAllDBSet_race; [discriminate|apply rtc_once, set_step_timeout; reflexivity|reflexivity]. }
  eval_state. eapply rtc_l; [apply (ss_Put _ _ _ _ "k" "v")|eval_state].
  eapply rtc_l; [apply (ss_call _ _ _ _ [PutDone (Some ErrTimeout)] (PutStart "k" "v") []); [reflexivity|apply put_test]|].
  eval_state.
  eapply rtc_l; [eapply (ss_call _ _ _ _ [PutDone (Some ErrTimeout)] (PutAll "k" "v") []); [reflexivity|apply put_all]|].
  { eapply tryAllDBSet_race; [discriminate| |].
    - eapply rtc_l; [apply (set_step_post _ _ _ _ _ _ [] "b" []); reflexivity|].
      eapply rtc_l; [apply (set_step_lock _ _ _ _ _ _ [] "b" []); reflexivity|].
      eapply rtc_l; [apply set_step_send; vm_compute; reflexivity|].
      apply rtc_once. apply (set_step_receive _ _ _ _ _ _ None); vm_compute; reflexivity.
    - vm_compute. reflexivity. }
  eval_state. eapply rtc_l; [apply (ss_effect _ _ _ _ [SetFastDB ""] (SetFastDB "b") []); reflexivity|eval_state].
  eapply rtc_l; [apply (ss_Put _ _ _ _ "k" "v")|eval_state].
  eapply rtc_l; [apply (ss_call _ _ _ _ [PutDone (Some ErrTimeout); PutDone None] (PutStart "k" "v") []);
                 [reflexivity|apply put_test]|eval_state].
  eapply rtc_l; [apply (ss_effect _ _ _ _ [] (SetFastDB "") []); reflexivity|eval_state].
  eapply rtc_l; [eapply (ss_call _ _ _ _ [PutDone (Some ErrTimeout); PutDone None] (PutFast "k" "v") []);
                 [reflexivity|eapply put_failed; vm_compute; reflexivity]|].
  vm_compute. apply rtc_refl.
Qed.

Lemma asks_only_listed_witness :
  (exists srv, (srv = "" \/ srv ∈ ["b"; "b"]) /\
     ("http://b/key" = MakeURL srv +:+ "/key" \/ exists key, "http://b/key" = MakeURL srv +:+ "/key/" +:+ key)) /\
  (exists srv, (srv = "" \/ srv ∈ ["b"; "b"]) /\
     ("http://key" = MakeURL srv +:+ "/key" \/ exists key, "http://key" = MakeURL srv +:+ "/key/" +:+ key)).
Proof.
  destruct (asks_only_listed_servers default_Config b_get b_post () after_reset after_reset_reached) as (H & _).
  split; apply H; [by left|right; by left].
Defined.
