(* ===== verification/System.v ===== *)
(** * The system: database nodes, cache nodes and clients together

    A cluster is the log raft has committed, the services of the database
    nodes, each of which has applied a prefix of that log, the groupcache
    contents of the cache nodes, and what its clients have seen.  Its steps
    are the components' own operations, interleaved with what raft,
    groupcache and the network do.  Keys are written once, so a cached copy
    is never stale: any two reads of a key agree, whichever caches served
    them, before and after any writes, evictions, transfers between caches,
    restarts and changes of leader.  At the end, what a client learns when it
    talks to a database itself: reads find nothing, and a write is reported
    done whatever became of it. *)
From S2P Require Import Prelude Utf8 Json JsonTypes UrlUtil Http MetaKV Config DBMaster Store Service Client CacheMaster Race CacheNode.
From Stdlib Require Import Ascii.

(** ** The committed log *)

(** An entry that an [Add] of valid strings issues; the service issues no
    other. *)
Definition add_entry (data : string) : Prop :=
  exists kv, valid_kv kv /\ data = marshal_command (add_command kv).

Lemma add_entries_of log :
  Forall add_entry log ->
  exists kvs, log = marshal_command ∘ add_command <$> kvs /\ Forall valid_kv kvs.
Proof.
  induction 1 as [|d log (kv & Hkv & ->) _ (kvs & -> & Hv)]; [by exists []|].
  exists (kv :: kvs). split; [done|by constructor].
Qed.

(** Replaying a longer log of adds only adds keys. *)
Lemma replay_prefix l1 l2 :
  l1 `prefix_of` l2 -> Forall add_entry l2 ->
  exists g1 g2, fsm_replay (Some ∅) l1 = Ret (Some g1) /\ fsm_replay (Some ∅) l2 = Ret (Some g2) /\
    g1 ⊆ g2 /\ valid_map g2.
Proof.
  intros [l ->] [H1 Hl]%Forall_app.
  destruct (add_entries_of l1 H1) as (kvs1 & -> & Hv1). destruct (add_entries_of l Hl) as (kvs & -> & Hv).
  rewrite <-fmap_app.
  exists (∅ ∪ list_to_map kvs1), (∅ ∪ list_to_map (kvs1 ++ kvs)).
  split_and!; [by apply fsm_replay_adds|apply fsm_replay_adds; by rewrite Forall_app| |].
  - rewrite !(left_id_L ∅ (∪)), list_to_map_app. apply map_union_subseteq_l.
  - rewrite (left_id_L ∅ (∪)). intros k v Hk%elem_of_list_to_map_2.
    assert (Forall valid_kv (kvs1 ++ kvs)) as Hvv by by rewrite Forall_app.
    by apply (proj1 (Forall_forall _ _) Hvv (k, v)).
Qed.

(** A pair in the log has a value. *)
Lemma add_in_log log g key v :
  Forall add_entry log -> fsm_replay (Some ∅) log = Ret (Some g) ->
  valid_kv (key, v) -> marshal_command (add_command (key, v)) ∈ log -> exists w, g !! key = Some w.
Proof.
  intros (kvs & -> & Hv)%add_entries_of Hg [Hk _] Hin. rewrite fsm_replay_adds in Hg by done.
  injection Hg as <-. apply list_elem_of_fmap in Hin as ([k' v'] & E & Hin). cbn [compose] in E.
  apply (f_equal unmarshal_command) in E. rewrite !unmarshal_marshal in E.
  pose proof (proj1 (Forall_forall _ _) Hv _ Hin) as [Hk' _]. cbn in Hk, Hk'.
  injection E as E _. rewrite !sanitize_id in E by done. subst k'.
  rewrite (left_id_L ∅ (∪)). destruct (list_to_map kvs !! key) as [w|] eqn:El; [by exists w|].
  exfalso. apply not_elem_of_list_to_map_2 in El. apply El. apply list_elem_of_fmap. by exists (key, v').
Qed.

(** ** Keys in URLs *)

(** The key a database is asked for when a cache node fetches [key]. *)
Definition db_key (key : string) : option string :=
  path ← url_path ("/i/key/" +:+ key);
  match route_GET path with Some (GetKey k) => Some k | _ => None end.

(** The keys a database may have been asked for when a cache node has an entry
    under [key]: it has fetched the entry itself, or another node has given
    it the one of the key it was asked for. *)
Inductive asked_for : string -> string -> Prop :=
  | asked_database key k : db_key key = Some k -> asked_for key k
  | asked_peer key k1 k : peer_key key = Some k1 -> asked_for k1 k -> asked_for key k.






(** Of a key with a question mark only what is before it is asked for. *)
Example asked_for_query : db_key "a?b" = Some "a" /\ peer_key "a?b" = Some "a?b" /\ peer_key "a b" = Some "a+b".
Proof. vm_compute. done. Qed.

Section system.
Context {R : Type} `{!RaftNode R, !RaftEnv R, !RaftLog R, !RaftLogLaws R}.
Context {C : Type} `{!GroupCache C, !GroupCacheLaws C}.

Abbreviation node := (Service (Store R)).
Implicit Types s : node.

(** The entries a node has applied. *)
Definition applied s : list string :=
  match raft (store s) with Some r => raft_applied r | None => [] end.

(** Its map is what they make of the empty one. *)
Definition replayed s : Prop := fsm_replay (Some ∅) (applied s) = Ret (m (store s)).

(** ** The network

    Requests and answers may be lost, delayed and repeated.  A client of a
    server puts the key in the URL as it is, so what the server is asked for
    is the path net/url makes of it.  The world of the requests between
    caches and databases is the list of what the database nodes have answered
    so far, and a 200 answer is one a database node has given to this path. *)
Context (cfg : Config).
Context (httpGetter : HTTPGetter (list (request * Response))).
Hypothesis getter_answers : forall answered url key answered' resp,
  httpGetter answered (db_url url key) = (answered', Ok resp) -> StatusCode resp = 200%Z ->
  exists path req, url_path ("/i/key/" +:+ key) = Some path /\ route_GET path = Some req /\
    (req, resp) ∈ answered.
Hypothesis getter_reads : forall answered url, (httpGetter answered url).1 = answered.

(** The same between the clients and the cache nodes.  (The database nodes do
    not serve this path.) *)
Context (net_get : list (node_request * Response) -> string -> Z -> list (node_request * Response) * exchange).
Hypothesis net_answers : forall served url key t served' d resp,
  net_get served (MakeURL url +:+ "/key/" +:+ key) t = (served', Answered d resp) ->
  StatusCode resp = 200%Z ->
  exists path req, url_path ("/key/" +:+ key) = Some path /\ node_route_GET path = Some req /\
    (req, resp) ∈ served.
Hypothesis net_reads : forall served url t, (net_get served url t).1 = served.

(** ** The cluster *)

Record cluster : Type := {
  committed : list string;
  nodes : list node;
  (** What the database nodes have answered. *)
  answered : list (request * Response);
  cache_nodes : list (Node * C);
  (** The values the groupcache of a cache node has given, by key. *)
  given : list (string * string);
  (** What the cache nodes have answered. *)
  served : list (node_request * Response);
  reads : list (string * string);
  acked : list (string * string);
}.

Definition start : cluster :=
  {| committed := []; nodes := []; answered := []; cache_nodes := []; given := []; served := [];
     reads := []; acked := [] |}.

(** What changes when something happens to the databases, and when something
    happens to the caches. *)
Definition with_databases (cl : cluster) (log : list string) (ns : list node) : cluster :=
  {| committed := log; nodes := ns; answered := answered cl; cache_nodes := cache_nodes cl;
     given := given cl; served := served cl; reads := reads cl; acked := acked cl |}.
Definition with_answer (cl : cluster) (req : request) (resp : Response) (ak : list (string * string)) : cluster :=
  {| committed := committed cl; nodes := nodes cl; answered := (req, resp) :: answered cl;
     cache_nodes := cache_nodes cl; given := given cl; served := served cl; reads := reads cl;
     acked := ak ++ acked cl |}.
Definition with_caches (cl : cluster) (cs : list (Node * C)) (gv : list (string * string))
    (sv : list (node_request * Response)) : cluster :=
  {| committed := committed cl; nodes := nodes cl; answered := answered cl; cache_nodes := cs;
     given := gv ++ given cl; served := sv ++ served cl; reads := reads cl; acked := acked cl |}.
Definition with_read (cl : cluster) (key v : string) : cluster :=
  {| committed := committed cl; nodes := nodes cl; answered := answered cl; cache_nodes := cache_nodes cl;
     given := given cl; served := served cl; reads := (key, v) :: reads cl; acked := acked cl |}.

(** The write that a response acknowledges. *)
Definition ack_of (req : request) (resp : Response) : list (string * string) :=
  match req with
  | PostKey body =>
    if decide (resp = respond StatusOK_http (marshal_Status StatusOK))
    then match json_decode dec_kv body with Ok kv => [kv] | Err _ => [] end
    else []
  | _ => []
  end.

Inductive cluster_step : cluster -> cluster -> Prop :=
  (** A database node, the leader or one that takes itself for it, serves a
      request.  An entry is only committed at the end of the log. *)
  | step_serve cl i s req s' resp b committed' :
      nodes cl !! i = Some s -> serve s req = Ret (s', resp, b) ->
      (applied s' = applied s /\ committed' = committed cl) \/
      (applied s = committed cl /\ committed' = applied s') ->
      cluster_step cl (with_answer (with_databases cl committed' (<[i := s']> (nodes cl))) req resp
                         (ack_of req resp))
  (** An entry of an [Add] is committed after the node that proposed it has
      given up waiting. *)
  | step_commit cl data :
      add_entry data -> cluster_step cl (with_databases cl (committed cl ++ [data]) (nodes cl))
  (** The raft of a node hands the next committed entry to the state
      machine. *)
  | step_apply cl i s r r' data m' resp :
      nodes cl !! i = Some s -> raft (store s) = Some r ->
      committed cl !! length (raft_applied r) = Some data ->
      raft_applied r' = raft_applied r ++ [data] ->
      fsm_Apply (m (store s)) data = Ret (m', resp) ->
      cluster_step cl (with_databases cl (committed cl)
                         (<[i := with_store s (with_m (with_raft (store s) r') m')]> (nodes cl)))
  (** It restores the snapshot another node has persisted. *)
  | step_restore cl i j s s0 r r' m' :
      nodes cl !! i = Some s -> nodes cl !! j = Some s0 ->
      raft (store s) = Some r -> raft_applied r' = applied s0 ->
      fsm_Restore (m (store s)) (print_json (enc_map (fsm_Snapshot (m (store s0))))) = (m', None) ->
      cluster_step cl (with_databases cl (committed cl)
                         (<[i := with_store s (with_m (with_raft (store s) r') m')]> (nodes cl)))
  (** Elections and all else that happens within raft. *)
  | step_raft cl i s r r' :
      nodes cl !! i = Some s -> raft (store s) = Some r -> raft_applied r' = raft_applied r ->
      cluster_step cl (with_databases cl (committed cl) (<[i := with_store s (with_raft (store s) r')]> (nodes cl)))
  (** A node starts, or starts again, or goes: its state machine is empty
      and the log will be replayed. *)
  | step_nodes cl l1 l l2 l' :
      nodes cl = l1 ++ l ++ l2 ->
      Forall (fun s => m (store s) = m (Store_New (R := R)) /\ applied s = []) l' ->
      cluster_step cl (with_databases cl (committed cl) (l1 ++ l' ++ l2))
  (** A cache node serves a request of the master or of a client; a key it
      owns it fetches from the databases if it has to, by answers that have
      been given by then. *)
  | step_cache_serve cl l1 n c l2 stats fast req n' c' w' resp :
      cache_nodes cl = l1 ++ (n, c) :: l2 ->
      node_serve httpGetter stats n fast c (answered cl) req n' c' w' resp ->
      cluster_step cl (with_caches cl (l1 ++ (n', c') :: l2) [] [(req, resp)])
  (** It gives the value of a key to another cache node. *)
  | step_cache_get cl l1 n c l2 fast key c' w' body :
      cache_nodes cl = l1 ++ (n, c) :: l2 ->
      group_Get httpGetter n fast c (answered cl) key c' w' (Ok body) ->
      cluster_step cl (with_caches cl (l1 ++ (n, c') :: l2) [(key, body)] [])
  (** A cache node takes the value of a key from the cache node that owns it,
      keeps it or not, and answers clients and other cache nodes by it. *)
  | step_peer cl l1 n c l2 key k1 body c' :
      cache_nodes cl = l1 ++ (n, c) :: l2 -> peer_key key = Some k1 -> (k1, body) ∈ given cl ->
      c' = c \/ c' = gc_populate c key body ->
      cluster_step cl (with_caches cl (l1 ++ (n, c') :: l2) [(key, body)] [(NodeGetKey key, handleGetKey (Ok body))])
  (** It evicts entries or sets its fast database; or a node joins with an
      empty cache or leaves. *)
  | step_cache_change cl l1 l l2 l' :
      cache_nodes cl = l1 ++ l ++ l2 ->
      (forall n c key body, (n, c) ∈ l' -> gc_lookup c key = Some body ->
         exists n0 c0, (n0, c0) ∈ l /\ gc_lookup c0 key = Some body) ->
      cluster_step cl (with_caches cl (l1 ++ l' ++ l2) [] [])
  (** A client reads a key, by answers that have been given by then. *)
  | step_read cl c key served' v effs :
      KV_Get cfg net_get c (served cl) key served' (Ok v) effs ->
      cluster_step cl (with_read cl key v).

(** ** The invariant: every copy is the value of the committed log *)

(** The answer for a key that has the value [v]. *)
Definition is_answer (g : gmap string string) (k body : string) : Prop :=
  exists v, v <> "" /\ g !! k = Some v /\ body = marshal_kvResp k v.

(** The answer for a key a database may have been asked for. *)
Definition copy_of (g : gmap string string) (key body : string) : Prop :=
  exists k, asked_for key k /\ is_answer g k body.

(** A node is behind or level with the log. *)
Definition follows (log : list string) s : Prop := applied s `prefix_of` log /\ replayed s.

Record coherent (cl : cluster) (g : gmap string string) : Prop := {
  coh_log : Forall add_entry (committed cl);
  coh_state : fsm_replay (Some ∅) (committed cl) = Ret (Some g);
  coh_nodes : Forall (follows (committed cl)) (nodes cl);
  coh_answered : forall k resp, (GetKey k, resp) ∈ answered cl -> StatusCode resp = 200%Z ->
    is_answer g k (Body resp);
  coh_caches : forall n c key body, (n, c) ∈ cache_nodes cl -> gc_lookup c key = Some body ->
    copy_of g key body;
  coh_given : forall key body, (key, body) ∈ given cl -> copy_of g key body;
  coh_served : forall key resp, (NodeGetKey key, resp) ∈ served cl -> StatusCode resp = 200%Z ->
    copy_of g key (Body resp);
  coh_reads : forall key v, (key, v) ∈ reads cl -> v <> "" /\ g !! key = Some v;
  coh_acked : forall kv, kv ∈ acked cl -> valid_kv kv /\ marshal_command (add_command kv) ∈ committed cl;
}.

Lemma is_answer_mono g g' k body : g ⊆ g' -> is_answer g k body -> is_answer g' k body.
Proof. intros Hsub (v & Hv & Hk & ->). exists v. split; [done|]. split; [by eapply lookup_weaken|done]. Qed.

Lemma copy_of_mono g g' key body : g ⊆ g' -> copy_of g key body -> copy_of g' key body.
Proof. intros Hsub (k & Ha & Hk). exists k. split; [done|]. by eapply is_answer_mono. Qed.

Lemma follows_mono log log' s : log `prefix_of` log' -> follows log s -> follows log' s.
Proof. intros Hp [Ha Hr]. split; [by etrans|done]. Qed.

(** What a node that follows the log has is what the log says. *)
Lemma follows_state log s g :
  Forall add_entry log -> fsm_replay (Some ∅) log = Ret (Some g) -> follows log s ->
  exists g0, m (store s) = Some g0 /\ g0 ⊆ g /\ valid_map g.
Proof.
  intros Hl Hg [Hp Hr]. destruct (replay_prefix _ _ Hp Hl) as (g1 & g2 & H1 & H2 & Hsub & Hv).
  unfold replayed in Hr. rewrite H1 in Hr. rewrite Hg in H2. injection Hr as Hr. injection H2 as <-.
  by exists g1.
Qed.

(** A 200 answer of its read handler is a copy. *)
Lemma follows_copy log s g key resp :
  Forall add_entry log -> fsm_replay (Some ∅) log = Ret (Some g) -> follows log s ->
  handleGet s key = Ret resp -> StatusCode resp = 200%Z -> is_answer g key (Body resp).
Proof.
  intros Hl Hg Hs Hh Hst. destruct (follows_state _ _ _ Hl Hg Hs) as (g0 & Hm & Hsub & _).
  destruct (handleGet_200 _ _ _ Hh Hst) as (v & Hv & Hk & ->). rewrite Hm in Hk.
  exists v. split; [done|]. split; [|done]. by eapply lookup_weaken.
Qed.

Lemma parse_kvResp k v key v' :
  valid_utf8 k = true -> valid_utf8 v = true -> parseData (marshal_kvResp k v) key = Ok v' ->
  key = k /\ v' = v.
Proof.
  intros Hk Hv. unfold parseData, marshal_kvResp. rewrite json_unmarshal_print by done.
  cbn [sanitize_json]. rewrite !fmap_cons. cbn [fmap list_fmap]. cbn [sanitize_json].
  change (sanitize "key") with "key". change (sanitize "value") with "value".
  assert (find_field ["key"; "value"; "code"; "message"] "key" = Some 0) as E1 by (vm_compute; reflexivity).
  assert (find_field ["key"; "value"; "code"; "message"] "value" = Some 1) as E2 by (vm_compute; reflexivity).
  unfold dec_kvParams. cbn [dec_kvParams_members]. rewrite E1. cbn [dec_string mbind result_bind].
  rewrite E2, (sanitize_id v), (sanitize_id k) by done. cbn [Client.Key Client.Value mbind result_bind].
  destruct (decide (k <> key)) as [|E%dec_stable]; [done|]. destruct (decide (v = "")); [done|]. by intros [= <-].
Qed.

(** *** The log grows *)

(** Everything but the nodes follows the log. *)
Lemma coherent_grow cl g committed' nodes' :
  coherent cl g -> committed cl `prefix_of` committed' -> Forall add_entry committed' ->
  Forall (follows committed') nodes' ->
  exists g', coherent (with_databases cl committed' nodes') g' /\ g ⊆ g'.
Proof.
  intros [Hl Hg Hn Hdb Hc Hgv Hs Hr Ha] Hp Hl' Hn'.
  destruct (replay_prefix _ _ Hp Hl') as (g1 & g2 & H1 & H2 & Hsub & _).
  rewrite Hg in H1. injection H1 as <-. exists g2. split; [|done]. split; cbn; try done.
  - intros. eapply is_answer_mono; [done|by eapply Hdb].
  - intros. eapply copy_of_mono; [done|by eapply Hc].
  - intros. eapply copy_of_mono; [done|by eapply Hgv].
  - intros. eapply copy_of_mono; [done|by eapply Hs].
  - intros key v Hin. destruct (Hr key v Hin) as [Hv Hk]. split; [done|]. by eapply lookup_weaken.
  - intros kv [Hv Hin]%Ha. split; [done|]. destruct Hp as [l ->]. apply elem_of_app. by left.
Qed.

Lemma Forall_follows_mono log log' l :
  log `prefix_of` log' -> Forall (follows log) l -> Forall (follows log') l.
Proof. intros Hp Hl. eapply Forall_impl; [exact Hl|]. intros s. by apply follows_mono. Qed.

(** An entry at the end of what a node has applied. *)
Lemma replayed_snoc s r r' data m' resp :
  replayed s -> raft (store s) = Some r -> raft_applied r' = raft_applied r ++ [data] ->
  fsm_Apply (m (store s)) data = Ret (m', resp) ->
  replayed (with_store s (with_m (with_raft (store s) r') m')).
Proof.
  unfold replayed, applied. cbn. intros Hr Hraft -> Ha. rewrite Hraft in Hr.
  rewrite fsm_replay_app, Hr. cbn. by rewrite Ha.
Qed.

Lemma replayed_same s r' :
  replayed s -> raft_applied r' = applied s -> replayed (with_store s (with_raft (store s) r')).
Proof. unfold replayed, applied. cbn. by intros Hr ->. Qed.

Lemma applied_with s st r :
  raft st = Some r -> applied (with_store s st) = raft_applied r.
Proof. unfold applied. cbn. by intros ->. Qed.

(** Only a success is answered with the status OK. *)
Lemma ack_needs_success (err : error) :
  respond StatusOK_http (marshal_Status
    match err with
    | Some e => if e ==e raftboltdb_ErrKeyDuplicated then StatusKeyDuplicate else StatusInternalError
    | None => StatusOK
    end) = respond StatusOK_http (marshal_Status StatusOK) -> err = None.
Proof.
  rewrite !respond_eq by done. destruct err as [e|]; [|done].
  destruct (e ==e _); intros [= H]; vm_compute in H; discriminate H.
Qed.

Lemma elem_of_ack key v req resp :
  (key, v) ∈ ack_of req resp -> exists body, req = PostKey body /\
    resp = respond StatusOK_http (marshal_Status StatusOK) /\ json_decode dec_kv body = Ok (key, v).
Proof.
  destruct req as [|body| | |]; cbn; try by intros ?%elem_of_nil.
  destruct (decide _) as [->|]; [|by intros ?%elem_of_nil].
  destruct (json_decode dec_kv body) as [kv|] eqn:E; [|by intros ?%elem_of_nil].
  intros ->%list_elem_of_singleton. by exists body.
Qed.

(** What a request does to the log of a node. *)
Lemma serve_applied s req s' resp b :
  serve s req = Ret (s', resp, b) -> replayed s ->
  replayed s' /\
  ((applied s' = applied s /\ ack_of req resp = []) \/
   exists kv, valid_kv kv /\ applied s' = applied s ++ [marshal_command (add_command kv)] /\
     forall kv', kv' ∈ ack_of req resp -> kv' = kv).
Proof.
  intros H Hr.
  assert (forall l : list (string * string), (forall key v, (key, v) ∉ l) -> l = []) as Hnil.
  { intros [|[k v] l] Hl; [done|]. destruct (Hl k v). by left. }
  destruct (serve_cases _ _ _ _ _ H) as [[-> H400]|[(body & r & addr & -> & Hraft & ->)|
    (body & key & value & st & err & -> & Hj & E & -> & ->)]].
  - split; [done|left; split; [done|]]. apply Hnil. intros key v Hin.
    apply elem_of_ack in Hin as (body & Hreq & -> & _). specialize (H400 body Hreq).
    by rewrite respond_eq in H400.
  - assert (raft_applied (raft_AddPeer r addr).1 = applied s) as Ea
      by (rewrite applied_AddPeer; unfold applied; by rewrite Hraft).
    split; [by apply replayed_same|left]. split; [exact Ea|done].
  - destruct (dec_kv_valid _ _ _ Hj) as [Hk Hv].
    assert (err <> None -> ack_of (PostKey body) (respond StatusOK_http (marshal_Status
      match err with
      | Some e => if e ==e raftboltdb_ErrKeyDuplicated then StatusKeyDuplicate else StatusInternalError
      | None => StatusOK
      end)) = []) as Hnone.
    { intros He. apply Hnil. intros k v Hin. apply elem_of_ack in Hin as (? & _ & Hresp & _).
      by apply He, ack_needs_success. }
    destruct (Store_Add_cases _ _ _ _ _ E) as (r & Hraft & [[-> [e ->]]|[(r' & e & Hc & -> & ->)|
      (r' & m' & x & Hc & Ha & -> & ->)]]).
    + destruct s as [ra ha stt]. split; [exact Hr|left]. split; [done|by apply Hnone].
    + assert (raft_applied r' = applied s) as Ea
        by (rewrite (applied_refuse _ _ _ _ Hc); unfold applied; by rewrite Hraft).
      split; [by apply replayed_same|left]. split; [exact Ea|by apply Hnone].
    + apply applied_commit in Hc. split; [by eapply replayed_snoc|right]. exists (key, value).
      split; [done|]. split.
      * unfold applied. cbn. by rewrite Hraft, Hc.
      * intros [k v] Hin. apply elem_of_ack in Hin as (body' & [= <-] & _ & Hj'). congruence.
Qed.

(** An answer of a node that follows the log, and the acknowledgement it
    is. *)
Lemma coherent_answer cl g req resp ak :
  coherent cl g ->
  (forall k, req = GetKey k -> StatusCode resp = 200%Z -> is_answer g k (Body resp)) ->
  (forall kv, kv ∈ ak -> valid_kv kv /\ marshal_command (add_command kv) ∈ committed cl) ->
  coherent (with_answer cl req resp ak) g.
Proof.
  intros [] Hresp Hak. split; cbn; try done.
  - intros k r [[= <- ->]|Hin]%elem_of_cons Hst; [by apply Hresp|by eauto].
  - intros kv [Hin|Hin]%elem_of_app; [by apply Hak|by eauto].
Qed.

Lemma step_serve_coherent cl g i s req s' resp b committed' :
  coherent cl g -> nodes cl !! i = Some s -> serve s req = Ret (s', resp, b) ->
  (applied s' = applied s /\ committed' = committed cl) \/
  (applied s = committed cl /\ committed' = applied s') ->
  exists g', coherent (with_answer (with_databases cl committed' (<[i := s']> (nodes cl))) req resp
                         (ack_of req resp)) g'.
Proof.
  intros Hco Hi Hs Hplace. pose proof (coh_nodes _ _ Hco) as Hn.
  pose proof (Forall_lookup_1 _ _ _ _ Hn Hi) as [Hp Hr].
  assert (forall k, req = GetKey k -> StatusCode resp = 200%Z -> is_answer g k (Body resp)) as Hresp.
  { intros k -> Hst. cbn [serve] in Hs. destruct (handleGet s k) as [resp'|] eqn:E; [|done].
    cbn in Hs. injection Hs as _ -> _.
    by apply (follows_copy (committed cl) s g k resp (coh_log _ _ Hco) (coh_state _ _ Hco)). }
  destruct (serve_applied _ _ _ _ _ Hs Hr) as [Hr' [[Ea Hack]|(kv & Hkv & Ea & Hack)]].
  - assert (committed' = committed cl) as -> by (destruct Hplace as [[_ ?]|[E1 ->]]; congruence).
    destruct (coherent_grow cl g (committed cl) (<[i := s']> (nodes cl)) Hco) as (g' & Hco' & Hsub);
      [done|by apply Hco| |].
    { apply Forall_insert; [done|]. split; [by rewrite Ea|done]. }
    exists g'. rewrite Hack. apply coherent_answer; [done| |by intros kv ?%elem_of_nil].
    intros k E Hst. eapply is_answer_mono; [done|by apply Hresp].
  - assert (applied s = committed cl /\ committed' = applied s') as [Ec ->].
    { destruct Hplace as [[E _]|?]; [|done]. rewrite Ea in E.
      apply (f_equal length) in E. rewrite length_app in E. cbn in E. lia. }
    rewrite Ea, Ec.
    destruct (coherent_grow cl g (committed cl ++ [marshal_command (add_command kv)]) (<[i := s']> (nodes cl)) Hco)
      as (g' & Hco' & Hsub); [by eexists| | |].
    + apply Forall_app. split; [by apply Hco|]. constructor; [by exists kv|done].
    + apply Forall_insert; [eapply Forall_follows_mono; [by eexists|done]|].
      split; [|done]. by rewrite Ea, Ec.
    + exists g'. apply coherent_answer; [done| |].
      * intros k E Hst. eapply is_answer_mono; [done|by apply Hresp].
      * intros kv' Hin. rewrite (Hack _ Hin). split; [done|]. apply elem_of_app. right. by left.
Qed.

(** *** Steps of the database nodes *)

Lemma coherent_nodes cl g nodes' :
  coherent cl g -> Forall (follows (committed cl)) nodes' ->
  exists g', coherent (with_databases cl (committed cl) nodes') g'.
Proof.
  intros Hco Hn. destruct (coherent_grow cl g (committed cl) nodes') as (g' & H & _);
    [done|done|by apply Hco|done|by exists g'].
Qed.

Lemma step_apply_follows log s r r' data m' resp :
  follows log s -> raft (store s) = Some r -> log !! length (raft_applied r) = Some data ->
  raft_applied r' = raft_applied r ++ [data] -> fsm_Apply (m (store s)) data = Ret (m', resp) ->
  follows log (with_store s (with_m (with_raft (store s) r') m')).
Proof.
  intros [Hp Hr] Hraft Hd Ha Happ. split; [|by eapply replayed_snoc].
  unfold applied in *. cbn. rewrite Hraft in Hp. rewrite Ha. destruct Hp as [l ->].
  rewrite lookup_app_r, Nat.sub_diag in Hd by done. destruct l as [|d l]; [done|].
  injection Hd as ->. exists l. by rewrite <-(assoc_L (++)).
Qed.

Lemma step_restore_follows log g s s0 r' m' :
  Forall add_entry log -> fsm_replay (Some ∅) log = Ret (Some g) -> follows log s0 ->
  raft_applied r' = applied s0 ->
  fsm_Restore (m (store s)) (print_json (enc_map (fsm_Snapshot (m (store s0))))) = (m', None) ->
  follows log (with_store s (with_m (with_raft (store s) r') m')).
Proof.
  intros Hl Hg Hf Ha Hm. destruct (follows_state _ _ _ Hl Hg Hf) as (g0 & Hm0 & Hsub & Hv).
  rewrite restore_persisted in Hm.
  2: { exists g0. split; [done|]. intros k v Hk. apply (Hv k v). by eapply lookup_weaken. }
  injection Hm as <-. destruct Hf as [Hp Hr]. unfold follows, replayed, applied in *. cbn.
  by rewrite Ha.
Qed.

(** *** Steps of the caches *)

Lemma after_gets_same w w' : after_gets httpGetter w w' -> w' = w.
Proof. induction 1 as [|s1 s2 s3 [url ->] _ IH]; [done|]. by rewrite IH. Qed.

(** A path below [/i/key/] is a request for a key or none. *)
Lemma key_route key path req :
  url_path ("/i/key/" +:+ key) = Some path -> route_GET path = Some req -> exists k, req = GetKey k.
Proof.
  rewrite url_path_app by done. destruct (url_path key) as [p|]; [|done]. intros [= <-].
  unfold route_GET. rewrite !decide_False by done. destruct (HasPrefix _ _); [|done].
  destruct (decide _); [done|]. intros [= <-]. by eexists.
Qed.

Lemma node_key_route key path req :
  url_path ("/key/" +:+ key) = Some path -> node_route_GET path = Some req -> exists k, req = NodeGetKey k.
Proof.
  rewrite url_path_app by done. destruct (url_path key) as [p|]; [|done]. intros [= <-].
  unfold node_route_GET. rewrite decide_False by done. destruct (HasPrefix _ _); [|done].
  destruct (decide _); [done|]. intros [= <-]. by eexists.
Qed.

Lemma fetched_copy cl g n fast key w' f v :
  coherent cl g -> fetchData httpGetter n fast (answered cl) key w' f -> f_err f = None -> f_dest f = Some v ->
  copy_of g key v.
Proof.
  intros Hco Hf He Hv. destruct (fetchData_told _ _ _ _ _ _ _ Hf He) as (b & url & w1 & w2 & Hb & Hne & ->%after_gets_same & Hget).
  rewrite Hv in Hb. injection Hb as <-.
  destruct (getter_answers _ _ _ _ _ Hget eq_refl) as (path & req & Hp & Hroute & Hin).
  destruct (key_route _ _ _ Hp Hroute) as [k ->]. exists k. split.
  - apply asked_database. unfold db_key. rewrite Hp. cbn. by rewrite Hroute.
  - exact (coh_answered _ _ Hco _ _ Hin eq_refl).
Qed.

Lemma group_Get_copy cl g n fast c key c' w' r :
  coherent cl g -> (forall k b, gc_lookup c k = Some b -> copy_of g k b) ->
  group_Get httpGetter n fast c (answered cl) key c' w' r ->
  (forall body, r = Ok body -> copy_of g key body) /\ forall k b, gc_lookup c' k = Some b -> copy_of g k b.
Proof.
  intros Hco Hc Hg. inversion Hg as [v Hl|? f v Hn Hf He Hv|? f e Hn Hf He]; subst.
  - split; [|done]. intros body [= <-]. by apply Hc.
  - assert (copy_of g key v) as Hcopy by by eapply fetched_copy.
    split; [by intros body [= <-]|]. intros k b [[-> ->]|Hk]%gc_populate_law; [done|by apply Hc].
  - by split.
Qed.

Lemma handleGetKey_200 r : StatusCode (handleGetKey r) = 200%Z -> r = Ok (Body (handleGetKey r)).
Proof. destruct r as [body|e]; [done|]. unfold handleGetKey. by destruct (e ==e _). Qed.

(** What a cache node serves. *)
Lemma node_serve_copy cl g stats n fast c req n' c' w' resp :
  coherent cl g -> (forall k b, gc_lookup c k = Some b -> copy_of g k b) ->
  node_serve httpGetter stats n fast c (answered cl) req n' c' w' resp ->
  (forall key, req = NodeGetKey key -> StatusCode resp = 200%Z -> copy_of g key (Body resp)) /\
  forall k b, gc_lookup c' k = Some b -> copy_of g k b.
Proof.
  intros Hco Hc Hs. inversion Hs as [body| |key ? ? r Hg]; subst; [by split|by split|].
  destruct (group_Get_copy _ _ _ _ _ _ _ _ _ Hco Hc Hg) as [Hr Hc']. split; [|done].
  intros ? [= <-] Hst. apply Hr. by apply handleGetKey_200.
Qed.

(** Caches replaced by ones that hold copies, and copies given and served. *)
Lemma coherent_caches cl g l gv sv :
  coherent cl g ->
  (forall n c key body, (n, c) ∈ l -> gc_lookup c key = Some body -> copy_of g key body) ->
  (forall key body, (key, body) ∈ gv -> copy_of g key body) ->
  (forall key resp, (NodeGetKey key, resp) ∈ sv -> StatusCode resp = 200%Z -> copy_of g key (Body resp)) ->
  coherent (with_caches cl l gv sv) g.
Proof.
  intros [] Hl Hg Hs. split; cbn; try done.
  - intros key body [Hin|Hin]%elem_of_app; [by apply Hg|by eauto].
  - intros key resp [Hin|Hin]%elem_of_app; [by apply Hs|by eauto].
Qed.

(** One cache of the list replaced. *)
Lemma one_cache cl g l1 n c n' c' l2 :
  coherent cl g -> cache_nodes cl = l1 ++ (n, c) :: l2 ->
  (forall k b, gc_lookup c' k = Some b -> copy_of g k b) ->
  forall n0 c0 key body, (n0, c0) ∈ l1 ++ (n', c') :: l2 -> gc_lookup c0 key = Some body ->
  copy_of g key body.
Proof.
  intros Hco Hn Hc' n0 c0 key body Hin Hl.
  apply elem_of_middle, elem_of_cons in Hin as [[= -> ->]|Hin]; [by apply Hc'|].
  eapply (coh_caches _ _ Hco); [|exact Hl]. rewrite Hn. apply elem_of_middle. by right.
Qed.

Lemma cache_at cl g l1 n c l2 k b :
  coherent cl g -> cache_nodes cl = l1 ++ (n, c) :: l2 -> gc_lookup c k = Some b -> copy_of g k b.
Proof.
  intros Hco Hn Hl. eapply (coh_caches _ _ Hco); [|exact Hl]. rewrite Hn. apply elem_of_middle. by left.
Qed.

(** *** Reads *)

Lemma state_valid cl g : coherent cl g -> valid_map g.
Proof.
  intros Hco. destruct (replay_prefix (committed cl) (committed cl) ltac:(done) (coh_log _ _ Hco))
    as (g1 & g2 & _ & E & _ & Hval). rewrite (coh_state _ _ Hco) in E. by injection E as <-.
Qed.

Lemma coherent_read cl g c key served' v effs :
  coherent cl g -> KV_Get cfg net_get c (served cl) key served' (Ok v) effs -> v <> "" /\ g !! key = Some v.
Proof.
  intros Hco Hg. apply KV_Get_told in Hg.
  destruct Hg as (url & w1 & t & w2 & d & _ & Hw & Hf); [done|].
  apply find_value in Hf as (Hv & resp & Hn & Hs & Hp). split; [done|].
  assert (w1 = served cl) as ->.
  { clear -Hw net_reads. induction Hw as [|a b z [u [t' ->]] _ IH]; [done|]. by rewrite IH, net_reads. }
  destruct (net_answers _ _ _ _ _ _ _ Hn Hs) as (path & req & Hpath & Hroute & Hin).
  destruct (node_key_route _ _ _ Hpath Hroute) as [key1 ->].
  destruct (coh_served _ _ Hco _ _ Hin Hs) as (k & _ & v0 & Hv0 & Hk & E). rewrite E in Hp.
  destruct (state_valid _ _ Hco k v0 Hk) as [Hvk Hvv].
  by apply parse_kvResp in Hp as [-> ->].
Qed.

Lemma cluster_step_coherent cl cl' g :
  coherent cl g -> cluster_step cl cl' -> exists g', coherent cl' g'.
Proof.
  intros Hco Hs. pose proof (coh_nodes _ _ Hco) as Hn. pose proof (coh_log _ _ Hco) as Hl.
  inversion Hs as [? i s req s' resp b ? Hi Hsv Hplace|? data Hd|? i s r r' data m' resp Hi Hr Hd Ha Happ
    |? i j s s0 r r' m' Hi Hj Hr Ha Hm|? i s r r' Hi Hr Ha|? l1 l l2 l' Hsplit Hnew
    |? l1 n c l2 stats fast req n' c' w' resp Hc Hsv|? l1 n c l2 fast key c' w' body Hc Hg
    |? l1 n c l2 key k1 body c' Hc Hk1 Hin Hc'|? l1 l l2 l' Hc Hsub|? c key served' v effs Hg]; subst.
  - by eapply step_serve_coherent.
  - destruct (coherent_grow cl g (committed cl ++ [data]) (nodes cl)) as (g' & H & _); [done|by eexists| | |by exists g'].
    + apply Forall_app. split; [done|by constructor].
    + eapply Forall_follows_mono; [by eexists|done].
  - apply (coherent_nodes cl g); [done|]. apply Forall_insert; [done|].
    eapply step_apply_follows; [by eapply Forall_lookup_1|done..].
  - apply (coherent_nodes cl g); [done|]. apply Forall_insert; [done|].
    eapply step_restore_follows; [done|by apply Hco|by eapply Forall_lookup_1|done|done].
  - apply (coherent_nodes cl g); [done|]. apply Forall_insert; [done|].
    destruct (Forall_lookup_1 _ _ _ _ Hn Hi) as [Hp Hrep].
    assert (raft_applied r' = applied s) as E by (unfold applied; by rewrite Hr).
    split; [unfold applied; cbn; by rewrite E|by apply replayed_same].
  - apply (coherent_nodes cl g); [done|]. rewrite Hsplit in Hn. rewrite !Forall_app in Hn |- *.
    destruct Hn as (H1 & _ & H2). split_and!; [done| |done]. eapply Forall_impl; [exact Hnew|].
    intros s [Hm Ha]. unfold follows, replayed. rewrite Ha, Hm. split; [apply prefix_nil|done].
  - destruct (node_serve_copy _ _ _ _ _ _ _ _ _ _ _ Hco (fun k b => cache_at _ _ _ _ _ _ k b Hco Hc) Hsv) as [Hr Hc'].
    exists g. apply coherent_caches; [done|by eapply one_cache|by intros ? ? ?%elem_of_nil|].
    intros key r [= <- ->]%list_elem_of_singleton. by apply Hr.
  - destruct (group_Get_copy _ _ _ _ _ _ _ _ _ Hco (fun k b => cache_at _ _ _ _ _ _ k b Hco Hc) Hg) as [Hr Hc'].
    exists g. apply coherent_caches; [done|by eapply one_cache| |by intros ? ? ?%elem_of_nil].
    intros k b [= -> ->]%list_elem_of_singleton. by apply Hr.
  - assert (copy_of g key body) as Hcopy.
    { destruct (coh_given _ _ Hco _ _ Hin) as (k & Hk & Hans). exists k. split; [by eapply asked_peer|done]. }
    exists g. apply coherent_caches; [done| | |].
    + eapply one_cache; [done|done|]. intros k b Hk. destruct Hc' as [->| ->]; [by eapply cache_at|].
      apply gc_populate_law in Hk as [[-> ->]|Hk]; [done|by eapply cache_at].
    + by intros k b [= -> ->]%list_elem_of_singleton.
    + by intros k r [= -> ->]%list_elem_of_singleton.
  - exists g. apply coherent_caches; [done| |by intros ? ? ?%elem_of_nil..]. intros n0 c0 key body Hin Hk.
    apply elem_of_app in Hin as [Hin|[Hin|Hin]%elem_of_app];
      [|destruct (Hsub n0 c0 key body Hin Hk) as (n1 & c1 & Hin1 & Hk1)|];
      (eapply (coh_caches _ _ Hco); [|by eauto]); rewrite Hc, !elem_of_app; eauto.
  - exists g. destruct (coherent_read _ _ _ _ _ _ _ Hco Hg) as [Hv Hk]. destruct Hco. split; try done.
    cbn. intros k v' [[= -> ->]|Hin]%elem_of_cons; [done|by auto].
Qed.

Lemma start_coherent : coherent start ∅.
Proof.
  split; cbn; try done; try constructor; set_solver.
Qed.

(** The committed log only grows. *)
Lemma step_grows cl cl' g :
  coherent cl g -> cluster_step cl cl' -> committed cl `prefix_of` committed cl'.
Proof.
  intros Hco Hs. inversion Hs as [? i s req s' resp b ? Hi Hsv Hplace|? data Hd| | | | | | | | |]; subst;
    cbn [committed with_answer with_databases with_caches with_read]; [|by eexists|done..].
  destruct (Forall_lookup_1 _ _ _ _ (coh_nodes _ _ Hco) Hi) as [_ Hr].
  destruct (serve_applied _ _ _ _ _ Hsv Hr) as [_ [[Ea _]|(kv & _ & Ea & _)]];
    destruct Hplace as [[_ ->]|[<- ->]]; rewrite ?Ea; try done; by apply prefix_app_r || by eexists.
Qed.

Lemma reachable_grows cl cl' g :
  coherent cl g -> rtc cluster_step cl cl' -> exists g', coherent cl' g' /\ g ⊆ g'.
Proof.
  intros Hco Hr. revert g Hco. induction Hr as [cl|cl1 cl2 cl3 Hs _ IH]; intros g Hco; [by exists g|].
  destruct (cluster_step_coherent _ _ _ Hco Hs) as [g2 Hco2].
  destruct (IH g2 Hco2) as (g3 & Hco3 & Hsub). exists g3. split; [done|]. etrans; [|exact Hsub].
  destruct (replay_prefix _ _ (step_grows _ _ _ Hco Hs) (coh_log _ _ Hco2)) as (h1 & h2 & E1 & E2 & H & _).
  rewrite (coh_state _ _ Hco) in E1. rewrite (coh_state _ _ Hco2) in E2. by simplify_eq.
Qed.

Lemma caught_up cl g s :
  coherent cl g -> s ∈ nodes cl -> applied s = committed cl -> m (store s) = Some g.
Proof.
  intros Hco Hin Ha. destruct (proj1 (Forall_forall _ _) (coh_nodes _ _ Hco) s Hin) as [_ Hr].
  unfold replayed in Hr. rewrite Ha, (coh_state _ _ Hco) in Hr. by injection Hr as <-.
Qed.

(** ** Properties *)

(** C1: coherence.  In every reachable state of the cluster, all reads of a
    key ever made by clients, through whichever caches and at whatever
    times, returned one and the same non-empty value: the value that the
    committed log gives the key, and that every database node which has
    applied the whole log has for it.  This holds for every key, also those
    that a URL changes: the answer names the key it is for. *)
Theorem reads_agree cl key v1 v2 :
  rtc cluster_step start cl -> (key, v1) ∈ reads cl -> (key, v2) ∈ reads cl ->
  v1 = v2 /\ v1 <> "" /\
  (exists g, fsm_replay (Some ∅) (committed cl) = Ret (Some g) /\ g !! key = Some v1) /\
  (forall s, s ∈ nodes cl -> applied s = committed cl -> Store_Get (store s) key = Ok v1).
Proof.
  intros Hr H1 H2. destruct (reachable_grows _ _ _ start_coherent Hr) as (g & Hco & _).
  destruct (coh_reads _ _ Hco _ _ H1) as [Hv1 Hk1]. destruct (coh_reads _ _ Hco _ _ H2) as [_ Hk2].
  split_and!; [congruence|done|exists g; split; [by apply Hco|done]|].
  intros s Hin Ha. rewrite (Store_Get_eq _ g) by by eapply caught_up. by rewrite Hk1.
Qed.


(** C2: acknowledged writes are never lost: once a database node has answered
    a write with the status OK, its key has a value in the committed log, the
    written one or an earlier one, and keeps it in every later state, on
    every node that has applied the log, and for every reader. *)
Theorem acked_writes_last cl key v :
  rtc cluster_step start cl -> (key, v) ∈ acked cl ->
  exists w, forall cl', rtc cluster_step cl cl' ->
    (exists g, fsm_replay (Some ∅) (committed cl') = Ret (Some g) /\ g !! key = Some w) /\
    (forall s, s ∈ nodes cl' -> applied s = committed cl' -> Store_Get (store s) key = Ok w) /\
    (forall v', (key, v') ∈ reads cl' -> v' = w).
Proof.
  intros Hr Hack. destruct (reachable_grows _ _ _ start_coherent Hr) as (g & Hco & _).
  assert (exists w, g !! key = Some w) as [w Hw].
  { destruct (coh_acked _ _ Hco _ Hack) as [Hv Hin].
    eapply add_in_log; [by apply Hco|by apply Hco|exact Hv|exact Hin]. }
  exists w. intros cl' Hr'. destruct (reachable_grows _ _ _ Hco Hr') as (g' & Hco' & Hsub).
  pose proof (lookup_weaken _ _ _ _ Hw Hsub) as Hw'. split_and!.
  - exists g'. split; [by apply Hco'|done].
  - intros s Hin Ha. rewrite (Store_Get_eq _ g') by by eapply caught_up. by rewrite Hw'.
  - intros v' Hv'. destruct (coh_reads _ _ Hco' _ _ Hv') as [_ Hk]. congruence.
Qed.
End system.

(** ** Reading the databases directly *)

Section direct.
Context {R : Type} `{!RaftNode R, !RaftEnv R}.
Context (cfg : Config) {W : Type}.
Context (net_get : W -> string -> Z -> W * exchange).

(** What a database node answers to a GET: a handler's response, or gin's
    404. *)
Definition db_server (s : Service (Store R)) (path : string) : outcome Response :=
  match route_GET path with
  | Some req => '(_, resp, _) ← serve s req; Ret resp
  | None => Ret {| StatusCode := 404; Body := "404 page not found" |}
  end.

Lemma db_server_key s key :
  db_server s ("/key/" +:+ key) = Ret {| StatusCode := 404; Body := "404 page not found" |}.
Proof. done. Qed.

(** C40: the client asks the databases for [/key/KEY], which is a path of the
    cache nodes and none of theirs.  So whatever the databases hold, and in
    whatever order they answer, [KV.get] never returns a value, and it
    says that the data is not found as soon as one of them answers. *)
Theorem direct_db_get_not_found c w key w' res effs :
  (forall w url t w' d resp, net_get w (MakeURL url +:+ "/key/" +:+ key) t = (w', Answered d resp) ->
     exists s, db_server s ("/key/" +:+ key) = Ret resp) ->
  Client.get cfg net_get c w key w' res effs ->
  exists e, res = Err e /\
    (forall w url t w' d resp, net_get w (MakeURL url +:+ "/key/" +:+ key) t = (w', Answered d resp) ->
       (Client.find cfg net_get w key url t).2.2 = Err Client.ErrDataNotFound).
Proof.
  intros Hdb Hg. assert (forall w url t w' d resp,
    net_get w (MakeURL url +:+ "/key/" +:+ key) t = (w', Answered d resp) -> StatusCode resp = 404%Z) as H404.
  { intros w1 url t w2 d resp Hn. destruct (Hdb _ _ _ _ _ _ Hn) as [s Hs].
    rewrite db_server_key in Hs. by injection Hs as <-. }
  destruct res as [v|e].
  - exfalso. destruct (get_told _ _ _ _ _ _ _ _ Hg) as (url & w1 & t & w2 & d & _ & _ & Hf); [done|].
    apply find_value in Hf as (_ & resp & Hn & Hs & _). rewrite (H404 _ _ _ _ _ _ Hn) in Hs. done.
  - exists e. split; [done|]. intros w1 url t w2 d resp Hn. unfold Client.find. rewrite Hn.
    by rewrite (H404 _ _ _ _ _ _ Hn).
Qed.
End direct.

(** ** Writing through the leader *)

Section writing.
Context {R : Type} `{!RaftNode R, !RaftEnv R}.
Context (cfg : Config).

(** A network that brings every POST to one database node after some time. *)
Definition leader_post (elapsed : Z) (s : Service (Store R)) (url ct body : string)
    : Service (Store R) * (Z * result Response) :=
  match serve s (PostKey body) with
  | Ret (s', resp, _) => (s', (elapsed, Ok resp))
  | Panic _ => (s, (elapsed, Ok {| StatusCode := StatusInternalServerError; Body := "" |}))
  end.

Lemma kvParams_decode k v :
  valid_utf8 k = true -> valid_utf8 v = true -> json_decode dec_kv (marshal_kvParams k v) = Ok (k, v).
Proof.
  intros Hk Hv. unfold marshal_kvParams. rewrite json_decode_print.
  - unfold omitempty.
    destruct (String.eqb_spec k "") as [->|], (String.eqb_spec v "") as [->|]; cbn [app sanitize_json fmap list_fmap];
      rewrite ?sanitize_id by done; done.
  - rewrite textual_omitempty. unfold omitempty. by destruct (String.eqb v "").
Qed.

(** C16: a client whose fast database is the leader is told that its Put
    succeeded in each of three cases: the entry was committed and the pair
    stored; it was committed, but the key was taken and keeps its old value;
    raft refused it and nothing was stored.  A nil error of [KV.Put] does
    not say that the pair is in the store. *)
Theorem put_success_says_little elapsed c s r g key value s' err effs :
  serving s r g -> raft_State r = Leader -> valid_utf8 key = true -> valid_utf8 value = true ->
  Client.fastDB c <> "" ->
  KV_Put cfg (leader_post elapsed) c s key value s' err effs ->
  err = None /\
  m (store s') = Some match raft_commit r (marshal_command (add_command (key, value))), g !! key with
                      | (_, None), None => <[key := value]> g
                      | (_, None), Some _ => g
                      | (_, Some _), _ => g
                      end.
Proof.
  intros Hs Hl Hk Hv Hf Hput.
  assert (exists s1, set cfg (leader_post elapsed) s key value (Client.fastDB c) = (s1, (elapsed, None)) /\
    m (store s1) = Some match raft_commit r (marshal_command (add_command (key, value))), g !! key with
                      | (_, None), None => <[key := value]> g
                      | (_, None), Some _ => g
                      | (_, Some _), _ => g
                      end) as (s1 & E & Hm).
  { unfold set, leader_post. cbn [serve]. rewrite (handleSet_add s r g _ key value Hs) by by apply kvParams_decode.
    rewrite (Store_Add_eq (store s) r key value g) by (done || apply Hs).
    destruct (raft_commit r _) as [r' [e|]]; run_bind; rewrite respond_eq by done;
      eexists; (split; [reflexivity|]); [apply Hs|]. cbn. by destruct (g !! key). }
  inversion Hput as [? ? ? Hslow|? ? ? ? ? ? _ Hset|? ? _ Hset]; subst.
  - done.
  - rewrite E in Hset. congruence.
  - rewrite E in Hset. injection Hset as <- _. by split.
Qed.
End writing.

(** ** A concrete cluster for the witnesses *)

Fixpoint has_slash (s : string) : bool :=
  match s with EmptyString => false | String a s => Ascii.eqb a "/" || has_slash s end.

Fixpoint last_segment (s : string) : string :=
  match s with EmptyString => "" | String _ s' => if has_slash s then last_segment s' else s end.

(** A server's answer to one URL is the last it has given to the request. *)
Definition last_answer {Q} `{EqDecision Q} (req : Q) (answers : list (Q * Response)) : option Response :=
  snd <$> (snd <$> list_find (fun a => a.1 = req) answers).

Lemma last_answer_Some {Q} `{EqDecision Q} (req : Q) answers resp :
  last_answer req answers = Some resp -> (req, resp) ∈ answers.
Proof.
  unfold last_answer. destruct (list_find _ answers) as [[i [r x]]|] eqn:E; [|done]. intros [= <-].
  apply list_find_Some in E as (Hi & Hr & _). cbn in Hr. subst r. by eapply list_elem_of_lookup_2.
Qed.

#[local] Instance request_eq_dec : EqDecision request.
Proof. solve_decision. Defined.
#[local] Instance node_request_eq_dec : EqDecision node_request.
Proof. solve_decision. Defined.

(** The one database is at [127.0.0.1:2], and networks are asked for the key
    [a] only. *)
Definition a_getter : HTTPGetter (list (request * Response)) := fun answers url =>
  (answers, if decide (url = "http://127.0.0.1:2/i/key/a")
            then match last_answer (GetKey "a") answers with
                 | Some resp => Ok resp
                 | None => Err (Fresh "timeout")
                 end
            else Err (Fresh "no such host")).

Definition a_get (served : list (node_request * Response)) (url : string) (_ : Z)
    : list (node_request * Response) * exchange :=
  (served, if decide (url = "http://c/key/a")
           then match last_answer (NodeGetKey "a") served with
                | Some resp => Answered 1000 resp
                | None => Failed (Fresh "refused")
                end
           else Failed (Fresh "no such host")).

(** A text split in one way only. *)
Ltac split_text :=
  repeat match goal with
  | |- forall x : string, _ => let c := fresh "c" in let x' := fresh "x" in intros [|c x']
  | |- ("" +:+ _) = _ -> _ => intros [=]; done || (subst; done)
  | |- (String ?c ?x +:+ ?t) = String ?d ?u -> ?G =>
    let H := fresh "H" in
    intros H; change (String c (x +:+ t) = String d u) in H; injection H as _ H; revert x H
  | |- (String ?c ?x +:+ ?t) = "" -> ?G => intros [=]
  end.

Lemma only_db_url x key : x +:+ "/i/key/" +:+ key = "http://127.0.0.1:2/i/key/a" -> key = "a".
Proof. revert x. split_text. Qed.

Lemma only_cache_url x key : x +:+ "/key/" +:+ key = "http://c/key/a" -> key = "a".
Proof. revert x. split_text. Qed.

Lemma a_getter_answers answers url key answers' resp :
  a_getter answers (db_url url key) = (answers', Ok resp) -> StatusCode resp = 200%Z ->
  exists path req, url_path ("/i/key/" +:+ key) = Some path /\ route_GET path = Some req /\ (req, resp) ∈ answers.
Proof.
  unfold a_getter, db_url. destruct (decide _) as [->%only_db_url|]; [|done].
  destruct (last_answer _ _) as [r|] eqn:E; [|done]. intros [= _ <-] _.
  exists "/i/key/a", (GetKey "a"). split; [done|]. split; [done|]. by apply last_answer_Some.
Qed.

Lemma a_get_answers served url key t served' d resp :
  a_get served (MakeURL url +:+ "/key/" +:+ key) t = (served', Answered d resp) -> StatusCode resp = 200%Z ->
  exists path req, url_path ("/key/" +:+ key) = Some path /\ node_route_GET path = Some req /\ (req, resp) ∈ served.
Proof.
  unfold a_get. destruct (decide _) as [->%only_cache_url|]; [|done].
  destruct (last_answer _ _) as [r|] eqn:E; [|done]. intros [= _ _ <-] _.
  exists "/key/a", (NodeGetKey "a"). split; [done|]. split; [done|]. by apply last_answer_Some.
Qed.

Definition log_node (log : list string) (mp : gomap string) : Service (Store LogNode.node) :=
  {| Service.raftAddr := "127.0.0.1:1"; Service.httpAddr := "127.0.0.1:2";
     Service.store := {| RaftDir := "d"; RaftBind := "127.0.0.1:1"; m := mp;
                 raft := Some {| LogNode.st := Leader; LogNode.log := log; LogNode.peers := ["p"] |} |} |}.

Definition a1_entry : string := marshal_command (add_command ("a", "1")).
Definition a1_body : string := marshal_kvResp "a" "1".
Definition a1_resp : Response := {| StatusCode := 200; Body := a1_body |}.
Definition ok_resp : Response := respond StatusOK_http (marshal_Status StatusOK).
Definition leader0 : Service (Store LogNode.node) := log_node [] (Some ∅).
Definition leader1 : Service (Store LogNode.node) := log_node [a1_entry] (Some {["a" := "1"]}).
Definition cache_node : Node := node_with "" ["127.0.0.1:2"].

Definition mk_cluster (log : list string) ns aw cs sv rd ak : cluster (R := LogNode.node) (C := gmap string string) :=
  {| committed := log; nodes := ns; answered := aw; cache_nodes := cs; given := []; served := sv;
     reads := rd; acked := ak |}.

(** After the write, and after the read of a cache node and two of a client. *)
Definition written : cluster := mk_cluster [a1_entry] [leader1] [(PostKey a1_body, ok_resp)] [] [] [] [("a", "1")].
Definition asked : cluster :=
  mk_cluster [a1_entry] [leader1] [(GetKey "a", a1_resp); (PostKey a1_body, ok_resp)] [(cache_node, ∅)] [] [] [("a", "1")].
Definition cached (rd : list (string * string)) : cluster :=
  mk_cluster [a1_entry] [leader1] [(GetKey "a", a1_resp); (PostKey a1_body, ok_resp)]
    [(cache_node, {["a" := a1_body]})] [(NodeGetKey "a", a1_resp)] rd [("a", "1")].

Abbreviation demo_step := (cluster_step default_Config a_getter a_get).

Lemma cache_serves_a :
  node_serve a_getter "" cache_node "" (∅ : gmap string string) (answered asked) (NodeGetKey "a")
    cache_node {["a" := a1_body]} (answered asked) a1_resp.
Proof.
  apply (node_serve_key a_getter "" cache_node "" ∅ _ "a" {["a" := a1_body]} _ (Ok a1_body)).
  change ({["a" := a1_body]} : gmap string string) with (gc_populate (∅ : gmap string string) "a" a1_body).
  apply (group_Get_load a_getter cache_node "" (∅ : gmap string string) _ "a" (answered asked)
           {| f_dest := Some a1_body; f_err := None; f_fastDB := ["127.0.0.1:2"] |});
    [reflexivity| |reflexivity|reflexivity].
  apply fetchData_slow; [reflexivity|]. apply tryAllDBFind_race; [discriminate|].
  eexists. split.
  - eapply rtc_l; [apply (race_step_query _ _ _ _ _ [] "127.0.0.1:2" []); reflexivity|].
    eapply rtc_l; [apply (race_step_lock _ _ _ _ _ [] "127.0.0.1:2" (Ok a1_body) []); vm_compute; reflexivity|].
    apply rtc_once. apply (race_step_receive _ _ _ _ _ a1_body); vm_compute; reflexivity.
  - split; vm_compute; reflexivity.
Qed.

Lemma serve_a1 : serve leader0 (PostKey a1_body) = Ret (leader1, ok_resp, false).
Proof. vm_compute. reflexivity. Qed.

Lemma written_reachable : rtc demo_step start written.
Proof.
  eapply rtc_l; [apply (step_nodes _ _ _ start [] [] [] [leader0]); [reflexivity|by repeat constructor]|].
  apply rtc_once.
  exact (step_serve _ _ _ (mk_cluster [] [leader0] [] [] [] [] []) 0 leader0 (PostKey a1_body) leader1
           ok_resp false [a1_entry] eq_refl serve_a1 (or_intror (conj eq_refl eq_refl))).
Qed.

Lemma serve_get_a : serve leader1 (GetKey "a") = Ret (leader1, a1_resp, false).
Proof. vm_compute. reflexivity. Qed.

Lemma client_reads_a rd :
  KV_Get default_Config a_get (client_with "c" "" [] []) (served (cached rd)) "a" (served (cached rd)) (Ok "1") [].
Proof.
  apply KV_Get_cached. apply (cache_fast _ _ _ _ _ _ 1000%Z); [discriminate|]. vm_compute. reflexivity.
Qed.

Lemma cached_reachable : rtc demo_step written (cached [("a", "1"); ("a", "1")]).
Proof.
  eapply rtc_l.
  { exact (step_serve default_Config a_getter a_get written 0 leader1 (GetKey "a") leader1 a1_resp false [a1_entry]
             eq_refl serve_get_a (or_introl (conj eq_refl eq_refl))). }
  eapply rtc_l; [apply (step_cache_change _ _ _ _ [] [] [] [(cache_node, ∅)]); [reflexivity|]|].
  { intros n c key body [[= -> ->]|[]%elem_of_nil]%elem_of_cons H. discriminate H. }
  eapply rtc_l.
  { apply (step_cache_serve default_Config a_getter a_get asked [] cache_node ∅ [] "" "" (NodeGetKey "a")
             cache_node {["a" := a1_body]} (answered asked) a1_resp); [reflexivity|exact cache_serves_a]. }
  eapply rtc_l; [exact (step_read default_Config a_getter a_get (cached []) (client_with "c" "" [] []) "a"
                          (served (cached [])) "1" [] (client_reads_a []))|].
  apply rtc_once. exact (step_read default_Config a_getter a_get (cached [("a", "1")]) (client_with "c" "" [] []) "a"
                          (served (cached [])) "1" [] (client_reads_a _)).
Qed.

Lemma cached_reached : rtc demo_step start (cached [("a", "1"); ("a", "1")]).
Proof. eapply rtc_trans; [exact written_reachable|exact cached_reachable]. Qed.

Lemma reads_agree_witness :
  "1" = "1" /\ "1" <> "" /\
  (exists g, fsm_replay (Some ∅) [a1_entry] = Ret (Some g) /\ g !! "a" = Some "1") /\
  (forall s, s ∈ [leader1] -> applied s = [a1_entry] -> Store_Get (store s) "a" = Ok "1").
Proof.
  apply (reads_agree default_Config a_getter a_getter_answers (fun _ _ => eq_refl)
           a_get a_get_answers (fun _ _ _ => eq_refl) (cached [("a", "1"); ("a", "1")]) "a" "1" "1"
           cached_reached); [left|right; left].
Defined.


Lemma acked_writes_last_witness :
  exists w, forall cl', rtc demo_step written cl' ->
    (exists g, fsm_replay (Some ∅) (committed cl') = Ret (Some g) /\ g !! "a" = Some w) /\
    (forall s, s ∈ nodes cl' -> applied s = committed cl' -> Store_Get (store s) "a" = Ok w) /\
    (forall v', ("a", v') ∈ reads cl' -> v' = w).
Proof.
  apply (acked_writes_last default_Config a_getter a_getter_answers (fun _ _ => eq_refl)
           a_get a_get_answers (fun _ _ _ => eq_refl) written "a" "1" written_reachable). left.
Defined.

(** A network whose only server is a database that holds [a]. *)
Definition db_get (w : unit) (url : string) (_ : Z) : unit * exchange :=
  (w, match db_server leader1 ("/key/" +:+ last_segment url) with
      | Ret resp => Answered 1000 resp
      | Panic msg => Failed (Fresh msg)
      end).

Lemma db_get_answers w url key t w' d resp :
  db_get w (MakeURL url +:+ "/key/" +:+ key) t = (w', Answered d resp) ->
  exists s : Service (Store LogNode.node), db_server s ("/key/" +:+ key) = Ret resp.
Proof. intros [= _ _ <-]. by exists leader1. Qed.

Lemma direct_db_get_witness :
  Store_Get (store leader1) "a" = Ok "1" /\
  Client.get default_Config db_get (client_with "" "d" [] []) () "a" () (Err Client.ErrDataNotFound) [] /\
  exists e, Err (A := string) Client.ErrDataNotFound = Err e.
Proof.
  assert (Client.get default_Config db_get (client_with "" "d" [] []) () "a" () (Err Client.ErrDataNotFound) [])
    as Hg by (apply (get_fast_not_found default_Config db_get (client_with "" "d" [] []) () "a" () 1000%Z);
              [discriminate|vm_compute; reflexivity]).
  split; [vm_compute; reflexivity|]. split; [exact Hg|].
  destruct (direct_db_get_not_found default_Config db_get _ () "a" () _ []
              (fun w url => db_get_answers w url "a") Hg) as (e & He & _).
  by exists e.
Defined.

(** The raft of this leader refuses every entry, and the key is not there:
    the client is told that the Put succeeded. *)
Definition put_client : Client.client :=
  {| Client.dbs := Some ["l"]; Client.caches := Some []; Client.fastCache := ""; Client.fastDB := "l" |}.

Lemma put_success_witness :
  exists s' effs, KV_Put default_Config (leader_post 5) put_client (node_of [] ∅) "k" "v" s' None effs /\
    m (store s') = Some ∅.
Proof.
  destruct (set default_Config (leader_post 5) (node_of [] ∅) "k" "v" "l") as [s' [d err]] eqn:E.
  assert (err = None) as -> by (vm_compute in E; congruence).
  assert (KV_Put default_Config (leader_post 5) put_client (node_of [] ∅) "k" "v" s' None
            (if (idealResponseDuration default_Config <? d)%Z then [SetFastDB ""] else [])) as Hput
    by (apply KV_Put_fast; [discriminate|exact E]).
  eexists s', _. split; [exact Hput|].
  destruct (put_success_says_little default_Config 5 put_client (node_of [] ∅)
              {| LogNode.st := Leader; LogNode.log := []; LogNode.peers := [] |} ∅ "k" "v" s' None _
              (node_serving [] ∅) eq_refl eq_refl eq_refl ltac:(discriminate) Hput) as [_ Hm].
  rewrite Hm. vm_compute. reflexivity.
Defined.
