(* ===== verification/Bootstrap.v ===== *)
(** * A database node joins its cluster

    Database nodes on one metadata store: a node that starts registers its
    address, reads the list of the master, opens its store and posts to the
    peers of the list until the leader takes it in.  The world of these posts
    is the metadata store together with the running services, so the start of
    a node contains the handlers of the others.  Here is what a start does
    among a leader, followers and nodes that do not answer; Membership.v puts
    starts, stops, updates and heartbeats together.  What is known of raft is
    its peer set. *)
From S2P Require Import Prelude Utf8 Json JsonTypes UrlUtil Http MetaKV Config DBMaster Store Service.

(** ** raft's peer set

    [raft_leads r a ms]: the node at raft address [a] leads a cluster whose
    members are [ms], itself included.  Its [AddPeer] takes a new address
    and refuses a known one ([ErrKnownPeer]); its peer store is empty
    before the first change and then holds the members. *)
Class RaftMembers (R : Type) `{!RaftNode R} : Type := {
  raft_leads : R -> string -> list string -> Prop;
}.
Class RaftMembersLaws (R : Type) `{!RaftNode R, !RaftMembers R} : Prop := {
  leads_Leader : forall r a ms, raft_leads r a ms -> raft_Leader r = a;
  leads_add_new : forall r a ms b, raft_leads r a ms -> b ∉ ms ->
    exists r', raft_AddPeer r b = (r', None) /\ raft_leads r' a (b :: ms);
  leads_add_known : forall r a ms b, raft_leads r a ms -> b ∈ ms ->
    exists r' e, raft_AddPeer r b = (r', Some e) /\ raft_leads r' a ms;
  leads_Peers : forall r a ms, raft_leads r a ms ->
    exists rp, raft_Peers r = Ok rp /\ ((elems rp = [] /\ ms = [a]) \/ (elems rp <> [] /\ elems rp ≡ₚ ms));
}.

Section bootstrap.
Context {R : Type} `{!RaftNode R, !RaftEnv R, !RaftMembers R, !RaftMembersLaws R}.
Context {M : Type} `{!MetaOps M, !MetaLaws M}.
Context (cfg : Config).

Abbreviation node := (Service (Store R)).
Implicit Types (s q : node) (rest ss : list node).

(** ** The world: metadata, the services at their join URLs, and the nodes
    with an [updatePeers] goroutine *)
Record world : Type := {
  w_meta : M;
  w_nodes : gmap string node;
  w_updating : list string;
}.

#[export] Instance world_ops : MetaOps world := {
  meta_Get w k := meta_Get (w_meta w) k;
  meta_Put w k v :=
    let '(m, err) := meta_Put (w_meta w) k v in
    ({| w_meta := m; w_nodes := w_nodes w; w_updating := w_updating w |}, err);
}.

#[export] Instance world_laws : MetaLaws world.
Proof.
  split; intros w k v w'; cbn; destruct (meta_Put (w_meta w) k v) as [m err] eqn:E.
  - intros [= <- ->]. cbn. by eapply meta_get_put_same.
  - intros k' [= <- ->] Hk. cbn. by eapply meta_get_put_other.
Qed.

(** [POST url] reaches the [handleJoin] of the service at [url]; gin answers
    500 when a handler panics. *)
Definition post_join : HTTPPoster world := fun w url _ body =>
  match w_nodes w !! url with
  | None => (w, Err (Fresh "connection refused"))
  | Some s =>
    match handleJoin s body with
    | Panic _ => (w, Ok {| StatusCode := StatusInternalServerError; Body := "" |})
    | Ret (s', resp, updates) =>
      ({| w_meta := w_meta w; w_nodes := <[url := s']> (w_nodes w);
          w_updating := if updates : bool then w_updating w ++ [url] else w_updating w |}, Ok resp)
    end
  end.

Definition serving_at (w : world) s : world :=
  {| w_meta := w_meta w; w_nodes := <[join_url (httpAddr s) := s]> (w_nodes w);
     w_updating := w_updating w |}.

(** ** What is assumed of the nodes *)

(** A node that opens its store in single mode leads itself alone; one that
    does not knows of no leader, or of another. *)
Definition founds s : Prop :=
  exists r, Store_Open (store s) true = (with_raft (store s) r, None) /\ raft_leads r (raftAddr s) [raftAddr s].
Definition joins s : Prop :=
  exists r, Store_Open (store s) false = (with_raft (store s) r, None) /\ raft_Leader r <> raftAddr s.

Record proper s : Prop := {
  proper_raft : valid_utf8 (raftAddr s) = true;
  proper_http : valid_utf8 (httpAddr s) = true;
  proper_founds : founds s;
  proper_joins : joins s;
}.

(** Different nodes have different addresses. *)
Record distinct (ss : list node) : Prop := {
  distinct_raft : NoDup (raftAddr <$> ss);
  distinct_url : NoDup ((fun s => join_url (httpAddr s)) <$> ss);
}.

(** ** The handler of the leader and of the others *)

Definition leader_at s (ms : list string) : Prop :=
  exists r, raft (store s) = Some r /\ raft_leads r (raftAddr s) ms.
Definition follower_at s : Prop :=
  exists r, raft (store s) = Some r /\ raft_Leader r <> raftAddr s.

Lemma handleJoin_follower s body :
  follower_at s ->
  exists resp, handleJoin s body = Ret (s, resp, false) /\ StatusCode resp = 400%Z.
Proof.
  intros (r & Hr & Hl). unfold handleJoin. cbn [store_Leader raft_store_ops].
  unfold Store_Leader, get_raft. rewrite Hr. run_bind.
  rewrite decide_True by done. eexists. split; [done|]. by rewrite respond_eq.
Qed.

Lemma handleJoin_leader s ms a :
  leader_at s ms -> valid_utf8 a = true ->
  exists s' resp b, handleJoin s (marshal_joinParams a) = Ret (s', resp, b) /\
    raftAddr s' = raftAddr s /\ httpAddr s' = httpAddr s /\
    if decide (a ∈ ms) then StatusCode resp = 500%Z /\ b = false /\ leader_at s' ms
    else StatusCode resp = 200%Z /\ b = true /\ leader_at s' (a :: ms).
Proof.
  intros (r & Hr & Hl) Ha. unfold handleJoin. cbn [store_Leader store_Join raft_store_ops].
  unfold Store_Leader, Store_Join, get_raft, BindJSON. rewrite Hr. run_bind.
  rewrite (leads_Leader _ _ _ Hl), decide_False by naive_solver.
  rewrite joinParams_decode, sanitize_id by done. destruct (decide (a ∈ ms)) as [Hin|Hin].
  - destruct (leads_add_known _ _ _ _ Hl Hin) as (r' & e & -> & Hl'). run_bind.
    eexists _, _, _. split; [done|]. split_and!; [done|done|by rewrite ctx_JSON_fresh|done|by exists r'].
  - destruct (leads_add_new _ _ _ _ Hl Hin) as (r' & -> & Hl'). run_bind.
    eexists _, _, _. split; [done|]. split_and!; [done|done|by rewrite ctx_JSON_fresh|done|by exists r'].
Qed.

(** [q] serves at its address, as [q']. *)
Definition serves (w : world) q q' : Prop :=
  w_nodes w !! join_url (httpAddr q) = Some q' /\ raftAddr q' = raftAddr q /\ httpAddr q' = httpAddr q.

(** The leader of the members [ms], if there is one, and the followers
    [others] serve. *)
Record up (ld : option node) (others : list node) (ms : list string) (w : world) : Prop := {
  up_leader : forall l, ld = Some l -> exists sl, serves w l sl /\ leader_at sl ms;
  up_others : forall q, q ∈ others -> exists q', serves w q q' /\ follower_at q';
  up_apart : forall l q, ld = Some l -> q ∈ others -> join_url (httpAddr q) <> join_url (httpAddr l);
}.

(** A follower refuses and nothing happens. *)
Lemma post_follower w ld others ms q ct body :
  up ld others ms w -> q ∈ others ->
  exists resp, post_join w (join_url (httpAddr q)) ct body = (w, Ok resp) /\ StatusCode resp = 400%Z.
Proof.
  intros Hu Hq. destruct (up_others _ _ _ _ Hu q Hq) as (q' & (Hq' & _) & Hf).
  destruct (handleJoin_follower q' body Hf) as (resp & Hj & Hst).
  unfold post_join. rewrite Hq', Hj, insert_id by done. exists resp. by destruct w.
Qed.

(** The world after the leader at [l] has become [sl]. *)
Definition led_by (w : world) (l sl : node) (updating : list string) : world :=
  {| w_meta := w_meta w; w_nodes := <[join_url (httpAddr l) := sl]> (w_nodes w); w_updating := updating |}.

Lemma up_led_by l others ms ms' w sl upd :
  up (Some l) others ms w -> raftAddr sl = raftAddr l -> httpAddr sl = httpAddr l -> leader_at sl ms' ->
  up (Some l) others ms' (led_by w l sl upd).
Proof.
  intros [_ Ho Ha] H1 H2 H3. split; [intros ? [= <-]|intros q Hq|done]; unfold serves; cbn [led_by w_nodes].
  - exists sl. by rewrite lookup_insert_eq.
  - rewrite lookup_insert_ne by (intros E; by apply (Ha l q)). by apply Ho.
Qed.

(** The leader takes a new address in and refuses a member. *)
Lemma post_leader w l others ms ct a :
  up (Some l) others ms w -> valid_utf8 a = true ->
  exists sl resp,
    raftAddr sl = raftAddr l /\ httpAddr sl = httpAddr l /\
    if decide (a ∈ ms)
    then post_join w (join_url (httpAddr l)) ct (marshal_joinParams a)
           = (led_by w l sl (w_updating w), Ok resp) /\ StatusCode resp = 500%Z /\ leader_at sl ms
    else post_join w (join_url (httpAddr l)) ct (marshal_joinParams a)
           = (led_by w l sl (w_updating w ++ [join_url (httpAddr l)]), Ok resp) /\
         StatusCode resp = 200%Z /\ leader_at sl (a :: ms).
Proof.
  intros Hu Ha. destruct (up_leader _ _ _ _ Hu l eq_refl) as (s0 & (Hs0 & H1 & H2) & Hl).
  destruct (handleJoin_leader s0 ms a Hl Ha) as (sl & resp & b & Hj & E1 & E2 & Hd).
  exists sl, resp. split; [congruence|]. split; [congruence|]. unfold post_join. rewrite Hs0, Hj.
  destruct (decide (a ∈ ms)); destruct Hd as (? & -> & ?); by split_and!.
Qed.

(** *** The loop of [tryToJoin] over the peers of the list *)

Lemma tryToJoin_step s w p peers w' resp :
  p <> httpAddr s ->
  post_join w (join_url p) "application/json" (marshal_joinParams (raftAddr s)) = (w', Ok resp) ->
  tryToJoin_loop post_join s w (p :: peers) =
  if (StatusCode resp =? StatusOK_http)%Z then (w', None) else tryToJoin_loop post_join s w' peers.
Proof.
  intros Hp Hpost. cbn [tryToJoin_loop]. rewrite decide_False by done.
  unfold join_url in Hpost. by rewrite Hpost.
Qed.

(** A peer that does not answer is passed over. *)
Lemma tryToJoin_gone s w p peers :
  p <> httpAddr s -> w_nodes w !! join_url p = None ->
  tryToJoin_loop post_join s w (p :: peers) = tryToJoin_loop post_join s w peers.
Proof.
  intros Hp Hn. cbn [tryToJoin_loop]. rewrite decide_False by done.
  unfold join_url in Hn. unfold post_join at 1. by rewrite Hn.
Qed.

(** What stands at an address of the list: a node that serves, or nobody. *)
Definition known_peer (ld : option node) (others : list node) (w : world) (p : string) : Prop :=
  (exists q, q ∈ option_list ld ++ others /\ p = httpAddr q) \/ w_nodes w !! join_url p = None.

Lemma tryToJoin_follower s w ld others ms q peers :
  up ld others ms w -> q ∈ others -> httpAddr q <> httpAddr s ->
  tryToJoin_loop post_join s w (httpAddr q :: peers) = tryToJoin_loop post_join s w peers.
Proof.
  intros Hu Hq Hp.
  destruct (post_follower w ld others ms q "application/json" (marshal_joinParams (raftAddr s)) Hu Hq)
    as (resp & Hpost & Hst).
  by rewrite (tryToJoin_step s w _ peers _ _ Hp Hpost), Hst.
Qed.

(** A new node gets past the others to the leader. *)
Lemma new_node_joins s l others ms w peers :
  up (Some l) others ms w -> raftAddr s ∉ ms -> valid_utf8 (raftAddr s) = true ->
  (forall p, p ∈ peers -> p <> httpAddr s /\ known_peer (Some l) others w p) -> httpAddr l ∈ peers ->
  exists sl, tryToJoin_loop post_join s w peers
      = (led_by w l sl (w_updating w ++ [join_url (httpAddr l)]), None) /\
    raftAddr sl = raftAddr l /\ httpAddr sl = httpAddr l /\ leader_at sl (raftAddr s :: ms).
Proof.
  intros Hu Hnew Hv. induction peers as [|p peers IH]; intros Hps Hl; [by apply elem_of_nil in Hl|].
  destruct (Hps p ltac:(by left)) as [Hp H].
  destruct (decide (p = httpAddr l)) as [->|Hpl].
  { destruct (post_leader w l others ms "application/json" (raftAddr s) Hu Hv) as (sl & resp & H1 & H2 & Hd).
    rewrite decide_False in Hd by done. destruct Hd as (Hpost & Hst & Hlead). exists sl.
    by rewrite (tryToJoin_step s w _ peers _ _ Hp Hpost), Hst. }
  apply elem_of_cons in Hl as [E|Hl]; [by rewrite E in Hpl|].
  assert (tryToJoin_loop post_join s w (p :: peers) = tryToJoin_loop post_join s w peers) as ->.
  { destruct H as [(q & Hq & ->)|Hn]; [|by apply tryToJoin_gone].
    apply elem_of_cons in Hq as [->|Hq]; [done|]. by eapply tryToJoin_follower. }
  apply IH; [|done]. intros p' ?. apply Hps. by right.
Qed.

(** What refused posts leave of the world. *)
Record refused (ld : option node) (others : list node) (ms : list string) (w w' : world) : Prop := {
  ref_up : up ld others ms w';
  ref_meta : w_meta w' = w_meta w;
  ref_updating : w_updating w' = w_updating w;
  ref_gone : forall u, w_nodes w !! u = None -> w_nodes w' !! u = None;
}.

Lemma refused_led l others ms w sl :
  up (Some l) others ms w -> raftAddr sl = raftAddr l -> httpAddr sl = httpAddr l -> leader_at sl ms ->
  refused (Some l) others ms w (led_by w l sl (w_updating w)).
Proof.
  intros Hu H1 H2 H3. split; [by eapply up_led_by|done|done|]. intros u Hn. cbn [led_by w_nodes].
  rewrite lookup_insert_ne; [done|]. intros <-.
  destruct (up_leader _ _ _ _ Hu l eq_refl) as (s0 & (Hs0 & _) & _). congruence.
Qed.

Lemma refused_trans ld others ms w w1 w2 :
  refused ld others ms w w1 -> refused ld others ms w1 w2 -> refused ld others ms w w2.
Proof. intros [_ H1 H2 H3] [H4 H5 H6 H7]. split; [done|congruence|congruence|auto]. Qed.

Lemma known_peer_refused ld others ms w w' p :
  refused ld others ms w w' -> known_peer ld others w p -> known_peer ld others w' p.
Proof. intros Hr [H|Hn]; [by left|right]. by apply (ref_gone _ _ _ _ _ Hr). Qed.

(** Every peer but itself refuses a member, and all refuse anyone as long as
    no leader is among them. *)
Lemma join_is_refused s ld others ms w peers :
  up ld others ms w -> (forall l, ld = Some l -> raftAddr s ∈ ms \/ httpAddr l ∉ peers) ->
  valid_utf8 (raftAddr s) = true ->
  (forall p, p ∈ peers -> p = httpAddr s \/ known_peer ld others w p) ->
  exists w', tryToJoin_loop post_join s w peers = (w', Some join_failed) /\ refused ld others ms w w'.
Proof.
  intros Hu Hmem Hv. revert w Hu. induction peers as [|p peers IH]; intros w Hu Hps; [by exists w|].
  assert (forall l, ld = Some l -> raftAddr s ∈ ms \/ httpAddr l ∉ peers) as Hmem'.
  { intros l E. destruct (Hmem l E) as [|Hn]; [by left|right]. intros ?. apply Hn. by right. }
  specialize (IH Hmem').
  assert (forall p', p' ∈ peers -> p' = httpAddr s \/ known_peer ld others w p') as Hps'.
  { intros p' ?. apply Hps. by right. }
  destruct (decide (p = httpAddr s)) as [->|Hp].
  { cbn [tryToJoin_loop]. rewrite decide_True by done. by apply IH. }
  destruct (Hps p ltac:(by left)) as [|[(q & Hq & ->)|Hn]]; [done| |rewrite tryToJoin_gone by done; by apply IH].
  apply elem_of_app in Hq as [Hq|Hq].
  - destruct ld as [l|]; [|by apply elem_of_nil in Hq]. apply list_elem_of_singleton in Hq as ->.
    destruct (Hmem l eq_refl) as [Hm|Hn]; [|destruct Hn; by left].
    destruct (post_leader w l others ms "application/json" (raftAddr s) Hu Hv) as (sl & resp & H1 & H2 & Hd).
    rewrite decide_True in Hd by done. destruct Hd as (Hpost & Hst & Hlead).
    rewrite (tryToJoin_step s w _ peers _ _ Hp Hpost), Hst. cbn.
    pose proof (refused_led l others ms w sl Hu H1 H2 Hlead) as Hr.
    destruct (IH _ (ref_up _ _ _ _ _ Hr)) as (w' & E & Hr').
    { intros p' [|Hk]%Hps'; [by left|right]. by eapply known_peer_refused. }
    exists w'. split; [exact E|]. by eapply refused_trans.
  - rewrite (tryToJoin_follower s w ld others ms q peers) by done. by apply IH.
Qed.

(** ** The metadata *)

Definition registered (m : M) s : Prop := Master_PeerHTTPAddr cfg m (raftAddr s) = Ok (httpAddr s).
Definition listed (m : M) (known : list node) : Prop :=
  Master_Peers cfg m = Ok (Some (sort_strings (httpAddr <$> known))).

Definition with_meta (w : world) (m : M) : world :=
  {| w_meta := m; w_nodes := w_nodes w; w_updating := w_updating w |}.

Lemma put_world w k v :
  writable (M := M) -> meta_Put w k v = (with_meta w (meta_Put (w_meta w) k v).1, None).
Proof. intros Hw. cbn. by rewrite (put_eq _ k v Hw). Qed.

Hypothesis keys : keys_disjoint cfg.
Hypothesis store_writable : writable (M := M).

Definition register_in (m : M) s : M := (meta_Put m (httpAddrKeyOfRaftAddr cfg (raftAddr s)) (httpAddr s)).1.
Definition list_in (m : M) (l : list string) : M := (Master_UpdatePeers cfg m (Some l)).1.

Lemma register_world w s : register cfg s w = (with_meta w (register_in (w_meta w) s), None).
Proof. unfold register, Master_RegisterPeer. by rewrite put_world. Qed.

Lemma update_world w l : Master_UpdatePeers cfg w (Some l) = (with_meta w (list_in (w_meta w) l), None).
Proof. unfold list_in, Master_UpdatePeers. by rewrite put_world. Qed.

Lemma registered_self m s : registered (register_in m s) s.
Proof. unfold registered, Master_PeerHTTPAddr. eapply meta_get_put_same. by apply put_eq. Qed.

Lemma registered_other m s q :
  raftAddr q <> raftAddr s -> registered m q -> registered (register_in m s) q.
Proof.
  intros Hne. unfold registered, Master_PeerHTTPAddr, register_in. intros <-.
  eapply meta_get_put_other; [by apply put_eq|]. unfold httpAddrKeyOfRaftAddr. intros E.
  rewrite !sapp_assoc in E. apply Hne. by apply (inj (String.append (RaftKey cfg +:+ "."))) in E.
Qed.

Lemma Master_Peers_register m s : Master_Peers cfg (register_in m s) = Master_Peers cfg m.
Proof. eapply Master_Peers_put_other; [apply keys|by apply put_eq]. Qed.

Lemma listed_list m known :
  Forall (fun q => valid_utf8 (httpAddr q) = true) known -> listed (list_in m (httpAddr <$> known)) known.
Proof.
  intros Hv. unfold listed, Master_Peers. apply (fetchPeers_UpdatePeers_valid cfg m); [by apply Forall_fmap|].
  by apply put_eq.
Qed.

Lemma registered_list m l q : registered m q -> registered (list_in m l) q.
Proof.
  unfold registered, Master_PeerHTTPAddr. intros <-. eapply meta_get_put_other; [by apply put_eq|].
  intros E. symmetry in E. by apply (raft_key_nodes cfg keys) in E.
Qed.

Lemma updatePeers_addrs_registered w qs :
  Forall (registered (w_meta w)) qs -> updatePeers_addrs cfg w (raftAddr <$> qs) = Ok (httpAddr <$> qs).
Proof.
  induction 1 as [|q qs Hq _ IH]; [done|]. rewrite !fmap_cons. cbn [updatePeers_addrs].
  change (Master_PeerHTTPAddr cfg w (raftAddr q)) with (Master_PeerHTTPAddr cfg (w_meta w) (raftAddr q)).
  by rewrite Hq, IH.
Qed.

End bootstrap.

(** ** Witnesses: a raft that is the leader it knows of and the members *)

Module PeerSet.
Record node : Type := { leader : string; members : list string }.

#[global] Instance raft_node : RaftNode node := {
  raft_State := fun n => if decide (members n = []) then Follower else Leader;
  raft_Leader := leader;
  raft_commit := fun n _ => (n, None);
  raft_AddPeer := fun n a =>
    if decide (a ∈ members n) then (n, Some (Sentinel "raft.ErrKnownPeer"))
    else ({| leader := leader n; members := a :: members n |}, None);
  raft_Peers := fun n => Ok (Some (if decide (members n = [leader n]) then [] else members n));
  raft_Stats := fun _ => ∅;
}.
#[global] Instance raft_env : RaftEnv node := {
  ResolveTCPAddr := fun _ => None;
  NewTCPTransport := fun _ => None;
  peers_json := fun _ => Ok [];
  NewFileSnapshotStore := fun _ => None;
  NewBoltStore := fun _ => None;
  NewRaft := fun bind _ single =>
    Ok (if single then {| leader := bind; members := [bind] |} else {| leader := ""; members := [] |});
}.
#[global] Instance raft_members : RaftMembers node := {
  raft_leads := fun n a ms => n = {| leader := a; members := ms |} /\ ms <> [];
}.
#[global] Instance raft_members_laws : RaftMembersLaws node.
Proof.
  split; cbn.
  - by intros r a ms [-> _].
  - intros r a ms b [-> _] Hb. rewrite decide_False by done. by eexists.
  - intros r a ms b [-> ?] Hb. rewrite decide_True by done. by eexists _, _.
  - intros r a ms [-> ?]. cbn. eexists. split; [done|]. destruct (decide _); [by left|by right].
Qed.
End PeerSet.
