(* ===== verification/Membership.v ===== *)
(** * The list of database nodes follows the nodes

    The life of a database cluster on one metadata store, over the nodes of
    Bootstrap.v: nodes start, followers and leaders stop, the others elect a
    new leader, a leader's [updatePeers] goroutines publish the members at
    some later time, and the master's heartbeat drops those that do not
    answer.  In [db_step] each of these is one step.  In [overlap_step] the
    reads and the writes of [updatePeers] and [removeNodes] are steps of their
    own, in any order with one another and with everything else, except that
    a start runs undisturbed; what that can lose, and what brings it back, is part of what is
    shown.  The end has what is left of updates whose leader stops.  A leader
    leads until it stops, and a majority of the members stays up. *)
From S2P Require Import Prelude Utf8 Json JsonTypes UrlUtil Http MetaKV Config DBMaster Store Service Bootstrap.

Section membership.
Context {R : Type} `{!RaftNode R, !RaftEnv R, !RaftMembers R, !RaftMembersLaws R}.
Context {M : Type} `{!MetaOps M, !MetaLaws M}.
Context (cfg : Config).

Abbreviation node := (Service (Store R)).
Abbreviation world := (Bootstrap.world (R := R) (M := M)).
(** The nodes that may be started. *)
Context (nodes : list node).
Implicit Types (s q l : node) (others : list node) (w : world).

(** ** The steps *)

(** A process that stops: nobody answers at its address, and its goroutines
    are gone. *)
Definition stop (w : world) (s : node) : world :=
  {| w_meta := w_meta w; w_nodes := delete (join_url (httpAddr s)) (w_nodes w);
     w_updating := filter (fun u => u <> join_url (httpAddr s)) (w_updating w) |}.

(** The pending goroutines without the one that runs. *)
Definition with_updating (w : world) (us : list string) : world :=
  {| w_meta := w_meta w; w_nodes := w_nodes w; w_updating := us |}.

(** [GET url], for the pings of a heartbeat. *)
Definition get_ping (w : world) (url : string) : result Response :=
  if HasSuffix url "/ping" then
    match w_nodes w !! (TrimSuffix url "/ping" +:+ "/join") with
    | None => Err (Fresh "connection refused")
    | Some s =>
      match serve s GetPing with
      | Ret (_, resp, _) => Ok resp
      | Panic _ => Ok {| StatusCode := StatusInternalServerError; Body := "" |}
      end
    end
  else Err (Fresh "connection refused").

Definition pinger (w : world) : HTTPGetter unit := fun u url => (u, get_ping w url).

(** A heartbeat of the master whose probes complete in the given order. *)
Definition beat (w : world) (order : list string) : world :=
  with_meta w (Master_tick cfg (pinger w) tt (w_meta w) order).2.

(** An election: raft makes [l] the leader of all the members, and nobody
    else takes itself for the leader. *)
Record elected (l : node) (members : list node) (w w' : world) : Prop := {
  el_meta : w_meta w' = w_meta w;
  el_updating : w_updating w' = w_updating w;
  el_gone : forall url, w_nodes w !! url = None -> w_nodes w' !! url = None;
  el_raft : forall url s, w_nodes w !! url = Some s -> exists r,
    w_nodes w' !! url = Some (with_store s (with_raft (store s) r)) /\
    if decide (raftAddr s = raftAddr l)
    then exists ms, ms ≡ₚ raftAddr <$> members /\ raft_leads r (raftAddr s) ms
    else raft_Leader r <> raftAddr s;
}.

(** The nodes that raft has taken in, the leader, the others that run, and the
    world. *)
Record database : Type := {
  db_members : list node;
  db_leader : option node;
  db_followers : list node;
  db_world : world;
}.
Implicit Types d : database.

Definition db_alive d : list node := option_list (db_leader d) ++ db_followers d.

Definition in_world d w : database :=
  {| db_members := db_members d; db_leader := db_leader d; db_followers := db_followers d; db_world := w |}.

(** What a start leaves: the node serves if [Start] reached [s.Run].  The first
    node leads. *)
Definition started d s s' w (err : error) : database :=
  match err, db_members d with
  | Some _, _ => in_world d w
  | None, [] => {| db_members := [s]; db_leader := Some s; db_followers := []; db_world := serving_at w s' |}
  | None, ms => {| db_members := ms ++ [s]; db_leader := db_leader d; db_followers := db_followers d ++ [s];
                   db_world := serving_at w s' |}
  end.

Definition leader_stopped d l : database :=
  {| db_members := db_members d; db_leader := None; db_followers := db_followers d; db_world := stop (db_world d) l |}.

(** A majority of the members runs. *)
Definition majority (members alive : list node) : Prop := length members < 2 * length alive.

(** The steps without overlaps: [Start] with its registration and joining, an
    [updatePeers] and a heartbeat with its probes and [removeNodes] are one
    step each.  [overlap_step] below takes the last two apart. *)
Inductive db_step : database -> database -> Prop :=
  (** A node starts that does not run, for the first time or again, and the
      list has someone on it unless it is the first of all. *)
  | db_start d s s' w' err :
      s ∈ nodes -> s ∉ db_alive d -> db_members d = [] \/ Master_Peers cfg (db_world d) <> Ok (Some []) ->
      Start cfg post_join s (db_world d) = (s', w', err) ->
      db_step d (started d s s' w' err)
  | db_update d us1 url us2 s w' err :
      w_updating (db_world d) = us1 ++ url :: us2 -> w_nodes (db_world d) !! url = Some s ->
      updatePeers cfg s (with_updating (db_world d) (us1 ++ us2)) = Ret (w', err) ->
      db_step d (in_world d w')
  | db_stop d o1 s o2 :
      db_followers d = o1 ++ s :: o2 -> majority (db_members d) (option_list (db_leader d) ++ o1 ++ o2) ->
      db_step d {| db_members := db_members d; db_leader := db_leader d; db_followers := o1 ++ o2;
                   db_world := stop (db_world d) s |}
  | db_leader_stop d l :
      db_leader d = Some l -> majority (db_members d) (db_followers d) -> db_step d (leader_stopped d l)
  | db_elect d o1 l o2 w' :
      db_leader d = None -> db_followers d = o1 ++ l :: o2 -> elected l (db_members d) (db_world d) w' ->
      db_step d {| db_members := db_members d; db_leader := Some l; db_followers := o1 ++ o2; db_world := w' |}
  | db_beat d cur order :
      Master_Peers cfg (db_world d) = Ok (Some cur) -> order ≡ₚ cur ->
      db_step d (in_world d (beat (db_world d) order)).

(** A step in which no leader stops with updates to do. *)
Definition calm_step d d' : Prop :=
  db_step d d' /\ (db_leader d <> None -> db_leader d' = None -> w_updating (db_world d) = []).

(** What [updatePeers] is going to store. *)
Definition updatePeers_plan (s : node) (w : world) : outcome (result (list string)) :=
  r ← store_Peers (store s);
  Ret match r with
      | Err e => Err e
      | Ok raftPeers =>
        if decide (length (elems raftPeers) = 0) then Ok [httpAddr s]
        else updatePeers_addrs cfg w (elems raftPeers)
      end.

(** *** Overlapping store calls

    A list that somebody has read and is going to change: the addresses an
    [updatePeers] goroutine of the process at [url] has collected, the nodes
    that the probes of a heartbeat have found dead, and the list that
    [removeNodes] has made of one it has read. *)
Inductive access : Type :=
  | Publish (url : string) (peers : list string)
  | Removal (dead : list string)
  | Rewrite (newPeers : list string).

(** The goroutines of a process that stops are gone. *)
Definition still_runs (w : world) (a : access) : bool :=
  match a with Publish url _ => bool_decide (is_Some (w_nodes w !! url)) | _ => true end.

(** Steps of the database while any number of lists are being changed: the
    read and the write of each [updatePeers] and of each [removeNodes] are
    steps of their own, and the probes of a heartbeat find whatever they
    find at the times they are answered. *)
Inductive overlap_step : database * list access -> database * list access -> Prop :=
  | ov_step d d' js : db_step d d' -> overlap_step (d, js) (d', filter (fun a => still_runs (db_world d') a = true) js)
  | ov_read d us1 url us2 s peers js :
      let w' := with_updating (db_world d) (us1 ++ us2) in
      w_updating (db_world d) = us1 ++ url :: us2 -> w_nodes (db_world d) !! url = Some s ->
      updatePeers_plan s w' = Ret (Ok peers) -> overlap_step (d, js) (in_world d w', js ++ [Publish url peers])
  | ov_publish d js1 url peers js2 :
      overlap_step (d, js1 ++ Publish url peers :: js2)
                   (in_world d (Master_UpdatePeers cfg (db_world d) (Some peers)).1, js1 ++ js2)
  | ov_heartbeat d dead js : overlap_step (d, js) (d, js ++ [Removal dead])
  | ov_remove d js1 dead js2 :
      overlap_step (d, js1 ++ Removal dead :: js2)
                   (d, js1 ++ match removeNodes_plan cfg (w_meta (db_world d)) dead with Some l => [Rewrite l] | None => [] end ++ js2)
  | ov_rewrite d js1 newPeers js2 :
      overlap_step (d, js1 ++ Rewrite newPeers :: js2)
                   (in_world d (Master_UpdatePeers cfg (db_world d) (Some newPeers)).1, js1 ++ js2).

(** Nothing runs, and the list is empty. *)
Record blank (w : world) : Prop := {
  blank_list : Master_Peers cfg w = Ok (Some []);
  blank_updating : w_updating w = [];
  blank_nodes : w_nodes w = ∅;
}.

Definition db_init w : database :=
  {| db_members := []; db_leader := None; db_followers := []; db_world := w |}.

(** ** The invariant *)

Hypothesis keys : keys_disjoint cfg.
Hypothesis store_writable : writable (M := M).
Hypothesis nodes_distinct : distinct nodes.
Hypothesis nodes_proper : Forall proper nodes.

Record cluster_inv d : Prop := {
  ci_up : exists ms, up (db_leader d) (db_followers d) ms (db_world d) /\ ms ≡ₚ raftAddr <$> db_members d;
  ci_members : NoDup (db_members d) /\ db_members d ⊆ nodes;
  ci_alive : NoDup (db_alive d) /\ db_alive d ⊆ db_members d;
  ci_majority : db_members d = [] \/ majority (db_members d) (db_alive d);
  ci_gone : forall q, q ∈ nodes -> q ∈ db_alive d \/ w_nodes (db_world d) !! join_url (httpAddr q) = None;
  ci_registered : Forall (registered cfg (w_meta (db_world d))) (db_members d);
  ci_listed : exists known, listed cfg (w_meta (db_world d)) known /\ NoDup known /\ known ⊆ db_members d;
  ci_updating : forall u, u ∈ w_updating (db_world d) -> exists l, db_leader d = Some l /\ u = join_url (httpAddr l);
}.

Definition on_list w q : Prop := exists cur, Master_Peers cfg (w_meta w) = Ok (Some cur) /\ httpAddr q ∈ cur.

(** What calm steps keep. *)
Record calm_inv d : Prop := {
  ca_leader : forall l, db_leader d = Some l -> on_list (db_world d) l;
  ca_all : w_updating (db_world d) = [] -> forall q, q ∈ db_alive d -> on_list (db_world d) q;
}.

(** *** Addresses *)

Lemma NoDup_key_inj {K} (f : node -> K) ss s q :
  NoDup (f <$> ss) -> s ∈ ss -> q ∈ ss -> f q = f s -> q = s.
Proof.
  intros Hd (i & Hi)%list_elem_of_lookup (j & Hj)%list_elem_of_lookup E.
  assert (i = j) as ->; [|congruence].
  eapply NoDup_lookup; [exact Hd|by rewrite list_lookup_fmap, Hi|].
  rewrite list_lookup_fmap, Hj. cbn. by f_equal.
Qed.

Lemma url_inj s q : s ∈ nodes -> q ∈ nodes -> join_url (httpAddr q) = join_url (httpAddr s) -> q = s.
Proof. apply (NoDup_key_inj (fun s => join_url (httpAddr s))), nodes_distinct. Qed.

Lemma http_inj s q : s ∈ nodes -> q ∈ nodes -> httpAddr q = httpAddr s -> q = s.
Proof. intros Hs Hq E. apply url_inj; [done..|]. by rewrite E. Qed.

Lemma raft_inj s q : s ∈ nodes -> q ∈ nodes -> raftAddr q = raftAddr s -> q = s.
Proof. apply (NoDup_key_inj raftAddr), nodes_distinct. Qed.

Lemma is_proper s : s ∈ nodes -> proper s.
Proof. apply (proj1 (Forall_forall _ _) nodes_proper). Qed.

Lemma elem_of_listed (known : list node) p :
  p ∈ sort_strings (httpAddr <$> known) <-> exists q, p = httpAddr q /\ q ∈ known.
Proof. by rewrite elem_of_sort_strings, list_elem_of_fmap. Qed.

Lemma on_listed w (known : list node) q :
  listed cfg (w_meta w) known -> known ⊆ nodes -> q ∈ nodes -> on_list w q <-> q ∈ known.
Proof.
  unfold listed, on_list. intros Hl Hk Hq. rewrite Hl. split.
  - intros (cur & [= <-] & (q' & E & Hq')%elem_of_listed). by rewrite (http_inj q' q (Hk q' Hq') Hq E).
  - intros Hin. eexists. split; [done|]. apply elem_of_listed. by exists q.
Qed.

Lemma members_nodes d q : cluster_inv d -> q ∈ db_members d -> q ∈ nodes.
Proof. intros Hi. by apply (ci_members _ Hi). Qed.
Lemma alive_members d q : cluster_inv d -> q ∈ db_alive d -> q ∈ db_members d.
Proof. intros Hi. by apply (ci_alive _ Hi). Qed.
Lemma alive_nodes d q : cluster_inv d -> q ∈ db_alive d -> q ∈ nodes.
Proof. intros Hi ?. eapply members_nodes; [done|]. by apply alive_members. Qed.

Lemma leader_alive d l : db_leader d = Some l -> l ∈ db_alive d.
Proof. intros E. unfold db_alive. rewrite E. by left. Qed.

Lemma follower_alive d q : q ∈ db_followers d -> q ∈ db_alive d.
Proof. intros Hq. apply elem_of_app. by right. Qed.

Lemma alive_no_members d : cluster_inv d -> db_members d = [] -> db_leader d = None /\ db_followers d = [].
Proof.
  intros Hi E. pose proof (ci_alive _ Hi) as [_ Ha]. rewrite E in Ha. unfold db_alive in Ha.
  destruct (db_leader d) as [l|]; cbn in Ha.
  - exfalso. apply (not_elem_of_nil l), Ha. by left.
  - split; [done|]. destruct (db_followers d) as [|q o]; [done|]. exfalso. apply (not_elem_of_nil q), Ha. by left.
Qed.

Lemma no_updates d : cluster_inv d -> db_leader d = None -> w_updating (db_world d) = [].
Proof.
  intros Hi E. destruct (w_updating (db_world d)) as [|u us] eqn:Eu; [done|].
  destruct (ci_updating _ Hi u) as (l & El & _); [rewrite Eu; by left|congruence].
Qed.

Lemma alive_serves d q : cluster_inv d -> q ∈ db_alive d -> exists q', serves (db_world d) q q'.
Proof.
  intros Hi Hq. destruct (ci_up _ Hi) as (ms & [Hl Ho _] & _).
  apply elem_of_app in Hq as [Hq|Hq]; [|destruct (Ho q Hq) as (q' & ? & _); by exists q'].
  destruct (db_leader d) as [l|]; [|by apply elem_of_nil in Hq]. apply list_elem_of_singleton in Hq as ->.
  destruct (Hl l eq_refl) as (sl & ? & _). by exists sl.
Qed.

(** Every address listed is one a joining node can deal with. *)
Lemma listed_known_peer d (known : list node) w p :
  cluster_inv d -> w_nodes w = w_nodes (db_world d) -> known ⊆ db_members d ->
  p ∈ sort_strings (httpAddr <$> known) -> known_peer (db_leader d) (db_followers d) w p.
Proof.
  intros Hi E Hk (q & -> & Hq%Hk)%elem_of_listed.
  destruct (ci_gone _ Hi q) as [Ha|Hn]; [by eapply members_nodes|left; by exists q|right; by rewrite E].
Qed.

Lemma up_nodes ld others ms w w' : w_nodes w' = w_nodes w -> up ld others ms w -> up ld others ms w'.
Proof. intros E [H1 H2 H3]. unfold serves in *. split; unfold serves; rewrite ?E; done. Qed.

Lemma proper_utf8 (known : list node) : known ⊆ nodes -> Forall (fun q => valid_utf8 (httpAddr q) = true) known.
Proof. intros Hk. apply Forall_forall. intros q Hq%Hk. apply (is_proper q Hq). Qed.

(** *** Starts *)

(** [Start] of a node that finds a list, up to its posts. *)
Lemma Start_joins s w (known : list node) r :
  listed cfg (w_meta w) known -> known <> [] -> Store_Open (store s) false = (with_raft (store s) r, None) ->
  Start cfg post_join s w =
  (let '(w', err) := tryToJoin_loop post_join s (with_meta w (register_in cfg (w_meta w) s))
                       (sort_strings (httpAddr <$> known)) in
   (with_store s (with_raft (store s) r), w', err)).
Proof.
  intros Hlist Hne Hopen.
  assert (length (sort_strings (httpAddr <$> known)) <> 0) as Hlen.
  { rewrite length_sort_strings, length_fmap. by destruct known. }
  unfold Start. rewrite register_world by done. set (w1 := with_meta w _).
  change (Master_Peers cfg w1) with (Master_Peers cfg (register_in cfg (w_meta w) s)).
  rewrite Master_Peers_register, Hlist by done. cbn [elems default].
  rewrite decide_False by done. cbn [store_Open raft_store_ops]. rewrite Hopen.
  change (id (sort_strings (httpAddr <$> known))) with (sort_strings (httpAddr <$> known)).
  unfold tryToJoin. by destruct (sort_strings _).
Qed.

(** [Start] of a node that finds an empty list. *)
Lemma Start_founds s w r :
  Master_Peers cfg (w_meta w) = Ok (Some []) -> Store_Open (store s) true = (with_raft (store s) r, None) ->
  Start cfg post_join s w =
  (with_store s (with_raft (store s) r),
   with_meta w (list_in cfg (register_in cfg (w_meta w) s) [httpAddr s]), None).
Proof.
  intros Hp Hopen. unfold Start. rewrite register_world by done.
  change (Master_Peers cfg (with_meta w (register_in cfg (w_meta w) s)))
    with (Master_Peers cfg (register_in cfg (w_meta w) s)).
  rewrite Master_Peers_register, Hp by done. cbn [elems default]. rewrite decide_True by done.
  cbn [store_Open raft_store_ops]. by rewrite Hopen, update_world.
Qed.

(** The first node starts alone. *)
Lemma first_start d s :
  cluster_inv d -> db_members d = [] -> s ∈ nodes ->
  exists s' w', Start cfg post_join s (db_world d) = (s', w', None) /\
    cluster_inv (started d s s' w' None) /\ on_list (serving_at w' s') s.
Proof.
  intros Hi E Hs. destruct (is_proper s Hs) as [_ Hv (r & Hopen & Hr) _].
  destruct (alive_no_members d Hi E) as [El Eo].
  destruct (ci_listed _ Hi) as (known & Hlist & _ & Hk). rewrite E in Hk.
  destruct known as [|k known]; [|exfalso; apply (not_elem_of_nil k), Hk; by left].
  eexists _, _. split; [exact (Start_founds s _ r Hlist Hopen)|].
  set (w' := with_meta _ _). set (s' := with_store s _).
  assert (listed cfg (w_meta w') [s]) as Hl by by apply (listed_list cfg store_writable _ [s]); repeat constructor.
  unfold started. rewrite E. split; [|eexists; split; [exact Hl|by left]].
  split; cbn [db_members db_leader db_followers db_world db_alive option_list option_rect app].
  - exists [raftAddr s]. split; [|done]. split; [intros ? [= <-]| |].
    + exists s'. split; [|by exists r]. split; [apply lookup_insert_eq|done].
    + by intros ? ?%elem_of_nil.
    + by intros ? ? _ ?%elem_of_nil.
  - split; [apply NoDup_singleton|]. by intros q ->%list_elem_of_singleton.
  - split; [apply NoDup_singleton|done].
  - right. unfold majority. cbn. lia.
  - intros q Hq. destruct (ci_gone _ Hi q Hq) as [Ha|Hn].
    { unfold db_alive in Ha. rewrite El, Eo in Ha. by apply elem_of_nil in Ha. }
    cbn [serving_at w_nodes w' with_meta]. destruct (decide (join_url (httpAddr s') = join_url (httpAddr q))) as [Eq|Hne].
    + left. rewrite (url_inj s q Hs Hq); [by left|done].
    + right. by rewrite lookup_insert_ne.
  - repeat constructor. apply registered_list; [done..|]. by apply registered_self.
  - exists [s]. split_and!; [exact Hl|apply NoDup_singleton|done].
  - intros u Hu. cbn [serving_at with_meta w_updating w'] in Hu. rewrite (no_updates d Hi El) in Hu. by apply elem_of_nil in Hu.
Qed.
(** A follower that serves at an address of its own joins the others. *)
Lemma up_serving l others ms w s s' :
  up (Some l) others ms w -> httpAddr s' = httpAddr s -> raftAddr s' = raftAddr s -> follower_at s' ->
  (forall q, q ∈ l :: others -> join_url (httpAddr q) <> join_url (httpAddr s)) ->
  up (Some l) (others ++ [s]) ms (serving_at w s').
Proof.
  intros [Hl Ho Ha] E E' Hf Hq. split; unfold serves; cbn [serving_at w_nodes]; rewrite ?E.
  - intros ? [= <-]. destruct (Hl l eq_refl) as (sl & (Hsl & ?) & ?). exists sl.
    by rewrite lookup_insert_ne by (intros Eu; by apply (Hq l ltac:(by left))).
  - intros q [Hin|Hin%list_elem_of_singleton]%elem_of_app.
    + rewrite lookup_insert_ne by (intros Eu; by apply (Hq q ltac:(by right))). by apply Ho.
    + subst q. exists s'. by rewrite lookup_insert_eq.
  - intros ? q [= <-] [Hin|Hin%list_elem_of_singleton]%elem_of_app; [by apply Ha|].
    subst q. intros Eu. by apply (Hq l ltac:(by left)).
Qed.

Lemma registered_again (m : M) s q :
  s ∈ nodes -> q ∈ nodes -> registered cfg m q -> registered cfg (register_in cfg m s) q.
Proof.
  intros Hs Hq Hr. destruct (decide (raftAddr q = raftAddr s)) as [E|E]; [|by apply registered_other].
  rewrite (raft_inj s q Hs Hq E). by apply registered_self.
Qed.

Lemma on_list_register w s q : on_list (with_meta w (register_in cfg (w_meta w) s)) q <-> on_list w q.
Proof. unfold on_list. cbn [with_meta w_meta]. by rewrite Master_Peers_register. Qed.

Lemma same_meta_list w w' q : w_meta w' = w_meta w -> on_list w' q <-> on_list w q.
Proof. unfold on_list. by intros ->. Qed.

Lemma not_member_raft d s ms :
  cluster_inv d -> s ∈ nodes -> s ∉ db_members d -> ms ≡ₚ raftAddr <$> db_members d -> raftAddr s ∉ ms.
Proof.
  intros Hi Hs Hn -> (q & E & Hq)%list_elem_of_fmap. apply Hn.
  by rewrite (raft_inj q s (members_nodes _ _ Hi Hq) Hs E).
Qed.

(** The database once the leader [l], now [sl], has taken [s] in. *)
Definition taken_in d l sl s s' : database :=
  started d s s' (led_by (with_meta (db_world d) (register_in cfg (w_meta (db_world d)) s)) l sl
                    (w_updating (db_world d) ++ [join_url (httpAddr l)])) None.

Lemma taken_in_eq d l sl s s' :
  db_members d <> [] -> db_leader d = Some l ->
  taken_in d l sl s s' =
  {| db_members := db_members d ++ [s]; db_leader := Some l; db_followers := db_followers d ++ [s];
     db_world := serving_at (led_by (with_meta (db_world d) (register_in cfg (w_meta (db_world d)) s)) l sl
                               (w_updating (db_world d) ++ [join_url (httpAddr l)])) s' |}.
Proof. intros Hne El. unfold taken_in, started. rewrite El. by destruct (db_members d). Qed.

Lemma member_url d s q :
  cluster_inv d -> s ∈ nodes -> s ∉ db_members d -> q ∈ db_members d ->
  join_url (httpAddr q) <> join_url (httpAddr s).
Proof. intros Hi Hs Hn Hq E. apply Hn. by rewrite <-(url_inj s q Hs (members_nodes _ _ Hi Hq) E). Qed.

Lemma taken_in_inv d l sl s s' ms :
  cluster_inv d -> db_members d <> [] -> db_leader d = Some l -> s ∈ nodes -> s ∉ db_members d ->
  up (Some l) (db_followers d) ms (db_world d) -> ms ≡ₚ raftAddr <$> db_members d ->
  raftAddr sl = raftAddr l -> httpAddr sl = httpAddr l -> leader_at sl (raftAddr s :: ms) ->
  httpAddr s' = httpAddr s -> raftAddr s' = raftAddr s -> follower_at s' ->
  cluster_inv (taken_in d l sl s s').
Proof.
  intros Hi Hne El Hs Hn Hup Hms E1 E2 Hlead E3 E4 Hf. rewrite (taken_in_eq d l sl s s' Hne El).
  pose proof (fun q => member_url d s q Hi Hs Hn) as Hurl.
  pose proof Hi as [_ [Hnd Hsub] [Hnda Ha] Hmaj Hg Hreg (known & Hlist & Hndk & Hk) Hupd].
  unfold db_alive in *. rewrite El in *. cbn [option_list option_rect app] in *.
  split; unfold db_alive; cbn [db_members db_leader db_followers db_world option_list option_rect app].
  - exists (raftAddr s :: ms). split; [|rewrite Hms, fmap_app; apply Permutation_cons_append].
    apply (up_serving _ _ _ _ s); [|done|done|done|intros q Hq; by apply Hurl, Ha].
    eapply up_led_by; [|done|done|done]. by eapply up_nodes; [|exact Hup].
  - split; [apply NoDup_app; split_and!; [done|by intros q Hq ->%list_elem_of_singleton|apply NoDup_singleton]|].
    intros q [Hq|Hq%list_elem_of_singleton]%elem_of_app; [by apply Hsub|by rewrite Hq].
  - rewrite app_comm_cons. split.
    + apply NoDup_app. split_and!; [done| |apply NoDup_singleton].
      intros q Hq E%list_elem_of_singleton. subst q. by apply Hn, Ha.
    + intros q [Hq|Hq]%elem_of_app; apply elem_of_app; [left; by apply Ha|by right].
  - right. destruct Hmaj as [E|Hmaj]; [done|]. unfold majority in *. cbn in *. rewrite !length_app. cbn. lia.
  - intros q Hq. rewrite app_comm_cons. cbn [serving_at w_nodes led_by with_meta]. rewrite E3.
    destruct (Hg q Hq) as [Hqa|Hnone]; [left; apply elem_of_app; by left|].
    destruct (decide (join_url (httpAddr s) = join_url (httpAddr q))) as [Eq|Hneq].
    { left. apply elem_of_app. right. rewrite (url_inj s q Hs Hq); [by left|done]. }
    right. rewrite !lookup_insert_ne; [done| |done]. intros Eq.
    destruct (up_leader _ _ _ _ Hup l eq_refl) as (s0 & (Hs0 & _) & _). congruence.
  - apply Forall_app. split; [|by repeat constructor; apply registered_self].
    eapply Forall_impl; [apply Forall_and; split; [exact Hreg|apply Forall_forall; exact Hsub]|].
    intros q [Hq Hin]. cbn. by apply registered_again.
  - exists known. split_and!; [|done|intros q Hq; apply elem_of_app; left; by apply Hk].
    unfold listed. cbn. by rewrite Master_Peers_register.
  - intros u. cbn. intros [Hin|Hin%list_elem_of_singleton]%elem_of_app; [|by exists l].
    destruct (Hupd u Hin) as (l' & [= <-] & ->). by exists l.
Qed.

(** A later node is taken in if the leader is on the list. *)
Lemma later_start d l s :
  cluster_inv d -> db_leader d = Some l -> on_list (db_world d) l -> s ∈ nodes -> s ∉ db_members d ->
  exists s' w', Start cfg post_join s (db_world d) = (s', w', None) /\
    cluster_inv (started d s s' w' None) /\
    (forall q, on_list (db_world d) q -> on_list (serving_at w' s') q) /\ w_updating (serving_at w' s') <> [].
Proof.
  intros Hi El Hl Hs Hn. destruct (is_proper s Hs) as [Hvr _ _ (r & Hopen & Hr)].
  pose proof Hi as [(ms & Hup & Hms) [_ Hsub] _ _ _ _ (known & Hlist & _ & Hk) _].
  rewrite El in Hup. assert (l ∈ known) as Hlk.
  { apply (on_listed (db_world d)); [done|by etrans|by eapply alive_nodes, leader_alive|done]. }
  assert (db_members d <> []) as Hne by (intros E; rewrite E in Hk; by apply Hk, elem_of_nil in Hlk).
  set (w1 := with_meta (db_world d) (register_in cfg (w_meta (db_world d)) s)).
  destruct (new_node_joins s l (db_followers d) ms w1 (sort_strings (httpAddr <$> known))) as (sl & Hj & E1 & E2 & Hlead).
  { by eapply up_nodes; [|exact Hup]. }
  { by eapply not_member_raft. }
  { done. }
  { intros p Hp. split; [|rewrite <-El; by apply (listed_known_peer d known)].
    apply elem_of_listed in Hp as (q & -> & Hq%Hk). intros E.
    apply (member_url d s q Hi Hs Hn Hq). by rewrite E. }
  { apply elem_of_listed. by exists l. }
  set (s' := with_store s (with_raft (store s) r)). set (w' := led_by w1 l sl _) in Hj.
  exists s', w'. split; [|split; [|split]].
  - rewrite (Start_joins s _ known r Hlist) by (done || by intros ->; apply elem_of_nil in Hlk). fold w1. by rewrite Hj.
  - apply (taken_in_inv d l sl s s' ms); try done. by exists r.
  - intros q Hq. apply (same_meta_list w1); [done|]. by apply on_list_register.
  - cbn. by destruct (w_updating (db_world d)).
Qed.

(** A member is refused by all and exits, and so is everyone while no leader is
    on the list. *)
Lemma start_fails d s :
  cluster_inv d -> s ∈ nodes -> Master_Peers cfg (db_world d) <> Ok (Some []) ->
  (forall l, db_leader d = Some l -> s ∈ db_members d \/ ¬ on_list (db_world d) l) ->
  exists s' w', Start cfg post_join s (db_world d) = (s', w', Some join_failed) /\
    cluster_inv (in_world d w') /\ Master_Peers cfg (w_meta w') = Master_Peers cfg (w_meta (db_world d)) /\
    w_updating w' = w_updating (db_world d).
Proof.
  intros Hi Hs Hne Hld. destruct (is_proper s Hs) as [Hvr _ _ (r & Hopen & Hr)].
  pose proof Hi as [(ms & Hup & Hms) Hmem Ha Hmaj Hg Hreg (known & Hlist & Hndk & Hk) Hupd].
  assert (known <> []) as Hkne by (intros ->; by apply Hne).
  set (w1 := with_meta (db_world d) (register_in cfg (w_meta (db_world d)) s)).
  destruct (join_is_refused s (db_leader d) (db_followers d) ms w1 (sort_strings (httpAddr <$> known)))
    as (w' & Hj & [Hu' Hm' Hup' Hg']).
  { by eapply up_nodes; [|exact Hup]. }
  { intros l El. destruct (Hld l El) as [Hin|Hn].
    - left. rewrite Hms. by apply list_elem_of_fmap_2.
    - right. intros Hin. apply Hn. by exists (sort_strings (httpAddr <$> known)). }
  { done. }
  { intros p Hp. right. by apply (listed_known_peer d known). }
  exists (with_store s (with_raft (store s) r)), w'.
  rewrite (Start_joins s _ known r Hlist Hkne Hopen). fold w1. rewrite Hj. split; [done|].
  assert (Master_Peers cfg (w_meta w') = Master_Peers cfg (w_meta (db_world d))) as Hon.
  { rewrite Hm'. cbn [w1 with_meta w_meta]. by rewrite Master_Peers_register. }
  split; [|by split]. split; unfold db_alive; cbn [in_world db_members db_leader db_followers db_world]; try done.
  - by exists ms.
  - intros q Hq. destruct (Hg q Hq) as [|Hnone]; [by left|right]. by apply Hg'.
  - rewrite Hm'. eapply Forall_impl; [apply Forall_and; split; [exact Hreg|apply Forall_forall; apply Hmem]|].
    intros q [Hq Hin]. cbn. by apply registered_again.
  - exists known. split_and!; try done. unfold listed. by rewrite Hon.
  - by rewrite Hup'.
Qed.

(** *** Updates *)

Lemma updatePeers_eq s w :
  updatePeers cfg s w =
  (r ← updatePeers_plan s w;
   Ret match r with Err e => (w, Some e) | Ok peers => Master_UpdatePeers cfg w (Some peers) end).
Proof.
  unfold updatePeers, updatePeers_plan. destruct (store_Peers (store s)) as [[rp|e]|]; [|done..].
  cbn [mbind outcome_bind]. by destruct (decide _).
Qed.

(** A goroutine of the leader is going to store all members. *)
Lemma plan_members d url s :
  cluster_inv d -> url ∈ w_updating (db_world d) -> w_nodes (db_world d) !! url = Some s ->
  exists known, known ≡ₚ db_members d /\
    forall us, updatePeers_plan s (with_updating (db_world d) us) = Ret (Ok (httpAddr <$> known)).
Proof.
  intros Hi Hu Hs. pose proof Hi as [(ms & Hup & Hms) _ _ _ _ Hreg _ Hupd].
  destruct (Hupd url Hu) as (l & El & ->). rewrite El in Hup.
  destruct (up_leader _ _ _ _ Hup l eq_refl) as (sl & (Hsl & E1 & E2) & r & Hr & Hlead).
  rewrite Hs in Hsl. injection Hsl as <-.
  destruct (leads_Peers _ _ _ Hlead) as (rp & Hrp & H).
  assert (forall us, updatePeers_plan s (with_updating (db_world d) us) =
            Ret (if decide (length (elems rp) = 0) then Ok [httpAddr s]
                 else updatePeers_addrs cfg (with_updating (db_world d) us) (elems rp))) as Hplan.
  { intros us. unfold updatePeers_plan. cbn [store_Peers raft_store_ops]. unfold Store_Peers, get_raft.
    rewrite Hr. run_bind. by rewrite Hrp. }
  destruct H as [[E Ems]|[Hne Hperm]].
  - exists [l]. split; [|intros us; by rewrite Hplan, E, decide_True, E2 by done].
    pose proof (alive_members d l Hi (leader_alive d l El)) as Hl. rewrite Ems in Hms.
    apply Permutation_length in Hms. rewrite length_fmap in Hms.
    destruct (db_members d) as [|q [|q' ms']]; [by apply elem_of_nil in Hl| |done].
    by apply list_elem_of_singleton in Hl as ->.
  - rewrite Hms in Hperm. apply Permutation_map_inv in Hperm as (known & E & Hp). exists known.
    split; [done|]. intros us. rewrite Hplan, decide_False by (by destruct (elems rp)). rewrite E.
    change (map raftAddr known) with (raftAddr <$> known). f_equal.
    apply (updatePeers_addrs_registered cfg (with_updating (db_world d) us)). by rewrite <-Hp.
Qed.

(** Storing a list of members, with some updates left to do. *)
Lemma cluster_stores d us known :
  cluster_inv d -> NoDup known -> known ⊆ db_members d -> us ⊆ w_updating (db_world d) ->
  cluster_inv (in_world d (with_meta (with_updating (db_world d) us)
                             (list_in cfg (w_meta (db_world d)) (httpAddr <$> known)))).
Proof.
  intros Hi Hnd Hk Hus. pose proof Hi as [(ms & Hup & Hms) Hmem Ha Hmaj Hg Hreg _ Hupd].
  split; unfold db_alive; cbn; try done.
  - exists ms. split; [by eapply up_nodes; [|exact Hup]|done].
  - eapply Forall_impl; [exact Hreg|]. intros q. by apply registered_list.
  - exists known. split_and!; try done. apply listed_list; [done|]. apply proper_utf8.
    intros q Hq%Hk. by eapply members_nodes.
  - intros u Hu%Hus. by apply Hupd.
Qed.

(** The goroutine of the leader publishes all members. *)
Lemma update_publishes d us1 url us2 s w' err :
  cluster_inv d -> w_updating (db_world d) = us1 ++ url :: us2 -> w_nodes (db_world d) !! url = Some s ->
  updatePeers cfg s (with_updating (db_world d) (us1 ++ us2)) = Ret (w', err) ->
  cluster_inv (in_world d w') /\ w_nodes w' = w_nodes (db_world d) /\ w_updating w' = us1 ++ us2 /\
  Master_Peers cfg (w_meta w') = Ok (Some (sort_strings (httpAddr <$> db_members d))) /\ err = None.
Proof.
  intros Hi Hl Hs Hu. destruct (plan_members d url s Hi) as (known & Hk & Hp); [|done|].
  { rewrite Hl. apply elem_of_app. right. by left. }
  rewrite updatePeers_eq, Hp in Hu. cbn [mbind outcome_bind] in Hu.
  rewrite update_world in Hu by done. injection Hu as <- <-. cbn [with_updating w_meta].
  split; [|split_and!; try done].
  - apply cluster_stores; [done|rewrite Hk; apply Hi|by rewrite Hk|].
    rewrite Hl. intros u. rewrite !elem_of_app, elem_of_cons. tauto.
  - cbn [with_meta w_meta]. rewrite <-(sort_strings_proper _ _ (fmap_Permutation httpAddr _ _ Hk)).
    apply listed_list; [done|]. rewrite Hk. apply proper_utf8, Hi.
Qed.

(** *** Stops *)

(** A node that runs stops, and [alive] is left of the others. *)
Lemma stop_inv d s ld others :
  cluster_inv d -> db_alive d ≡ₚ s :: option_list ld ++ others ->
  (forall l, ld = Some l -> db_leader d = Some l) -> others ⊆ db_followers d ->
  (db_leader d = ld \/ db_leader d = Some s) -> majority (db_members d) (option_list ld ++ others) ->
  cluster_inv {| db_members := db_members d; db_leader := ld; db_followers := others; db_world := stop (db_world d) s |}.
Proof.
  intros Hi Hperm Hld Hsub Hor Hmaj'.
  pose proof Hi as [(ms & [Hl Ho Hap] & Hms) Hmem [Hnd Ha] Hmaj Hg Hreg Hlist Hupd].
  rewrite Hperm in Hnd. apply NoDup_cons in Hnd as [Hns Hnd].
  assert (s ∈ nodes) as Hs by (eapply alive_nodes; [done|]; rewrite Hperm; by left).
  assert (forall q, q ∈ option_list ld ++ others -> join_url (httpAddr s) <> join_url (httpAddr q)) as Hne.
  { intros q Hq E. apply Hns. rewrite (url_inj q s); [done| |done|done].
    eapply alive_nodes; [done|]. rewrite Hperm. by right. }
  split; unfold db_alive; cbn [db_members db_leader db_followers db_world stop w_meta w_nodes w_updating]; try done.
  - exists ms. split; [|done]. split; unfold serves; cbn [stop w_nodes].
    + intros l El. rewrite lookup_delete_ne; [by apply Hl, Hld|]. apply Hne. rewrite El. by left.
    + intros q Hq. rewrite lookup_delete_ne; [by apply Ho, Hsub|]. apply Hne, elem_of_app. by right.
    + intros l q El Hq. apply Hap; [by apply Hld|by apply Hsub].
  - split; [done|]. intros q Hq. apply Ha. rewrite Hperm. by right.
  - by right.
  - intros q Hq. destruct (Hg q Hq) as [Hin|Hn].
    + rewrite Hperm in Hin. apply elem_of_cons in Hin as [->|Hin]; [right; apply lookup_delete_eq|by left].
    + right. apply lookup_delete_None. by right.
  - intros u [Hu Hin]%list_elem_of_filter. destruct (Hupd u Hin) as (l & El & ->). exists l. split; [|done].
    destruct Hor as [<-|Es]; [done|]. rewrite El in Es. by injection Es as ->.
Qed.

Lemma stop_updating d s :
  cluster_inv d -> s ∈ nodes -> db_leader d <> Some s -> w_updating (stop (db_world d) s) = w_updating (db_world d).
Proof.
  intros Hi Hs Hn. cbn. apply filter_everything. intros u Hu. destruct (ci_updating _ Hi u Hu) as (l & El & ->).
  intros E. apply Hn. rewrite El. f_equal. apply url_inj; [done| |done]. by eapply alive_nodes, leader_alive.
Qed.

(** *** Elections *)

Lemma elected_serves l members w w' q q' :
  elected l members w w' -> serves w q q' ->
  exists q2, serves w' q q2 /\
    if decide (raftAddr q = raftAddr l) then exists ms, ms ≡ₚ raftAddr <$> members /\ leader_at q2 ms
    else follower_at q2.
Proof.
  intros He (Hq & E1 & E2). destruct (el_raft _ _ _ _ He _ _ Hq) as (r & Hr & H).
  exists (with_store q' (with_raft (store q') r)). split; [by split|]. rewrite E1 in H.
  destruct (decide (raftAddr q = raftAddr l)).
  - destruct H as (ms & Hms & Hl). exists ms. split; [done|]. exists r. split; [done|]. cbn. by rewrite E1.
  - exists r. split; [done|]. cbn. by rewrite E1.
Qed.

Lemma elect_inv d o1 l o2 w' :
  cluster_inv d -> db_leader d = None -> db_followers d = o1 ++ l :: o2 ->
  elected l (db_members d) (db_world d) w' ->
  cluster_inv {| db_members := db_members d; db_leader := Some l; db_followers := o1 ++ o2; db_world := w' |}.
Proof.
  intros Hi El Eo He. pose proof He as [Em Eu Hgone _].
  assert (db_alive d ≡ₚ l :: o1 ++ o2) as Hperm.
  { unfold db_alive. rewrite El, Eo. symmetry. apply Permutation_middle. }
  pose proof Hi as [(ms0 & [_ Ho _] & _) Hmem [Hnd Ha] Hmaj Hg Hreg Hlist Hupd].
  assert (NoDup (l :: o1 ++ o2)) as [Hnl Hnd']%NoDup_cons by by rewrite <-Hperm.
  assert (forall q, q ∈ l :: o1 ++ o2 -> q ∈ nodes) as Hin.
  { intros q Hq. eapply alive_nodes; [done|]. by rewrite Hperm. }
  assert (l ∈ nodes) as Hl by (apply Hin; by left).
  assert (forall q, q ∈ o1 ++ o2 -> q ∈ nodes /\ q <> l) as Hne.
  { intros q Hq. split; [apply Hin; by right|]. by intros ->. }
  destruct (alive_serves d l) as (l' & Hl'); [done|rewrite Hperm; by left|].
  destruct (elected_serves _ _ _ _ _ _ He Hl') as (sl & Hsl & H). rewrite decide_True in H by done.
  destruct H as (ms & Hms & Hlead).
  split; unfold db_alive; cbn [db_members db_leader db_followers db_world option_list option_rect app]; try done.
  - exists ms. split; [|done]. split.
    + intros ? [= <-]. by exists sl.
    + intros q Hq. destruct (Hne q Hq) as [Hqn Hql].
      destruct (alive_serves d q) as (q' & Hq'); [done|rewrite Hperm; by right|].
      destruct (elected_serves _ _ _ _ _ _ He Hq') as (q2 & Hq2 & H2). exists q2. split; [done|].
      rewrite decide_False in H2; [done|]. intros E. apply Hql. by apply raft_inj.
    + intros ? q [= <-] Hq E. destruct (Hne q Hq) as [Hqn Hql]. apply Hql. by apply url_inj.
  - rewrite <-Hperm. done.
  - unfold majority in *. by rewrite <-Hperm.
  - intros q Hq. rewrite <-Hperm. destruct (Hg q Hq) as [|Hn]; [by left|right]. by apply Hgone.
  - by rewrite Em.
  - by rewrite Em.
  - rewrite Eu, (no_updates d Hi El). by intros u ?%elem_of_nil.
Qed.

(** *** Heartbeats *)

Lemma ping_answered w p : DBMaster.alive (get_ping w) p = true <-> is_Some (w_nodes w !! join_url p).
Proof.
  unfold DBMaster.alive, get_ping. rewrite (proj2 (HasSuffix_true _ _)) by by eexists.
  rewrite TrimSuffix_app. fold (join_url p). destruct (w_nodes w !! join_url p) as [s|].
  - split; [by exists s|done].
  - split; [done|by intros []].
Qed.

Lemma alive_answers d q :
  cluster_inv d -> q ∈ nodes -> q ∈ db_alive d <-> DBMaster.alive (get_ping (db_world d)) (httpAddr q) = true.
Proof.
  intros Hi Hq. rewrite ping_answered. split.
  - intros Ha. destruct (alive_serves d q Hi Ha) as (q' & E & _). by exists q'.
  - intros [q' E]. destruct (ci_gone _ Hi q Hq); [done|congruence].
Qed.

(** The nodes of the list that answer. *)
Definition answering (w : world) (known : list node) : list node :=
  filter (fun q => DBMaster.alive (get_ping w) (httpAddr q) = true) known.

Lemma filter_fmap_ping w (known : list node) :
  filter (fun p => DBMaster.alive (get_ping w) p = true) (sort_strings (httpAddr <$> known))
  ≡ₚ httpAddr <$> answering w known.
Proof.
  rewrite sort_strings_perm. unfold answering. rewrite list_filter_of_fmap. done.
Qed.

Lemma beat_lists w (known : list node) order :
  listed cfg (w_meta w) known -> order ≡ₚ sort_strings (httpAddr <$> known) ->
  listed cfg (w_meta (beat w order)) (answering w known).
Proof.
  intros Hlist Hp. unfold listed, beat, Master_Peers. cbn [with_meta w_meta].
  rewrite (tick_peers cfg (pinger w) (get_ping w) (fun _ _ => eq_refl) tt (w_meta w) order _ store_writable Hlist Hp).
  do 2 f_equal. destruct (decide _) as [_|Hn].
  - apply sort_strings_proper, filter_fmap_ping.
  - unfold answering. rewrite filter_everything; [done|]. intros q Hq. destruct (DBMaster.alive _ _) eqn:E; [done|].
    destruct Hn. apply Exists_exists. exists (httpAddr q). split; [apply elem_of_listed; by exists q|done].
Qed.

Lemma beat_registered w order (known : list node) q :
  listed cfg (w_meta w) known -> order ≡ₚ sort_strings (httpAddr <$> known) ->
  registered cfg (w_meta w) q -> registered cfg (w_meta (beat w order)) q.
Proof.
  intros Hlist Hp Hr. unfold beat. cbn [with_meta w_meta].
  rewrite (Master_tick_eq cfg (pinger w) (get_ping w) (fun _ _ => eq_refl) tt (w_meta w) order _ Hlist Hp).
  rewrite (removeNodes_eq cfg _ _ _ Hlist). destruct (decide _); [|done]. by apply registered_list.
Qed.

Lemma the_list w (known : list node) cur :
  listed cfg (w_meta w) known -> Master_Peers cfg w = Ok (Some cur) -> cur = sort_strings (httpAddr <$> known).
Proof. unfold listed. intros Hl Hc. change (Master_Peers cfg (w_meta w) = Ok (Some cur)) in Hc. congruence. Qed.

(** Of the nodes on the list it keeps those that serve. *)
Lemma beat_inv d cur order :
  cluster_inv d -> Master_Peers cfg (db_world d) = Ok (Some cur) -> order ≡ₚ cur ->
  cluster_inv (in_world d (beat (db_world d) order)) /\
  (forall q, q ∈ nodes -> on_list (beat (db_world d) order) q <-> on_list (db_world d) q /\ q ∈ db_alive d).
Proof.
  intros Hi Hcur Hp. pose proof Hi as [(ms & Hup & Hms) Hmem Ha Hmaj Hg Hreg (known & Hlist & Hnd & Hk) Hupd].
  rewrite (the_list _ _ _ Hlist Hcur) in Hp. pose proof (beat_lists _ _ _ Hlist Hp) as Hlist'.
  assert (known ⊆ nodes) as Hkn by (etrans; [exact Hk|apply Hmem]).
  assert (answering (db_world d) known ⊆ known) as Hans by by intros q [_ ?]%list_elem_of_filter.
  split.
  - split; unfold db_alive; cbn [in_world db_members db_leader db_followers db_world]; try done.
    + exists ms. split; [by eapply up_nodes; [|exact Hup]|done].
    + eapply Forall_impl; [exact Hreg|]. intros q. by eapply beat_registered.
    + exists (answering (db_world d) known). split_and!; [done|by apply NoDup_filter|by etrans].
  - intros q Hq. rewrite (on_listed _ _ q Hlist' ltac:(by etrans) Hq), (on_listed _ _ q Hlist Hkn Hq).
    unfold answering. rewrite list_elem_of_filter, (alive_answers d q Hi Hq). tauto.
Qed.

(** ** Every reachable cluster *)

(** Whether a start can succeed can be decided. *)
Lemma start_decides d s :
  cluster_inv d -> s ∈ nodes ->
  (exists l, db_leader d = Some l /\ on_list (db_world d) l /\ s ∉ db_members d) \/
  (forall l, db_leader d = Some l -> s ∈ db_members d \/ ¬ on_list (db_world d) l).
Proof.
  intros Hi Hs. destruct (ci_listed _ Hi) as (known & Hlist & _ & _).
  destruct (db_leader d) as [l|]; [|by right].
  destruct (decide (raftAddr s ∈ raftAddr <$> db_members d)) as [(q & E & Hq)%list_elem_of_fmap|Hn].
  { right. intros ? _. left. by rewrite (raft_inj q s (members_nodes _ _ Hi Hq) Hs E). }
  destruct (decide (httpAddr l ∈ sort_strings (httpAddr <$> known))) as [Hon|Hoff].
  - left. exists l. split_and!; [done|by eexists|]. intros Hin. apply Hn. by apply list_elem_of_fmap_2.
  - right. intros ? [= <-]. right. intros (cur & Hcur & Hin). by rewrite (the_list _ _ _ Hlist Hcur) in Hin.
Qed.

(** How a start ends. *)
Lemma start_cases d s s' w' err :
  cluster_inv d -> s ∈ nodes -> db_members d = [] \/ Master_Peers cfg (db_world d) <> Ok (Some []) ->
  Start cfg post_join s (db_world d) = (s', w', err) ->
  cluster_inv (started d s s' w' err) /\
  ( (err = Some join_failed /\ Master_Peers cfg (w_meta w') = Master_Peers cfg (w_meta (db_world d)) /\
     w_updating w' = w_updating (db_world d)) \/
    (err = None /\ db_members d = [] /\ on_list (serving_at w' s') s) \/
    (err = None /\ db_members d <> [] /\ w_updating (serving_at w' s') <> [] /\
     (forall q, on_list (db_world d) q -> on_list (serving_at w' s') q)) ).
Proof.
  intros Hi Hs Hlist Hst.
  assert (db_members d = [] \/ db_members d <> []) as [Em|Em] by (destruct (db_members d); [by left|by right]).
  { destruct (first_start d s Hi Em Hs) as (s1 & w1 & E & Hi' & Hon). rewrite Hst in E. injection E as -> -> ->.
    split; [done|]. right. by left. }
  destruct Hlist as [|Hlist]; [done|]. destruct (start_decides d s Hi Hs) as [(l & El & Hl & Hn)|Hno].
  - destruct (later_start d l s Hi El Hl Hs Hn) as (s1 & w1 & E & Hi' & Hon & Hu). rewrite Hst in E.
    injection E as -> -> ->. split; [done|]. right. by right.
  - destruct (start_fails d s Hi Hs Hlist Hno) as (s1 & w1 & E & Hi' & Hon & Hu). rewrite Hst in E.
    injection E as -> -> ->. split; [done|]. by left.
Qed.

Lemma db_step_inv d d' : cluster_inv d -> db_step d d' -> cluster_inv d'.
Proof.
  intros Hi Hst. inversion Hst as [? s s' w' err Hs Hn Hl E|? us1 url us2 s w' err Hl Hs Hup|? o1 s o2 Eo Hm
    |? l El Hm|? o1 l o2 w' El Eo He|? cur order Hcur Hord]; subst.
  - by eapply start_cases.
  - by eapply update_publishes.
  - apply stop_inv; [done| |done|by intros q; rewrite Eo, !elem_of_app, elem_of_cons; tauto|by left|done].
    unfold db_alive. rewrite Eo, !(assoc_L (++)). symmetry. apply Permutation_middle.
  - apply (stop_inv d l None (db_followers d)); [done| |done|done|by right|done].
    unfold db_alive. by rewrite El.
  - by apply (elect_inv d o1 l o2 w').
  - by eapply beat_inv.
Qed.

Lemma init_inv w : blank w -> cluster_inv (db_init w).
Proof.
  intros [Hl Hu Hn]. split; unfold db_alive; cbn.
  - exists []. split; [|done]. split; [done|by intros q ?%elem_of_nil|by intros l q _ ?%elem_of_nil].
  - split; [apply NoDup_nil_2|by intros q ?%elem_of_nil].
  - split; [apply NoDup_nil_2|done].
  - by left.
  - intros q _. right. by rewrite Hn.
  - constructor.
  - exists []. split_and!; [exact Hl|apply NoDup_nil_2|done].
  - rewrite Hu. by intros u ?%elem_of_nil.
Qed.

Lemma db_reaches w d : blank w -> rtc db_step (db_init w) d -> cluster_inv d.
Proof.
  intros Hb. revert d. apply (rtc_ind_r cluster_inv); [by apply init_inv|].
  intros d d' _ Hst Hi. by eapply db_step_inv.
Qed.

(** *** Calm steps *)

Lemma calm_step_inv d d' : cluster_inv d -> calm_inv d -> calm_step d d' -> calm_inv d'.
Proof.
  intros Hi [Hl Ha] [Hst Hcalm].
  inversion Hst as [? s s' w' err Hs Hn Hlist E|? us1 url us2 s w' err Hus Hs Hup|? o1 s o2 Eo Hm
    |? l El Hm|? o1 l o2 w' El Eo He|? cur order Hcur Hord]; subst.
  - destruct (start_cases d s s' w' err Hi Hs Hlist E) as (_ & [(-> & Hon & Hu)|[(-> & Em & Hon)|(-> & Em & Hu & Hon)]]).
    + split; cbn; unfold on_list; [intros l El; rewrite Hon; by apply Hl|]. rewrite Hu, Hon. intros Eu q Hq. by apply Ha.
    + unfold started. rewrite Em. split; cbn; [by intros l [= <-]|]. by intros _ q ->%list_elem_of_singleton.
    + unfold started. destruct (db_members d) as [|m0 ms0] eqn:Em'; [done|]. split; cbn [db_leader db_world]; [|done].
      intros l El. by apply Hon, Hl.
  - destruct (update_publishes d us1 url us2 s w' err Hi Hus Hs Hup) as (Hi' & _ & _ & Hl' & _).
    assert (forall q, q ∈ db_alive d -> on_list w' q) as Hon.
    { intros q Hq. eexists. split; [exact Hl'|]. apply elem_of_listed. exists q. split; [done|]. by apply alive_members. }
    split; cbn; [intros l El; by apply Hon, leader_alive|]. intros _ q Hq. by apply Hon.
  - assert (s ∈ db_followers d) as Hsf by (rewrite Eo; apply elem_of_app; right; by left).
    split; cbn [db_leader db_world db_followers].
    + intros l El. by apply (same_meta_list (db_world d)); [|apply Hl].
    + rewrite stop_updating; [|done|by eapply alive_nodes, follower_alive|].
      * intros Hu q Hq. apply (same_meta_list (db_world d)); [done|]. apply Ha; [done|]. unfold db_alive in *. cbn in Hq.
        rewrite Eo. rewrite !elem_of_app, ?elem_of_cons in *. tauto.
      * intros El. destruct (ci_up _ Hi) as (ms & [_ _ Hap] & _). by apply (Hap s s).
  - split; cbn [leader_stopped db_leader db_world]; [done|]. intros _ q Hq.
    apply (same_meta_list (db_world d)); [done|]. apply Ha; [apply Hcalm; [by rewrite El|done]|]. by apply follower_alive.
  - assert (forall q, q ∈ db_alive d -> on_list w' q) as Hon.
    { intros q Hq. apply (same_meta_list (db_world d)); [apply He|]. apply Ha; [by apply no_updates|done]. }
    assert (forall q, q ∈ l :: o1 ++ o2 -> q ∈ db_alive d) as Hin.
    { intros q Hq. apply follower_alive. rewrite Eo. rewrite elem_of_cons, !elem_of_app, elem_of_cons in *. tauto. }
    split; cbn [db_leader db_world].
    + intros ? [= <-]. apply Hon, Hin. by left.
    + intros _ q Hq. by apply Hon, Hin.
  - destruct (beat_inv d cur order Hi Hcur Hord) as [Hi' Hon].
    split; cbn [in_world db_leader db_world].
    + intros l El. pose proof (leader_alive d l El). apply Hon; [by eapply alive_nodes|]. split; [by apply Hl|done].
    + intros Hu q Hq. change (db_alive (in_world d _)) with (db_alive d) in Hq.
      apply Hon; [by eapply alive_nodes|]. split; [by apply Ha|done].
Qed.

Lemma init_calm w : calm_inv (db_init w).
Proof. split; [done|]. cbn. by intros _ q ?%elem_of_nil. Qed.

Lemma calm_reaches w d : blank w -> rtc calm_step (db_init w) d -> cluster_inv d /\ calm_inv d.
Proof.
  intros Hb. revert d. apply (rtc_ind_r (fun d => cluster_inv d /\ calm_inv d)).
  - split; [by apply init_inv|apply init_calm].
  - intros d d' _ Hst [Hi Hc]. split; [eapply db_step_inv; [done|apply Hst]|by eapply calm_step_inv].
Qed.

(** In a calm life there is always someone on the list. *)
Lemma calm_listed d : cluster_inv d -> calm_inv d -> db_members d <> [] -> Master_Peers cfg (db_world d) <> Ok (Some []).
Proof.
  intros Hi Hc Hne E.
  assert (exists q, on_list (db_world d) q) as (q & cur & Hcur & Hin).
  { destruct (db_leader d) as [l|] eqn:El; [exists l; by apply (ca_leader _ Hc)|].
    destruct (ci_majority _ Hi) as [|Hm]; [done|]. unfold majority in Hm. destruct (db_alive d) as [|q alive] eqn:Ea; [cbn in Hm; lia|].
    exists q. apply (ca_all _ Hc); [by apply no_updates|]. rewrite Ea. by left. }
  change (Master_Peers cfg (w_meta (db_world d)) = Ok (Some [])) in E. rewrite E in Hcur. injection Hcur as <-.
  by apply elem_of_nil in Hin.
Qed.

(** Once no update is pending a heartbeat leaves exactly the nodes that
    serve. *)
Lemma beat_settles d cur order :
  cluster_inv d -> (forall q, q ∈ db_alive d -> on_list (db_world d) q) ->
  Master_Peers cfg (db_world d) = Ok (Some cur) -> order ≡ₚ cur ->
  Master_Peers cfg (w_meta (beat (db_world d) order)) = Ok (Some (sort_strings (httpAddr <$> db_alive d))).
Proof.
  intros Hi Hon Hcur Hp. destruct (ci_listed _ Hi) as (known & Hlist & Hnd & Hk).
  rewrite (the_list _ _ _ Hlist Hcur) in Hp.
  assert (known ⊆ nodes) as Hkn by (etrans; [exact Hk|apply (ci_members _ Hi)]).
  assert (answering (db_world d) known ≡ₚ db_alive d) as Hans.
  { apply NoDup_Permutation; [by apply NoDup_filter|apply Hi|]. intros q.
    unfold answering. rewrite list_elem_of_filter. split.
    - intros [Hq Hin]. apply alive_answers; [done|by apply Hkn|done].
    - intros Hin. pose proof (alive_nodes d q Hi Hin) as Hq. split; [by apply alive_answers|].
      apply (on_listed (db_world d)); [done..|]. by apply Hon. }
  rewrite <-(sort_strings_proper _ _ (fmap_Permutation httpAddr _ _ Hans)). by apply beat_lists.
Qed.

(** What a calm life comes to. *)
Lemma calm_follows d :
  cluster_inv d -> calm_inv d ->
  let w := db_world d in
  (forall s, s ∈ nodes -> s ∉ db_members d -> db_members d = [] \/ db_leader d <> None ->
     exists s' w', Start cfg post_join s w = (s', w', None)) /\
  (forall q, q ∈ db_members d -> Master_PeerHTTPAddr cfg w (raftAddr q) = Ok (httpAddr q)) /\
  exists cur, Master_Peers cfg w = Ok (Some cur) /\ (db_members d <> [] -> cur <> []) /\
    (forall p, p ∈ cur -> p ∈ httpAddr <$> db_members d) /\
    (w_updating w = [] ->
     (forall q, q ∈ db_alive d -> httpAddr q ∈ cur) /\
     (forall order, order ≡ₚ cur ->
        Master_Peers cfg (beat w order) = Ok (Some (sort_strings (httpAddr <$> db_alive d))))).
Proof.
  intros Hi Hc w. split; [|split].
  - intros s Hs Hn [Em|Hl].
    + destruct (first_start d s Hi Em Hs) as (s' & w' & E & _). by exists s', w'.
    + destruct (db_leader d) as [l|] eqn:El; [|done].
      destruct (later_start d l s Hi El (ca_leader _ Hc l El) Hs Hn) as (s' & w' & E & _). by exists s', w'.
  - intros q Hq. exact (proj1 (Forall_forall _ _) (ci_registered _ Hi) q Hq).
  - destruct (ci_listed _ Hi) as (known & Hlist & Hnd & Hk). exists (sort_strings (httpAddr <$> known)).
    split; [exact Hlist|]. split; [|split].
    + intros Hne E. apply (calm_listed d Hi Hc Hne). rewrite <-E. exact Hlist.
    + intros p (q & -> & Hq%Hk)%elem_of_listed. by apply list_elem_of_fmap_2.
    + intros Hu. split.
      * intros q Hq. destruct (ca_all _ Hc Hu q Hq) as (cur & Hcur & Hin). by rewrite (the_list _ _ _ Hlist Hcur) in Hin.
      * intros order Hp. apply (beat_settles d (sort_strings (httpAddr <$> known))); [done| |exact Hlist|done].
        by apply (ca_all _ Hc).
Qed.

(** *** Overlapping store calls *)

(** Addresses of members, each once. *)
Definition of_members d (peers : list string) : Prop :=
  exists known : list node, peers ≡ₚ httpAddr <$> known /\ NoDup known /\ known ⊆ db_members d.

Definition access_fits d (a : access) : Prop :=
  match a with Publish _ l | Rewrite l => of_members d l | Removal _ => True end.

Record overlap_inv d (js : list access) : Prop := {
  oi_cluster : cluster_inv d;
  oi_accesses : Forall (access_fits d) js;
}.

Lemma db_step_members d d' : db_step d d' -> db_members d ⊆ db_members d'.
Proof.
  intros Hst. inversion Hst as [? s s' w' err| | | | |]; subst; try done. unfold started.
  destruct err; [done|]. destruct (db_members d) as [|q ms]; cbn [db_members]; [by intros q ?%elem_of_nil|].
  intros q' Hq. apply elem_of_app. by left.
Qed.

Lemma fits_more d d' a : db_members d ⊆ db_members d' -> access_fits d a -> access_fits d' a.
Proof. destruct a; cbn; [|done|]; intros Hm (known & H1 & H2 & H3); exists known; split_and!; (done || by etrans). Qed.

Lemma members_stored d (l : list string) :
  cluster_inv d -> of_members d l -> cluster_inv (in_world d (Master_UpdatePeers cfg (db_world d) (Some l)).1).
Proof.
  intros Hi (known & Hl & Hnd & Hk). rewrite update_world by done. cbn [fst].
  assert (list_in cfg (w_meta (db_world d)) l = list_in cfg (w_meta (db_world d)) (httpAddr <$> known)) as ->.
  { unfold list_in, Master_UpdatePeers. cbn. by rewrite (sort_strings_proper _ _ Hl). }
  by apply (cluster_stores d (w_updating (db_world d)) known).
Qed.

Lemma plan_removes d dead (l : list string) :
  cluster_inv d -> removeNodes_plan cfg (w_meta (db_world d)) dead = Some l -> of_members d l.
Proof.
  intros Hi Hp. destruct (ci_listed _ Hi) as (known & Hlist & Hnd & Hk).
  rewrite (removeNodes_plan_eq cfg (w_meta (db_world d)) dead (Some (sort_strings (httpAddr <$> known))) Hlist) in Hp.
  destruct (decide _); [|done]. injection Hp as <-. cbn [elems default].
  exists (filter (fun q => httpAddr q ∉ dead) known). split_and!.
  - change (id (sort_strings (httpAddr <$> known))) with (sort_strings (httpAddr <$> known)).
    rewrite sort_strings_perm, list_filter_of_fmap. done.
  - by apply NoDup_filter.
  - intros q [_ Hq]%list_elem_of_filter. by apply Hk.
Qed.

Lemma overlap_step_inv d js d' js' : overlap_inv d js -> overlap_step (d, js) (d', js') -> overlap_inv d' js'.
Proof.
  intros [Hi Hjs] Hst.
  inversion Hst as [? ? ? Hdb|? us1 url us2 s peers ? w' Hl Hs Hp|? js1 url peers js2|? dead ?|? js1 dead js2|? js1 l js2]; subst;
    try (apply Forall_app in Hjs as [H1 [H2 H3]%Forall_cons]).
  - split; [by eapply db_step_inv|]. apply Forall_forall. intros a [_ Ha]%list_elem_of_filter.
    eapply fits_more; [by apply db_step_members|]. by apply (proj1 (Forall_forall _ _) Hjs).
  - destruct (plan_members d url s Hi) as (known & Hk & Hplan); [rewrite Hl; apply elem_of_app; right; by left|done|].
    unfold w' in Hp. rewrite Hplan in Hp. injection Hp as <-. split.
    + pose proof Hi as [(ms & Hup & Hms) ? ? ? ? ? ? Hupd]. split; unfold db_alive; cbn; try done.
      * exists ms. split; [by eapply up_nodes; [|exact Hup]|done].
      * intros u Hu. apply Hupd. rewrite Hl. revert Hu. rewrite !elem_of_app, elem_of_cons. tauto.
    + apply Forall_app. split; [done|]. repeat constructor. exists known. split_and!; [done| |by rewrite Hk].
      rewrite Hk. apply Hi.
  - split; [by apply members_stored|by apply Forall_app].
  - split; [done|]. apply Forall_app. by repeat constructor.
  - split; [done|]. rewrite !Forall_app. split_and!; [done| |done].
    destruct (removeNodes_plan cfg (w_meta (db_world d')) dead) eqn:E; [|constructor]. repeat constructor. by eapply plan_removes.
  - split; [by apply members_stored|by apply Forall_app].
Qed.

Lemma overlap_reaches w d js : blank w -> rtc overlap_step (db_init w, []) (d, js) -> overlap_inv d js.
Proof.
  intros Hb Hr. change (overlap_inv (d, js).1 (d, js).2). revert Hr. generalize (d, js).
  apply (rtc_ind_r (fun djs : database * list access => overlap_inv djs.1 djs.2)).
  - split; [by apply init_inv|constructor].
  - intros [d1 js1] [d2 js2] _ Hst IH. by eapply overlap_step_inv.
Qed.

(** One update and one heartbeat after it repair any list. *)
Lemma update_and_beat d us1 url us2 :
  cluster_inv d -> w_updating (db_world d) = us1 ++ url :: us2 ->
  exists s w', w_nodes (db_world d) !! url = Some s /\
    updatePeers cfg s (with_updating (db_world d) (us1 ++ us2)) = Ret (w', None) /\
    Master_Peers cfg w' = Ok (Some (sort_strings (httpAddr <$> db_members d))) /\
    forall order, order ≡ₚ httpAddr <$> db_members d ->
      Master_Peers cfg (beat w' order) = Ok (Some (sort_strings (httpAddr <$> db_alive d))).
Proof.
  intros Hi Hl. assert (url ∈ w_updating (db_world d)) as Hu by (rewrite Hl; apply elem_of_app; right; by left).
  destruct (ci_updating _ Hi url Hu) as (l & El & ->).
  destruct (alive_serves d l Hi (leader_alive d l El)) as (s & Hs & _).
  destruct (plan_members d _ s Hi Hu Hs) as (known & _ & Hp).
  destruct (updatePeers cfg s (with_updating (db_world d) (us1 ++ us2))) as [[w' err]|] eqn:E;
    [|by rewrite updatePeers_eq, Hp in E].
  destruct (update_publishes d us1 _ us2 s w' err Hi Hl Hs E) as (Hi' & _ & _ & Hw' & ->).
  exists s, w'. split_and!; [done|done|exact Hw'|]. intros order Hord.
  apply (beat_settles (in_world d w') (sort_strings (httpAddr <$> db_members d))); [done| |exact Hw'|by rewrite sort_strings_perm].
  intros q Hq. eexists. split; [exact Hw'|]. apply elem_of_listed. exists q. split; [done|].
  by apply (alive_members (in_world d w')).
Qed.

(** ** Properties *)

(** C7: database nodes with addresses of their own are started in any order on
    an empty metadata store, each start running undisturbed; followers and
    leaders stop, nodes try again, and new leaders are elected while
    heartbeats run.  A majority of the members stays up, and no node is
    started on an emptied list while there are members.

    (1) If no leader stops with updates to do, and the store calls of an
    [updatePeers] or a heartbeat are not overlapped by those of another one
    or of a start: whoever has not been taken in gets to serve when it is
    started, if there is a leader or it is the first; every member is
    registered; the list of the master is never empty and has only members;
    and once no [updatePeers] goroutine is pending it has every node that
    serves, and after a heartbeat exactly those, sorted.

    (2) Without these two conditions, the reads and writes of any number of
    [updatePeers] and [removeNodes] overlapping one another and everything
    else: every member is still registered and the list readable and of
    members only; and whatever nodes it has lost, when an [updatePeers] next
    runs undisturbed it has all members, and after an undisturbed heartbeat
    exactly the nodes that serve, sorted. *)
Theorem membership_follows_nodes w0 :
  blank w0 ->
  (forall d, rtc calm_step (db_init w0) d ->
   let w := db_world d in
   (forall s, s ∈ nodes -> s ∉ db_members d -> db_members d = [] \/ db_leader d <> None ->
      exists s' w', Start cfg post_join s w = (s', w', None)) /\
   (forall q, q ∈ db_members d -> Master_PeerHTTPAddr cfg w (raftAddr q) = Ok (httpAddr q)) /\
   exists cur, Master_Peers cfg w = Ok (Some cur) /\ (db_members d <> [] -> cur <> []) /\
     (forall p, p ∈ cur -> p ∈ httpAddr <$> db_members d) /\
     (w_updating w = [] ->
      (forall q, q ∈ db_alive d -> httpAddr q ∈ cur) /\
      (forall order, order ≡ₚ cur ->
         Master_Peers cfg (beat w order) = Ok (Some (sort_strings (httpAddr <$> db_alive d)))))) /\
  (forall d js, rtc overlap_step (db_init w0, []) (d, js) ->
   let w := db_world d in
   (forall q, q ∈ db_members d -> Master_PeerHTTPAddr cfg w (raftAddr q) = Ok (httpAddr q)) /\
   (exists cur, Master_Peers cfg w = Ok (Some cur) /\ forall p, p ∈ cur -> p ∈ httpAddr <$> db_members d) /\
   forall us1 url us2, w_updating w = us1 ++ url :: us2 ->
     exists s w', w_nodes w !! url = Some s /\ updatePeers cfg s (with_updating w (us1 ++ us2)) = Ret (w', None) /\
       Master_Peers cfg w' = Ok (Some (sort_strings (httpAddr <$> db_members d))) /\
       forall order, order ≡ₚ httpAddr <$> db_members d ->
         Master_Peers cfg (beat w' order) = Ok (Some (sort_strings (httpAddr <$> db_alive d)))).
Proof.
  intros Hb. split.
  - intros d Hr. destruct (calm_reaches w0 d Hb Hr) as [Hi Hc]. by apply calm_follows.
  - intros d js Hr. destruct (overlap_reaches w0 d js Hb Hr) as [Hi _]. split; [|split].
    + intros q Hq. exact (proj1 (Forall_forall _ _) (ci_registered _ Hi) q Hq).
    + destruct (ci_listed _ Hi) as (known & Hlist & _ & Hk). exists (sort_strings (httpAddr <$> known)).
      split; [exact Hlist|]. intros p (q & -> & Hq%Hk)%elem_of_listed. by apply list_elem_of_fmap_2.
    + intros us1 url us2 Hl. by apply update_and_beat.
Qed.

(** C8: as long as the list is not empty, a node that has been taken in and
    stops can not be started again, and while there is no leader nobody can:
    the peer set of raft still holds its address, so a leader answers its
    join with 500, the others answer 400, and it exits with the join error. *)
Theorem restarted_member_exits w0 d s :
  blank w0 -> rtc db_step (db_init w0) d -> s ∈ nodes ->
  s ∈ db_members d \/ db_leader d = None -> Master_Peers cfg (db_world d) <> Ok (Some []) ->
  exists s' w', Start cfg post_join s (db_world d) = (s', w', Some join_failed) /\
    Master_Peers cfg w' = Master_Peers cfg (db_world d).
Proof.
  intros Hb Hr Hs Hor Hne. pose proof (db_reaches w0 d Hb Hr) as Hi.
  destruct (start_fails d s Hi Hs Hne) as (s' & w' & E & Hi' & Hon & _).
  { intros l El. destruct Hor as [|En]; [by left|congruence]. }
  exists s', w'. by split.
Qed.

(** An update lists every node ever taken in, the stopped ones again:
    raft's peer set never loses one.  Until the next heartbeat the master
    and everyone who asks it counts them among the databases. *)
Theorem update_relists_stopped w0 d us1 url us2 s w' err :
  blank w0 -> rtc db_step (db_init w0) d ->
  w_updating (db_world d) = us1 ++ url :: us2 -> w_nodes (db_world d) !! url = Some s ->
  updatePeers cfg s (with_updating (db_world d) (us1 ++ us2)) = Ret (w', err) ->
  Master_Peers cfg w' = Ok (Some (sort_strings (httpAddr <$> db_members d))) /\
  (forall q, q ∈ db_members d -> q ∉ db_alive d ->
     w_nodes w' !! join_url (httpAddr q) = None /\
     exists cur, Master_Peers cfg w' = Ok (Some cur) /\ httpAddr q ∈ cur).
Proof.
  intros Hb Hr Hl Hs Hup. pose proof (db_reaches w0 d Hb Hr) as Hi.
  destruct (update_publishes d us1 url us2 s w' err Hi Hl Hs Hup) as (_ & En & _ & Hw & _).
  split; [exact Hw|]. intros q Hq Hn. split.
  - rewrite En. destruct (ci_gone _ Hi q); [by eapply members_nodes|done|done].
  - eexists. split; [exact Hw|]. apply elem_of_listed. by exists q.
Qed.

(** A heartbeat adds nothing to the list. *)
Lemma beat_only_removes w cur order :
  Master_Peers cfg (w_meta w) = Ok (Some cur) -> order ≡ₚ cur ->
  exists cur', Master_Peers cfg (w_meta (beat w order)) = Ok (Some cur') /\ (forall p, p ∈ cur' -> p ∈ cur).
Proof.
  intros Hcur Hp. eexists. split.
  - exact (tick_peers cfg (pinger w) (get_ping w) (fun _ _ => eq_refl) tt (w_meta w) order _ store_writable Hcur Hp).
  - intros p. destruct (decide _); [|done]. by rewrite elem_of_sort_strings, list_elem_of_filter; intros [_ ?].
Qed.
(** C33: [updatePeers] reads the addresses and stores the list in separate
    calls: when a goroutine has read them, a new node joins, its own update
    runs and the first one stores what it had read, then the new node serves
    but is not in the list, and no heartbeat puts it back. *)
Theorem overlapping_updates_lose_node w0 d us1 url us2 sl peers s s' w1 ua url2 ub s2 w2 err :
  blank w0 -> rtc db_step (db_init w0) d ->
  w_updating (db_world d) = us1 ++ url :: us2 -> w_nodes (db_world d) !! url = Some sl ->
  updatePeers_plan sl (with_updating (db_world d) (us1 ++ us2)) = Ret (Ok peers) ->
  s ∈ nodes -> s ∉ db_members d -> Master_Peers cfg (db_world d) <> Ok (Some []) ->
  Start cfg post_join s (db_world d) = (s', w1, None) ->
  w_updating (serving_at w1 s') = ua ++ url2 :: ub -> w_nodes (serving_at w1 s') !! url2 = Some s2 ->
  updatePeers cfg s2 (with_updating (serving_at w1 s') (ua ++ ub)) = Ret (w2, err) ->
  let w3 := (Master_UpdatePeers cfg (with_updating w2 (us1 ++ us2)) (Some peers)).1 in
  is_Some (w_nodes w3 !! join_url (httpAddr s)) /\
  (exists cur, Master_Peers cfg w2 = Ok (Some cur) /\ httpAddr s ∈ cur) /\
  exists cur, Master_Peers cfg w3 = Ok (Some cur) /\ ¬ httpAddr s ∈ cur /\
    (forall order, order ≡ₚ cur ->
       exists cur', Master_Peers cfg (beat w3 order) = Ok (Some cur') /\ httpAddr s ∉ cur').
Proof.
  intros Hb Hr Hl Hs Hplan Hsn Hnew Hne Hst Hl2 Hs2 Hup. pose proof (db_reaches w0 d Hb Hr) as Hi.
  assert (url ∈ w_updating (db_world d)) as Hurl by (rewrite Hl; apply elem_of_app; right; by left).
  assert (db_members d <> []) as Hm.
  { intros E. destruct (alive_no_members d Hi E) as [El _]. by rewrite (no_updates d Hi El) in Hurl; apply elem_of_nil in Hurl. }
  destruct (plan_members d url sl Hi Hurl Hs) as (known & Hk & Hp1). rewrite Hp1 in Hplan. injection Hplan as <-.
  destruct (start_cases d s s' w1 None Hi Hsn (or_intror Hne) Hst) as [Hi1 _].
  set (d1 := started d s s' w1 None) in *.
  assert (db_world d1 = serving_at w1 s' /\ db_members d1 = db_members d ++ [s] /\ s ∈ db_alive d1) as (Ew & Em & Ha).
  { unfold d1, started, db_alive. destruct (db_members d); [done|]. split_and!; [done..|].
    cbn. rewrite !elem_of_app. right. right. by left. }
  rewrite <-Ew in Hl2, Hs2, Hup.
  destruct (update_publishes d1 ua url2 ub s2 w2 err Hi1 Hl2 Hs2 Hup) as (_ & En & _ & Hw2 & _).
  rewrite Em in Hw2. rewrite update_world by done. cbn zeta. cbn [fst]. split; [|split].
  - cbn [with_meta with_updating w_nodes]. rewrite En. destruct (alive_serves d1 s Hi1 Ha) as (q' & E & _). by exists q'.
  - eexists. split; [exact Hw2|]. apply elem_of_listed. exists s. split; [done|]. apply elem_of_app. right. by left.
  - set (w3 := with_meta _ _).
    assert (known ⊆ nodes) as Hkn by (rewrite Hk; apply Hi).
    assert (listed cfg (w_meta w3) known) as Hw3 by by apply listed_list, proper_utf8.
    assert (httpAddr s ∉ sort_strings (httpAddr <$> known)) as Hnot.
    { intros (q & E & Hq)%elem_of_listed. apply Hnew. rewrite (http_inj q s (Hkn q Hq) Hsn E). by rewrite <-Hk. }
    eexists. split; [exact Hw3|]. split; [exact Hnot|]. intros order Hord.
    destruct (beat_only_removes w3 _ order Hw3 Hord) as (cur' & E & Hsub). exists cur'. split; [exact E|].
    intros Hin. by apply Hnot, Hsub.
Qed.

(** Steps that take no node in. *)
Definition quiet_step d d' : Prop := db_step d d' /\ db_members d' = db_members d.

Lemma quiet_unlisted d d' q :
  cluster_inv d -> db_members d <> [] -> w_updating (db_world d) = [] -> q ∈ nodes -> ¬ on_list (db_world d) q ->
  quiet_step d d' ->
  cluster_inv d' /\ db_members d' <> [] /\ w_updating (db_world d') = [] /\ ¬ on_list (db_world d') q.
Proof.
  intros Hi Hne Hu Hq Hn [Hst Hm]. split; [by eapply db_step_inv|]. split; [by rewrite Hm|].
  inversion Hst as [? s s' w' err Hs _ Hlist E|? us1 url us2 s w' err Hus Hs Hup|? o1 s o2 Eo _
    |? l El _|? o1 l o2 w' El Eo He|? cur order Hcur Hord]; subst.
  - destruct (start_cases d s s' w' err Hi Hs Hlist E) as (_ & [(-> & Hon & Hu')|[(_ & ? & _)|(-> & _ & _ & _)]]); [|done|].
    + cbn. rewrite Hu'. split; [done|]. unfold on_list. by rewrite Hon.
    + exfalso. unfold started in Hm. destruct (db_members d) as [|m0 ms]; [done|]. cbn [db_members] in Hm.
      apply (f_equal length) in Hm. rewrite length_app in Hm. cbn in Hm. lia.
  - rewrite Hu in Hus. by destruct us1.
  - cbn [db_world]. split; [cbn; by rewrite Hu|]. by rewrite (same_meta_list (db_world d)).
  - cbn [leader_stopped db_world]. split; [cbn; by rewrite Hu|]. by rewrite (same_meta_list (db_world d)).
  - cbn [db_world]. split; [by rewrite (el_updating _ _ _ _ He)|]. rewrite (same_meta_list (db_world d)); [done|apply He].
  - split; [exact Hu|]. cbn [in_world db_world]. intros Hon.
    by apply (beat_inv d cur order Hi Hcur Hord) in Hon as [? _].
Qed.

(** C34: the goroutines of a leader that stops are gone: a node it has taken
    in and not yet published serves, and whatever happens, stops, elections,
    heartbeats, starts that are refused, it is not on the list until raft
    takes another node in. *)
Theorem stopped_leader_forgets_node w0 d l q d2 :
  blank w0 -> rtc db_step (db_init w0) d -> db_leader d = Some l -> majority (db_members d) (db_followers d) ->
  q ∈ db_followers d -> ¬ (exists cur, Master_Peers cfg (db_world d) = Ok (Some cur) /\ httpAddr q ∈ cur) ->
  db_step d (leader_stopped d l) /\
  (rtc quiet_step (leader_stopped d l) d2 ->
   (exists cur, Master_Peers cfg (db_world d2) = Ok (Some cur) /\ httpAddr q ∉ cur) /\
   (q ∈ db_alive d2 -> is_Some (w_nodes (db_world d2) !! join_url (httpAddr q)))).
Proof.
  intros Hb Hr El Hm Hq Hn. pose proof (db_reaches w0 d Hb Hr) as Hi.
  assert (db_step d (leader_stopped d l)) as Hst by by apply db_leader_stop. split; [done|]. intros Hr2.
  assert (q ∈ nodes) as Hqn by by eapply alive_nodes, follower_alive.
  assert (cluster_inv d2 /\ db_members d2 <> [] /\ w_updating (db_world d2) = [] /\ ¬ on_list (db_world d2) q)
    as (Hi2 & _ & _ & Hn2).
  { revert d2 Hr2. apply (rtc_ind_r (fun d2 => cluster_inv d2 /\ db_members d2 <> [] /\ w_updating (db_world d2) = [] /\
                                              ¬ on_list (db_world d2) q)).
    - pose proof (db_step_inv _ _ Hi Hst) as Hi1. split; [done|]. split; [|split; [by apply no_updates|]].
      + intros E. cbn in E. destruct (alive_no_members d Hi E) as [? _]. congruence.
      + cbn [leader_stopped db_world]. by rewrite (same_meta_list (db_world d)).
    - intros d2 d3 _ Hs (H1 & H2 & H3 & H4). by eapply quiet_unlisted. }
  split.
  - destruct (ci_listed _ Hi2) as (known & Hlist & _ & _). eexists. split; [exact Hlist|].
    intros Hin. apply Hn2. by eexists.
  - intros Ha. destruct (alive_serves d2 q Hi2 Ha) as (q' & E & _). by exists q'.
Qed.

(** C35: a list that has nobody who serves becomes empty by one heartbeat, and
    the next new node then founds a cluster of its own, though the leader of
    the old one is up: two leaders of disjoint members, and the new one is all
    the list names. *)
Theorem emptied_list_founds_second_cluster w0 d l cur order s :
  blank w0 -> rtc db_step (db_init w0) d -> db_leader d = Some l ->
  Master_Peers cfg (db_world d) = Ok (Some cur) -> (forall q, q ∈ db_alive d -> httpAddr q ∉ cur) -> order ≡ₚ cur ->
  s ∈ nodes -> s ∉ db_members d ->
  exists s' w', Start cfg post_join s (beat (db_world d) order) = (s', w', None) /\
    leader_at s' [raftAddr s] /\
    (exists sl ms, serves (serving_at w' s') l sl /\ leader_at sl ms /\ ms ≡ₚ raftAddr <$> db_members d /\ ¬ raftAddr s ∈ ms) /\
    Master_Peers cfg w' = Ok (Some [httpAddr s]).
Proof.
  intros Hb Hr El Hcur Hoff Hord Hs Hn. pose proof (db_reaches w0 d Hb Hr) as Hi.
  destruct (is_proper s Hs) as [_ Hv (r & Hopen & Hlead) _].
  destruct (beat_inv d cur order Hi Hcur Hord) as [Hi' Hon].
  destruct (ci_listed _ Hi') as (known & Hlist & _ & Hk). cbn [in_world db_world db_members] in *.
  assert (known = []) as ->.
  { destruct known as [|q known]; [done|]. exfalso.
    assert (q ∈ nodes) as Hq by (eapply members_nodes; [exact Hi|]; apply Hk; by left).
    assert (on_list (beat (db_world d) order) q) as [Hl Ha]%(Hon q Hq) by (eexists; split; [exact Hlist|]; apply elem_of_listed; exists q; split; [done|by left]).
    destruct Hl as (cur' & Hcur' & Hin). change (Master_Peers cfg (w_meta (db_world d)) = Ok (Some cur)) in Hcur.
    rewrite Hcur in Hcur'. injection Hcur' as <-. by apply (Hoff q Ha). }
  eexists _, _. split; [exact (Start_founds s _ r Hlist Hopen)|]. split; [by exists r|]. split.
  - destruct (ci_up _ Hi) as (ms & Hup & Hms). rewrite El in Hup.
    destruct (up_leader _ _ _ _ Hup l eq_refl) as (sl & (Hsl & E1 & E2) & Hll). exists sl, ms. split.
    { split; [|done]. cbn. rewrite lookup_insert_ne; [done|]. intros E. apply Hn.
      rewrite <-(url_inj s l Hs); [by apply alive_members, leader_alive|by eapply alive_nodes, leader_alive|done]. }
    split; [done|]. split; [done|]. by eapply not_member_raft.
  - apply (listed_list cfg store_writable _ [s]). by repeat constructor.
Qed.
End membership.

(** ** Witnesses *)

Abbreviation peer_node := (Service (Store PeerSet.node)).
Definition new_node (raft http : string) : peer_node := New http raft "d".
Abbreviation peers_world := (world (R := PeerSet.node) (M := Mock.Meta)).
Abbreviation peers_database := (database (R := PeerSet.node) (M := Mock.Meta)).
Definition empty_world : peers_world :=
  {| w_meta := Mock.DefaultMeta; w_nodes := ∅; w_updating := [] |}.
Definition r1 : peer_node := new_node "r1" "h1".
Definition r2 : peer_node := new_node "r2" "h0".
Definition r3 : peer_node := new_node "r3" "h2".
Definition r4 : peer_node := new_node "r4" "h3".
Definition four : list peer_node := [r1; r2; r3; r4].

Abbreviation step := (db_step default_Config four).
Abbreviation calm := (calm_step default_Config four).
Definition nothing : peers_database := db_init empty_world.

Lemma four_distinct : distinct four.
Proof. split; apply (bool_decide_eq_true_1 _); vm_compute; reflexivity. Qed.

Lemma four_proper : Forall proper four.
Proof. repeat constructor; try reflexivity; by eexists. Qed.

Lemma empty_blank : blank default_Config empty_world.
Proof. by split. Qed.

(** Runs a start, and the first goroutine that waits. *)
Definition run_start (d : peers_database) (s : peer_node) : peers_database :=
  let '(s', w', err) := Start default_Config post_join s (db_world d) in started d s s' w' err.
Definition run_update (d : peers_database) : peers_database :=
  match w_updating (db_world d) with
  | [] => d
  | url :: l =>
    match w_nodes (db_world d) !! url with
    | None => d
    | Some s =>
      match updatePeers default_Config s (with_updating (db_world d) l) with
      | Ret (w', _) => in_world d w'
      | Panic _ => d
      end
    end
  end.

Definition can_start (d : peers_database) (s : peer_node) : bool :=
  bool_decide (raftAddr s ∈ raftAddr <$> four) && bool_decide (raftAddr s ∉ raftAddr <$> db_alive d) &&
  match db_members d, Master_Peers default_Config (db_world d) with
  | _ :: _, Ok (Some []) => false
  | _, _ => true
  end.

Lemma started_leader (d : peers_database) s s' w err : db_leader (started d s s' w err) = None -> db_leader d = None.
Proof. unfold started. by destruct err, (db_members d). Qed.

Lemma run_start_calm d s : s ∈ four -> can_start d s = true -> calm d (run_start d s).
Proof.
  intros Hs [[_ Hn%bool_decide_eq_true]%andb_prop Hl]%andb_prop. unfold run_start.
  destruct (Start default_Config post_join s (db_world d)) as [[s' w'] err] eqn:E. split.
  - apply (db_start _ _ _ s s' w' err); [done| | |exact E].
    + intros Hin. apply Hn. by apply list_elem_of_fmap_2.
    + destruct (db_members d); [by left|right]. intros E'. by rewrite E' in Hl.
  - intros H Hn'. destruct H. by eapply started_leader.
Qed.

Lemma run_update_calm d : rtc calm d (run_update d).
Proof.
  unfold run_update. destruct (w_updating (db_world d)) as [|url l] eqn:El; [done|].
  destruct (w_nodes (db_world d) !! url) as [s|] eqn:Es; [|done].
  destruct (updatePeers _ _ _) as [[w' err]|] eqn:Eu; [|done].
  apply rtc_once. split; [by eapply (db_update _ _ _ [] url l)|]. cbn. by intros H E.
Qed.

Definition elect (l : peer_node) (members : list peer_node) (w : peers_world) : peers_world :=
  {| w_meta := w_meta w; w_updating := w_updating w;
     w_nodes := (fun s => with_store s (with_raft (store s)
       (if decide (raftAddr s = raftAddr l)
        then {| PeerSet.leader := raftAddr l; PeerSet.members := raftAddr <$> members |}
        else {| PeerSet.leader := raftAddr l; PeerSet.members := [] |}))) <$> w_nodes w |}.

Lemma elect_elected l members w : members <> [] -> elected l members w (elect l members w).
Proof.
  intros Hm. split; [done..| |]; cbn [elect w_nodes]; intros url; [intros Hn; by rewrite lookup_fmap, Hn|].
  intros s Hs. rewrite lookup_fmap, Hs. eexists. split; [reflexivity|]. destruct (decide _) as [E|Hn]; cbn; [|done].
  exists (raftAddr <$> members). split; [done|]. rewrite E. split; [done|]. by destruct members.
Qed.

(** Three nodes start; the goroutines of the two joins wait, or have run. *)
Definition two_up : peers_database := foldl run_start nothing [r1; r2].
Definition three_up : peers_database := run_start two_up r3.
Definition three_listed : peers_database := run_update (run_update three_up).

Lemma two_calm : rtc calm nothing two_up.
Proof.
  eapply rtc_l; [apply (run_start_calm nothing r1); [by left|vm_compute; reflexivity]|].
  apply rtc_once. apply run_start_calm; [right; by left|vm_compute; reflexivity].
Qed.

Lemma three_calm : rtc calm nothing three_up.
Proof.
  eapply rtc_r; [exact two_calm|]. apply run_start_calm; [right; right; by left|vm_compute; reflexivity].
Qed.

Lemma listed_calm : rtc calm nothing three_listed.
Proof. etrans; [exact three_calm|]. etrans; apply run_update_calm. Qed.

Lemma calm_db d : rtc calm nothing d -> rtc step nothing d.
Proof. apply rtc_subrel. by intros ? ? []. Qed.

(** The leader stops, and [r2] is elected. *)
Definition succeeded (d : peers_database) : peers_database :=
  let w := stop (db_world d) r1 in
  {| db_members := db_members d; db_leader := Some r2; db_followers := [r3]; db_world := elect r2 (db_members d) w |}.

Lemma succeeded_step d :
  db_leader d = Some r1 -> db_followers d = [r2; r3] -> length (db_members d) = 3 ->
  step d (leader_stopped d r1) /\ step (leader_stopped d r1) (succeeded d).
Proof.
  intros El Eo Em. split; [apply db_leader_stop; [done|]; unfold majority; rewrite Em, Eo; cbn; lia|].
  apply (db_elect _ _ (leader_stopped d r1) [] r2 [r3]); [done|done|]. apply elect_elected.
  cbn. by destruct (db_members d).
Qed.

Definition one_stopped : peers_database := succeeded three_listed.

Lemma stopped_calm : rtc calm nothing one_stopped.
Proof.
  etrans; [exact listed_calm|].
  destruct (succeeded_step three_listed) as [H1 H2]; [vm_compute; reflexivity..|].
  eapply rtc_l; [split; [exact H1|by vm_compute]|]. apply rtc_once. split; [exact H2|done].
Qed.

(** A goroutine has read the first two nodes, the third joins, and what was
    read is published: the third is not on the list, and its own goroutine
    waits. *)
Definition read_two : peers_database := in_world two_up (with_updating (db_world two_up) []).
Definition joined_then : peers_database := run_start read_two r3.
Definition third_lost : peers_database :=
  in_world joined_then (Master_UpdatePeers default_Config (db_world joined_then) (Some ["h0"; "h1"])).1.

Lemma third_lost_reached : rtc (overlap_step default_Config four) (nothing, []) (third_lost, []).
Proof.
  assert (forall d, rtc step nothing d -> rtc (overlap_step default_Config four) (nothing, []) (d, [])) as Hstep.
  { apply rtc_ind_r; [done|]. intros d1 d2 _ Hst IH. eapply rtc_r; [exact IH|].
    by apply (ov_step default_Config four d1 d2 []). }
  eapply rtc_r; [eapply rtc_r; [eapply rtc_r; [exact (Hstep two_up (calm_db _ two_calm))|]|]|].
  - apply (ov_read default_Config four two_up [] "http://h1/join" [] (default r1 (w_nodes (db_world two_up) !! "http://h1/join")) ["h0"; "h1"]);
      vm_compute; reflexivity.
  - apply (ov_step default_Config four read_two joined_then [Publish "http://h1/join" ["h0"; "h1"]]).
    apply (proj1 (run_start_calm read_two r3 ltac:(right; right; by left) ltac:(vm_compute; reflexivity))).
  - exact (ov_publish default_Config four joined_then [] "http://h1/join" ["h0"; "h1"] []).
Qed.

Lemma membership_witness :
  (Master_Peers default_Config (db_world one_stopped) = Ok (Some ["h0"; "h1"; "h2"]) /\
   Master_Peers default_Config (beat default_Config (db_world one_stopped) ["h2"; "h0"; "h1"]) = Ok (Some ["h0"; "h2"])) /\
  (Master_Peers default_Config (db_world third_lost) = Ok (Some ["h0"; "h1"]) /\
   exists (s : peer_node) (w' : peers_world), updatePeers default_Config s (with_updating (db_world third_lost) []) = Ret (w', None) /\
     Master_Peers default_Config w' = Ok (Some ["h0"; "h1"; "h2"])).
Proof.
  destruct (membership_follows_nodes default_Config four default_keys_disjoint mock_writable four_distinct four_proper
              empty_world empty_blank) as [Hcalm Hover].
  split; (split; [vm_compute; reflexivity|]).
  - destruct (Hcalm one_stopped stopped_calm) as (_ & _ & cur & E & _ & _ & H).
    assert (cur = ["h0"; "h1"; "h2"]) as -> by (vm_compute in E; injection E as E; exact (eq_sym E)).
    destruct H as (_ & H); [vm_compute; reflexivity|]. apply H.
    apply (Permutation_cons_append ["h0"; "h1"] "h2").
  - destruct (Hover third_lost [] third_lost_reached) as (_ & _ & H).
    destruct (H [] "http://h1/join" []) as (s & w' & _ & E1 & E2 & _); [vm_compute; reflexivity|].
    exists s, w'. split; [exact E1|]. rewrite E2. vm_compute. reflexivity.
Defined.

Lemma restarted_member_witness :
  exists s' w', Start default_Config post_join r1 (db_world one_stopped) = (s', w', Some join_failed) /\
    Master_Peers default_Config w' = Master_Peers default_Config (db_world one_stopped).
Proof.
  apply (restarted_member_exits default_Config four default_keys_disjoint mock_writable four_distinct four_proper
           empty_world one_stopped r1 empty_blank (calm_db _ stopped_calm)).
  - by left.
  - left. vm_compute. by left.
  - vm_compute. discriminate.
Defined.

(** [r2] stops and the list forgets it before the goroutine of [r3]'s join
    runs. *)
Definition r2_stopped : peers_database :=
  let d := run_update three_up in
  {| db_members := db_members d; db_leader := db_leader d; db_followers := [r3]; db_world := stop (db_world d) r2 |}.
Definition forgotten : peers_database :=
  in_world r2_stopped (beat default_Config (db_world r2_stopped) ["h0"; "h1"; "h2"]).

Lemma forgotten_reached : rtc step nothing forgotten.
Proof.
  etrans; [apply calm_db; etrans; [exact three_calm|apply run_update_calm]|].
  eapply rtc_l; [apply (db_stop _ _ (run_update three_up) [] r2 [r3]); [vm_compute; reflexivity|vm_compute; lia]|].
  apply rtc_once. apply (db_beat _ _ r2_stopped ["h0"; "h1"; "h2"]); [vm_compute; reflexivity|reflexivity].
Qed.

Example update_relists_example :
  Master_Peers default_Config (db_world forgotten) = Ok (Some ["h1"; "h2"]) /\
  Master_Peers default_Config (db_world (run_update forgotten)) = Ok (Some ["h0"; "h1"; "h2"]).
Proof. split; vm_compute; reflexivity. Qed.

(** The goroutine of the second node's join has read, the third joins, its
    goroutine runs, and the first one stores what it had read. *)
Definition leader_of (d : peers_database) : peer_node := default r1 (w_nodes (db_world d) !! "http://h1/join").
Definition third_updated : peers_world :=
  match updatePeers default_Config (leader_of three_up) (with_updating (db_world three_up) ["http://h1/join"]) with
  | Ret (w, _) => w
  | Panic _ => db_world three_up
  end.

Lemma overlapping_updates_witness :
  let w3 := (Master_UpdatePeers default_Config (with_updating third_updated []) (Some ["h0"; "h1"])).1 in
  is_Some (w_nodes w3 !! "http://h2/join") /\
  exists cur, Master_Peers default_Config w3 = Ok (Some cur) /\ "h2" ∉ cur.
Proof.
  destruct (overlapping_updates_lose_node default_Config four default_keys_disjoint mock_writable four_distinct four_proper
    empty_world two_up [] "http://h1/join" [] (leader_of two_up) ["h0"; "h1"] r3
    (Start default_Config post_join r3 (db_world two_up)).1.1
    (Start default_Config post_join r3 (db_world two_up)).1.2
    ["http://h1/join"] "http://h1/join" [] (leader_of three_up) third_updated None empty_blank (calm_db _ two_calm))
    as (H1 & _ & cur & Hcur & Hin & _).
  - vm_compute. reflexivity.
  - vm_compute. reflexivity.
  - vm_compute. reflexivity.
  - right. right. by left.
  - intros Hin. apply (list_elem_of_fmap_2 raftAddr) in Hin. revert Hin. apply (bool_decide_eq_true_1 _). vm_compute. reflexivity.
  - vm_compute. discriminate.
  - vm_compute. reflexivity.
  - vm_compute. reflexivity.
  - vm_compute. reflexivity.
  - vm_compute. reflexivity.
  - split; [exact H1|]. exists cur. split; [exact Hcur|exact Hin].
Defined.

(** The leader stops before it has published the two others, and [r2] is
    elected. *)
Definition unpublished : peers_database := succeeded three_up.

Lemma unpublished_reached : rtc step nothing unpublished /\ rtc (quiet_step default_Config four) (leader_stopped three_up r1) unpublished.
Proof.
  destruct (succeeded_step three_up) as [H1 H2]; [vm_compute; reflexivity..|]. split.
  - eapply rtc_r; [|exact H2]. eapply rtc_r; [|exact H1]. exact (calm_db _ three_calm).
  - apply rtc_once. by split.
Qed.

Lemma stopped_leader_witness :
  (exists cur, Master_Peers default_Config (db_world unpublished) = Ok (Some cur) /\ "h0" ∉ cur) /\
  is_Some (w_nodes (db_world unpublished) !! "http://h0/join").
Proof.
  destruct (stopped_leader_forgets_node default_Config four default_keys_disjoint mock_writable four_distinct four_proper
    empty_world three_up r1 r2 unpublished empty_blank (calm_db _ three_calm)) as (_ & H).
  - vm_compute. reflexivity.
  - vm_compute. lia.
  - vm_compute. by left.
  - intros (cur & E & Hin). vm_compute in E. injection E as <-. revert Hin.
    apply (bool_decide_eq_true_1 ("h0" ∉ ["h1"])). reflexivity.
  - destruct (H (proj2 unpublished_reached)) as [H1 H2]. split; [exact H1|]. apply H2. by left.
Defined.

Lemma second_cluster_witness :
  exists s' w', Start default_Config post_join r4 (beat default_Config (db_world unpublished) ["h1"]) = (s', w', None) /\
    leader_at s' ["r4"] /\ Master_Peers default_Config w' = Ok (Some ["h3"]).
Proof.
  destruct (emptied_list_founds_second_cluster default_Config four default_keys_disjoint mock_writable four_distinct
    four_proper empty_world unpublished r2 ["h1"] ["h1"] r4 empty_blank (proj1 unpublished_reached))
    as (s' & w' & E & H1 & _ & H2).
  - reflexivity.
  - vm_compute. reflexivity.
  - intros q [E|[E|[]%elem_of_nil]%elem_of_cons]%elem_of_cons; subst q;
      apply (bool_decide_eq_true_1 _); vm_compute; reflexivity.
  - reflexivity.
  - right. right. right. by left.
  - intros Hin. apply (list_elem_of_fmap_2 raftAddr) in Hin. revert Hin. apply (bool_decide_eq_true_1 _). vm_compute. reflexivity.
  - exists s', w'. by split.
Defined.
