(* ===== verification/CacheCluster.v ===== *)
(** * The cache cluster: master, cache nodes and clients agree

    The cache master (CacheMaster.v) and the cache nodes (CacheNode.v) that
    run: the state of every process at its URL is the world of the master's
    posts.  Nodes join by RPC and then begin to listen, stop and start again,
    heartbeats come while the goroutines of earlier ones are still at work,
    and others write to the metadata store.  Two heartbeats after the last
    change the master, the cache nodes and every client that updates have the
    same view of the cluster, exactly the nodes that listen, provided that
    the list of databases could always be read and no node was joining while
    a removal of it was pending.  What makes a running node drop out, and
    that it then stays out, is shown at the end. *)
From S2P Require Import Prelude Utf8 Json JsonTypes UrlUtil Http MetaKV Config DBMaster Client CacheMaster Race CacheNode.

(** The running cache nodes by URL. *)
Abbreviation processes := (gmap string Node).

Definition refused : goerror := Fresh "connection refused".

(** [POST url/meta] at a running cache node is its handler. *)
Definition post_meta : HTTPPoster processes := fun w url _ body =>
  let base := TrimSuffix url "/meta" in
  if HasSuffix url "/meta" then
    match w !! base with
    | Some n => (<[base := (handleMeta n body).1]> w, Ok (handleMeta n body).2)
    | None => (w, Err refused)
    end
  else (w, Err refused).

(** A node whose pool holds its peers, as every operation leaves it. *)
Definition settled (node : Node) : Prop := pool node = elems (peers node).

(** What a node has been told. *)
Record told (node : Node) (ns : list string) (ds : slice string) : Prop := {
  told_peers : peers node = Some ns;
  told_dbs : node_dbs node = ds;
  told_pool : pool node = ns;
}.

(** *** The handler *)

Lemma handleMeta_answer node p :
  (handleMeta node (marshal_PeerParam p)).2 = {| StatusCode := 200; Body := "null" |}.
Proof.
  unfold handleMeta, BindJSON. rewrite dec_marshal_PeerParam. by destruct (decide _).
Qed.

Lemma handleMeta_settled node body : settled node -> settled (handleMeta node body).1.
Proof.
  intros Hs. unfold handleMeta. destruct (BindJSON _ _ _) as [[p|e] rw]; [|done].
  by destruct (decide _).
Qed.

Lemma handleMeta_addrs node body :
  httpAddr (handleMeta node body).1 = httpAddr node /\ nodeAddr (handleMeta node body).1 = nodeAddr node.
Proof.
  unfold handleMeta. destruct (BindJSON _ _ _) as [[p|e] rw]; [|done]. by destruct (decide _).
Qed.

Lemma handleMeta_told node ns ds :
  settled node -> valid_list ns -> valid_slice ds ->
  told (handleMeta node (marshal_PeerParam {| Peers := Some ns; DBs := ds |})).1
       (sort_strings ns) (sort_strings <$> ds).
Proof.
  intros Hs H1 H2. rewrite handleMeta_eq by done. cbn [Peers DBs fst]. cbv zeta.
  destruct (decide _) as [[Hp Hd]|_]; [|by split].
  split; [exact Hp|exact Hd|]. by rewrite Hs, Hp.
Qed.

Lemma HasSuffix_app s suf : HasSuffix (s +:+ suf) suf = true.
Proof. apply HasSuffix_true. by exists s. Qed.

(** The post to a node: refused, or its handler. *)
Lemma postPeers_process w m node ns :
  postPeers post_meta w m node ns =
  match w !! MakeURL node with
  | Some n => (<[MakeURL node := (handleMeta n (marshal_PeerParam {| Peers := Some ns; DBs := dbs m |})).1]> w,
               None)
  | None => (w, Some refused)
  end.
Proof.
  unfold postPeers, post_meta. rewrite HasSuffix_app, TrimSuffix_app.
  destruct (w !! MakeURL node); [|done]. by rewrite handleMeta_answer.
Qed.

(** ** One heartbeat while the processes [D] run *)

Section beat.
Context (D : gset string).

Definition runs (w : processes) : Prop := dom w = D.

Definition meta_answers (url : string) : result Response :=
  if HasSuffix url "/meta" && bool_decide (TrimSuffix url "/meta" ∈ D)
  then Ok {| StatusCode := 200; Body := "null" |} else Err refused.

Lemma runs_lookup w a : runs w -> is_Some (w !! a) <-> a ∈ D.
Proof. intros <-. symmetry. apply elem_of_dom. Qed.

Lemma runs_insert w a n n' : runs w -> w !! a = Some n -> runs (<[a := n']> w).
Proof. unfold runs. intros <- Ha. apply dom_insert_lookup_L. by exists n. Qed.

Lemma post_meta_answers : answered_by post_meta meta_answers runs.
Proof.
  intros w url ct p Hw. unfold post_meta, meta_answers. destruct (HasSuffix url "/meta"); [|done].
  pose proof (runs_lookup w (TrimSuffix url "/meta") Hw) as Hd.
  destruct (w !! TrimSuffix url "/meta") as [n|] eqn:E; cbn [andb fst snd].
  - rewrite bool_decide_eq_true_2 by (apply Hd; by exists n). rewrite handleMeta_answer.
    split; [by eapply runs_insert|done].
  - by rewrite bool_decide_eq_false_2 by (rewrite <-Hd; by intros []).
Qed.

Lemma takes_runs node : takes meta_answers node = bool_decide (MakeURL node ∈ D).
Proof.
  unfold takes, meta_answers. rewrite HasSuffix_app, TrimSuffix_app. cbn [andb].
  by destruct (bool_decide _).
Qed.

Context {M : Type} `{!MetaOps M, !MetaLaws M}.
Context (cfg : Config).
Abbreviation state := (CacheMaster.state (M := M) (W := processes)).
Abbreviation goroutines := (rtc (goroutine_step (M := M) cfg post_meta)).

(** The node a goroutine still has to post to, and the list it carries. *)
Definition to_post (t : task) : option string :=
  match t with Send n _ | Post n _ => Some n | Remove _ => None end.
Definition task_fits (m : Master) (ns : list string) (l : slice string) (t : task) : Prop :=
  match t with
  | Send _ ns' => ns' = ns
  | Post _ ns' => ns' = ns /\ dbs m = l
  | Remove _ => True
  end.

Definition told_at (w : processes) (a : string) (ns : list string) (ds : slice string) : Prop :=
  exists n, w !! a = Some n /\ told n ns ds.

(** Every node of [K] that runs has been told or will be. *)
Record spreading (K : list string) (ns : list string) (l : slice string) (st : state) : Prop := {
  sp_tasks : Forall (task_fits (st_master st) ns l) (st_tasks st);
  sp_settled : map_Forall (fun _ => settled) (st_world st);
  sp_runs : runs (st_world st);
  sp_told : forall k, k ∈ K -> MakeURL k ∈ D ->
    (exists t, t ∈ st_tasks st /\ to_post t = Some k) \/
    told_at (st_world st) (MakeURL k) (sort_strings ns) (sort_strings <$> l);
}.

(** One task of the list replaced by what is left of it. *)
Lemma spreading_move K ns l (st : state) m' s' ts1 t ts2 ts' :
  spreading K ns l st -> st_tasks st = ts1 ++ t :: ts2 ->
  (dbs m' = dbs (st_master st) \/ dbs m' = l) -> Forall (task_fits m' ns l) ts' ->
  (forall k, to_post t = Some k -> MakeURL k ∈ D -> exists t', t' ∈ ts' /\ to_post t' = Some k) ->
  spreading K ns l {| st_world := st_world st; st_master := m'; st_meta := s';
                      st_tasks := ts1 ++ ts' ++ ts2 |}.
Proof.
  intros [Ht Hs Hr Hd] E Hm Hts' Hk. rewrite E in Ht, Hd.
  split; cbn [st_world st_master st_tasks]; [|done|done|].
  - assert (forall t, task_fits (st_master st) ns l t -> task_fits m' ns l t) as Himp.
    { intros []; cbn; [done| |done]. intros [-> ?]. destruct Hm; split; congruence. }
    apply Forall_app in Ht as [H1 [_ H2]%Forall_cons]. rewrite !Forall_app.
    split_and!; [|done|]; eapply Forall_impl; eauto.
  - intros k HkK Hl. destruct (Hd k HkK Hl) as [(t' & Hin & Hp)|]; [left|by right].
    apply elem_of_app in Hin as [Hin|[->|Hin]%elem_of_cons].
    + exists t'. split; [|done]. apply elem_of_app. by left.
    + destruct (Hk k Hp Hl) as (t'' & Hin & Hp'). exists t''. split; [|done].
      rewrite !elem_of_app. auto.
    + exists t'. split; [|done]. rewrite !elem_of_app. auto.
Qed.

Lemma removeNode_dbs m (s : M) node m' s' : removeNode cfg m s node = (m', s') -> dbs m' = dbs m.
Proof.
  unfold removeNode. destruct (_ !! _); [|by intros [= <- <-]].
  destruct (updateNodesMap _ _ _). by intros [= <- <-].
Qed.

(** A post: its node is told, the others are as they were. *)
Lemma spreading_post K ns l (st : state) ts1 node n ts2 :
  valid_list ns -> valid_slice l -> st_world st !! MakeURL node = Some n ->
  spreading K ns l st -> st_tasks st = ts1 ++ Post node ns :: ts2 -> dbs (st_master st) = l ->
  spreading K ns l {| st_world := (postPeers post_meta (st_world st) (st_master st) node ns).1;
                      st_master := st_master st; st_meta := st_meta st; st_tasks := ts1 ++ ts2 |}.
Proof.
  intros Hns Hl Hn [Ht Hs Hr Hd] E Hm. rewrite postPeers_process, Hn, Hm. cbn [fst]. rewrite E in Ht, Hd.
  split; cbn [st_world st_master st_tasks].
  - apply Forall_app in Ht as [H1 [_ H2]%Forall_cons]. by apply Forall_app.
  - apply map_Forall_insert_2; [|done]. apply handleMeta_settled. by apply (Hs (MakeURL node)).
  - by eapply runs_insert.
  - intros k HkK Hk. destruct (decide (MakeURL k = MakeURL node)) as [Ek|Ek].
    { right. eexists. rewrite Ek, lookup_insert_eq. split; [done|]. apply handleMeta_told; [|done|done].
      by apply (Hs (MakeURL node)). }
    destruct (Hd k HkK Hk) as [(t' & Hin & Hp)|(n' & Hn' & Ht')]; [left|right].
    + apply elem_of_app in Hin as [Hin|[->|Hin]%elem_of_cons].
      * exists t'. split; [|done]. apply elem_of_app. by left.
      * cbn in Hp. congruence.
      * exists t'. split; [|done]. apply elem_of_app. by right.
    + exists n'. by rewrite lookup_insert_ne by done.
Qed.

Lemma goroutine_spreads K ns l (st st' : state) :
  valid_list ns -> valid_slice l -> Master_Peers cfg (st_meta st) = Ok l ->
  spreading K ns l st -> goroutine_step cfg post_meta st st' -> spreading K ns l st'.
Proof.
  intros Hns Hl Hr Hsp Hst. pose proof (sp_tasks _ _ _ _ Hsp) as Hts.
  inversion Hst as [? ts1 ts2 node nodes m' Ht Hsync|? ts1 ts2 node nodes m' e Ht Hsync
    |? ts1 ts2 node nodes w' Ht Hp|? ts1 ts2 node nodes w' e Ht Hp|? ts1 ts2 node m' s' Ht Hrm]; subst;
    rewrite Ht in Hts; apply Forall_app in Hts as [_ [Hok _]%Forall_cons]; cbn in Hok;
    try rewrite (syncDBs_eq cfg _ _ _ Hr) in Hsync.
  - injection Hsync as <-. subst nodes.
    eapply (spreading_move _ _ _ _ _ _ _ _ _ [Post node ns]); [done|done|by right|by repeat constructor|].
    intros k Hk _. exists (Post node ns). split; [by left|done].
  - done.
  - destruct Hok as [-> Hm]. destruct (st_world st !! MakeURL node) as [n|] eqn:En.
    + pose proof (spreading_post K ns l st ts1 node n ts2 Hns Hl En Hsp Ht Hm) as H. by rewrite Hp in H.
    + by rewrite postPeers_process, En in Hp.
  - destruct Hok as [-> Hm]. rewrite postPeers_process in Hp.
    destruct (st_world st !! MakeURL node) as [n|] eqn:En; [done|]. injection Hp as <- _.
    eapply (spreading_move _ _ _ _ _ _ _ _ _ [Remove node]); [done|done|by left|by repeat constructor|].
    intros k [= <-] Hd. apply (runs_lookup _ _ (sp_runs _ _ _ _ Hsp)) in Hd as [? Hd]. congruence.
  - eapply (spreading_move _ _ _ _ _ _ _ _ _ []); [done|done| |constructor|done].
    left. by eapply removeNode_dbs.
Qed.

Lemma beat_start_spreads w m (s : M) g l order :
  in_sync cfg m s g -> order ≡ₚ heartbeat m -> map_Forall (fun _ => settled) w -> runs w ->
  spreading (fst <$> order) (nodeAddrs (Some g)) l (beat_start w m s order).
Proof.
  intros (Hg & _) Hp Hs Hr. split; cbn [beat_start st_tasks st_world st_master]; [|done|done|].
  - apply Forall_fmap, Forall_forall. intros [k ns] Hin. rewrite Hp in Hin. cbn.
    unfold heartbeat in Hin. rewrite Hg in Hin. apply list_elem_of_fmap in Hin as (k' & [= _ ->] & _). done.
  - intros k ([k' ns] & -> & Hin)%list_elem_of_fmap _. left. exists (Send k' ns).
    split; [|done]. apply list_elem_of_fmap. by exists (k', ns).
Qed.

Lemma heartbeat_nodes m g order k :
  nodesMap m = Some g -> order ≡ₚ heartbeat m -> k ∈ fst <$> order <-> is_Some (g !! k).
Proof.
  intros Hg Hp. rewrite Hp. unfold heartbeat. rewrite Hg, <-list_fmap_compose.
  rewrite (list_fmap_ext _ id), list_fmap_id by done. apply elem_of_httpAddrs.
Qed.

Lemma Master_Peers_valid (s : M) l : Master_Peers cfg s = Ok l -> valid_slice l.
Proof. destruct l as [l|]; [|constructor]. apply fetchPeers_valid. Qed.

(** What one heartbeat does: the nodes that do not run go, and the others
    know what the master knew when it began. *)
Definition alive (g : gmap string string) : gmap string string :=
  filter (fun p => MakeURL p.1 ∈ D) g.

Record beaten (g : gmap string string) (l : slice string) (st : state) : Prop := {
  bt_sync : in_sync cfg (st_master st) (st_meta st) (alive g);
  bt_record : Master_Peers cfg (st_meta st) = Ok l;
  bt_settled : map_Forall (fun _ => settled) (st_world st);
  bt_runs : runs (st_world st);
  bt_told : forall k, is_Some (alive g !! k) ->
    told_at (st_world st) (MakeURL k) (nodeAddrs (Some g)) (sort_strings <$> l);
}.

Lemma one_heartbeat w m (s : M) g l order st :
  keys_disjoint cfg -> writable (M := M) -> in_sync cfg m s g -> Master_Peers cfg s = Ok l ->
  map_Forall (fun _ => settled) w -> runs w -> order ≡ₚ heartbeat m ->
  goroutines (beat_start w m s order) st -> st_tasks st = [] -> beaten g l st.
Proof.
  intros Hk Hw Hs Hl Hset Hrun Hp Hst Hdone.
  assert (exists g', beat_inv cfg meta_answers runs (Ok l) w g st g' /\
                     spreading (fst <$> order) (nodeAddrs (Some g)) l st) as (g' & Hi & Hsp).
  { clear Hdone. revert st Hst. apply rtc_ind_r.
    - exists g. split; [|by eapply beat_start_spreads].
      rewrite <-Hl. by apply (beat_start_inv cfg meta_answers).
    - intros st1 st2 _ Hst (g1 & Hi & Hsp).
      destruct (goroutine_beat cfg post_meta meta_answers runs post_meta_answers _ _ _ _ _ _ Hk Hw Hi Hst) as [g2 Hi2].
      exists g2. split; [done|]. eapply goroutine_spreads; [| | |exact Hsp|exact Hst].
      + apply valid_nodeAddrs, Hs.
      + by eapply Master_Peers_valid.
      + apply (bi_record _ _ _ _ _ _ _ _ Hi). }
  assert (g' = alive g) as ->.
  { rewrite (beat_done _ _ _ _ _ _ _ _ Hi Hdone). apply map_filter_ext. intros k v _. cbn.
    by rewrite takes_runs, bool_decide_eq_true. }
  split; [apply (bi_sync _ _ _ _ _ _ _ _ Hi)|apply (bi_record _ _ _ _ _ _ _ _ Hi)|apply (sp_settled _ _ _ _ Hsp)
    |apply (sp_runs _ _ _ _ Hsp)|].
  intros k [v [Hk' Hlive]%map_lookup_filter_Some].
  destruct (sp_told _ _ _ _ Hsp k) as [(t & Hin & _)|Ht]; [|done|by rewrite Hdone in Hin; apply elem_of_nil in Hin|].
  - eapply heartbeat_nodes; [apply Hs|done|by exists v].
  - destruct Ht as (n & Hn & [H1 H2 H3]). exists n. split; [done|].
    assert (sort_strings (nodeAddrs (Some g)) = nodeAddrs (Some g)) as E by apply sort_strings_idemp.
    rewrite E in *. by split.
Qed.

Lemma alive_idemp g : alive (alive g) = alive g.
Proof.
  unfold alive. rewrite map_filter_filter. apply map_filter_ext. intros k v _. cbn. tauto.
Qed.
End beat.

(** ** Two heartbeats *)

Section agree.
Context {M : Type} `{!MetaOps M, !MetaLaws M}.
Context (cfg : Config).
Abbreviation state := (CacheMaster.state (M := M) (W := processes)).
Abbreviation goroutines := (rtc (goroutine_step (M := M) cfg post_meta)).

(** Everyone has the same view: the master's map, in memory and on record, is
    [view]; every node of it has their node addresses as its peers and its
    groupcache pool, and the databases on record; and a client that updates
    has the HTTP addresses of the same nodes and the same databases. *)
Record agree (view : gmap string string) (l : slice string) (st : state) : Prop := {
  ag_memory : nodesMap (st_master st) = Some view;
  ag_record : fetchNodesMap cfg (st_meta st) = Ok (Some view);
  ag_nodes : forall k, is_Some (view !! k) ->
    told_at (st_world st) (MakeURL k) (nodeAddrs (Some view)) (sort_strings <$> l);
  ag_clients : forall c, exists c',
    Client.update (Master_Peers cfg (st_meta st)) (Some <$> CacheMaster_Peers cfg (st_meta st)) c = (c', None) /\
    Client.caches c' = Some (httpAddrs (Some view)) /\ Client.dbs c' = sort_strings <$> l;
}.

Lemma client_agrees (s : M) view l c :
  Master_Peers cfg s = Ok l -> fetchNodesMap cfg s = Ok (Some view) ->
  exists c',
    Client.update (Master_Peers cfg s) (Some <$> CacheMaster_Peers cfg s) c = (c', None) /\
    Client.caches c' = Some (httpAddrs (Some view)) /\ Client.dbs c' = sort_strings <$> l.
Proof.
  intros Hl Hf. unfold CacheMaster_Peers. rewrite Hl, Hf. cbn [fmap result_fmap].
  assert (sort_strings (httpAddrs (Some view)) = httpAddrs (Some view)) as E by apply sort_strings_idemp.
  unfold Client.update. cbn [fmap option_fmap option_map]. rewrite E.
  destruct (decide _) as [[H1 H2]|_]; by eexists.
Qed.

(** Two heartbeats while the same nodes run, however the goroutines of each
    interleave, bring everyone to the nodes of the map that run. *)
Lemma two_heartbeats_agree D w m (s : M) g l order1 st1 order2 st2 :
  keys_disjoint cfg -> writable (M := M) -> in_sync cfg m s g -> Master_Peers cfg s = Ok l ->
  map_Forall (fun _ => settled) w -> runs D w ->
  order1 ≡ₚ heartbeat m -> goroutines (beat_start w m s order1) st1 -> st_tasks st1 = [] ->
  order2 ≡ₚ heartbeat (st_master st1) ->
  goroutines (beat_start (st_world st1) (st_master st1) (st_meta st1) order2) st2 -> st_tasks st2 = [] ->
  agree (alive D g) l st2.
Proof.
  intros Hk Hw Hs Hl Hset Hrun Hp1 Hst1 Hd1 Hp2 Hst2 Hd2.
  destruct (one_heartbeat _ cfg _ _ _ _ _ _ _ Hk Hw Hs Hl Hset Hrun Hp1 Hst1 Hd1) as [Hs1 Hl1 Hset1 Hrun1 _].
  destruct (one_heartbeat _ cfg _ _ _ _ _ _ _ Hk Hw Hs1 Hl1 Hset1 Hrun1 Hp2 Hst2 Hd2) as [Hs2 Hl2 _ _ Ht].
  rewrite alive_idemp in Hs2, Ht. destruct Hs2 as (Hm & _ & Hf).
  split; [done|done|done|]. intros c. by apply client_agrees.
Qed.
End agree.

(** ** The life of the cluster *)

Section life.
Context {M : Type} `{!MetaOps M, !MetaLaws M}.
Context (cfg : Config).
Abbreviation state := (CacheMaster.state (M := M) (W := processes)).
Abbreviation goroutines := (rtc (goroutine_step (M := M) cfg post_meta)).
Implicit Types st : state.

(** The RPC client of a cache node: [JoinNode] of the master.  A panic in it
    would end the master; [in_sync] rules it out. *)
Definition master_client : RPCClientFunc (Master * M) := fun w _ args =>
  match JoinNode cfg w.1 w.2 (Some args) with
  | Ret (m, s, reply) => ((m, s), reply)
  | Panic _ => (w, Err (Fresh "unexpected EOF"))
  end.

(** An address [MakeURL] makes a complete URL of. *)
Record good_addr (addr : string) : Prop := {
  ga_utf8 : valid_utf8 (MakeURL addr) = true;
  ga_stable : MakeURL (MakeURL addr) = MakeURL addr;
}.

(** The master with the nodes that serve and the goroutines of its heartbeats,
    and the nodes between their join and the moment they listen. *)
Record cache_cluster : Type := { cl_state : state; joining : processes }.
Implicit Types cl : cache_cluster.

Definition with_state cl st : cache_cluster := {| cl_state := st; joining := joining cl |}.

Definition is_started (url : string) cl : Prop :=
  is_Some (joining cl !! url) \/ is_Some (st_world (cl_state cl) !! url).

(** What the master and the cache nodes do. *)
Inductive cache_step : cache_cluster -> cache_cluster -> Prop :=
  | cl_goroutine cl st' : goroutine_step cfg post_meta (cl_state cl) st' -> cache_step cl (with_state cl st')
  | cl_heartbeat cl :
      let st := cl_state cl in
      cache_step cl (with_state cl
        {| st_world := st_world st; st_master := st_master st; st_meta := st_meta st;
           st_tasks := st_tasks st ++ ((fun t => Send t.1 t.2) <$> heartbeat (st_master st)) |})
  (** The watch callback. *)
  | cl_syncDBs cl m' err :
      let st := cl_state cl in
      syncDBs cfg (st_master st) (st_meta st) = (m', err) ->
      cache_step cl (with_state cl
        {| st_world := st_world st; st_master := m'; st_meta := st_meta st; st_tasks := st_tasks st |})
  (** A node is started where none is: it goes on to its servers if it could
      join. *)
  | cl_join cl http nodeaddr maddr m' s' node' err :
      let st := cl_state cl in
      good_addr http -> valid_utf8 (MakeURL nodeaddr) = true -> ¬ is_started (MakeURL http) cl ->
      Node_Start (Some master_client) (st_master st, st_meta st) (CacheNode_New http nodeaddr maddr)
        = Ret (m', s', node', err) ->
      cache_step cl
        {| cl_state := {| st_world := st_world st; st_master := m'; st_meta := s'; st_tasks := st_tasks st |};
           joining := match err with None => <[MakeURL http := node']> (joining cl) | Some _ => joining cl end |}
  (** Its servers listen. *)
  | cl_listen cl url n :
      let st := cl_state cl in
      joining cl !! url = Some n ->
      cache_step cl
        {| cl_state := {| st_world := <[url := n]> (st_world st); st_master := st_master st; st_meta := st_meta st;
                          st_tasks := st_tasks st |};
           joining := delete url (joining cl) |}
  | cl_stop cl url :
      let st := cl_state cl in
      cache_step cl
        {| cl_state := {| st_world := delete url (st_world st); st_master := st_master st; st_meta := st_meta st;
                          st_tasks := st_tasks st |};
           joining := delete url (joining cl) |}
  (** A fetch sets the fast database of a node. *)
  | cl_fast cl url n db :
      let st := cl_state cl in
      st_world st !! url = Some n ->
      cache_step cl (with_state cl
        {| st_world := <[url := setFastDB n db]> (st_world st); st_master := st_master st;
           st_meta := st_meta st; st_tasks := st_tasks st |}).

(** Someone else writes to the metadata store, as the database nodes do. *)
Inductive cluster_step : cache_cluster -> cache_cluster -> Prop :=
  | cl_cache cl cl' : cache_step cl cl' -> cluster_step cl cl'
  | cl_other cl k v s' err :
      let st := cl_state cl in
      k <> CacheNodesKey cfg -> meta_Put (st_meta st) k v = (s', err) ->
      cluster_step cl (with_state cl
        {| st_world := st_world st; st_master := st_master st; st_meta := s'; st_tasks := st_tasks st |}).

(** No removal is pending of a node that has joined and does not listen yet:
    it was not started while the goroutine of an earlier failure had yet to
    remove it, and no post of a heartbeat came before it listened. *)
Definition joins_in_peace cl : Prop :=
  forall url, is_Some (joining cl !! url) -> Remove url ∉ st_tasks (cl_state cl).

(** A step after which the list of databases can be read and joining nodes are
    left in peace. *)
Definition calm_step cl cl' : Prop :=
  cluster_step cl cl' /\ (exists l, Master_Peers cfg (st_meta (cl_state cl')) = Ok l) /\ joins_in_peace cl'.

(** *** The start of a node *)

Definition map_with (g : gmap string string) (http nodeaddr : string) : gmap string string :=
  <[MakeURL http := MakeURL nodeaddr]> g.

Lemma Node_Start_eq m (s : M) g node :
  writable (M := M) -> in_sync cfg m s g ->
  Node_Start (Some master_client) (m, s) node =
  if decide (httpAddr node = "" \/ nodeAddr node = "") then
    Ret (m, s, node, Some (Fresh "fail call Master.JoinNode"))
  else
    let g' := map_with g (httpAddr node) (nodeAddr node) in
    Ret (with_nodesMap m (Some g'), (updateNodesMap cfg s (Some g')).1,
         set_meta node (Some (httpAddrs (Some g'))) (dbs m), None).
Proof.
  intros Hw (Hg & _). unfold Node_Start, join, Call, RPCClientFunc_client, master_client.
  destruct (decide _) as [Hn|Hn].
  - unfold JoinNode. by rewrite decide_True.
  - by rewrite (JoinNode_eq cfg _ _ g _ Hw Hg) by tauto.
Qed.

Lemma map_with_sync m (s : M) g http nodeaddr :
  writable (M := M) -> in_sync cfg m s g ->
  valid_utf8 (MakeURL http) = true -> valid_utf8 (MakeURL nodeaddr) = true ->
  in_sync cfg (with_nodesMap m (Some (map_with g http nodeaddr)))
    (updateNodesMap cfg s (Some (map_with g http nodeaddr))).1 (map_with g http nodeaddr).
Proof.
  intros Hw (Hg & Hv & _) H1 H2. assert (valid_map (map_with g http nodeaddr)) as Hv' by by apply valid_map_assign.
  split; [done|]. split; [done|]. eapply fetch_update; [done|by apply update_ok].
Qed.

(** *** The invariant *)

Record node_known (g : gmap string string) (ts : list task) (url : string) (n : Node) : Prop := {
  nk_settled : settled n;
  nk_url : MakeURL url = url;
  nk_known : g !! url = Some (MakeURL (nodeAddr n));
  nk_stays : Remove url ∉ ts;
}.

Record life_inv st (g : gmap string string) : Prop := {
  li_sync : in_sync cfg (st_master st) (st_meta st) g;
  li_readable : exists l, Master_Peers cfg (st_meta st) = Ok l;
  li_stable : forall k, is_Some (g !! k) -> MakeURL k = k;
  li_nodes : map_Forall (node_known g (st_tasks st)) (st_world st);
}.

Lemma node_known_tasks g ts ts' url n :
  (Remove url ∈ ts' -> Remove url ∈ ts) -> node_known g ts url n -> node_known g ts' url n.
Proof. intros Hi [H1 H2 H3 H4]. split; auto. Qed.

Lemma node_known_same g ts url n n' :
  (settled n -> settled n') -> nodeAddr n' = nodeAddr n -> node_known g ts url n -> node_known g ts url n'.
Proof. intros Hs E [H1 H2 H3 H4]. split; [auto|done|by rewrite E|done]. Qed.

Hypothesis keys : keys_disjoint cfg.
Hypothesis store_writable : writable (M := M).

(** *** Goroutines *)

(** A goroutine changes what nodes have been told, and nothing else of them. *)
Lemma postPeers_nodeAddrs w m node ns : nodeAddr <$> (postPeers post_meta w m node ns).1 = nodeAddr <$> w.
Proof.
  rewrite postPeers_process. destruct (w !! MakeURL node) as [n|] eqn:E; [|done]. cbn [fst].
  rewrite fmap_insert, insert_id; [done|]. rewrite lookup_fmap, E.
  by rewrite (proj2 (handleMeta_addrs n _)).
Qed.

Lemma goroutine_nodeAddrs st st' :
  goroutine_step cfg post_meta st st' -> nodeAddr <$> st_world st' = nodeAddr <$> st_world st.
Proof.
  intros Hst. inversion Hst as [| |? ? ? ? ? ? _ Hp|? ? ? ? ? ? ? _ Hp|]; subst; try done; cbn [st_world];
    rewrite <-(postPeers_nodeAddrs (st_world st) (st_master st) node nodes), Hp; done.
Qed.

Lemma goroutines_nodeAddrs st st' : goroutines st st' -> nodeAddr <$> st_world st' = nodeAddr <$> st_world st.
Proof. induction 1 as [|st1 st2 st3 Hst _ IH]; [done|]. by rewrite IH, (goroutine_nodeAddrs _ _ Hst). Qed.

Lemma goroutine_reads st st' g :
  nodesMap (st_master st) = Some g -> goroutine_step cfg post_meta st st' ->
  Master_Peers cfg (st_meta st') = Master_Peers cfg (st_meta st).
Proof. intros Hg Hst. inversion Hst; subst; try done. by eapply Master_Peers_removeNode. Qed.

(** The tasks [ts'] of the goroutine at [t] keep [url]'s node if none is its
    removal. *)
Lemma no_removal_moves ts1 (t : task) ts2 ts' url :
  Remove url ∉ ts' -> Remove url ∈ ts1 ++ ts' ++ ts2 -> Remove url ∈ ts1 ++ t :: ts2.
Proof. rewrite !elem_of_app, elem_of_cons. tauto. Qed.

(** The processes of [w'] are processes of [w] that are not to be removed. *)
Definition same_nodes (w w' : processes) (ts' : list task) : Prop :=
  map_Forall (fun url n => ¬ Remove url ∈ ts' /\
    exists n0, w !! url = Some n0 /\ (settled n0 -> settled n) /\ nodeAddr n = nodeAddr n0) w'.

Lemma life_move st g ts1 t ts2 ts' w' m' :
  life_inv st g -> st_tasks st = ts1 ++ t :: ts2 -> nodesMap m' = nodesMap (st_master st) ->
  same_nodes (st_world st) w' ts' ->
  life_inv {| st_world := w'; st_master := m'; st_meta := st_meta st; st_tasks := ts1 ++ ts' ++ ts2 |} g.
Proof.
  intros [Hs Hl Hg Hn] Ht Hm Hw. split; cbn [st_world st_master st_meta st_tasks]; [|done|done|].
  - by eapply in_sync_nodesMap.
  - intros url n Hu. destruct (Hw url n Hu) as (Hr & n0 & H0 & Hs' & Ha).
    eapply node_known_same; [exact Hs'|exact Ha|]. eapply node_known_tasks; [|by apply Hn].
    rewrite Ht. by apply no_removal_moves.
Qed.

Lemma same_world w ts' : (forall url, is_Some (w !! url) -> Remove url ∉ ts') -> same_nodes w w ts'.
Proof. intros Ht url n Hu. split; [apply Ht; by exists n|]. by exists n. Qed.

Lemma life_goroutine st st' g :
  life_inv st g -> goroutine_step cfg post_meta st st' -> exists g', life_inv st' g'.
Proof.
  intros Hi Hst. pose proof Hi as [Hs [l Hl] Hg Hn].
  inversion Hst as [? ts1 ts2 node nodes m' Ht Hsync|? ts1 ts2 node nodes m' e Ht Hsync
    |? ts1 ts2 node nodes w' Ht Hp|? ts1 ts2 node nodes w' e Ht Hp|? ts1 ts2 node m' s' Ht Hrm]; subst.
  - exists g. eapply (life_move _ _ _ _ _ [Post node nodes]); [done|done|by eapply syncDBs_nodesMap|].
    apply same_world. intros url _ [|[]%elem_of_nil]%elem_of_cons; done.
  - by rewrite (syncDBs_eq cfg _ _ _ Hl) in Hsync.
  - exists g. eapply (life_move _ _ _ _ _ []); [done|done|done|]. rewrite postPeers_process in Hp.
    destruct (st_world st !! MakeURL node) as [n|] eqn:En; [|done]. injection Hp as <-.
    intros url n' [[<- <-]|[_ Hu]]%lookup_insert_Some.
    + split; [by intros ?%elem_of_nil|]. exists n. split; [done|].
      split; [apply handleMeta_settled|apply handleMeta_addrs].
    + split; [by intros ?%elem_of_nil|]. by exists n'.
  - exists g. eapply (life_move _ _ _ _ _ [Remove node]); [done|done|done|]. rewrite postPeers_process in Hp.
    destruct (st_world st !! MakeURL node) as [n|] eqn:En; [done|]. injection Hp as <- _.
    apply same_world. intros url [n Hu] [[= ->]|[]%elem_of_nil]%elem_of_cons.
    rewrite (nk_url _ _ _ _ (Hn node n Hu)) in En. congruence.
  - exists (delete node g). destruct (removeNode_sync cfg _ _ g node m' s' store_writable Hs Hrm) as [Hs' _].
    split; cbn [st_world st_master st_meta st_tasks].
    + done.
    + exists l. rewrite <-Hl. by eapply Master_Peers_removeNode; [| |apply Hs|].
    + intros k [v [_ Hk]%lookup_delete_Some]. apply Hg. by exists v.
    + intros url n Hu. destruct (Hn url n Hu) as [H1 H2 H3 H4]. rewrite Ht in H4. split; [done|done| |].
      * rewrite lookup_delete_ne; [done|]. intros ->. apply H4. apply elem_of_app. right. by left.
      * rewrite elem_of_app in *. rewrite elem_of_cons in H4. tauto.
Qed.

(** Of a node that is not removed by it a goroutine leaves what the master
    knows. *)
Lemma known_stays st st' g g' url n :
  in_sync cfg (st_master st) (st_meta st) g -> goroutine_step cfg post_meta st st' ->
  in_sync cfg (st_master st') (st_meta st') g' ->
  node_known g (st_tasks st) url n -> Remove url ∉ st_tasks st' -> node_known g' (st_tasks st') url n.
Proof.
  intros Hs Hst Hs' [H1 H2 H3 H4] Hr.
  assert (g' !! url = g !! url) as E; [|by split; [| |rewrite E|]].
  destruct Hs as (Hg & Hs), Hs' as (Hg' & Hs').
  inversion Hst as [? ts1 ts2 node nodes m' Ht Hsync|? ts1 ts2 node nodes m' e Ht Hsync
    |? ts1 ts2 node nodes w' Ht Hp|? ts1 ts2 node nodes w' e Ht Hp|? ts1 ts2 node m' s' Ht Hrm]; subst;
    cbn [st_master st_meta] in *; try apply syncDBs_nodesMap in Hsync; try congruence.
  destruct (removeNode_sync cfg _ _ g node m' s' store_writable (conj Hg Hs) Hrm) as [[Hd _] _].
  rewrite Hd in Hg'. injection Hg' as <-. apply lookup_delete_ne. intros ->. apply H4. rewrite Ht.
  apply elem_of_app. right. by left.
Qed.

(** *** The other steps *)

Lemma life_same_record st g s' ts' m' l :
  life_inv st g -> nodesMap m' = nodesMap (st_master st) ->
  fetchNodesMap cfg s' = fetchNodesMap cfg (st_meta st) -> Master_Peers cfg s' = Ok l ->
  (forall url, Remove url ∈ ts' -> Remove url ∈ st_tasks st) ->
  life_inv {| st_world := st_world st; st_master := m'; st_meta := s'; st_tasks := ts' |} g.
Proof.
  intros [(H1 & H2 & H3) _ Hg Hn] Hm Hf Hl Ht. split; cbn [st_world st_master st_meta st_tasks].
  - split; [by rewrite Hm|]. split; [done|]. by rewrite Hf.
  - by exists l.
  - done.
  - intros url n Hu. eapply node_known_tasks; [apply Ht|by apply Hn].
Qed.

(** The invariant of the cluster: the joining nodes are known too. *)
Record cl_inv cl (g : gmap string string) : Prop := {
  ci_life : life_inv (cl_state cl) g;
  ci_joining : map_Forall (node_known g (st_tasks (cl_state cl))) (joining cl);
}.

Lemma known_map_with g ts http nodeaddr url n :
  node_known g ts url n -> MakeURL http <> url -> node_known (map_with g http nodeaddr) ts url n.
Proof. intros [E1 E2 E3 E4] Hne. split; try done. unfold map_with. by rewrite lookup_insert_ne. Qed.

Lemma join_inv cl g http nodeaddr maddr m' s' node' err :
  cl_inv cl g -> good_addr http -> valid_utf8 (MakeURL nodeaddr) = true -> ¬ is_started (MakeURL http) cl ->
  (err = None -> Remove (MakeURL http) ∉ st_tasks (cl_state cl)) ->
  Node_Start (Some master_client) (st_master (cl_state cl), st_meta (cl_state cl)) (CacheNode_New http nodeaddr maddr)
    = Ret (m', s', node', err) ->
  exists g', cl_inv
    {| cl_state := {| st_world := st_world (cl_state cl); st_master := m'; st_meta := s'; st_tasks := st_tasks (cl_state cl) |};
       joining := match err with None => <[MakeURL http := node']> (joining cl) | Some _ => joining cl end |} g'.
Proof.
  intros [[Hs [l Hl] Hg Hn] Hj] [H1 H2] H3 Hnone Hr Hst. rewrite (Node_Start_eq _ _ g) in Hst by done.
  destruct (decide _) as [_|_].
  { injection Hst as <- <- <- <-. exists g. split; [|done]. split; [done|by exists l|done|done]. }
  cbv zeta in Hst. injection Hst as <- <- <- <-. cbn [CacheNode_New httpAddr nodeAddr].
  assert (forall (w : processes), (forall n, w !! MakeURL http <> Some n) ->
    map_Forall (node_known g (st_tasks (cl_state cl))) w ->
    map_Forall (node_known (map_with g http nodeaddr) (st_tasks (cl_state cl))) w) as Hw.
  { intros w Hno Hw url n Hu. apply known_map_with; [by apply Hw|]. intros <-. by apply (Hno n). }
  exists (map_with g http nodeaddr). split; cbn [cl_state joining st_world st_master st_meta st_tasks]; [split|].
  - by apply map_with_sync.
  - exists l. cbn [st_meta]. rewrite <-Hl. by eapply Master_Peers_updateNodesMap; [| |by apply update_ok].
  - intros k [v Hv]. unfold map_with in Hv. apply lookup_insert_Some in Hv as [[<- _]|[_ Hk]]; [done|]. apply Hg. by exists v.
  - apply Hw; [|done]. intros n Hu. apply Hnone. right. by exists n.
  - apply map_Forall_insert_2; [|apply Hw; [|done]; intros n Hu; apply Hnone; left; by exists n].
    split; [done|done|by unfold map_with; rewrite lookup_insert_eq|by apply Hr].
Qed.

Lemma life_calm cl cl' g : cl_inv cl g -> calm_step cl cl' -> exists g', cl_inv cl' g'.
Proof.
  intros Hi (Hst & [l' Hl'] & Hr). pose proof Hi as [Hlife Hj]. pose proof Hlife as [Hs [l Hl] Hg Hn].
  inversion Hst as [? ? Hst'|? k v s' err st Hk Hput]; subst;
    [inversion Hst' as [? st' Hgo|?|? m' err st Hsync|? http nodeaddr maddr m' s' node' err st H1 H2 H3 Hstart
       |? url n st Hu|? url st|? url n db st Hu]|]; subst; cbn [with_state cl_state joining st_world st_meta] in *.
  - destruct (life_goroutine _ _ _ Hlife Hgo) as [g' Hi']. exists g'. split; [done|].
    intros url n Hu. eapply known_stays; [done|done|apply Hi'|by apply Hj|]. apply Hr. by exists n.
  - exists g. split; [eapply life_same_record; [done..|]|].
    + intros url [|(t & [=] & _)%list_elem_of_fmap]%elem_of_app; done.
    + intros url n Hu. eapply node_known_tasks; [|by apply Hj]. cbn.
      intros [|(t & [=] & _)%list_elem_of_fmap]%elem_of_app; done.
  - exists g. split; [|done]. eapply life_same_record; [done|by eapply syncDBs_nodesMap|done..].
  - eapply join_inv; [done..| |done]. intros ->. apply Hr. cbn. rewrite lookup_insert_eq. by eexists.
  - exists g. split; cbn.
    + split; cbn; [done|by exists l|done|]. apply map_Forall_insert_2; [by apply Hj|done].
    + by apply map_Forall_delete.
  - exists g. split; cbn; [|by apply map_Forall_delete]. split; cbn; [done|by exists l|done|].
    by apply map_Forall_delete.
  - exists g. split; cbn; [|done]. split; cbn; [done|by exists l|done|]. apply map_Forall_insert_2; [|done].
    eapply node_known_same; [| |by apply Hn]; done.
  - exists g. split; [|done]. eapply life_same_record; [done|done| |done|done].
    pose proof (store_writable (st_meta (cl_state cl)) k v) as He. unfold st in Hput. rewrite Hput in He. cbn in He. subst err.
    by eapply fetch_put_other.
Qed.

(** Nothing has been started. *)
Record cl_fresh cl : Prop := {
  cf_sync : in_sync cfg (st_master (cl_state cl)) (st_meta (cl_state cl)) ∅;
  cf_world : st_world (cl_state cl) = ∅;
  cf_joining : joining cl = ∅;
}.

Lemma fresh_inv cl : cl_fresh cl -> (exists l, Master_Peers cfg (st_meta (cl_state cl)) = Ok l) -> cl_inv cl ∅.
Proof.
  intros [Hs Hw Hj] Hl. split; [split|]; [done|done|by intros k [v ?%lookup_empty_Some]|..].
  - rewrite Hw. apply map_Forall_empty.
  - rewrite Hj. apply map_Forall_empty.
Qed.

Lemma life_reaches cl0 cl g :
  cl_inv cl0 g -> rtc calm_step cl0 cl -> exists g', cl_inv cl g'.
Proof.
  intros Hi Hr. revert g Hi. induction Hr as [|cl1 cl2 cl3 Hst _ IH]; intros g Hi; [by exists g|].
  destruct (life_calm cl1 cl2 g Hi Hst) as [g1 H1]. by eapply IH.
Qed.

Lemma goroutines_settle st st' g :
  life_inv st g -> goroutines st st' ->
  (exists g', life_inv st' g') /\ nodeAddr <$> st_world st' = nodeAddr <$> st_world st /\
  Master_Peers cfg (st_meta st') = Master_Peers cfg (st_meta st).
Proof.
  intros Hi Hr. revert g Hi. induction Hr as [|st1 st2 st3 Hst _ IH]; intros g Hi; [by split; [exists g|]|].
  destruct (life_goroutine st1 st2 g Hi Hst) as [g1 H1].
  destruct (IH g1 H1) as (H2 & -> & ->). split; [done|]. split; [by eapply goroutine_nodeAddrs|].
  eapply goroutine_reads; [apply Hi|done].
Qed.

(** The nodes of the map that run are all that run. *)
Definition view_of (w : processes) : gmap string string := (fun n => MakeURL (nodeAddr n)) <$> w.

Lemma view_of_nodeAddrs w w' : nodeAddr <$> w = nodeAddr <$> w' -> view_of w = view_of w'.
Proof. intros E. unfold view_of. by rewrite !(map_fmap_compose nodeAddr MakeURL), E. Qed.

Lemma alive_view st g : life_inv st g -> alive (dom (st_world st)) g = view_of (st_world st).
Proof.
  intros [_ _ Hg Hn]. apply map_eq. intros k. apply option_eq. intros v. unfold alive, view_of.
  rewrite map_lookup_filter_Some, lookup_fmap, fmap_Some. cbn [fst]. split.
  - intros [Hk [n Hu]%elem_of_dom]. rewrite (Hg k ltac:(by exists v)) in Hu. exists n. split; [done|].
    pose proof (nk_known _ _ _ _ (Hn k n Hu)). congruence.
  - intros (n & Hu & ->). destruct (Hn k n Hu) as [_ E H _]. split; [done|]. rewrite E.
    apply elem_of_dom. by exists n.
Qed.

(** From [st] the goroutines at work run to their end, then two heartbeats
    come, each with its goroutines, in any order of these, before [st']. *)
Inductive beats_twice st st' : Prop :=
  | beats_twice_intro st1 order1 st2 order2 :
      goroutines st st1 -> st_tasks st1 = [] ->
      order1 ≡ₚ heartbeat (st_master st1) ->
      goroutines (beat_start (st_world st1) (st_master st1) (st_meta st1) order1) st2 -> st_tasks st2 = [] ->
      order2 ≡ₚ heartbeat (st_master st2) ->
      goroutines (beat_start (st_world st2) (st_master st2) (st_meta st2) order2) st' -> st_tasks st' = [] ->
      beats_twice st st'.

(** It always can, and goroutines never run for ever. *)
Lemma beats_twice_ends st : exists st', beats_twice st st'.
Proof.
  destruct (goroutines_end cfg post_meta st) as (n1 & st1 & Hr1 & Hd1).
  destruct (goroutines_end cfg post_meta
              (beat_start (st_world st1) (st_master st1) (st_meta st1) (heartbeat (st_master st1))))
    as (n2 & st2 & Hr2 & Hd2).
  destruct (goroutines_end cfg post_meta
              (beat_start (st_world st2) (st_master st2) (st_meta st2) (heartbeat (st_master st2))))
    as (n3 & st3 & Hr3 & Hd3).
  exists st3. econstructor; [by eapply rtc_nsteps_2|done|done|by eapply rtc_nsteps_2|done|done|by eapply rtc_nsteps_2|done].
Qed.

Lemma life_settles st g st3 l :
  life_inv st g -> Master_Peers cfg (st_meta st) = Ok l -> beats_twice st st3 ->
  let view := view_of (st_world st) in
  agree cfg view l st3 /\ dom (st_world st3) = dom (st_world st) /\
  nodeAddr <$> st_world st3 = nodeAddr <$> st_world st /\
  (forall url n, st_world st3 !! url = Some n -> told n (nodeAddrs (Some view)) (sort_strings <$> l)).
Proof.
  intros Hi Hl [st1 order2 st2 order3 Hst1 Hd1 Hp2 Hst2 Hd2 Hp3 Hst3 Hd3]. cbv zeta.
  destruct (goroutines_settle st st1 g Hi Hst1) as ([g1 Hi1] & Hn1 & Hl1).
  rewrite Hl in Hl1. rewrite (view_of_nodeAddrs _ _ (eq_sym Hn1)).
  assert (dom (st_world st) = dom (st_world st1)) as -> by by rewrite <-(dom_fmap_L nodeAddr), <-Hn1, dom_fmap_L.
  pose proof Hi1 as [Hs1 _ _ Hnodes]. rewrite <-(alive_view st1 g1 Hi1).
  assert (map_Forall (fun _ => settled) (st_world st1)) as Hset by (eapply map_Forall_impl; [exact Hnodes|by intros ? ? []]).
  destruct (one_heartbeat _ cfg _ _ _ _ _ _ _ keys store_writable Hs1 Hl1 Hset eq_refl Hp2 Hst2 Hd2)
    as [Hs2 Hl2 Hset2 Hrun2 _].
  destruct (one_heartbeat _ cfg _ _ _ _ _ _ _ keys store_writable Hs2 Hl2 Hset2 Hrun2 Hp3 Hst3 Hd3)
    as [_ _ _ Hrun3 _].
  pose proof (two_heartbeats_agree cfg _ _ _ _ _ _ _ _ _ _ keys store_writable Hs1 Hl1 Hset eq_refl
                Hp2 Hst2 Hd2 Hp3 Hst3 Hd3) as Hag.
  split; [done|]. split; [exact Hrun3|]. split.
  { rewrite <-Hn1. exact (eq_trans (goroutines_nodeAddrs _ _ Hst3) (goroutines_nodeAddrs _ _ Hst2)). }
  intros url n Hu. pose proof (ag_nodes _ _ _ _ Hag) as Ht.
  assert (url ∈ dom (st_world st1)) as [n1 Hu1]%elem_of_dom by (rewrite <-Hrun3; apply elem_of_dom; by exists n).
  destruct (Ht url) as (n' & Hn' & Htold).
  { rewrite (alive_view st1 g1 Hi1). unfold view_of. rewrite lookup_fmap, Hu1. by eexists. }
  rewrite (nk_url _ _ _ _ (Hnodes url n1 Hu1)) in Hn'. rewrite Hu in Hn'. by injection Hn' as <-.
Qed.

(** ** Properties *)

(** C5: from an empty cache cluster on, nodes start where none is, join, listen
    and stop, heartbeats and their goroutines overlap and others write to the
    store, in any order in which (1) the list of databases can always be read
    and (2) no removal is ever pending of a node between its join and its
    listening: it is not started while the goroutine of an earlier failure has
    yet to remove it, and no heartbeat finds it before it listens.  When then
    nothing else happens than that the goroutines at work end and two
    heartbeats come one after the other, each with its goroutines in any
    order, everyone agrees on exactly the nodes that listen.  The
    master's map, in memory and on record, has the address of each of them;
    every cache node has their node addresses as its peers and its groupcache
    pool, and the databases on record; a client that updates has their HTTP
    addresses and the same databases. *)
Theorem cache_cluster_settles cl0 cl st' l :
  cl_fresh cl0 -> (exists l0, Master_Peers cfg (st_meta (cl_state cl0)) = Ok l0) ->
  rtc calm_step cl0 cl -> Master_Peers cfg (st_meta (cl_state cl)) = Ok l -> beats_twice (cl_state cl) st' ->
  let st := cl_state cl in
  let view := (fun n => MakeURL (nodeAddr n)) <$> st_world st in
  nodesMap (st_master st') = Some view /\ fetchNodesMap cfg (st_meta st') = Ok (Some view) /\
  dom (st_world st') = dom (st_world st) /\
  (forall url n, st_world st' !! url = Some n ->
     peers n = Some (nodeAddrs (Some view)) /\ pool n = nodeAddrs (Some view) /\ node_dbs n = sort_strings <$> l) /\
  (forall c, exists c',
     Client.update (Master_Peers cfg (st_meta st')) (Some <$> CacheMaster_Peers cfg (st_meta st')) c = (c', None) /\
     Client.caches c' = Some (httpAddrs (Some view)) /\ Client.dbs c' = sort_strings <$> l).
Proof.
  intros H0 Hl0 Hr Hl Hb. destruct (life_reaches cl0 cl ∅ (fresh_inv cl0 H0 Hl0) Hr) as [g [Hi _]].
  destruct (life_settles (cl_state cl) g st' l Hi Hl Hb) as ([Hm Hf _ Hc] & Hdom & _ & Ht).
  split_and!; [exact Hm|exact Hf|exact Hdom| |exact Hc]. intros url n Hu. by destruct (Ht url n Hu).
Qed.

(** *** Dropping out *)

(** What a step does to the master's map: only a start adds to it, and what is
    started is in it. *)
Lemma sync_step cl cl' g :
  in_sync cfg (st_master (cl_state cl)) (st_meta (cl_state cl)) g -> cluster_step cl cl' ->
  exists g', in_sync cfg (st_master (cl_state cl')) (st_meta (cl_state cl')) g' /\
    forall url, (is_Some (g' !! url) -> is_Some (g !! url) \/ (¬ is_started url cl /\ is_started url cl')) /\
                (¬ is_started url cl -> is_started url cl' -> is_Some (g' !! url)).
Proof.
  intros Hs Hst.
  inversion Hst as [? ? Hst'|? k v s' err st Hk Hput]; subst;
    [inversion Hst' as [? st' Hgo|?|? m' err st Hsync|? http nodeaddr maddr m' s' node' err st [H1 H2] H3 H4 Hstart
       |? url' n st Hu|? url' st|? url' n db st Hu]|]; subst; unfold is_started;
    cbn [with_state cl_state joining st_world st_master st_meta] in *.
  - pose proof (goroutine_nodeAddrs _ _ Hgo) as E.
    assert (forall url, is_Some (st_world st' !! url) <-> is_Some (st_world (cl_state cl) !! url)) as Hd.
    { intros url. by rewrite <-!(fmap_is_Some nodeAddr), <-!lookup_fmap, E. }
    inversion Hgo; subst; cbn [st_master st_meta] in *;
      [exists g|exists g|exists g|exists g|eexists];
      (split; [first [done|eapply in_sync_nodesMap; [by eapply syncDBs_nodesMap|done]|by eapply removeNode_sync]|]);
      intros url; rewrite Hd; split; try tauto.
    rewrite lookup_delete_is_Some. tauto.
  - exists g. split; [done|]. intros url. tauto.
  - exists g. split; [eapply in_sync_nodesMap; [by eapply syncDBs_nodesMap|done]|]. intros url. tauto.
  - rewrite (Node_Start_eq _ _ g) in Hstart by done. destruct (decide _) as [_|_].
    { injection Hstart as <- <- _ <-. exists g. split; [done|]. intros url. tauto. }
    injection Hstart as <- <- _ <-. exists (map_with g http nodeaddr). split; [by apply map_with_sync|].
    intros url. unfold map_with. cbn [CacheNode_New httpAddr nodeAddr]. rewrite !lookup_insert_is_Some.
    destruct (decide (MakeURL http = url)) as [<-|Hne]; [|split; [intros [|[_ ?]]; [done|by left]|intros Hno [[|[_ ?]]|?]; [done|destruct Hno; by left|destruct Hno; by right]]].
    split; [|by left].
    intros _. right. split; [done|]. by left; left.
  - exists g. split; [done|]. intros url. rewrite lookup_insert_is_Some, lookup_delete_is_Some.
    destruct (decide (url' = url)) as [->|]; [|tauto]. split; [tauto|]. intros Hno. exfalso. apply Hno. left. by exists n.
  - exists g. split; [done|]. intros url. rewrite !lookup_delete_is_Some. tauto.
  - exists g. split; [done|]. intros url. rewrite lookup_insert_is_Some.
    destruct (decide (url' = url)) as [->|]; [|tauto]. split; [tauto|]. intros Hno. exfalso. apply Hno. right. by exists n.
  - exists g. split; [|intros url; tauto]. destruct Hs as (E1 & E2 & E3). split; [done|]. split; [done|].
    pose proof (store_writable (st_meta (cl_state cl)) k v) as He. unfold st in Hput. rewrite Hput in He. cbn in He. subst err.
    rewrite <-E3. by eapply fetch_put_other.
Qed.

(** [url] is not started in this step. *)
Definition unstarted (url : string) cl cl' : Prop :=
  cluster_step cl cl' /\ (is_started url cl' -> is_started url cl).

Definition missing (url : string) cl : Prop :=
  exists g, in_sync cfg (st_master (cl_state cl)) (st_meta (cl_state cl)) g /\ g !! url = None.

Lemma missing_stays url cl cl' : missing url cl -> rtc (unstarted url) cl cl' -> missing url cl'.
Proof.
  intros Hm Hr. revert Hm. induction Hr as [|cl1 cl2 cl3 [Hst Hu] _ IH]; [done|].
  intros (g & Hs & Hm). apply IH. destruct (sync_step cl1 cl2 g Hs Hst) as (g' & Hs' & H). exists g'. split; [done|].
  apply eq_None_not_Some. intros Hsome. destruct (proj1 (H url) Hsome) as [[v Hv]|[Hno Hyes]]; [congruence|].
  by apply Hno, Hu.
Qed.

Lemma sync_reaches (R : relation cache_cluster) cl cl' g :
  (forall cl cl', R cl cl' -> cluster_step cl cl') ->
  in_sync cfg (st_master (cl_state cl)) (st_meta (cl_state cl)) g -> rtc R cl cl' ->
  exists g', in_sync cfg (st_master (cl_state cl')) (st_meta (cl_state cl')) g'.
Proof.
  intros HR Hs Hr. revert g Hs. induction Hr as [|cl1 cl2 cl3 Hst _ IH]; intros g Hs; [by exists g|].
  destruct (sync_step cl1 cl2 g Hs (HR _ _ Hst)) as (g' & Hs' & _). by eapply IH.
Qed.

(** C32: a node joins only when it starts.  One that is started while the
    goroutine that found it gone has yet to remove it, or that a heartbeat
    posts to before it listens, is dropped by that goroutine, and whatever
    happens, its listening, heartbeats, joins of others, stops, it is not in
    the master's map or in its record until it is started once more. *)
Theorem restart_during_removal_drops_node cl cl1 cl2 ts1 ts2 url m' s' cl4 g :
  in_sync cfg (st_master (cl_state cl)) (st_meta (cl_state cl)) g ->
  cluster_step cl cl1 -> ¬ is_started url cl -> is_started url cl1 ->
  rtc (unstarted url) cl1 cl2 -> is_started url cl2 ->
  st_tasks (cl_state cl2) = ts1 ++ Remove url :: ts2 ->
  removeNode cfg (st_master (cl_state cl2)) (st_meta (cl_state cl2)) url = (m', s') ->
  let cl3 := with_state cl2 {| st_world := st_world (cl_state cl2); st_master := m'; st_meta := s'; st_tasks := ts1 ++ ts2 |} in
  is_Some (entries (nodesMap (st_master (cl_state cl1))) !! url) /\
  unstarted url cl2 cl3 /\
  (is_Some (st_world (cl_state cl3) !! url) \/
   exists cl3', unstarted url cl3 cl3' /\ is_Some (st_world (cl_state cl3') !! url)) /\
  (rtc (unstarted url) cl3 cl4 ->
   exists g4, nodesMap (st_master (cl_state cl4)) = Some g4 /\ g4 !! url = None /\
     CacheMaster_Peers cfg (st_meta (cl_state cl4)) = Ok (httpAddrs (Some g4))).
Proof.
  intros Hs Hst Hnone Hsome Hr Hsome2 Ht Hrm cl3.
  destruct (sync_step cl cl1 g Hs Hst) as (g1 & Hs1 & H1).
  destruct (sync_reaches (unstarted url) cl1 cl2 g1 (fun _ _ => @proj1 _ _) Hs1 Hr) as [g2 Hs2]. split_and!.
  - rewrite (proj1 Hs1). by apply H1.
  - split; [|done]. by apply cl_cache, cl_goroutine, step_remove with (node := url).
  - destruct Hsome2 as [[n Hn]|]; [right|by left]. eexists. split.
    + split; [apply cl_cache; by apply (cl_listen cl3 url n)|]. intros _. left. by exists n.
    + cbn. rewrite lookup_insert_eq. by eexists.
  - intros Hr4. destruct (missing_stays url cl3 cl4) as (g4 & (Hm & _ & Hf) & Hn); [|done|].
    + exists (delete url g2). split; [by eapply removeNode_sync|apply lookup_delete_eq].
    + exists g4. split; [done|]. split; [done|]. unfold CacheMaster_Peers. by rewrite Hf.
Qed.
End life.

(** ** Witnesses *)

Abbreviation cache_state := (CacheMaster.state (M := Mock.Meta) (W := processes)).
Abbreviation mock_cluster := (cache_cluster (M := Mock.Meta)).

Definition join_node (cl : mock_cluster) (http nodeaddr : string) : mock_cluster :=
  let st := cl_state cl in
  match Node_Start (Some (master_client default_Config)) (st_master st, st_meta st)
          (CacheNode_New http nodeaddr "m") with
  | Ret (m', s', node', err) =>
    {| cl_state := {| st_world := st_world st; st_master := m'; st_meta := s'; st_tasks := st_tasks st |};
       joining := match err with None => <[MakeURL http := node']> (joining cl) | Some _ => joining cl end |}
  | Panic _ => cl
  end.

Definition listen_node (cl : mock_cluster) (url : string) : mock_cluster :=
  let st := cl_state cl in
  match joining cl !! url with
  | Some n =>
    {| cl_state := {| st_world := <[url := n]> (st_world st); st_master := st_master st; st_meta := st_meta st;
                      st_tasks := st_tasks st |};
       joining := delete url (joining cl) |}
  | None => cl
  end.

Definition tick (cl : mock_cluster) : mock_cluster :=
  let st := cl_state cl in
  with_state cl {| st_world := st_world st; st_master := st_master st; st_meta := st_meta st;
                   st_tasks := st_tasks st ++ ((fun t => Send t.1 t.2) <$> heartbeat (st_master st)) |}.

Definition stop_node (cl : mock_cluster) (url : string) : mock_cluster :=
  let st := cl_state cl in
  {| cl_state := {| st_world := delete url (st_world st); st_master := st_master st; st_meta := st_meta st;
                    st_tasks := st_tasks st |};
     joining := delete url (joining cl) |}.

Lemma join_node_step cl http nodeaddr :
  good_addr http -> valid_utf8 (MakeURL nodeaddr) = true -> joining cl !! MakeURL http = None ->
  st_world (cl_state cl) !! MakeURL http = None ->
  is_Ret (Node_Start (Some (master_client default_Config)) (st_master (cl_state cl), st_meta (cl_state cl))
            (CacheNode_New http nodeaddr "m")) ->
  cache_step default_Config cl (join_node cl http nodeaddr).
Proof.
  intros H1 H2 H3 H4 H5. unfold join_node.
  destruct (Node_Start _ _ _) as [[[[m' s'] node'] err]|] eqn:E; [|done].
  eapply cl_join; [done|done| |done]. intros [[? ?]|[? ?]]; congruence.
Qed.

Lemma listen_node_step cl url : is_Some (joining cl !! url) -> cache_step default_Config cl (listen_node cl url).
Proof. intros [n Hn]. unfold listen_node. rewrite Hn. by apply cl_listen. Qed.

(** An empty cluster and one database; the nodes [:1] and [:3] start, a
    heartbeat comes, and the first node stops. *)
Definition no_caches : mock_cluster :=
  {| cl_state := {| st_world := ∅; st_master := {| nodesMap := Some ∅; dbs := None |}; st_meta := mock_with ["d"];
                    st_tasks := [] |};
     joining := ∅ |}.
Definition start_node (cl : mock_cluster) (http nodeaddr : string) : mock_cluster :=
  listen_node (join_node cl http nodeaddr) (MakeURL http).
Definition both_started : mock_cluster := start_node (start_node no_caches ":1" ":2") ":3" ":4".
Definition one_left : mock_cluster := stop_node (tick both_started) "http://127.0.0.1:1".

Lemma no_caches_fresh : cl_fresh default_Config no_caches.
Proof. split; [|done|done]. split; [done|]. split; [apply map_Forall_empty|reflexivity]. Qed.

Lemma calm_here cl cl' :
  cache_step default_Config cl cl' ->
  bool_decide (Master_Peers default_Config (st_meta (cl_state cl')) = Ok (Some ["d"])) = true ->
  bool_decide (joining cl' = ∅) = true \/ st_tasks (cl_state cl') = [] -> calm_step default_Config cl cl'.
Proof.
  intros H1 H2%bool_decide_eq_true_1 H3. split; [by apply cl_cache|]. split; [by eexists|].
  intros url [n Hn]. destruct H3 as [H3%bool_decide_eq_true_1| ->]; [by rewrite H3 in Hn|apply not_elem_of_nil].
Qed.

Lemma start_node_calm cl http nodeaddr :
  good_addr http -> valid_utf8 (MakeURL nodeaddr) = true -> joining cl !! MakeURL http = None ->
  st_world (cl_state cl) !! MakeURL http = None ->
  is_Ret (Node_Start (Some (master_client default_Config)) (st_master (cl_state cl), st_meta (cl_state cl))
            (CacheNode_New http nodeaddr "m")) ->
  is_Some (joining (join_node cl http nodeaddr) !! MakeURL http) ->
  bool_decide (Master_Peers default_Config (st_meta (cl_state (join_node cl http nodeaddr))) = Ok (Some ["d"])) = true ->
  bool_decide (Master_Peers default_Config (st_meta (cl_state (start_node cl http nodeaddr))) = Ok (Some ["d"])) = true ->
  st_tasks (cl_state (join_node cl http nodeaddr)) = [] -> st_tasks (cl_state (start_node cl http nodeaddr)) = [] ->
  rtc (calm_step default_Config) cl (start_node cl http nodeaddr).
Proof.
  intros H1 H2 H3 H4 H5 H6 H7 H8 H9 H10. apply rtc_l with (join_node cl http nodeaddr); [|apply rtc_once]; (apply calm_here; [|done|by right]).
  - by apply join_node_step.
  - by apply listen_node_step.
Qed.

Lemma started_calm : rtc (calm_step default_Config) no_caches both_started.
Proof. etrans; apply start_node_calm; by repeat split. Qed.

Lemma one_left_reached : rtc (calm_step default_Config) no_caches one_left.
Proof.
  apply rtc_r with (tick both_started); [apply rtc_r with both_started; [exact started_calm|]|];
    (apply calm_here; [|reflexivity|by left]).
  - apply cl_heartbeat.
  - apply cl_stop.
Qed.

Lemma cache_cluster_settles_witness :
  exists st3 : cache_state,
    nodesMap (st_master st3) = Some {["http://127.0.0.1:3" := "http://127.0.0.1:4"]} /\
    forall n, st_world st3 !! "http://127.0.0.1:3" = Some n ->
      peers n = Some ["http://127.0.0.1:4"] /\ node_dbs n = Some ["d"].
Proof.
  destruct (beats_twice_ends default_Config (cl_state one_left)) as [st3 Hb]. exists st3.
  assert ((fun n => MakeURL (nodeAddr n)) <$> st_world (cl_state one_left) = {["http://127.0.0.1:3" := "http://127.0.0.1:4"]}) as E
    by (apply (bool_decide_eq_true_1 _); vm_compute; reflexivity).
  destruct (cache_cluster_settles default_Config default_keys_disjoint mock_writable no_caches one_left st3 (Some ["d"]))
    as (Hm & _ & _ & Hn & _).
  - exact no_caches_fresh.
  - eexists. vm_compute. reflexivity.
  - exact one_left_reached.
  - vm_compute. reflexivity.
  - exact Hb.
  - rewrite E in Hm, Hn. split; [exact Hm|]. intros n Hu.
    destruct (Hn _ n Hu) as (H1 & _ & H3).
    split; [rewrite H1; vm_compute; reflexivity|rewrite H3; vm_compute; reflexivity].
Defined.

(** The node [a] is being removed when it is started again. *)
Definition removing_a : mock_cluster :=
  {| cl_state := {| st_world := ∅; st_master := running; st_meta := meta_of "[]"; st_tasks := [Remove "http://a"] |};
     joining := ∅ |}.
Definition a_again : mock_cluster := join_node removing_a "a" "na".

Lemma restart_during_removal_witness :
  exists cl2 cl3 : mock_cluster,
    cluster_step default_Config a_again cl2 /\ cluster_step default_Config cl2 cl3 /\
    is_Some (st_world (cl_state cl3) !! "http://a") /\
    exists g, nodesMap (st_master (cl_state cl3)) = Some g /\ g !! "http://a" = None.
Proof.
  destruct (removeNode default_Config (st_master (cl_state a_again)) (st_meta (cl_state a_again)) "http://a") as [m' s'] eqn:Er.
  set (cl2 := with_state a_again {| st_world := st_world (cl_state a_again); st_master := m'; st_meta := s'; st_tasks := [] |}).
  destruct (restart_during_removal_drops_node default_Config mock_writable removing_a a_again a_again [] [] "http://a" m' s'
    (listen_node cl2 "http://a") two_caches) as (_ & [H1 _] & _ & H3).
  - exact (meta_of_sync "[]").
  - apply cl_cache, join_node_step; by repeat split.
  - intros [[n Hn]|[n Hn]]; discriminate Hn.
  - left. eexists. vm_compute. reflexivity.
  - apply rtc_refl.
  - left. eexists. vm_compute. reflexivity.
  - reflexivity.
  - exact Er.
  - assert (is_Some (joining cl2 !! "http://a")) as Hj by (eexists; vm_compute; reflexivity).
    assert (cluster_step default_Config cl2 (listen_node cl2 "http://a")) as H2 by by apply cl_cache, listen_node_step.
    exists cl2, (listen_node cl2 "http://a"). split; [exact H1|]. split; [exact H2|].
    split; [eexists; vm_compute; reflexivity|].
    destruct H3 as (g & Hg & Hn & _); [|by exists g]. apply rtc_once. split; [exact H2|]. intros _. by left.
Defined.
