(* ===== verification/CachePool.v ===== *)
(** * Who owns a key: the groupcache pools of the cache nodes

    The pool a cache node makes in [New] and the peer it picks for a key
    (cache/node/node.go, [newPool], and groupcache's [PickPeer]).  Once the
    master's posts have reached every node (CacheCluster.v) each key has one
    owner, which loads it from the databases, and all others ask it; between
    a join and the first post a node asks servers that are none. *)
From S2P Require Import Prelude Utf8 Json JsonTypes UrlUtil Http MetaKV Config DBMaster CacheMaster Race CacheNode CacheCluster.
From Stdlib Require Import Ascii.

(** ** newPool *)

Record HTTPPool : Type := { pool_self : string; pool_BasePath : string }.

Definition newPool (addr : string) : HTTPPool := {| pool_self := MakeURL addr; pool_BasePath := basePath |}.

(** [New] makes the pool of the node address, which never changes. *)
Definition node_pool (n : Node) : HTTPPool := newPool (nodeAddr n).

(** The hash ring of groupcache over the peers of [Set]: the owner is one of
    them. *)
Class PeerRing : Type := { ring_Get : list string -> string -> string }.
Class PeerRingLaws `{!PeerRing} : Prop := {
  ring_Get_member : forall ps key, ps <> [] -> ring_Get ps key ∈ ps;
}.

(** [PickPeer]: the URL of the groupcache server to ask, [None] if the node
    is to load the key itself. *)
Definition PickPeer `{!PeerRing} (n : Node) (key : string) : option string :=
  match pool n with
  | [] => None
  | ps =>
    let peer := ring_Get ps key in
    if decide (peer = pool_self (node_pool n)) then None else Some (peer +:+ pool_BasePath (node_pool n))
  end.

Section pool.
Context {ring : PeerRing} {ring_laws : PeerRingLaws}.
Context {M : Type} `{!MetaOps M, !MetaLaws M}.
Context (cfg : Config).
Abbreviation state := (CacheMaster.state (M := M) (W := processes)).
Implicit Types st : state.
Hypothesis keys : keys_disjoint cfg.
Hypothesis store_writable : writable (M := M).

Lemma PickPeer_eq n key :
  pool n <> [] ->
  PickPeer n key =
  if decide (ring_Get (pool n) key = MakeURL (nodeAddr n)) then None else Some (ring_Get (pool n) key +:+ basePath).
Proof. unfold PickPeer. by destruct (pool n). Qed.

Lemma elem_of_nodeAddrs g a : a ∈ nodeAddrs (Some g) <-> exists k, g !! k = Some a.
Proof.
  unfold nodeAddrs. cbn [entries default]. change (id g) with g.
  rewrite elem_of_sort_strings, list_elem_of_fmap. split.
  - intros ([k a'] & -> & H%elem_of_map_to_list). by exists k.
  - intros [k Hk]. exists (k, a). split; [done|]. by apply elem_of_map_to_list.
Qed.

Lemma same_nodeAddrs (w w' : processes) url n' :
  nodeAddr <$> w' = nodeAddr <$> w -> w' !! url = Some n' -> exists n, w !! url = Some n /\ nodeAddr n = nodeAddr n'.
Proof.
  intros E Hn. apply (f_equal (lookup url)) in E. rewrite !lookup_fmap, Hn in E.
  destruct (w !! url) as [n|]; [|done]. injection E as E. by exists n.
Qed.

(** C6: in a cache cluster whose run from the start meets the conditions of
    CacheCluster.v (the list of databases can always be read, and no removal
    is ever pending of a node between its join and its listening), after
    which nothing else happens than that the goroutines at work end and two
    heartbeats come one after the other, every key has one owner if a node
    listens: a cache node that listens, and that loads the key itself, as do
    only those of its very node address; every other node asks the groupcache
    server of the owner. *)
Theorem keys_have_one_owner cl0 cl st' l key :
  cl_fresh cfg cl0 -> (exists l0, Master_Peers cfg (st_meta (cl_state cl0)) = Ok l0) ->
  rtc (calm_step cfg) cl0 cl -> Master_Peers cfg (st_meta (cl_state cl)) = Ok l ->
  beats_twice cfg (cl_state cl) st' -> st_world (cl_state cl) <> ∅ ->
  exists url owner, st_world st' !! url = Some owner /\ PickPeer owner key = None /\
    forall url' n, st_world st' !! url' = Some n ->
      PickPeer n key = if decide (MakeURL (nodeAddr n) = MakeURL (nodeAddr owner)) then None
                       else Some (MakeURL (nodeAddr owner) +:+ basePath).
Proof.
  intros H0 Hl0 Hr Hl Hb Hne.
  destruct (life_reaches cfg keys store_writable cl0 cl ∅ (fresh_inv cfg cl0 H0 Hl0) Hr) as [g [Hi _]].
  destruct (life_settles cfg keys store_writable (cl_state cl) g st' l Hi Hl Hb) as (_ & _ & Hn & Ht).
  set (ps := nodeAddrs (Some (view_of (st_world (cl_state cl))))) in *.
  assert (ps <> []) as Hps.
  { destruct (map_choose _ Hne) as (url & n & Hu). intros E.
    apply (not_elem_of_nil (MakeURL (nodeAddr n))). rewrite <-E. apply elem_of_nodeAddrs. exists url.
    unfold view_of. by rewrite lookup_fmap, Hu. }
  assert (exists url owner, st_world st' !! url = Some owner /\ ring_Get ps key = MakeURL (nodeAddr owner))
    as (url & owner & Hown & E).
  { pose proof (ring_Get_member ps key Hps) as [url Hu]%elem_of_nodeAddrs. rewrite <-(view_of_nodeAddrs _ _ Hn) in Hu.
    unfold view_of in Hu. rewrite lookup_fmap in Hu. apply fmap_Some in Hu as (owner & Hown & E). by exists url, owner. }
  assert (forall url' n, st_world st' !! url' = Some n ->
            PickPeer n key = if decide (MakeURL (nodeAddr n) = MakeURL (nodeAddr owner)) then None
                             else Some (MakeURL (nodeAddr owner) +:+ basePath)) as Hpick.
  { intros url' n Hu. destruct (Ht url' n Hu) as [_ _ Hp]. rewrite PickPeer_eq, Hp, E by by rewrite Hp.
    destruct (decide _), (decide _); congruence. }
  exists url, owner. split; [done|]. split; [|exact Hpick]. rewrite (Hpick url owner Hown). by rewrite decide_True.
Qed.

(** C36: the reply to a join fills the pool with HTTP addresses: until the
    first heartbeat a new node whose two addresses differ from the others'
    owns no key, and asks the HTTP server of a cache node for each, which
    has no such route. *)
Theorem joined_node_asks_http_servers m (s : M) g node m' s' node' key :
  in_sync cfg m s g ->
  Node_Start (Some (master_client cfg)) (m, s) node = Ret (m', s', node', None) ->
  (forall http, http = MakeURL (httpAddr node) \/ is_Some (g !! http) -> http <> MakeURL (nodeAddr node)) ->
  exists http, PickPeer node' key = Some (http +:+ basePath) /\
    (http = MakeURL (httpAddr node) \/ is_Some (g !! http)) /\ node_route_GET (peer_path key) = None.
Proof.
  intros Hs Hst Hne. rewrite (Node_Start_eq cfg m s g node store_writable Hs) in Hst.
  destruct (decide _) as [_|_]; [done|]. cbv zeta in Hst. injection Hst as _ _ <-.
  set (g' := map_with g (httpAddr node) (nodeAddr node)).
  assert (forall k, k ∈ httpAddrs (Some g') <-> k = MakeURL (httpAddr node) \/ is_Some (g !! k)) as Hin.
  { intros k. rewrite elem_of_httpAddrs. unfold g', map_with. rewrite lookup_insert_is_Some'. naive_solver. }
  assert (httpAddrs (Some g') <> []) as Hp.
  { intros E. apply (not_elem_of_nil (MakeURL (httpAddr node))). rewrite <-E. apply Hin. by left. }
  pose proof (ring_Get_member _ key Hp) as Hmem%Hin.
  exists (ring_Get (httpAddrs (Some g')) key). split; [|split; [exact Hmem|done]].
  rewrite PickPeer_eq by exact Hp. cbn [set_meta pool elems default nodeAddr].
  change (id (httpAddrs (Some g'))) with (httpAddrs (Some g')). by rewrite decide_False by by apply Hne.
Qed.
End pool.

(** ** Witnesses: a ring whose owner is the first peer *)

#[local] Instance first_peer : PeerRing := { ring_Get := fun ps _ => default "" (head ps) }.
#[local] Instance first_peer_laws : PeerRingLaws.
Proof. split. intros [|p ps] key Hp; [done|by left]. Qed.

Lemma keys_have_one_owner_witness :
  exists (st' : cache_state) url owner, st_world st' !! url = Some owner /\ PickPeer owner "k" = None.
Proof.
  destruct (beats_twice_ends default_Config (cl_state one_left)) as [st3 Hb].
  destruct (keys_have_one_owner default_Config default_keys_disjoint mock_writable no_caches one_left st3 (Some ["d"]) "k")
    as (url & owner & H1 & H2 & _).
  - exact no_caches_fresh.
  - eexists. vm_compute. reflexivity.
  - exact one_left_reached.
  - vm_compute. reflexivity.
  - exact Hb.
  - intros E. apply (f_equal (lookup "http://127.0.0.1:3")) in E. vm_compute in E. discriminate E.
  - exists st3, url, owner. split; [exact H1|exact H2].
Defined.

Lemma joined_node_witness :
  exists node', joining (join_node no_caches ":1" ":2") !! "http://127.0.0.1:1" = Some node' /\
    exists http, PickPeer node' "k" = Some (http +:+ "/oncekv/") /\ node_route_GET "/oncekv/kv/k" = None.
Proof.
  destruct (Node_Start (Some (master_client default_Config)) (st_master (cl_state no_caches), st_meta (cl_state no_caches))
              (CacheNode_New ":1" ":2" "m")) as [[[[m' s'] node'] err]|] eqn:E; [|vm_compute in E; discriminate E].
  assert (err = None) as -> by (vm_compute in E; injection E as _ _ _ E; exact (eq_sym E)).
  destruct (joined_node_asks_http_servers default_Config mock_writable (st_master (cl_state no_caches)) (st_meta (cl_state no_caches)) ∅
              (CacheNode_New ":1" ":2" "m") m' s' node' "k") as (http & H1 & _ & H3).
  - split; [reflexivity|]. split; [apply map_Forall_empty|reflexivity].
  - exact E.
  - intros http [->|[v Hv]]; [vm_compute; discriminate|]. rewrite lookup_empty in Hv. discriminate Hv.
  - exists node'. split; [|exists http; split; [exact H1|exact H3]].
    unfold join_node. rewrite E. apply lookup_insert_eq.
Defined.
