(* ===== verification/Coordination.v ===== *)
(** * The two clusters on one metadata store

    The database nodes with their master (Membership.v) and the cache nodes
    with theirs (CacheCluster.v) write to the same metadata store, in any
    order.  Neither disturbs what the other has there, so the databases that
    serve reach, by one heartbeat of the database master and two of the cache
    master, every cache node and every client that updates. *)
From S2P Require Import Prelude Utf8 Json JsonTypes UrlUtil Http MetaKV Config DBMaster Client CacheMaster Race CacheNode CacheCluster Store Service Bootstrap Membership.

Section coordination.
Context {R : Type} `{!RaftNode R, !RaftEnv R, !RaftMembers R, !RaftMembersLaws R}.
Context {M : Type} `{!MetaOps M, !MetaLaws M}.
Context (cfg : Config).

Abbreviation node := (Service (Store R)).
Abbreviation world := (Bootstrap.world (R := R) (M := M)).
Abbreviation database := (Membership.database (R := R) (M := M)).
Abbreviation state := (CacheMaster.state (M := M) (W := processes)).
Abbreviation goroutines := (rtc (goroutine_step (M := M) cfg post_meta)).
Context (nodes : list node).
Abbreviation cluster := (cache_cluster (M := M)).
Implicit Types (w : world) (st : state) (cl : cluster).

Definition with_st_meta st (m : M) : state :=
  {| st_world := st_world st; st_master := st_master st; st_meta := m; st_tasks := st_tasks st |}.

(** The caches over a store the databases have written to. *)
Definition with_cl_meta cl (m : M) : cluster := with_state cl (with_st_meta (cl_state cl) m).

(** A step of the databases changes the store under the caches and the other
    way round; no database leader stops with updates to do, and no removal is
    pending of a cache node between its join and its listening. *)
Inductive system_step : database * cluster -> database * cluster -> Prop :=
  | sys_db d cl d' :
      calm_step cfg nodes d d' -> system_step (d, cl) (d', with_cl_meta cl (w_meta (db_world d')))
  | sys_cache d cl cl' :
      cache_step cfg cl cl' -> joins_in_peace cl' ->
      system_step (d, cl) (in_world d (with_meta (db_world d) (st_meta (cl_state cl'))), cl').

(** Nothing has been started, and nothing is on record. *)
Record fresh (w0 : world) cl : Prop := {
  fr_database : blank cfg w0;
  fr_cache : cl_fresh cfg cl;
  fr_shared : st_meta (cl_state cl) = w_meta w0;
}.

Hypothesis keys : keys_disjoint cfg.
Hypothesis store_writable : writable (M := M).
Hypothesis nodes_distinct : distinct nodes.
Hypothesis nodes_proper : Forall proper nodes.

(** ** The database nodes leave the record of the caches alone *)

Definition cache_record (m : M) : result string := meta_Get m (CacheNodesKey cfg).

Lemma put_keeps_record (m : M) k v : k <> CacheNodesKey cfg -> cache_record (meta_Put m k v).1 = cache_record m.
Proof.
  intros Hk. apply (meta_get_put_other m k v); [by apply put_eq|]. by intros E; apply Hk.
Qed.

Lemma list_keeps_record (m : M) l : cache_record (list_in cfg m l) = cache_record m.
Proof. apply put_keeps_record, (nodes_key_cache cfg keys). Qed.

Lemma register_keeps_record (m : M) (s : node) : cache_record (register_in cfg m s) = cache_record m.
Proof.
  apply put_keeps_record. unfold httpAddrKeyOfRaftAddr. apply (raft_key_cache cfg keys).
Qed.

Lemma post_join_meta w url ct body : w_meta (post_join w url ct body).1 = w_meta w.
Proof.
  unfold post_join. destruct (w_nodes w !! url) as [s|]; [|done].
  by destruct (handleJoin s body) as [[[s' resp] b]|].
Qed.

Lemma tryToJoin_meta (s : node) w peers : w_meta (tryToJoin post_join s w peers).1 = w_meta w.
Proof.
  assert (forall w, w_meta (tryToJoin_loop post_join s w peers).1 = w_meta w) as H; [|destruct peers; [done|apply H]].
  clear w. induction peers as [|p peers IH]; intros w; [done|]. cbn [tryToJoin_loop].
  destruct (decide (p = httpAddr s)); [done|].
  pose proof (post_join_meta w (MakeURL p +:+ "/join") "application/json" (marshal_joinParams (raftAddr s))) as E.
  destruct (post_join w _ _ _) as [w1 [res|e]]; cbn [fst] in E; [destruct (_ =? _)%Z; [done|]|]; by rewrite IH.
Qed.

Lemma Start_keeps_record (s : node) w s' w' err :
  Start cfg post_join s w = (s', w', err) -> cache_record (w_meta w') = cache_record (w_meta w).
Proof.
  unfold Start. rewrite register_world by done. rewrite <-(register_keeps_record (w_meta w) s).
  destruct (Master_Peers cfg _) as [peers|e]; [|by intros [= _ <- _]].
  destruct (decide _) as [_|_].
  - destruct (store_Open (store s) true) as [st [e|]]; [by intros [= _ <- _]|]. rewrite update_world by done.
    intros [= _ <- _]. cbn [with_meta w_meta]. apply list_keeps_record.
  - destruct (store_Open (store s) false) as [st [e|]]; [by intros [= _ <- _]|].
    pose proof (tryToJoin_meta s (with_meta w (register_in cfg (w_meta w) s)) (elems peers)) as E.
    destruct (tryToJoin post_join s _ _) as [w1 e1]. cbn [fst with_meta w_meta] in E. intros [= _ <- _]. by rewrite E.
Qed.

Lemma beat_keeps_record w order : cache_record (w_meta (beat cfg w order)) = cache_record (w_meta w).
Proof.
  unfold beat, Master_tick. destruct (Master_heartbeat _ _ _ _ _) as [[] [|n l]]; [done|].
  unfold Master_removeNodes. destruct (removeNodes_plan _ _ _) as [l'|]; [|done]. apply list_keeps_record.
Qed.

Lemma db_step_keeps_record (d d' : database) :
  db_step cfg nodes d d' -> cache_record (w_meta (db_world d')) = cache_record (w_meta (db_world d)).
Proof.
  intros Hst. inversion Hst as [? s s' w' err _ _ _ Hs|? us1 url us2 s w' err _ _ Hup| | |? o1 l o2 w' _ _ He|];
    subst; cbn [db_world in_world leader_stopped]; try done.
  - apply Start_keeps_record in Hs. by unfold started; destruct err, (db_members d).
  - rewrite updatePeers_eq in Hup. destruct (updatePeers_plan cfg s _) as [[peers|e]|]; [| |done].
    + cbn [mbind outcome_bind] in Hup. rewrite update_world in Hup by done. injection Hup as <- _.
      apply list_keeps_record.
    + by injection Hup as <- _.
  - by rewrite (el_meta _ _ _ _ He).
  - apply beat_keeps_record.
Qed.

(** ** The cache master leaves the records of the databases alone *)

Lemma update_keeps_other (m : M) g k : k <> CacheNodesKey cfg -> meta_Get (updateNodesMap cfg m g).1 k = meta_Get m k.
Proof. intros Hk. apply (meta_get_put_other m (CacheNodesKey cfg) (print_json (enc_map g))); [by apply put_eq|done]. Qed.

Lemma removeNode_keeps_other m (s : M) g node m' s' k :
  k <> CacheNodesKey cfg -> nodesMap m = Some g -> removeNode cfg m s node = (m', s') ->
  meta_Get s' k = meta_Get s k.
Proof.
  intros Hk Hg. rewrite (removeNode_eq cfg m s g node Hg).
  destruct (g !! node); intros [= <- <-]; [by apply update_keeps_other|done].
Qed.

Lemma cache_step_keeps_other cl cl' g k :
  k <> CacheNodesKey cfg -> in_sync cfg (st_master (cl_state cl)) (st_meta (cl_state cl)) g -> cache_step cfg cl cl' ->
  meta_Get (st_meta (cl_state cl')) k = meta_Get (st_meta (cl_state cl)) k.
Proof.
  intros Hk Hs Hst. inversion Hst as [? st' Hgo| | |? http nodeaddr maddr m' s' node' err st H1 H2 H3 Hstart| | |];
    subst; try done.
  - inversion Hgo as [| | | |? ? ? ? ? ? ? Hrm]; subst; try done. cbn. eapply removeNode_keeps_other; [done|apply Hs|done].
  - unfold st in *. cbn [cl_state st_meta]. rewrite (Node_Start_eq cfg _ _ g) in Hstart by done. destruct (decide _) as [_|_].
    + by injection Hstart as _ <- _ _.
    + injection Hstart as _ <- _ _. by apply update_keeps_other.
Qed.

(** What the databases read there. *)
Definition same_records (m m' : M) : Prop := forall k, k <> CacheNodesKey cfg -> meta_Get m' k = meta_Get m k.

Lemma same_Peers (m m' : M) : same_records m m' -> Master_Peers cfg m' = Master_Peers cfg m.
Proof. intros H. unfold Master_Peers, Master_fetchPeers. rewrite H; [done|]. apply (nodes_key_cache cfg keys). Qed.

Lemma same_registered (m m' : M) (q : node) : same_records m m' -> registered cfg m q -> registered cfg m' q.
Proof.
  intros H. unfold registered, Master_PeerHTTPAddr. rewrite H; [done|].
  apply (raft_key_cache cfg keys).
Qed.

Lemma same_records_inv (d : database) m' :
  same_records (w_meta (db_world d)) m' -> cluster_inv cfg nodes d /\ calm_inv cfg d ->
  cluster_inv cfg nodes (in_world d (with_meta (db_world d) m')) /\
  calm_inv cfg (in_world d (with_meta (db_world d) m')).
Proof.
  intros H [[(ms & Hup & Hms) Hm Ha Hmaj Hg Hreg (known & Hlist & Hk) Hupd] [Hl Hall]]. split.
  - split; unfold db_alive; cbn; try done.
    + exists ms. split; [by eapply up_nodes; [|exact Hup]|done].
    + eapply Forall_impl; [exact Hreg|]. intros q. by apply same_registered.
    + exists known. split; [|done]. unfold listed in *. rewrite <-Hlist. by apply same_Peers.
  - pose proof (same_Peers _ _ H) as E. unfold on_list in *. split; unfold on_list; cbn.
    + intros l El. rewrite E. by apply Hl.
    + intros Hu q Hq. rewrite E. by apply Hall.
Qed.

(** ** The invariant of both *)

Record system_inv (d : database) cl : Prop := {
  si_database : cluster_inv cfg nodes d /\ calm_inv cfg d;
  si_cache : exists g, cl_inv cfg cl g;
  si_shared : st_meta (cl_state cl) = w_meta (db_world d);
}.

Lemma database_readable (d : database) : cluster_inv cfg nodes d -> exists l, Master_Peers cfg (w_meta (db_world d)) = Ok l.
Proof. intros Hi. destruct (ci_listed _ _ _ Hi) as (known & Hlist & _). by eexists. Qed.

Lemma same_record_fetch (m m' : M) : cache_record m' = cache_record m -> fetchNodesMap cfg m' = fetchNodesMap cfg m.
Proof. unfold cache_record, fetchNodesMap. by intros ->. Qed.

Lemma caches_same_record cl g (m : M) l :
  cl_inv cfg cl g -> cache_record m = cache_record (st_meta (cl_state cl)) -> Master_Peers cfg m = Ok l ->
  cl_inv cfg (with_cl_meta cl m) g.
Proof.
  intros [Hi Hj] Hm Hl. split; [|done].
  apply (life_same_record cfg (cl_state cl) g _ _ (st_master (cl_state cl)) l); [done|done| |done|done].
  by apply same_record_fetch.
Qed.

Lemma system_step_inv (d d' : database) cl cl' :
  system_inv d cl -> system_step (d, cl) (d', cl') -> system_inv d' cl'.
Proof.
  intros [Hd [g Hg] Hm] Hst. inversion Hst as [? ? ? Hdb|? ? ? Hc Hcalm]; subst.
  - destruct Hd as [Hi Hc]. pose proof (db_step_inv cfg nodes keys store_writable nodes_distinct nodes_proper d d' Hi (proj1 Hdb)) as Hi'.
    destruct (database_readable d' Hi') as [l Hl]. split.
    + split; [done|]. by apply (calm_step_inv cfg nodes keys store_writable nodes_distinct nodes_proper d).
    + exists g. apply (caches_same_record cl g _ l); [done| |done]. rewrite Hm. apply db_step_keeps_record, Hdb.
    + done.
  - assert (same_records (st_meta (cl_state cl)) (st_meta (cl_state cl'))) as Hsame.
    { intros k Hk. eapply cache_step_keeps_other; [done|apply Hg|done]. }
    split; [|eapply life_calm; [done..|]|done].
    + apply same_records_inv; [|done]. by rewrite <-Hm.
    + split; [by apply cl_cache|]. split; [|done]. destruct (li_readable _ _ _ (ci_life _ _ _ Hg)) as [l Hl].
      exists l. by rewrite (same_Peers _ _ Hsame).
Qed.

Lemma system_reaches w0 cl0 s : fresh w0 cl0 -> rtc system_step (db_init w0, cl0) s -> system_inv s.1 s.2.
Proof.
  intros [Hb Hf H6]. revert s. apply (rtc_ind_r (fun s => system_inv s.1 s.2)).
  - split; [split; [by apply init_inv|apply init_calm]| |done]. exists ∅. apply fresh_inv; [done|].
    exists (Some []). cbn. rewrite H6. apply Hb.
  - intros [d cl] [d' cl'] _ Hst IH. by eapply system_step_inv.
Qed.

(** ** Property *)

(** C4: from an empty metadata store on, database nodes and cache nodes start,
    join, are dropped and stop, and elections take place, in any interleaving
    in which
    (1) [Start], each [updatePeers] and each heartbeat of the database master
    are single steps: the store calls of one of them are not overlapped by
    those of another;
    (2) a majority of the database members stays up, no leader stops with
    updates to do, and no database node is started on an emptied list while
    there are members;
    (3) no removal is ever pending of a cache node between its join and its
    listening.
    Once no [updatePeers] goroutine is pending and nothing else happens than
    one heartbeat of the database master, the end of the goroutines of the
    cache master that were at work, and two heartbeats of it one after the
    other, then every cache node that listens, and every client that updates,
    has exactly the addresses of the database nodes that serve as its
    databases; the caches of the client and the peers of each node are the
    cache nodes that listen.  That the list can be read is not assumed. *)
Theorem databases_reach_everyone w0 cl0 d cl cur order st' :
  fresh w0 cl0 -> rtc system_step (db_init w0, cl0) (d, cl) ->
  w_updating (db_world d) = [] -> Master_Peers cfg (db_world d) = Ok (Some cur) -> order ≡ₚ cur ->
  beats_twice cfg (with_st_meta (cl_state cl) (w_meta (beat cfg (db_world d) order))) st' ->
  let databases := sort_strings (Service.httpAddr <$> db_alive d) in
  let view := (fun n => MakeURL (nodeAddr n)) <$> st_world (cl_state cl) in
  dom (st_world st') = dom (st_world (cl_state cl)) /\
  (forall url n, st_world st' !! url = Some n ->
     node_dbs n = Some databases /\ peers n = Some (nodeAddrs (Some view)) /\ pool n = nodeAddrs (Some view)) /\
  (forall c, exists c',
     Client.update (Master_Peers cfg (st_meta st')) (Some <$> CacheMaster_Peers cfg (st_meta st')) c = (c', None) /\
     Client.dbs c' = Some databases /\ Client.caches c' = Some (httpAddrs (Some view))).
Proof.
  intros Hf Hr Hu Hcur Hord Htwice. cbv zeta.
  assert (system_step (d, cl) (in_world d (beat cfg (db_world d) order),
            with_cl_meta cl (w_meta (beat cfg (db_world d) order)))) as Hb.
  { apply sys_db. split; [by eapply db_beat|]. cbn. by intros H E. }
  destruct (system_reaches w0 cl0 _ Hf (rtc_r _ _ _ Hr Hb)) as [_ [g [Hg _]] _]. cbn [fst snd] in Hg.
  assert (Master_Peers cfg (w_meta (beat cfg (db_world d) order))
          = Ok (Some (sort_strings (Service.httpAddr <$> db_alive d)))) as Hl.
  { destruct (system_reaches w0 cl0 _ Hf Hr) as [[Hi Hc] _ _]. cbn [fst snd] in Hi, Hc.
    apply (beat_settles cfg nodes store_writable nodes_distinct d cur); [done|by apply (ca_all _ _ Hc)|done..]. }
  destruct (life_settles cfg keys store_writable _ g st' _ Hg Hl Htwice) as ([_ _ _ Hc] & Hdom & _ & Ht).
  assert (sort_strings <$> Some (sort_strings (Service.httpAddr <$> db_alive d))
          = Some (sort_strings (Service.httpAddr <$> db_alive d))) as E by (cbn; f_equal; apply sort_strings_idemp).
  rewrite E in Ht, Hc. split; [exact Hdom|]. split.
  - intros url n Hn. by destruct (Ht url n Hn).
  - intros c. destruct (Hc c) as (c' & H1 & H2 & H3). by exists c'.
Qed.

Lemma databases_run (d d' : database) cl :
  st_meta (cl_state cl) = w_meta (db_world d) -> rtc (calm_step cfg nodes) d d' ->
  rtc system_step (d, cl) (d', with_cl_meta cl (w_meta (db_world d'))).
Proof.
  intros E. apply (rtc_ind_r (fun d' => rtc system_step (d, cl) (d', with_cl_meta cl (w_meta (db_world d'))))).
  - rewrite <-E. destruct cl as [[] ?]. apply rtc_refl.
  - intros d1 d2 _ Hst IH. eapply rtc_r; [exact IH|]. exact (sys_db d1 _ d2 Hst).
Qed.
End coordination.

(** ** Witness: the databases of Membership.v, of which the first leader has
    stopped, and a cache node *)

Definition cache_off : mock_cluster :=
  {| cl_state := {| st_world := ∅; st_master := {| nodesMap := Some ∅; dbs := None |}; st_meta := Mock.DefaultMeta;
                    st_tasks := [] |};
     joining := ∅ |}.
Definition cache_idle : mock_cluster := with_cl_meta cache_off (w_meta (db_world one_stopped)).
Definition cache_joined : mock_cluster := join_node cache_idle ":1" ":2".
Definition cache_on : mock_cluster := listen_node cache_joined "http://127.0.0.1:1".
Definition shared : peers_database := in_world one_stopped (with_meta (db_world one_stopped) (st_meta (cl_state cache_joined))).

Lemma both_reached : rtc (system_step default_Config four) (nothing, cache_off) (shared, cache_on).
Proof.
  eapply rtc_r; [eapply rtc_r|].
  - apply (databases_run default_Config four nothing one_stopped cache_off); [reflexivity|exact stopped_calm].
  - apply (sys_cache default_Config four one_stopped cache_idle cache_joined).
    + apply join_node_step; by repeat split.
    + intros url _. apply not_elem_of_nil.
  - apply (sys_cache default_Config four shared cache_joined cache_on).
    + apply listen_node_step. by eexists.
    + intros url _. apply not_elem_of_nil.
Qed.

Lemma databases_reach_everyone_witness :
  exists (st3 : cache_state) n,
    st_world st3 !! "http://127.0.0.1:1" = Some n /\ node_dbs n = Some ["h0"; "h2"] /\ peers n = Some ["http://127.0.0.1:2"].
Proof.
  set (beaten := with_st_meta (cl_state cache_on) (w_meta (beat default_Config (db_world shared) ["h2"; "h0"; "h1"]))).
  destruct (beats_twice_ends default_Config beaten) as [st3 Hb].
  destruct (databases_reach_everyone default_Config four default_keys_disjoint mock_writable four_distinct four_proper
              empty_world cache_off shared cache_on ["h0"; "h1"; "h2"] ["h2"; "h0"; "h1"] st3)
    as (Hdom & Hn & _).
  - split; [exact empty_blank| |reflexivity]. split; [|done|done].
    split; [reflexivity|]. split; [apply map_Forall_empty|reflexivity].
  - exact both_reached.
  - vm_compute. reflexivity.
  - vm_compute. reflexivity.
  - apply (Permutation_cons_append ["h0"; "h1"] "h2").
  - exact Hb.
  - assert ("http://127.0.0.1:1" ∈ dom (st_world st3)) as [n Hu]%elem_of_dom.
    { rewrite Hdom. apply elem_of_dom. eexists. vm_compute. reflexivity. }
    destruct (Hn _ n Hu) as (H1 & H2 & _). exists st3, n. split; [exact Hu|].
    split; [rewrite H1; vm_compute; reflexivity|rewrite H2; vm_compute; reflexivity].
Defined.
