(* ===== verification/Log.v ===== *)
(** * log: the loggers (log/log.go)

    The five loggers after [init], and the entries the helper functions
    write: which logger takes an entry and whether its level lets it out. *)
From S2P Require Import Prelude Config.

(** logrus levels, the more severe the smaller. *)
Inductive Level : Type := FatalLevel | ErrorLevel | WarnLevel | InfoLevel | DebugLevel.

Definition severity (l : Level) : nat :=
  match l with FatalLevel => 1 | ErrorLevel => 2 | WarnLevel => 3 | InfoLevel => 4 | DebugLevel => 5 end.

Inductive Output : Type := Stdout | Stderr | LogOut.
Inductive Formatter : Type := TextFormatter | JSONFormatter.

Record Logger : Type := { log_Level : Level; log_Out : Output; log_Formatter : Formatter }.

(** [logrus.New()] *)
Definition logrus_New : Logger :=
  {| log_Level := InfoLevel; log_Out := Stderr; log_Formatter := TextFormatter |}.

(** The package variables, with logrus's own standard logger. *)
Record Loggers : Type := {
  standard : Logger;
  Internal : Logger;
  DB : Logger;
  Biz : Logger;
  ThirdPartyServiceLogger : Logger;
}.

Definition log_init (cfg : Config) : Loggers := {|
  standard :=
    if IsProduction (cfg_Env cfg)
    then {| log_Level := WarnLevel; log_Out := LogOut; log_Formatter := JSONFormatter |}
    else {| log_Level := DebugLevel; log_Out := LogOut; log_Formatter := TextFormatter |};
  Internal := logrus_New;
  DB := logrus_New;
  Biz := {| log_Level := DebugLevel; log_Out := Stdout; log_Formatter := log_Formatter logrus_New |};
  ThirdPartyServiceLogger := logrus_New;
|}.

(** An entry: its level, field names and message. *)
Record Entry : Type := { e_Level : Level; e_Fields : list string; e_Message : string }.

(** What a logger writes of an entry. *)
Definition emit (l : Logger) (e : Entry) : option (Output * Entry) :=
  if severity (e_Level e) <=? severity (log_Level l) then Some (log_Out l, e) else None.

Section helpers.
Context (ls : Loggers).

Definition log_InternalError (message : string) : option (Output * Entry) :=
  emit (Internal ls) {| e_Level := ErrorLevel; e_Fields := ["function_name"]; e_Message := message |}.

Definition DBError (message : string) : option (Output * Entry) :=
  emit (DB ls) {| e_Level := ErrorLevel; e_Fields := ["sql"; "error"]; e_Message := message |}.

Definition LibError (message : string) : option (Output * Entry) :=
  emit (DB ls) {| e_Level := ErrorLevel; e_Fields := ["lib"]; e_Message := message |}.

Definition ThirdPartyServiceError (message : string) : option (Output * Entry) :=
  emit (DB ls) {| e_Level := InfoLevel; e_Fields := ["third_party_service"; "error"; "params"];
                  e_Message := message |}.
End helpers.

(** The environment configures only logrus's standard logger, which the
    program does not use: the loggers it writes to are the same in every
    environment, let informational entries out in production too, and never
    use the configured output. *)
Theorem environment_changes_standard_only cfg cfg' :
  let a := log_init cfg in let b := log_init cfg' in
  Internal a = Internal b /\ DB a = DB b /\ Biz a = Biz b /\
  ThirdPartyServiceLogger a = ThirdPartyServiceLogger b /\
  (forall l e, l ∈ [Internal a; DB a; Biz a; ThirdPartyServiceLogger a] -> e_Level e = InfoLevel ->
     exists out, emit l e = Some (out, e) /\ out <> LogOut).
Proof.
  cbv zeta. split_and!; [done..|]. intros l e Hl He. unfold emit. rewrite He. revert l Hl.
  rewrite <-Forall_forall. repeat constructor; by eexists.
Qed.

(** The errors of third-party services go to the database logger, as
    informational entries: a logger at the level of errors drops them, while
    it keeps those of libraries. *)
Theorem third_party_errors_are_info ls message :
  log_Level (DB ls) = ErrorLevel ->
  ThirdPartyServiceError ls message = None /\ is_Some (LibError ls message).
Proof. intros Hl. unfold ThirdPartyServiceError, LibError, emit. rewrite Hl. by split; [|eexists]. Qed.
