(* ===== verification/Programs.v ===== *)
(** * example/: the programs

    Each main function builds one server and starts it.  A process lives as
    long as its main function: a start that serves in a goroutine and
    returns ends the program. *)
From S2P Require Import Prelude Utf8 Json JsonTypes Http MetaKV Config DBMaster Store Service CacheMaster Race CacheNode.

(** What a call does to its caller; [Fatal] logs the error and exits, and so
    does a panic nobody recovers. *)
Inductive call : Type := Returns | Blocks | Fatal (e : goerror) | Panics.

(** gin's [Run(addr)]: serves, or returns the error of [net.Listen]. *)
Definition Run (listen : error) : error + unit :=
  match listen with Some e => inl (Some e) | None => inr () end.

(** *** The starts *)

(** [go a.DBMaster.Start()], then [a.Run(a.addr)], whose error is dropped. *)
Definition Admin_Start (listen : error) : call :=
  match Run listen with inl _ => Returns | inr _ => Blocks end.

(** The heartbeat loop. *)
Definition DBMaster_Start : call := Blocks.

(** The watch and the heartbeat are goroutines; so is [http.Serve]. *)
Definition CacheMaster_Start (listen : error) : call :=
  match listen with Some e => Fatal e | None => Returns end.

(** [log.DB.Fatal(s.Run(s.httpAddr))] *)
Definition Service_Start (start : error) (listen : error) : call :=
  match start with
  | Some e => Fatal e
  | None => match Run listen with inl e => Fatal (default (Fresh "Run") e) | inr _ => Blocks end
  end.

Definition CacheNode_Start (start : outcome error) (listen : error) : call :=
  match start with
  | Panic _ => Panics
  | Ret (Some e) => Fatal e
  | Ret None => match Run listen with inl _ => Returns | inr _ => Blocks end
  end.

(** *** The processes *)

Inductive process : Type := Running | Exited (status : nat).

Definition main (c : call) : process :=
  match c with Returns => Exited 0 | Blocks => Running | Fatal _ => Exited 1 | Panics => Exited 2 end.

Section mains.
Context {M : Type} `{!MetaOps M} (cfg : Config).

(** example/databases/node/main.go: the arguments are the HTTP address, the
    raft address and the directory. *)
Definition databases_node {R} `{!RaftNode R, !RaftEnv R} (httpPoster : HTTPPoster M) (w : M)
    (httpAddr raftAddr storeDir : string) (listen : error) : process :=
  main (Service_Start (Start cfg httpPoster (New (R := R) httpAddr raftAddr storeDir) w).2 listen).

(** example/cache/node/node.go; [dial] is [rpc.DialHTTP] of the master. *)
Definition cache_node {W C} `{!RPCClient W C} (dial : result C) (w : W)
    (httpAddr nodeAddr masterAddr : string) (listen : error) : process :=
  let node := CacheNode_New httpAddr nodeAddr masterAddr in
  main (CacheNode_Start (snd <$> Node_Start (New_masterRPCClient dial) w node) listen).

(** example/cache/master/master.go, after [New] has read the record. *)
Definition cache_master (listen : error) : process := main (CacheMaster_Start listen).

Definition databases_master : process := main DBMaster_Start.
Definition admin (listen : error) : process := main (Admin_Start listen).

(** A database node runs exactly if it got through [Start] and listens, a
    cache node if it reached the master, was taken in and listens.  A cache
    node whose master cannot be dialled panics; one that cannot listen exits
    with status 0, as if nothing had failed; and the cache master exits
    whatever happens, with status 0 once it listens. *)
Theorem programs_run :
  (forall R `(HN : RaftNode R, HE : RaftEnv R) poster w h r d listen,
     databases_node (R := R) poster w h r d listen = Running <->
     (Start cfg poster (New (R := R) h r d) w).2 = None /\ listen = None) /\
  (forall W C `(HC : RPCClient W C) (client : C) w h n m listen,
     let reply := (Call client w "Master.JoinNode" {| HTTPAddr := h; NodeAddr := n |}).2 in
     (cache_node (Ok client) w h n m listen = Running <-> result_error reply = None /\ listen = None) /\
     (result_error reply = None -> forall e, cache_node (Ok client) w h n m (Some e) = Exited 0) /\
     (forall e, cache_node (C := C) (Err e) w h n m listen = Exited 2)) /\
  databases_master = Running /\ (forall listen, admin listen = Running <-> listen = None) /\
  (forall listen, cache_master listen <> Running) /\ cache_master None = Exited 0.
Proof.
  split_and!.
  - intros R HN HE poster w h r d listen. unfold databases_node, Service_Start.
    destruct (Start cfg poster _ w).2; [by split; [|intros [? _]]|]. by destruct listen; split; try intros [_ ?].
  - intros W C HC client w h n m listen. unfold cache_node, Node_Start, join.
    cbn [New_masterRPCClient CacheNode_New httpAddr nodeAddr].
    destruct (Call client w _ _) as [w' [reply|e]]; cbn; [|by split_and!; [split; [|intros [? _]]|..]].
    split_and!; [|done|done]. by destruct listen; split; try intros [_ ?].
  - done.
  - intros [e|]; by split.
  - by intros [e|].
  - done.
Qed.
End mains.
