(* ===== verification/Admin.v ===== *)
(** * admin: the admin server (admin.go)

    The two lists it serves over the masters' records and the stream of
    their changes over a websocket, whose loop is one tick per second. *)
From S2P Require Import Prelude Utf8 Json JsonTypes UrlUtil Http WebSocket MetaKV Config DBMaster CacheMaster.

Section admin.
(** The peers of one master as the handlers see them, and the JSON of an
    error value in [gin.H]. *)
Context (marshal_error : goerror -> string).

(** [handleCaches] and [handleDBs] *)
Definition handlePeers (peers : result (slice string)) : Response :=
  match peers with
  | Err e => sent_response (ctx_JSON StatusInternalServerError (marshal_error e) new_writer)
  | Ok l => sent_response (ctx_JSON StatusOK_http (print_json (enc_strings l)) new_writer)
  end.

Definition handleCaches := handlePeers.
Definition handleDBs := handlePeers.

(** [Admin]: its address and the two masters, whose [Peers] read the store. *)
Record Admin : Type := { addr : string; admin_CacheMaster : CacheMaster.Master }.

Definition Default (cfg : Config) (CacheMaster_Default : CacheMaster.Master) : Admin :=
  {| addr := AdminAddr cfg; admin_CacheMaster := CacheMaster_Default |}.

(** [newServer]: the GET routes. *)
Inductive route : Type := RouteCaches | RouteDBs | RouteWsCaches | RouteWsDBs.

Definition newServer (path : string) : option route :=
  if decide (path = "/caches") then Some RouteCaches
  else if decide (path = "/dbs") then Some RouteDBs
  else if decide (path = "/ws/caches") then Some RouteWsCaches
  else if decide (path = "/ws/dbs") then Some RouteWsDBs
  else None.

(** The two lists as the handlers and the loops of the websockets read them. *)
Context {M : Type} `{!MetaOps M} (cfg : Config).

Definition caches_peers (s : M) : result (slice string) := Some <$> CacheMaster_Peers cfg s.
Definition dbs_peers (s : M) : result (slice string) := Master_Peers cfg s.

(** What a plain GET is answered; the websocket routes are streams. *)
Definition admin_serve (s : M) (path : string) : option Response :=
  match newServer path with
  | Some RouteCaches => Some (handleCaches (caches_peers s))
  | Some RouteDBs => Some (handleDBs (dbs_peers s))
  | _ => None
  end.

(** The lists are served as they are on record: a readable list is answered
    200 with a body that decodes to it, an unreadable one 500. *)
Theorem admin_serves_record s :
  (forall l, Master_Peers cfg s = Ok (Some l) ->
     exists b, admin_serve s "/dbs" = Some {| StatusCode := 200; Body := b |} /\
       json_unmarshal dec_strings b = Ok (Some l)) /\
  (forall g, fetchNodesMap cfg s = Ok (Some g) -> valid_map g ->
     exists b, admin_serve s "/caches" = Some {| StatusCode := 200; Body := b |} /\
       json_unmarshal dec_strings b = Ok (Some (httpAddrs (Some g)))) /\
  (forall e, Master_Peers cfg s = Err e ->
     exists b, admin_serve s "/dbs" = Some {| StatusCode := 500; Body := b |}).
Proof.
  unfold admin_serve, dbs_peers, caches_peers, CacheMaster_Peers, handleDBs, handleCaches, handlePeers. cbn [newServer].
  split_and!.
  - intros l Hl. rewrite Hl, ctx_JSON_fresh by done. eexists. split; [done|]. cbn [Body].
    rewrite marshal_strings_roundtrip. cbn [sanitize_slice]. by rewrite sanitize_list_id by (by eapply fetchPeers_valid).
  - intros g Hg Hv. rewrite Hg. cbn [fmap result_fmap]. rewrite ctx_JSON_fresh by done. eexists. split; [done|].
    rewrite marshal_strings_roundtrip. cbn [sanitize_slice]. by rewrite sanitize_list_id by (by apply valid_httpAddrs).
  - intros e He. rewrite He, ctx_JSON_fresh by done. by eexists.
Qed.
End admin.

(** The websocket handlers after a refused upgrade: the error is logged, and
    the client has what the library sent. *)
Definition ws_refused (w : responseWriter) : Response := sent_response w.

(** ** The websocket loops

    The state is the list last sent; a tick reads the peers and writes a
    message when they changed.  [WriteMessage] may fail: the loop of the
    databases then returns, the loop of the caches goes on. *)

Record ws : Type := { ws_peers : slice string; ws_sent : list string; ws_open : bool }.

Definition ws_start : ws := {| ws_peers := Some []; ws_sent := []; ws_open := true |}.

Definition ws_tick (returns_on_error : bool) (newPeers : result (slice string)) (write_ok : bool)
    (s : ws) : ws :=
  if negb (ws_open s) then s
  else match newPeers with
       | Err _ => s
       | Ok newPeers =>
         if decide (newPeers = ws_peers s) then s
         else
           let b := print_json (enc_strings newPeers) in
           {| ws_peers := newPeers;
              ws_sent := if write_ok then ws_sent s ++ [b] else ws_sent s;
              ws_open := write_ok || negb returns_on_error |}
       end.

Definition handleWebSocketCaches := ws_tick false.
Definition handleWebSocketDBs := ws_tick true.

(** The ticks of a connection whose writes succeed. *)
Definition ws_run (returns_on_error : bool) (polls : list (result (slice string))) : ws :=
  foldl (fun s p => ws_tick returns_on_error p true s) ws_start polls.

(** What was polled without an error. *)
Fixpoint polled (polls : list (result (slice string))) : list (slice string) :=
  match polls with
  | [] => []
  | Ok l :: polls => l :: polled polls
  | Err _ :: polls => polled polls
  end.

(** The changes in a sequence of lists that starts from [cur]. *)
Fixpoint changes (cur : slice string) (ls : list (slice string)) : list (slice string) :=
  match ls with
  | [] => []
  | l :: ls => if decide (l = cur) then changes cur ls else l :: changes l ls
  end.

Lemma ws_tick_ok b l s :
  ws_open s = true ->
  ws_tick b (Ok l) true s =
  if decide (l = ws_peers s) then s
  else {| ws_peers := l; ws_sent := ws_sent s ++ [print_json (enc_strings l)]; ws_open := true |}.
Proof. unfold ws_tick. by intros ->. Qed.

Lemma ws_tick_err b e s : ws_open s = true -> ws_tick b (Err e) true s = s.
Proof. unfold ws_tick. by intros ->. Qed.

Lemma ws_foldl b polls s :
  ws_open s = true ->
  let s' := foldl (fun s p => ws_tick b p true s) s polls in
  ws_sent s' = ws_sent s ++ ((fun l => print_json (enc_strings l)) <$> changes (ws_peers s) (polled polls)) /\
  ws_peers s' = default (ws_peers s) (last (polled polls)) /\ ws_open s' = true.
Proof.
  cbv zeta. revert s. induction polls as [|[l|e] polls IH]; intros s Ho; cbn [foldl polled changes].
  - by rewrite app_nil_r.
  - rewrite (ws_tick_ok b l s Ho). destruct (decide (l = ws_peers s)) as [->|Hne].
    + destruct (IH s Ho) as (-> & -> & ->). split_and!; [done| |done].
      rewrite last_cons. by destruct (last (polled polls)).
    + destruct (IH {| ws_peers := l; ws_sent := ws_sent s ++ [print_json (enc_strings l)]; ws_open := true |} eq_refl)
        as (-> & -> & ->). cbn [ws_sent ws_peers]. split_and!; [|by rewrite last_cons; destruct (last _)|done].
      rewrite fmap_cons, <-(assoc_L (++)). done.
  - rewrite (ws_tick_err b e s Ho). by apply IH.
Qed.

(** While its writes succeed, a websocket receives exactly the changes of
    the peer list, in order and none twice in a row, starting from the empty
    list; failed polls are skipped; and what was sent last is the list last
    polled. *)
Theorem ws_sends_changes b polls :
  let s := ws_run b polls in
  ws_sent s = (fun l => print_json (enc_strings l)) <$> changes (Some []) (polled polls) /\
  ws_peers s = default (Some []) (last (polled polls)) /\
  (forall l1 l2 pre post, changes (Some []) (polled polls) = pre ++ l1 :: l2 :: post -> l1 <> l2).
Proof.
  destruct (ws_foldl b polls ws_start eq_refl) as (H1 & H2 & _). split; [done|]. split; [done|].
  generalize (polled polls) as ls. generalize (Some [] : slice string) as cur. clear.
  intros cur ls. revert cur. induction ls as [|l ls IH]; intros cur l1 l2 pre post; cbn [changes]; [by destruct pre|].
  destruct (decide (l = cur)); [apply IH|].
  destruct pre as [|p pre]; intros [= -> Hc]; [|by eapply IH].
  revert Hc. clear IH. induction ls as [|x ls IH]; cbn [changes]; [done|].
  destruct (decide (x = l1)); [done|]. by intros [= ->].
Qed.
